(* ===== verification/_CoqProject ===== *)
-Q . S2P
Prelude.v
RStr.v
Ip.v
Errors.v
Security.v
Dsl.v
SecurityTests.v
History.v
Config.v
EnvSafety.v
Libs.v
Serde.v
Decode.v
Handbook.v
ConfigTests.v
Loader.v
LoaderTests.v
HttpExec.v
ShellExec.v
Dispatch.v
ExecutorTests.v
DispatchSteps.v
Locks.v
Scheduler.v
SchedulerSteps.v
SchedulerMethods.v
JobTypes.v
JobRows.v
Stopping.v
Middleware.v
Router.v
RouterTests.v
Signal.v
Boot.v
Doctor.v
DoctorTests.v
Main.v
Configured.v
IntegrationTests.v
EndToEndTests.v
Server.v
ServerExec.v
ServerSteps.v
ServerCauses.v
ServerServe.v
ServerLive.v
ServerRaces.v
Process.v
ProcessHistory.v
ProcessEffects.v
Schedules.v
Reports.v
Secrets.v
SingleFlight.v
