(* ===== verification/Prelude.v ===== *)
(** * CronManager: a verification development

    CronManager (src/src) is a scheduler of HTTP and shell jobs. It reads job definitions
    from a tree of YAML files, fires them by cron expression or by an authenticated HTTP
    request, retries failed attempts, records every attempt in a history, and exposes the
    registry over HTTP. This library models all of its own code but the calls of the
    runtime, as executable definitions, and proves what makes each part correct.

    ** The parts and their files

    - [Prelude], [RStr], [Ip]: what the source uses of the standard library of Rust. [result]
      with its bind, fixed-width and saturating arithmetic, sorted maps; strings as the
      bytes of their UTF-8 with the methods of [str]; [std::net::IpAddr].
    - [Errors] (error.rs): [CronManagerError], its text, status, code and JSON response.
    - [Security] (security.rs): address classes of the SSRF guard, the blacklist of
      environment variables, escaping and truncation.
    - [Dsl] (dsl/mod.rs), [Libs], [Loader] (dsl/loader.rs): job definitions; third-party
      parsers as the class [Libs] with the documented laws [LibLaws]; the walk of the tree
      and the validation of every job.
    - [Config] (config.rs), [EnvSafety] (env_safety.rs): the configuration, the secrets
      from the environment, and the gates that refuse weak credentials and unsafe flags.
    - [Serde], [Decode] (config.rs, dsl/loader.rs): typed decoding. The source declares
      structures with attributes; the code that the derives generate from a declaration and
      the reader of YAML are the class [Yaml] of [Serde], a parameter with the documented
      laws [YamlLaws]. [Decode] has the declaration of every structure of the configuration
      and of a job, a schema of slots with a flag for [deny_unknown_fields], and makes their
      decoder an instance of [Libs] ([with_yaml]). [Handbook] has the tables of
      book/src/configuration.md; [Configured] composes the decoders with the search for the
      file, the start and the loading of a DSL file.
    - [History] (history/): the rows and the recorders, as the class [HistoryRecorder].
    - [HttpExec], [ShellExec] (executor/http.rs, executor/shell.rs): one attempt, against
      a world that says what the network and the system answer. Both return the trace of
      their effects beside their result.
    - [Dispatch] (executor/mod.rs): the retry loop of one fire over those executors;
      [DispatchSteps]: the same loop by the sections between its awaits, in each of which it
      can be held up; in two of them, the [select!]s, it listens to stops.
    - [Scheduler], [SchedulerSteps] (scheduler.rs): the registry, the running instances,
      every method as a function and, in [SchedulerSteps], every loop and method as a
      task that takes one locked section at a time; [step] interleaves them in any order;
      [SchedulerMethods]: the methods as interleavings of their sections, up to the order
      of the tasks; [JobTypes], [JobRows]: the jobs that tasks carry and the rows they leave;
      [Stopping]: what a stop reaches, and the run that nothing ends. [Locks]: every method as the mutexes it takes.
    - [Middleware] (traceparent.rs, access_log.rs, security_headers.rs), [Router]
      (router.rs): requests, the throttle, the admin gate, the route table, the handlers
      and the layers. The framework is the class [Axum] with the laws [AxumLaws].
    - [Boot] (main.rs), [Doctor] (doctor.rs), [Main]: the start of the process, its audit,
      and the two commands of the binary; [Signal] (signal.rs): the shutdown signal.
    - [Server] (main.rs, router.rs, scheduler.rs): the process while it serves. A request is
      a task next to the loops and runs, which takes one locked section at a time and can
      be dropped where it awaits; after the signal the process drains and exits.
      [ServerSteps] projects its steps to those of the scheduler, [ServerCauses] says what
      started each task, [ServerServe] relates the handlers of [Router] to the sections,
      [ServerLive] is about ends, [ServerRaces] about reloads at once. [Process] is the
      whole: what holds from [Boot.boot] on in every state of [Server]; [ProcessHistory] is
      about its history, [SingleFlight] about the contract it implements, [ProcessEffects]
      about what it does to the world, [Schedules] about its loops, [Reports] about what
      [/jobs] shows. [ServerExec] runs the process on a list of moves; [Secrets] compares two
      processes that differ in secrets.
    - [SecurityTests], [ConfigTests], [LoaderTests], [ExecutorTests], [RouterTests],
      [DoctorTests]: unit tests of the source that the kernel evaluates on the model;
      [IntegrationTests], [EndToEndTests]: those of src/tests, over HTTP and from the texts of
      files to a dispatch.

    Calls go downwards in that list: boot loads jobs, registers them and serves; a handler
    calls a method of the scheduler; a task of the scheduler dispatches; a dispatch makes
    attempts and records rows. The state of the process is [Router.App]: [Scheduler.Sys]
    (the [Shared] maps of [SchedulerInner], a store of the runtime cells that a job and
    its loop alias, the history, the tokens of [Notify], and the spawned tasks) and the
    throttle of reloads; [Server] adds the requests and the phase.

    Three levels are related by proof: [Router.serve] and the methods of [Scheduler] run a
    request in one go; [SchedulerSteps] and [DispatchSteps] split methods and dispatches into
    sections ([methods_refine_steps], [dispatch_steps_refine]); [Server] interleaves all of
    it ([serve_refines_process]), its requests moving the scheduler by the sections of
    [SchedulerSteps] and nothing else.

    ** What is proved

    - The process: in every state that a process can reach after it booted a job has at most
      one run, the table of running instances is that of the runs and nothing panicked
      ([process_safety]); every run has a loop of a valid job or an authorised request behind
      it ([every_run_has_a_cause]); it implements single flight, an abstract machine
      ([process_refines_single_flight]); every job was validated ([process_well_typed]); its
      history and its table have sound rows ([process_history_sound]) and [/jobs] restates
      them ([jobs_report_what_happened]); cron jobs stay scheduled across reloads
      ([cron_jobs_stay_scheduled]); requests end ([requests_terminate]) and so does a draining
      process ([drain_completes]). What it sends and spawns stays within the bounds of its
      configuration ([process_effects_are_safe]), and no state, row or response depends on
      the values of header secrets ([header_secrets_stay_on_the_wire]).
    - Locks: no interleaving of calls deadlocks, by tiers ([locks_never_deadlock]), nor do the rounds of the unit test ([deadlock_test_passes]). A section
      of [SchedulerSteps] is what a call does between taking one of the outer locks and
      giving it back.
    - The scheduler: the same for any interleaving of its methods ([scheduler_safety]); a run
      whose awaits end gives its entry back ([run_gives_entry_back]), and one whose child
      left a pipe open never does ([open_pipe_keeps_entry]); the window gates every fire; a
      stop wakes a run in its two [select!]s and is lost anywhere else
      ([stop_wakes_only_listeners]).
    - Dispatch: the retry loop against a reference ([dispatch_spec]), the agreement of
      history and outcome, the offline mode, any recorder; the runs of its steps, with
      anything in between, are its behaviours ([dispatch_steps_refine]); it makes at most four
      moves per attempt and is held up only in its awaits ([dispatch_terminates]).
    - The executors: no request to a blocked address, when an attempt succeeds, bounds
      of what is read and reported, the environment of a child, kills and time limits.
    - The loader: the result of a walk by reference, and that every job it returns passed
      validation.
    - Decoding: what may be written is what the tables of the handbook say, key by key, with
      its types and defaults ([documented_keys_bind]); a misspelt key stops the start and keeps a DSL file from loading
      ([typos_are_refused]); the defaults of fields and of structures agree
      ([defaults_agree]); a configuration that is written out reads back, and what is read is
      in range ([config_roundtrip]).
    - The HTTP surface: who passes the gate and what a refused request leaves unchanged,
      the route table, the throttle, dangerous overrides, headers of every response.
    - Boot: outside dev a process that serves is locked down; the audit predicts whether the
      gates let the process start ([doctor_predicts_start]); passwords and tokens stay out of log lines and
      reports.
    - Round trips and equivalences: percent encoding, DSN splicing, CIDR blocks, host names,
      configurations.

    Where the code does not do what it documents, the theorem states what it does: loops
    survive a reload ([reload_keeps_old_loops], [removed_job_still_fires]), two reloads can
    mix their trees ([reloads_can_mix]) and hide jobs meanwhile ([reload_hides_jobs]), a
    graceful shutdown abandons runs ([shutdown_abandons_runs]), a stop is retried
    ([stop_during_attempt_is_retried]), an open pipe outlives the wall clock
    and every stop ([wall_clock_does_not_bound_run], [open_pipe_keeps_entry]), an ignored
    failure is FAILED in the history ([history_agrees_with_outcome]), an HTTP body over the
    cap fails the attempt ([execute_success_iff]), the opt-out for dev fixtures keeps the
    process from booting ([production_boot_is_locked_down]), a shell timeout of 0 kills at once
    ([zero_timeout_kills_at_once]), a weak multi-byte secret panics
    ([multibyte_weak_token_panics]), distinct groups are not throttled
    ([distinct_groups_are_not_throttled]), the log can show a password
    ([redact_password_can_leak]), the audit misses a failing boot
    ([audit_passes_what_boot_refuses]), the pre-flight passes literal addresses
    ([literal_address_skips_the_preflight]).

    ** Bounds

    Recursion is structural where the source iterates over data; [Loader.walk] recurses over
    the tree. Counters stand for the other loops: [RStr.lossy_go] has the length of its
    input (every step consumes a byte), [Security.ceil_loop] the distance to the end of
    the string (which is a boundary), [ShellExec.spawn_loop] the five tries of the source,
    [Dispatch.attempts_loop] the attempts of the source's range. Integers are [Z] with the
    wrap-around or the saturation of the source written out; the release profile wraps, so
    that what is said of the numbers of attempts is for retry counts below 2^32 - 1, and of
    the rows of the history, which have them as [i32], below 2^31 - 1. The gate of reloads
    keeps its spacing up to 1024 groups ([reload_spacing]).
    What need not end has no result: an attempt whose child leaves a pipe open for ever is
    [None] ([ShellExec.ended], [Dispatch.attempt_result]), and so is its dispatch; a step of a
    dispatch takes from its [Input] whether its await is still pending.
    Time is in milliseconds. The termination proofs use no fuel: a dispatch has a rank from
    the attempts that are left, a request the pair of its stage and of the sections left in
    it (a load brings any number of jobs), a draining process the ranks of its requests.

    ** What is not modelled

    Log lines, except the values the boot diagnostics and the access log print; the client
    construction and name resolution inside [reqwest] (which resolves again when it sends);
    the driver and the migrations of Postgres; the reader of YAML and the generated code of
    the derives, the parsers of cron, URLs and header values (parameters, by class); the layers of [tower_http] for body size, time limit and
    CORS (parameters of [Router.build]; in [Server] they show as requests that are dropped);
    connections and sockets; the module list of lib.rs; the five integration tests
    that need a database or a socket; the symbolic links and
    modification times of the file system. The cells of a snapshot of [describe] are read in one section.
    Within an attempt one await stands for each stretch of the code: from its start to its
    [select!] (the lookup, the tries to spawn), the [select!], and from there to its row (the
    rest of the kill, the body or the pipes, the recorder). *)
From Stdlib Require Export Ascii ZArith Lia Zify ZifyBool ZifyNat.
From stdpp Require Export base sorting pretty numbers gmap strings list_relations list.
From stdpp Require Import options.

(** ** Fallible code: Rust's [Result] *)

(** Rust's [Result<A, E>]. *)
Inductive result (A E : Type) : Type :=
  | Ok (a : A)
  | Err (e : E).
Arguments Ok {A E} a.
Arguments Err {A E} e.

Declare Scope rust_scope.
Delimit Scope rust_scope with rust.

(** Rust's [let x = e1?; e2]. *)
Notation "'let?' x ':=' e1 'in' e2" :=
  (match e1 with Ok x => e2 | Err err => Err err end)
  (at level 10, x pattern, e1 at level 100, e2 at level 200) : rust_scope.
Open Scope rust_scope.

(** [Result::is_ok], [Result::map_err], [Option::ok_or]. *)
Definition is_ok {A E} (r : result A E) : bool :=
  match r with Ok _ => true | Err _ => false end.
Definition map_err {A E F} (f : E → F) (r : result A E) : result A F :=
  match r with Ok a => Ok a | Err e => Err (f e) end.
Definition ok_or {A E} (o : option A) (e : E) : result A E :=
  match o with Some a => Ok a | None => Err e end.

(** [iter().map(f).collect::<Result<Vec<_>, _>>()]: stops at the first error. *)
Fixpoint collect {A B E} (f : A → result B E) (l : list A) : result (list B) E :=
  match l with
  | [] => Ok []
  | x :: l => let? y := f x in let? ys := collect f l in Ok (y :: ys)
  end.

(** ** Machine integers

    A [u32], [u64], [usize] or [i64] is a [Z]; where the source's arithmetic can
    leave the range of its type the wrap-around (release build) or the
    saturation is written out with the functions below. *)
Definition u32_max : Z := 4294967295.
Definition u64_max : Z := 18446744073709551615.
Definition wrap_u32 (z : Z) : Z := z `mod` 4294967296.
Definition sat_mul_u64 (a b : Z) : Z := Z.min (a * b) u64_max.
Definition sat_sub (a b : Z) : Z := Z.max 0 (a - b).
(** The cast [x as i32] of an unsigned value: two's complement truncation. *)
Definition as_i32 (z : Z) : Z := (z + 2147483648) `mod` 4294967296 - 2147483648.

(** ** Iterating a [BTreeMap<String, A>]: ascending byte order of the keys *)
Definition key_le {A} (x y : string * A) : Prop := String.le x.1 y.1.

#[export] Instance key_le_dec {A} : RelDecision (@key_le A).
Proof. intros x y. apply String.le_dec. Defined.
#[export] Instance key_le_trans {A} : Transitive (@key_le A).
Proof. intros x y z. unfold key_le. apply transitivity. Qed.
#[export] Instance key_le_total {A} : Total (@key_le A).
Proof. intros x y. apply (total String.le). Qed.

Definition sort_by_key {A} (l : list (string * A)) : list (string * A) := merge_sort key_le l.
Definition btree_iter {A} (m : gmap string A) : list (string * A) := sort_by_key (map_to_list m).

(** ** Tactics of the development *)

(** Split every [match] of the goal and its hypotheses, closing absurd branches. *)
Ltac split_matches := repeat (case_match; simplify_eq/=).
(** The same for hypotheses stating the outcome of a fallible computation. *)
Ltac destruct_results :=
  repeat match goal with
  | H : context [match ?x with Ok _ => _ | Err _ => _ end] |- _ =>
      destruct x eqn:?; simplify_eq/=
  end.
(** [lia] with the division and modulo by literals unfolded. *)
Ltac div_lia := zify; Z.to_euclidean_division_equations; lia.
Ltac bool_prop :=
  repeat match goal with
  | H : andb _ _ = true |- _ => apply andb_true_iff in H as [? ?]
  | H : orb _ _ = false |- _ => apply orb_false_iff in H as [? ?]
  | H : negb _ = true |- _ => apply negb_true_iff in H
  | H : negb _ = false |- _ => apply negb_false_iff in H
  | H : Z.eqb _ _ = true |- _ => apply Z.eqb_eq in H
  | H : Z.eqb _ _ = false |- _ => apply Z.eqb_neq in H
  | H : Z.ltb _ _ = true |- _ => apply Z.ltb_lt in H
  | H : Z.ltb _ _ = false |- _ => apply Z.ltb_ge in H
  | H : Z.leb _ _ = true |- _ => apply Z.leb_le in H
  | H : Z.leb _ _ = false |- _ => apply Z.leb_gt in H
  | H : String.eqb _ _ = true |- _ => apply String.eqb_eq in H
  | H : String.eqb _ _ = false |- _ => apply String.eqb_neq in H
  end.

(** ** Lemmas shared by the components *)

Create HintDb cron discriminated.
Create Rewrite HintDb cron.

Lemma sort_by_key_perm {A} (l : list (string * A)) : sort_by_key l ≡ₚ l.
Proof. apply merge_sort_Permutation. Qed.

Lemma sort_by_key_sorted {A} (l : list (string * A)) : StronglySorted key_le (sort_by_key l).
Proof. apply StronglySorted_merge_sort; apply _. Qed.

(** Sorting forgets the order of the input as soon as the keys are distinct. *)
Lemma sort_by_key_unique {A} (l1 l2 : list (string * A)) :
  NoDup l1.*1 → l1 ≡ₚ l2 → sort_by_key l1 = sort_by_key l2.
Proof.
  intros Hnd Hp.
  apply (StronglySorted_unique_strong key_le); [|apply sort_by_key_sorted..|].
  - intros [k1 x1] [k2 x2] H1 H2 Hle1 Hle2.
    assert (k1 = k2) as -> by (apply (anti_symm String.le); done).
    rewrite sort_by_key_perm in H1. rewrite sort_by_key_perm, <- Hp in H2.
    apply (elem_of_list_to_map_1 (M := gmap string)) in H1, H2; [|done..]. congruence.
  - by rewrite !sort_by_key_perm.
Qed.

Lemma btree_iter_elem {A} (m : gmap string A) k x : (k, x) ∈ btree_iter m ↔ m !! k = Some x.
Proof. unfold btree_iter. rewrite sort_by_key_perm. apply elem_of_map_to_list. Qed.

Lemma btree_iter_NoDup {A} (m : gmap string A) : NoDup (btree_iter m).*1.
Proof. unfold btree_iter. rewrite sort_by_key_perm. apply NoDup_fst_map_to_list. Qed.

Lemma collect_ok {A B E} (f : A → result B E) l ys :
  collect f l = Ok ys ↔ Forall2 (λ x y, f x = Ok y) l ys.
Proof.
  revert ys. induction l as [|x l IH]; intros ys; simpl.
  { split; [intros [= <-]; constructor | by inversion 1]. }
  split.
  - intros H. destruct (f x) eqn:Hx, (collect f l) eqn:Hl; simplify_eq.
    constructor; [done|]. by apply IH.
  - inversion_clear 1 as [|? y ? ys' Hx Hl]. apply IH in Hl as Hl'. by rewrite Hx, Hl'.
Qed.

Lemma collect_ext {A B E} (f g : A → result B E) l : (∀ x, x ∈ l → f x = g x) → collect f l = collect g l.
Proof.
  induction l as [|x l IH]; intros Hfg; [done|]. cbn. rewrite Hfg by left. destruct (g x); [|done].
  rewrite IH; [done|]. intros y Hy. apply Hfg. by right.
Qed.
Lemma collect_fmap {A B E} (f : A → result B E) l ys :
  collect f l = Ok ys → length ys = length l.
Proof. intros H. apply collect_ok, Forall2_length in H. done. Qed.

Lemma forallb_lookup_false {A} (f : A → bool) l : forallb f l = false → ∃ i x, l !! i = Some x ∧ f x = false.
Proof.
  induction l as [|x l IH]; [done|]. cbn. destruct (f x) eqn:Hx; [|by exists 0, x].
  intros (i & x' & Hi & Hx')%IH. by exists (S i), x'.
Qed.

Lemma exist_iff {A} (P Q : A → Prop) : (∀ x, P x ↔ Q x) → (∃ x, P x) ↔ ∃ x, Q x.
Proof. intros HPQ. split; intros [x Hx]; exists x; by apply HPQ. Qed.
Lemma exist_and {A} (P Q R : A → Prop) : (∀ x, P x → Q x ↔ R x) → (∃ x, P x ∧ Q x) ↔ ∃ x, P x ∧ R x.
Proof. intros HQR. split; intros (x & Hx & ?); exists x; (split; [done|]); by apply HQR. Qed.

Lemma NoDup_fmap_once {A B} (f : A → B) l x y : NoDup (f <$> l) → x ∈ l → y ∈ l → f x = f y → x = y.
Proof.
  induction l as [|z l IH]; cbn; [by intros _ ?%not_elem_of_nil|]. intros [Hn Hl]%NoDup_cons Hx Hy Heq.
  apply elem_of_cons in Hx as [->|Hx], Hy as [->|Hy]; [done| | |by apply IH]; destruct Hn.
  - rewrite Heq. by apply list_elem_of_fmap_2.
  - rewrite <- Heq. by apply list_elem_of_fmap_2.
Qed.
Lemma NoDup_omap_once {A B} (f : A → option B) l x y b : NoDup (omap f l) → x ∈ l → y ∈ l → f x = Some b → f y = Some b → x = y.
Proof.
  induction l as [|z l IH]; cbn; [by intros _ ?%not_elem_of_nil|]. intros Hl Hx Hy Hfx Hfy.
  apply elem_of_cons in Hx as [->|Hx], Hy as [->|Hy]; [done|rewrite Hfx in Hl|rewrite Hfy in Hl|].
  1-2: apply NoDup_cons in Hl as [Hn _]; destruct Hn; apply list_elem_of_omap; eauto.
  apply IH; [|done..]. destruct (f z); [by apply NoDup_cons in Hl as [_ ?]|done].
Qed.
Lemma NoDup_concat_index {A B} (f : A → list B) l i j x y b :
  NoDup (concat (f <$> l)) → l !! i = Some x → l !! j = Some y → b ∈ f x → b ∈ f y → i = j.
Proof.
  assert (∀ l k z, l !! k = Some z → b ∈ f z → b ∈ concat (f <$> l)) as Hin.
  { intros l' k z Hz%list_elem_of_lookup_2 Hb. apply list_elem_of_In, in_concat. exists (f z).
    split; [by apply list_elem_of_In, list_elem_of_fmap_2|by apply list_elem_of_In]. }
  revert i j. induction l as [|z l IH]; intros [|i] [|j] Hn Hi Hj Hx Hy; try done; cbn in *;
    apply NoDup_app in Hn as (_ & Hdisj & Hn); simplify_eq.
  - destruct (Hdisj b Hx). by eapply Hin.
  - destruct (Hdisj b Hy). by eapply Hin.
  - f_equal. by eapply IH.
Qed.

Lemma wrap_u32_small z : (0 ≤ z ≤ u32_max)%Z → wrap_u32 z = z.
Proof. unfold wrap_u32, u32_max. intros. apply Z.mod_small. lia. Qed.

Lemma as_i32_small z : (-2147483648 ≤ z ≤ 2147483647)%Z → as_i32 z = z.
Proof. unfold as_i32. intros. rewrite Z.mod_small; lia. Qed.

#[export] Hint Resolve sort_by_key_perm btree_iter_NoDup : cron.
#[export] Hint Rewrite @length_app @length_map @length_fmap : cron.

(** Sorting by key commutes with a map on the values. *)
Section sort_fmap.
Context {A B : Type} (f : A → B).
Let g (x : string * A) : string * B := (x.1, f x.2).

Lemma key_le_fmap (x y : string * A) :
  (if decide (key_le (g x) (g y)) then true else false) = (if decide (key_le x y) then true else false).
Proof. reflexivity. Qed.

Lemma list_merge_fmap l1 l2 :
  list_merge key_le (g <$> l1) (g <$> l2) = g <$> list_merge key_le l1 l2.
Proof.
  revert l2. induction l1 as [|x1 l1 IH1]; intros l2; [by destruct l2|].
  induction l2 as [|x2 l2 IH2]; [done|].
  cbn [fmap list_fmap] in *. cbn [list_merge].
  destruct (decide (key_le x1 x2)) as [Hle|Hle], (decide (key_le (g x1) (g x2))) as [Hle'|Hle'];
    try (exfalso; unfold key_le in *; simpl in *; tauto).
  - cbn. f_equal. apply (IH1 (x2 :: l2)).
  - cbn. f_equal. apply IH2.
Qed.

Let fstack := list (option (list (string * A))).
Definition map_stack : fstack → list (option (list (string * B))) :=
  fmap (fmap (M := option) (fmap (M := list) g)).

Lemma merge_list_to_stack_fmap (st : fstack) l :
  merge_list_to_stack key_le (map_stack st) (g <$> l) = map_stack (merge_list_to_stack key_le st l).
Proof.
  revert l. induction st as [|[l'|] st IH]; intros l; cbn; [done| |done].
  f_equal. rewrite <- IH, <- list_merge_fmap. done.
Qed.

Lemma merge_stack_fmap (st : fstack) :
  merge_stack key_le (map_stack st) = g <$> merge_stack key_le st.
Proof.
  induction st as [|[l|] st IH]; cbn; [done| |done]. rewrite <- list_merge_fmap. f_equal. apply IH.
Qed.

Lemma sort_by_key_fmap (l : list (string * A)) :
  sort_by_key (map (λ x, (x.1, f x.2)) l) = map (λ x, (x.1, f x.2)) (sort_by_key l).
Proof.
  unfold sort_by_key, merge_sort. change (@nil (option (list (string * B)))) with (map_stack []).
  generalize (@nil (option (list (string * A)))). induction l as [|x l IH]; intros st.
  - apply merge_stack_fmap.
  - cbn [map merge_sort_aux]. rewrite <- IH. f_equal. apply (merge_list_to_stack_fmap st [x]).
Qed.

Lemma sort_by_key_fmap_pair (l : list (string * A)) :
  sort_by_key (map (λ '(k, x), (k, f x)) l) = map (λ '(k, x), (k, f x)) (sort_by_key l).
Proof.
  rewrite (map_ext _ (λ x : string * A, (x.1, f x.2))) by (by intros []).
  rewrite sort_by_key_fmap. apply map_ext. by intros [].
Qed.
End sort_fmap.
