(* ===== verification/RStr.v ===== *)
(** * Rust strings

    A Rust [str] is a sequence of bytes that is valid UTF-8, so it is a [string] here, one
    [ascii] per byte; a literal such as ["…"] is its UTF-8 bytes. [chars] groups the
    bytes of one code point. The functions are the methods of [str], [String] and [u8]
    that the program calls, by their standard-library names. *)
From S2P Require Import Prelude.

(** ** Bytes *)
Definition byte_of (c : ascii) : Z := Z.of_N (N_of_ascii c).

Definition in_range (lo hi : Z) (c : ascii) : bool := (lo <=? byte_of c)%Z && (byte_of c <=? hi)%Z.

(** A UTF-8 continuation byte, [10xxxxxx]. *)
Definition is_cont (c : ascii) : bool := in_range 128 191 c.

Definition is_ascii_digit : ascii → bool := in_range 48 57.
Definition is_ascii_upper : ascii → bool := in_range 65 90.
Definition is_ascii_lower : ascii → bool := in_range 97 122.
Definition is_ascii_alphabetic (c : ascii) : bool := is_ascii_upper c || is_ascii_lower c.
Definition is_ascii_alphanumeric (c : ascii) : bool := is_ascii_alphabetic c || is_ascii_digit c.
Definition is_ascii_hexdigit (c : ascii) : bool :=
  is_ascii_digit c || in_range 65 70 c || in_range 97 102 c.

Definition ascii_of_Z (z : Z) : ascii := ascii_of_N (Z.to_N z).
Definition ascii_lower (c : ascii) : ascii :=
  if is_ascii_upper c then ascii_of_Z (byte_of c + 32) else c.
Definition ascii_upper (c : ascii) : ascii :=
  if is_ascii_lower c then ascii_of_Z (byte_of c - 32) else c.

Definition hex_digit (upper : bool) (z : Z) : ascii :=
  if (z <? 10)%Z then ascii_of_Z (48 + z) else ascii_of_Z ((if upper then 55 else 87) + z).
(** [format!("{:02x}")] and [format!("{:02X}")]. *)
Definition hex2 (upper : bool) (z : Z) : string :=
  String (hex_digit upper (z / 16)) (String (hex_digit upper (z mod 16)) EmptyString).
(** [format!("{:04x}")] of a value below [0x10000]. *)
Definition hex4 (z : Z) : string := hex2 false (z / 256) +:+ hex2 false (z mod 256).

(** ** Length, slices, characters *)
Definition slen (s : string) : nat := String.length s.
(** The length as a [usize], where it is compared with a configured limit. *)
Definition zlen (s : string) : Z := Z.of_nat (slen s).

Fixpoint str_all (p : ascii → bool) (s : string) : bool :=
  match s with EmptyString => true | String c s' => p c && str_all p s' end.
Fixpoint str_map (f : ascii → ascii) (s : string) : string :=
  match s with EmptyString => EmptyString | String c s' => String (f c) (str_map f s') end.

Definition to_ascii_lowercase : string → string := str_map ascii_lower.
Definition to_ascii_uppercase : string → string := str_map ascii_upper.
Definition eq_ignore_ascii_case (a b : string) : bool :=
  String.eqb (to_ascii_lowercase a) (to_ascii_lowercase b).

(** [&s[..n]] and [&s[n..]] at an offset [n <= s.len()]. *)
Fixpoint stake (n : nat) (s : string) : string :=
  match n, s with S n', String c s' => String c (stake n' s') | _, _ => EmptyString end.
Fixpoint sdrop (n : nat) (s : string) : string :=
  match n, s with S n', String _ s' => sdrop n' s' | _, _ => s end.

(** The slices [&s[..n]] and [&s[n..]] panic off a character boundary. *)
Definition is_char_boundary (s : string) (i : nat) : bool :=
  (i =? 0) || (i =? slen s) ||
  match String.get i s with Some c => negb (is_cont c) | None => false end.

Fixpoint concat_str (l : list string) : string :=
  match l with [] => EmptyString | s :: l' => s +:+ concat_str l' end.

(** The continuation bytes [s] starts with, and the characters that follow. An ASCII
    byte is a character by itself (in valid UTF-8 no continuation byte follows it). *)
Definition is_ascii_byte (c : ascii) : bool := (byte_of c <? 128)%Z.
Definition cons_nonempty (s : string) (l : list string) : list string :=
  match s with EmptyString => l | _ => s :: l end.
Fixpoint chars_go (s : string) : string * list string :=
  match s with
  | EmptyString => (EmptyString, [])
  | String c s' =>
      let (pre, l) := chars_go s' in
      if is_cont c then (String c pre, l)
      else if is_ascii_byte c then (EmptyString, String c EmptyString :: cons_nonempty pre l)
      else (EmptyString, String c pre :: l)
  end.
(** [s.chars()], each code point as its bytes. *)
Definition chars (s : string) : list string :=
  let (pre, l) := chars_go s in cons_nonempty pre l.

Definition bytes_str (l : list Z) : string := String.string_of_list_ascii (ascii_of_Z <$> l).

(** The UTF-8 encodings of the code points with the property [White_Space]. *)
Definition whitespace_chars : list string :=
  ((λ z, bytes_str [z]) <$> [9; 10; 11; 12; 13; 32]%Z) ++
  [bytes_str [194; 133]; bytes_str [194; 160]; bytes_str [225; 154; 128];
   bytes_str [226; 128; 128]; bytes_str [226; 128; 129]; bytes_str [226; 128; 130];
   bytes_str [226; 128; 131]; bytes_str [226; 128; 132]; bytes_str [226; 128; 133];
   bytes_str [226; 128; 134]; bytes_str [226; 128; 135]; bytes_str [226; 128; 136];
   bytes_str [226; 128; 137]; bytes_str [226; 128; 138]; bytes_str [226; 128; 168];
   bytes_str [226; 128; 169]; bytes_str [226; 128; 175]; bytes_str [226; 129; 159];
   bytes_str [227; 128; 128]]%Z.
Definition is_whitespace (ch : string) : bool := existsb (String.eqb ch) whitespace_chars.

Fixpoint drop_while {A} (p : A → bool) (l : list A) : list A :=
  match l with [] => [] | x :: l' => if p x then drop_while p l' else l end.
Definition drop_while_end {A} (p : A → bool) (l : list A) : list A := rev (drop_while p (rev l)).

(** [s.trim()]. *)
Definition trim (s : string) : string :=
  concat_str (drop_while_end is_whitespace (drop_while is_whitespace (chars s))).

(** [s.trim_matches(c)] and [s.trim_end_matches(c)] for an ASCII [c]. *)
Definition of_bytes : list ascii → string := String.string_of_list_ascii.
Definition to_bytes : string → list ascii := String.list_ascii_of_string.
Definition trim_end_matches (c : ascii) (s : string) : string :=
  of_bytes (drop_while_end (Ascii.eqb c) (to_bytes s)).
Definition trim_matches (c : ascii) (s : string) : string :=
  of_bytes (drop_while_end (Ascii.eqb c) (drop_while (Ascii.eqb c) (to_bytes s))).

(** [s.split_whitespace()]: maximal runs of characters that are not white space. *)
Fixpoint split_ws_go (cur : string) (l : list string) : list string :=
  let flush rest := match cur with EmptyString => rest | _ => cur :: rest end in
  match l with
  | [] => flush []
  | ch :: l' =>
      if is_whitespace ch then flush (split_ws_go EmptyString l') else split_ws_go (cur +:+ ch) l'
  end.
Definition split_whitespace (s : string) : list string := split_ws_go EmptyString (chars s).

(** [s.starts_with(p)], [s.strip_prefix(p)], [s.contains(p)], [s.find(p)]. *)
Definition starts_with (s p : string) : bool := String.prefix p s.
Definition strip_prefix (s p : string) : option string :=
  if starts_with s p then Some (sdrop (slen p) s) else None.
Fixpoint sfind (s p : string) : option nat :=
  if starts_with s p then Some 0
  else match s with EmptyString => None | String _ s' => S <$> sfind s' p end.
Definition contains (s p : string) : bool :=
  match sfind s p with Some _ => true | None => false end.
(** [s.find(|c| p(c))] for a predicate that only holds of ASCII characters. *)
Fixpoint sfind_by (p : ascii → bool) (s : string) : option nat :=
  match s with
  | EmptyString => None
  | String c s' => if p c then Some 0 else S <$> sfind_by p s'
  end.
(** [s.rfind(c)]. *)
Fixpoint srfind (c : ascii) (s : string) : option nat :=
  match s with
  | EmptyString => None
  | String a s' =>
      match srfind c s' with
      | Some i => Some (S i)
      | None => if Ascii.eqb c a then Some 0 else None
      end
  end.
Definition single (c : ascii) : string := String c EmptyString.

(** [s.split(c)]: always at least one piece. *)
Fixpoint split_on (c : ascii) (s : string) : list string :=
  match s with
  | EmptyString => [EmptyString]
  | String a s' =>
      if Ascii.eqb c a then EmptyString :: split_on c s'
      else match split_on c s' with
           | [] => [single a]
           | p :: ps => String a p :: ps
           end
  end.
(** [s.splitn(n, c)]. *)
Fixpoint splitn (n : nat) (c : ascii) (s : string) : list string :=
  match n with
  | 0 => []
  | 1 => [s]
  | S n' =>
      match sfind_by (Ascii.eqb c) s with
      | Some i => stake i s :: splitn n' c (sdrop (S i) s)
      | None => [s]
      end
  end.
(** [s.replace(a, b)] for single ASCII characters. *)
Definition replace_char (a b : ascii) : string → string :=
  str_map (λ c, if Ascii.eqb c a then b else c).

(** [s.lines()]: pieces ending in a line feed, without it and a carriage return before it. *)
Definition cr : ascii := ascii_of_Z 13.
Definition lf : ascii := ascii_of_Z 10.
Definition strip_cr (s : string) : string :=
  if match srfind cr s with Some i => S i =? slen s | None => false end
  then stake (slen s - 1) s else s.
Definition lines (s : string) : list string :=
  match rev (split_on lf s) with
  | [] => []
  | last :: init =>
      (strip_cr <$> rev init) ++ match last with EmptyString => [] | _ => [last] end
  end.

Definition join (sep : string) : list string → string := String.concat sep.

(** ** [String::from_utf8_lossy]: every maximal invalid part becomes U+FFFD *)
Definition replacement_char : string := bytes_str [239; 191; 189]%Z.

(** The byte at [i] is in the range. *)
Definition byte_in (s : string) (i : nat) (lo hi : Z) : bool :=
  match String.get i s with Some c => in_range lo hi c | None => false end.
(** Is the sequence at the start of [s] valid, and how many bytes does it take? *)
Definition utf8_head (c : ascii) (s : string) : bool * nat :=
  let b := byte_of c in
  let second lo hi k := if byte_in s 1 lo hi then k else (false, 1) in
  let three := if byte_in s 2 128 191 then (true, 3) else (false, 2) in
  let four := if byte_in s 2 128 191 then if byte_in s 3 128 191 then (true, 4) else (false, 3)
              else (false, 2) in
  let lt (n : Z) := (b <? n)%Z in
  let eq (n : Z) := (b =? n)%Z in
  if lt 128%Z then (true, 1)
  else if lt 194%Z then (false, 1)
  else if lt 224%Z then second 128%Z 191%Z (true, 2)
  else if eq 224%Z then second 160%Z 191%Z three
  else if eq 237%Z then second 128%Z 159%Z three
  else if lt 240%Z then second 128%Z 191%Z three
  else if eq 240%Z then second 144%Z 191%Z four
  else if lt 244%Z then second 128%Z 191%Z four
  else if eq 244%Z then second 128%Z 143%Z four
  else (false, 1).
Fixpoint lossy_go (fuel : nat) (s : string) : string :=
  match fuel, s with
  | S fuel', String c _ =>
      let (valid, n) := utf8_head c s in
      (if valid then stake n s else replacement_char) +:+ lossy_go fuel' (sdrop n s)
  | _, _ => EmptyString
  end.
Definition from_utf8_lossy (s : string) : string := lossy_go (slen s) s.

(** ** Lemmas *)

Lemma sapp_nil_r s : s +:+ EmptyString = s.
Proof. induction s as [|c s IH]; [done|]. unfold String.append in *. by f_equal/=. Qed.

Lemma sapp_assoc a b c : (a +:+ b) +:+ c = a +:+ (b +:+ c).
Proof. induction a as [|x a IH]; [done|]. unfold String.append in *. by f_equal/=. Qed.

Lemma sapp_cons c a b : String c a +:+ b = String c (a +:+ b).
Proof. done. Qed.

Lemma sapp_nil_l b : EmptyString +:+ b = b.
Proof. done. Qed.

Lemma slen_app a b : slen (a +:+ b) = slen a + slen b.
Proof. induction a as [|x a IH]; [done|]. rewrite sapp_cons. unfold slen in *. simpl. by rewrite IH. Qed.

Lemma zlen_app a b : zlen (a +:+ b) = (zlen a + zlen b)%Z.
Proof. unfold zlen. rewrite slen_app. lia. Qed.

Lemma zlen_nonneg s : (0 ≤ zlen s)%Z.
Proof. unfold zlen. lia. Qed.

Lemma slen_cons c s : slen (String c s) = S (slen s).
Proof. done. Qed.

Lemma slen_stake n s : slen (stake n s) = n `min` slen s.
Proof.
  revert s. induction n as [|n IH]; intros [|c s]; try done. cbn [stake]. rewrite !slen_cons, IH. lia.
Qed.

Lemma slen_sdrop n s : slen (sdrop n s) = slen s - n.
Proof. revert s. induction n as [|n IH]; intros [|c s]; simpl; done. Qed.

Lemma stake_sdrop n s : stake n s +:+ sdrop n s = s.
Proof. revert s. induction n as [|n IH]; intros [|c s]; simpl; try done. by rewrite sapp_cons, IH. Qed.

Lemma stake_app a b : stake (slen a) (a +:+ b) = a.
Proof. induction a as [|c a IH]; [by destruct b|]. rewrite sapp_cons. simpl. by f_equal. Qed.

Lemma sdrop_app a b : sdrop (slen a) (a +:+ b) = b.
Proof. induction a as [|c a IH]; [by destruct b|]. done. Qed.

Lemma stake_ge n s : slen s ≤ n → stake n s = s.
Proof.
  revert s. induction n as [|n IH]; intros [|c s]; simpl; try done; unfold slen; simpl; [lia|].
  intros. f_equal. apply IH. unfold slen. lia.
Qed.

Lemma sdrop_sdrop n m s : sdrop n (sdrop m s) = sdrop (m + n) s.
Proof. revert s. induction m as [|m IH]; intros [|c s]; simpl; try done. by destruct n. Qed.

Lemma str_all_app p a b : str_all p (a +:+ b) = str_all p a && str_all p b.
Proof.
  induction a as [|c a IH]; [done|]. rewrite sapp_cons. simpl. by rewrite IH, andb_assoc.
Qed.

Lemma str_all_impl (p q : ascii → bool) s :
  (∀ c, p c = true → q c = true) → str_all p s = true → str_all q s = true.
Proof.
  intros Hpq. induction s as [|c s IH]; [done|]. simpl. rewrite !andb_true_iff. intros [? ?]. auto.
Qed.

Lemma str_all_concat p l : str_all p (concat_str l) = forallb (str_all p) l.
Proof. induction l as [|s l IH]; [done|]. simpl. by rewrite str_all_app, IH. Qed.

Lemma concat_str_app l k : concat_str (l ++ k) = concat_str l +:+ concat_str k.
Proof. induction l as [|s l IH]; [done|]. simpl. by rewrite IH, sapp_assoc. Qed.

Lemma str_map_app f a b : str_map f (a +:+ b) = str_map f a +:+ str_map f b.
Proof. induction a as [|c a IH]; [done|]. rewrite sapp_cons. simpl. by rewrite IH. Qed.

Lemma slen_str_map f s : slen (str_map f s) = slen s.
Proof. induction s as [|c s IH]; [done|]. simpl. unfold slen in *. simpl. by f_equal. Qed.

Lemma cons_nonempty_concat s l : concat_str (cons_nonempty s l) = s +:+ concat_str l.
Proof. by destruct s. Qed.

Lemma chars_go_concat s : (chars_go s).1 +:+ concat_str (chars_go s).2 = s.
Proof.
  induction s as [|c s IH]; [done|]. simpl. destruct (chars_go s) as [pre l]. cbn [fst snd] in *.
  destruct (is_cont c), (is_ascii_byte c); cbn [fst snd concat_str];
    by rewrite ?sapp_nil_l, ?cons_nonempty_concat, ?sapp_cons, ?sapp_nil_l, ?IH.
Qed.

(** The characters of a string are a partition of its bytes. *)
Lemma chars_concat s : concat_str (chars s) = s.
Proof.
  unfold chars. pose proof (chars_go_concat s) as H. destruct (chars_go s) as [pre l].
  by rewrite cons_nonempty_concat.
Qed.

(** A character is one ASCII byte or a sequence of other bytes. *)
Definition non_ascii (s : string) : bool := str_all (λ c, negb (is_ascii_byte c)) s.
Definition char_shape (ch : string) : Prop :=
  (∃ c, ch = String c EmptyString ∧ is_ascii_byte c = true) ∨ non_ascii ch = true ∧ ch ≠ EmptyString.

Lemma cons_nonempty_shape s l :
  non_ascii s = true → Forall char_shape l → Forall char_shape (cons_nonempty s l).
Proof. destruct s as [|c s]; [done|]. intros H ?. constructor; [by right|done]. Qed.

Lemma chars_shape s : Forall char_shape (chars s).
Proof.
  assert (non_ascii (chars_go s).1 = true ∧ Forall char_shape (chars_go s).2) as [H1 H2].
  { induction s as [|c s IH]; [by split|]. simpl. destruct (chars_go s) as [pre l].
    destruct IH as [Hp Hl]; cbn [fst snd] in *.
    assert (is_cont c = true → is_ascii_byte c = false) as Hc.
    { clear. unfold is_cont, is_ascii_byte, in_range. lia. }
    destruct (is_cont c); [specialize (Hc eq_refl)|destruct (is_ascii_byte c) eqn:Ha];
      cbn [fst snd]; split; try done.
    - unfold non_ascii in *. simpl. by rewrite Hc, Hp.
    - constructor; [left; by exists c|by apply cons_nonempty_shape].
    - constructor; [|done]. right. split; [|done]. unfold non_ascii in *. simpl. by rewrite Ha, Hp. }
  unfold chars. destruct (chars_go s) as [pre l]. by apply cons_nonempty_shape.
Qed.

(** Facts about all 256 bytes are checked one by one. *)
Ltac byte_cases := intros [[] [] [] [] [] [] [] []]; vm_compute; intuition congruence.

Lemma ascii_lower_idem c : ascii_lower (ascii_lower c) = ascii_lower c.
Proof. revert c. byte_cases. Qed.
Lemma ascii_lower_upper c : ascii_lower (ascii_upper c) = ascii_lower c.
Proof. revert c. byte_cases. Qed.
Lemma ascii_upper_lower c : ascii_upper (ascii_lower c) = ascii_upper c.
Proof. revert c. byte_cases. Qed.

Lemma str_map_map f g s : str_map f (str_map g s) = str_map (λ c, f (g c)) s.
Proof. induction s as [|c s IH]; [done|]. simpl. by rewrite IH. Qed.
Lemma str_map_ext f g s : (∀ c, f c = g c) → str_map f s = str_map g s.
Proof. intros Hfg. induction s as [|c s IH]; [done|]. simpl. by rewrite IH, Hfg. Qed.

Lemma lowercase_idem s : to_ascii_lowercase (to_ascii_lowercase s) = to_ascii_lowercase s.
Proof. unfold to_ascii_lowercase. rewrite str_map_map. apply str_map_ext, ascii_lower_idem. Qed.
Lemma lowercase_uppercase s : to_ascii_lowercase (to_ascii_uppercase s) = to_ascii_lowercase s.
Proof. unfold to_ascii_lowercase. unfold to_ascii_uppercase. rewrite str_map_map. apply str_map_ext, ascii_lower_upper. Qed.
Lemma uppercase_lowercase s : to_ascii_uppercase (to_ascii_lowercase s) = to_ascii_uppercase s.
Proof. unfold to_ascii_lowercase. unfold to_ascii_uppercase. rewrite str_map_map. apply str_map_ext, ascii_upper_lower. Qed.

(** Strings that only differ in the case of ASCII letters. *)
Definition same_ascii_case (a b : string) : Prop := to_ascii_lowercase a = to_ascii_lowercase b.
#[export] Instance same_ascii_case_equiv : Equivalence same_ascii_case.
Proof. unfold same_ascii_case. split; [by intros ?|by intros ? ?|by intros ? ? ? -> ->]. Qed.
#[export] Instance uppercase_proper : Proper (same_ascii_case ==> eq) to_ascii_uppercase.
Proof.
  intros a b Hab. rewrite <- (uppercase_lowercase a), <- (uppercase_lowercase b). by rewrite Hab.
Qed.

Lemma starts_with_app p s : starts_with (p +:+ s) p = true.
Proof.
  unfold starts_with. induction p as [|c p IH]; [by destruct s|].
  rewrite sapp_cons. simpl. by destruct (ascii_dec c c).
Qed.

Lemma starts_with_iff s p : starts_with s p = true ↔ ∃ t, s = p +:+ t.
Proof.
  split; [|intros [t ->]; apply starts_with_app].
  revert s. induction p as [|c p IH]; intros [|d s]; unfold starts_with; simpl; try done.
  { intros _. by exists EmptyString. }
  { intros _. by exists (String d s). }
  destruct (ascii_dec c d) as [->|]; [|done]. intros H. destruct (IH s H) as [t ->].
  by exists t.
Qed.

Lemma contains_starts s p : starts_with s p = true → contains s p = true.
Proof. unfold contains. destruct s; simpl; by intros ->. Qed.

Lemma contains_iff s p : contains s p = true ↔ ∃ a b, s = a +:+ p +:+ b.
Proof.
  split.
  - unfold contains. induction s as [|c s IH]; cbn [sfind];
      [destruct (starts_with EmptyString p) eqn:Hp|destruct (starts_with (String c s) p) eqn:Hp].
    + intros _. apply starts_with_iff in Hp as [t ->]. by exists EmptyString, t.
    + done.
    + intros _. apply starts_with_iff in Hp as [t Ht]. by exists EmptyString, t.
    + destruct (sfind s p); [|done]. intros _. destruct IH as (a & b & ->); [done|].
      by exists (String c a), b.
  - intros (a & b & ->). induction a as [|c a IH].
    + apply contains_starts. rewrite sapp_nil_l. apply starts_with_app.
    + rewrite sapp_cons. unfold contains in *. cbn [sfind].
      destruct (starts_with _ p); [done|]. by destruct (sfind (a +:+ p +:+ b) p).
Qed.

Lemma sfind_by_spec p s i :
  sfind_by p s = Some i →
  ∃ c, s = stake i s +:+ String c (sdrop (S i) s) ∧ p c = true ∧ slen (stake i s) = i ∧
       str_all (λ d, negb (p d)) (stake i s) = true.
Proof.
  revert i. induction s as [|c s IH]; intros i; cbn [sfind_by]; [done|].
  destruct (p c) eqn:Hc; [intros [= <-]; exists c; by destruct s|].
  destruct (sfind_by p s) as [j|] eqn:Hj; intros [= <-].
  destruct (IH j eq_refl) as (d & Hs & Hd & Hl & Ha). exists d. cbn [stake sdrop str_all].
  rewrite slen_cons, Hl, sapp_cons, Hc. split; [by f_equal|done].
Qed.

Lemma sfind_by_none p s : sfind_by p s = None ↔ str_all (λ d, negb (p d)) s = true.
Proof.
  induction s as [|c s IH]; simpl; [done|]. destruct (p c); simpl; [done|].
  rewrite <- IH. by destruct (sfind_by p s).
Qed.

Lemma sfind_by_app p a c b :
  str_all (λ d, negb (p d)) a = true → p c = true → sfind_by p (a +:+ String c b) = Some (slen a).
Proof.
  intros Ha Hc. induction a as [|x a IH]; [rewrite sapp_nil_l; simpl; by rewrite Hc|].
  simpl in Ha. apply andb_true_iff in Ha as [Hx%negb_true_iff Ha].
  rewrite sapp_cons. cbn [sfind_by]. by rewrite Hx, (IH Ha).
Qed.

Lemma srfind_app c a b :
  str_all (λ d, negb (Ascii.eqb c d)) b = true → srfind c (a +:+ String c b) = Some (slen a).
Proof.
  intros Hb. assert (srfind c b = None) as Hn.
  { clear -Hb. induction b as [|d b IH]; [done|]. simpl in *.
    apply andb_true_iff in Hb as [Hd%negb_true_iff Hb]. by rewrite (IH Hb), Hd. }
  induction a as [|x a IH]; [rewrite sapp_nil_l; simpl; by rewrite Hn, Ascii.eqb_refl|].
  rewrite sapp_cons. cbn [srfind]. by rewrite IH.
Qed.

Lemma srfind_none c s : str_all (λ d, negb (Ascii.eqb c d)) s = true → srfind c s = None.
Proof.
  induction s as [|d s IH]; [done|]. simpl. intros [Hd%negb_true_iff Hs]%andb_true_iff.
  by rewrite (IH Hs), Hd.
Qed.

#[export] Hint Rewrite zlen_app slen_app slen_stake slen_sdrop slen_cons slen_str_map : cron.
#[export] Hint Resolve zlen_nonneg starts_with_app stake_sdrop chars_concat : cron.

Lemma drop_while_idem {A} (p : A → bool) l : drop_while p (drop_while p l) = drop_while p l.
Proof. induction l as [|x l IH]; [done|]. simpl. destruct (p x) eqn:Hx; [done|]. simpl. by rewrite Hx. Qed.

Lemma drop_while_end_idem {A} (p : A → bool) l :
  drop_while_end p (drop_while_end p l) = drop_while_end p l.
Proof. unfold drop_while_end. by rewrite rev_involutive, drop_while_idem. Qed.

Lemma drop_while_none {A} (p : A → bool) l : Forall (λ x, p x = false) l → drop_while p l = l.
Proof. intros Hl. destruct Hl as [|x l Hx Hl]; [done|]. simpl. by rewrite Hx. Qed.

Lemma drop_while_end_none {A} (p : A → bool) l : Forall (λ x, p x = false) l → drop_while_end p l = l.
Proof.
  intros Hl. unfold drop_while_end. rewrite drop_while_none, rev_involutive; [done|].
  apply Forall_rev. done.
Qed.

Lemma drop_while_fmap {A B} (f : A → B) (p : B → bool) l :
  drop_while p (f <$> l) = f <$> drop_while (λ x, p (f x)) l.
Proof. induction l as [|x l IH]; [done|]. cbn. by destruct (p (f x)). Qed.

Lemma drop_while_end_fmap {A B} (f : A → B) (p : B → bool) l :
  drop_while_end p (f <$> l) = f <$> drop_while_end (λ x, p (f x)) l.
Proof.
  unfold drop_while_end. change (f <$> l) with (map f l). rewrite <- map_rev.
  change (map f (rev l)) with (f <$> rev l). rewrite drop_while_fmap. symmetry. apply map_rev.
Qed.

Lemma drop_while_end_ext {A} (p q : A → bool) l :
  (∀ x, p x = q x) → drop_while_end p l = drop_while_end q l.
Proof.
  intros Hpq. unfold drop_while_end. f_equal. induction (rev l) as [|x k IH]; [done|].
  simpl. rewrite Hpq. by destruct (q x).
Qed.

Lemma to_bytes_map f s : to_bytes (str_map f s) = f <$> to_bytes s.
Proof. induction s as [|c s IH]; [done|]. unfold to_bytes in *. cbn. by rewrite IH. Qed.

Lemma of_bytes_fmap f l : of_bytes (f <$> l) = str_map f (of_bytes l).
Proof. induction l as [|c l IH]; [done|]. unfold of_bytes in *. cbn. by rewrite IH. Qed.

Lemma of_to_bytes s : of_bytes (to_bytes s) = s.
Proof. apply String.string_of_list_ascii_of_string. Qed.
Lemma to_of_bytes l : to_bytes (of_bytes l) = l.
Proof. apply String.list_ascii_of_string_of_list_ascii. Qed.

Lemma trim_no_whitespace s : Forall (λ ch, is_whitespace ch = false) (chars s) → trim s = s.
Proof.
  intros Hs. unfold trim. by rewrite drop_while_none, drop_while_end_none, chars_concat.
Qed.

(** The characters of a string of ASCII bytes with a property. *)
Lemma chars_all (p : ascii → bool) s :
  (∀ c, p c = true → is_ascii_byte c = true) → str_all p s = true →
  Forall (λ ch, ∃ c, ch = String c EmptyString ∧ p c = true) (chars s).
Proof.
  intros Hp. rewrite <- (chars_concat s) at 1. rewrite str_all_concat, forallb_forall.
  intros Hall. apply List.Forall_forall. intros ch Hin. specialize (Hall ch Hin).
  pose proof (chars_shape s) as Hsh. rewrite List.Forall_forall in Hsh.
  destruct (Hsh ch Hin) as [(c & -> & _)|[Hna Hne]].
  - exists c. simpl in Hall. by rewrite andb_true_r in Hall.
  - destruct ch as [|c ch]; [done|]. unfold non_ascii in Hna. simpl in Hall, Hna.
    apply andb_true_iff in Hall as [Hc _]. apply Hp in Hc. by rewrite Hc in Hna.
Qed.

Lemma is_char_boundary_0 s : is_char_boundary s 0 = true.
Proof. done. Qed.
Lemma is_char_boundary_len s : is_char_boundary s (slen s) = true.
Proof. unfold is_char_boundary. by rewrite Nat.eqb_refl, orb_true_r. Qed.

(** A slice out of the middle. *)
Lemma split_three s i j :
  i ≤ j → s = stake i s +:+ stake (j - i) (sdrop i s) +:+ sdrop j s.
Proof.
  intros Hij. rewrite <- (stake_sdrop i s) at 1. f_equal.
  rewrite <- (stake_sdrop (j - i) (sdrop i s)) at 1. f_equal. rewrite sdrop_sdrop. f_equal. lia.
Qed.

Lemma str_all_stake p n s : str_all p s = true → str_all p (stake n s) = true.
Proof.
  revert s. induction n as [|n IH]; intros [|c s]; simpl; try done.
  intros [-> Hs]%andb_true_iff. by apply IH.
Qed.
Lemma str_all_sdrop p n s : str_all p s = true → str_all p (sdrop n s) = true.
Proof.
  revert s. induction n as [|n IH]; intros [|c s]; simpl; try done.
  intros [_ Hs]%andb_true_iff. by apply IH.
Qed.

Lemma sdrop_ge n s : slen s ≤ n → sdrop n s = EmptyString.
Proof.
  revert s. induction n as [|n IH]; intros [|c s]; simpl; try done; unfold slen; simpl; [lia|].
  intros. apply IH. unfold slen. lia.
Qed.

Lemma srfind_spec c s i : srfind c s = Some i → str_all (λ d, negb (Ascii.eqb c d)) (sdrop (S i) s) = true.
Proof.
  assert (srfind c s = None → str_all (λ d, negb (Ascii.eqb c d)) s = true) as Hn.
  { clear. induction s as [|d s IH]; [done|]. simpl. destruct (srfind c s); [done|].
    destruct (Ascii.eqb c d); [done|]. intros _. by rewrite IH. }
  revert i Hn. induction s as [|d s IH]; intros i Hn; [done|]. cbn [srfind] in *.
  destruct (srfind c s) as [j|] eqn:Hj.
  - intros [= <-]. cbn [sdrop]. apply IH; done.
  - destruct (Ascii.eqb c d) eqn:Hd; [|done]. intros [= <-]. cbn [sdrop].
    clear -Hj. induction s as [|e s IH]; [done|]. simpl in *. destruct (srfind c s); [done|].
    destruct (Ascii.eqb c e); [done|]. by rewrite IH.
Qed.

Lemma srfind_none_iff c s : srfind c s = None ↔ str_all (λ d, negb (Ascii.eqb c d)) s = true.
Proof.
  split; [|apply srfind_none]. induction s as [|d s IH]; [done|]. simpl.
  destruct (srfind c s); [done|]. destruct (Ascii.eqb c d); [done|]. intros _. by rewrite IH.
Qed.

Lemma starts_with_cons c s d p :
  starts_with (String c s) (String d p) = if ascii_dec d c then starts_with s p else false.
Proof. done. Qed.
Lemma starts_with_nil s : starts_with s EmptyString = true.
Proof. by destruct s. Qed.

Lemma starts_with_stake p s n t :
  slen p ≤ n → n ≤ slen s → starts_with (stake n s +:+ t) p = starts_with s p.
Proof.
  revert s n. induction p as [|d p IH]; intros s n Hp Hn; [by rewrite !starts_with_nil|].
  rewrite slen_cons in Hp. destruct n as [|n]; [lia|].
  destruct s as [|c s]; [unfold slen in Hn; simpl in Hn; lia|]. rewrite slen_cons in Hn.
  cbn [stake]. rewrite sapp_cons, !starts_with_cons. destruct (ascii_dec d c); [|done].
  apply IH; lia.
Qed.

Lemma sfind_length s p i : sfind s p = Some i → i + slen p ≤ slen s.
Proof.
  revert i. induction s as [|c s IH]; intros i; cbn [sfind].
  - destruct (starts_with EmptyString p) eqn:Hp; [|done]. intros [= <-].
    apply starts_with_iff in Hp as [t Ht]. rewrite Ht, slen_app. lia.
  - destruct (starts_with (String c s) p) eqn:Hp.
    + intros [= <-]. apply starts_with_iff in Hp as [t Ht]. rewrite Ht, slen_app. lia.
    + destruct (sfind s p) as [j|] eqn:Hj; intros [= <-]. rewrite slen_cons. specialize (IH j eq_refl). lia.
Qed.

(** What follows the first occurrence of a pattern does not move it. *)
Lemma sfind_stake s p i t :
  sfind s p = Some i → sfind (stake (i + slen p) s +:+ t) p = Some i.
Proof.
  revert i. induction s as [|c s IH]; intros i Hi; pose proof (sfind_length _ _ _ Hi) as Hlen;
    cbn [sfind] in Hi.
  - destruct (starts_with EmptyString p) eqn:Hp; [|done]. simplify_eq.
    rewrite <- (starts_with_stake p EmptyString (0 + slen p) t) in Hp by lia.
    destruct (stake (0 + slen p) EmptyString +:+ t); cbn [sfind]; by rewrite Hp.
  - destruct (starts_with (String c s) p) eqn:Hp.
    + simplify_eq. rewrite <- (starts_with_stake p (String c s) (0 + slen p) t) in Hp by lia.
      destruct (stake (0 + slen p) (String c s) +:+ t); cbn [sfind]; by rewrite Hp.
    + destruct (sfind s p) as [j|] eqn:Hj; cbn in Hi; [|done]. injection Hi as <-.
      change (S j + slen p) with (S (j + slen p)). cbn [stake]. rewrite sapp_cons. cbn [sfind].
      rewrite <- sapp_cons. change (String c (stake (j + slen p) s)) with (stake (S (j + slen p)) (String c s)).
      rewrite starts_with_stake, Hp by lia. by rewrite IH.
Qed.

Lemma pretty_N_go_digits x s :
  str_all is_ascii_digit s = true → str_all is_ascii_digit (pretty_N_go x s) = true.
Proof.
  revert s. induction (N.lt_wf_0 x) as [x _ IH]; intros s Hs.
  destruct (decide (0 < x)%N); [|by replace x with 0%N by lia].
  rewrite pretty_N_go_step by done. apply IH; [by apply N.div_lt|]. simpl. rewrite Hs, andb_true_r.
  unfold pretty_N_char. by repeat case_match.
Qed.

(** The decimal rendering of a non-negative number. *)
Lemma pretty_Z_digits (z : Z) : (0 ≤ z)%Z → str_all is_ascii_digit (pretty z) = true.
Proof.
  intros Hz. destruct z as [|p|p]; [done| |lia].
  change (str_all is_ascii_digit (pretty (N.pos p)) = true). unfold pretty, pretty_N.
  destruct (decide _); [done|]. by apply pretty_N_go_digits.
Qed.

(** Replacing everything after the first [n] bytes. *)
Lemma stake_stake_app n s t : n ≤ slen s → stake n (stake n s +:+ t) = stake n s.
Proof.
  intros Hn. pose proof (slen_stake n s) as Hl. rewrite Nat.min_l in Hl by done.
  rewrite <- Hl at 1. apply stake_app.
Qed.
Lemma sdrop_stake_app n s t : n ≤ slen s → sdrop n (stake n s +:+ t) = t.
Proof.
  intros Hn. pose proof (slen_stake n s) as Hl. rewrite Nat.min_l in Hl by done.
  rewrite <- Hl at 1. apply sdrop_app.
Qed.
Lemma sdrop_S_app a c b : sdrop (S (slen a)) (a +:+ String c b) = b.
Proof.
  change (String c b) with (single c +:+ b). rewrite <- sapp_assoc.
  replace (S (slen a)) with (slen (a +:+ single c)); [apply sdrop_app|].
  rewrite slen_app. unfold slen at 2. simpl. lia.
Qed.

(** ** Trimming a byte *)
Lemma drop_while_suffix {A} (p : A → bool) l : ∃ k, l = k ++ drop_while p l.
Proof.
  induction l as [|x l [k IH]]; [by exists []|]. simpl. destruct (p x); [|by exists []].
  exists (x :: k). by rewrite IH at 1.
Qed.

Lemma drop_while_end_prefix {A} (p : A → bool) l : ∃ k, l = drop_while_end p l ++ k.
Proof.
  destruct (drop_while_suffix p (rev l)) as [k Hk]. exists (rev k). unfold drop_while_end.
  by rewrite <- rev_app_distr, <- Hk, rev_involutive.
Qed.

Lemma drop_while_head {A} (p : A → bool) l x k : drop_while p l = x :: k → p x = false.
Proof. induction l as [|y l IH]; [done|]. simpl. destruct (p y) eqn:Hy; [done|]. by intros [= -> _]. Qed.

Lemma drop_both_idem {A} (p : A → bool) l :
  let t := drop_while_end p (drop_while p l) in drop_while_end p (drop_while p t) = t.
Proof.
  cbv zeta. set (m := drop_while p l).
  assert (drop_while p (drop_while_end p m) = drop_while_end p m) as ->; [|apply drop_while_end_idem].
  destruct (drop_while_end_prefix p m) as [k Hk].
  destruct (drop_while_end p m) as [|x t]; [done|]. cbn. by rewrite (drop_while_head p l x (t ++ k)).
Qed.

Lemma trim_matches_idem c s : trim_matches c (trim_matches c s) = trim_matches c s.
Proof. unfold trim_matches. by rewrite to_of_bytes, drop_both_idem. Qed.

Lemma str_all_bytes p s : str_all p s = forallb p (to_bytes s).
Proof. induction s as [|c s IH]; [done|]. unfold to_bytes in *. cbn. by rewrite IH. Qed.

Lemma str_all_trim_matches p c s : str_all p s = true → str_all p (trim_matches c s) = true.
Proof.
  rewrite !str_all_bytes. unfold trim_matches. rewrite to_of_bytes. intros Hs.
  destruct (drop_while_suffix (Ascii.eqb c) (to_bytes s)) as [k1 Hk1].
  destruct (drop_while_end_prefix (Ascii.eqb c) (drop_while (Ascii.eqb c) (to_bytes s))) as [k2 Hk2].
  rewrite Hk1, forallb_app in Hs. apply andb_true_iff in Hs as [_ Hs].
  rewrite Hk2, forallb_app in Hs. by apply andb_true_iff in Hs as [Hs _].
Qed.

Lemma str_all_map p f s : str_all p (str_map f s) = str_all (λ c, p (f c)) s.
Proof. induction s as [|c s IH]; [done|]. cbn. by rewrite IH. Qed.

Lemma str_all_true (p : ascii → bool) s : (∀ c, p c = true) → str_all p s = true.
Proof. intros Hp. induction s as [|c s IH]; [done|]. cbn. by rewrite Hp. Qed.

(** ** Lossy decoding *)
Lemma utf8_head_bounds c s : 1 ≤ (utf8_head c s).2 ≤ 4.
Proof. unfold utf8_head. repeat case_match; simpl; lia. Qed.

Lemma lossy_go_length fuel s : slen (lossy_go fuel s) ≤ 3 * slen s.
Proof.
  revert s. induction fuel as [|fuel IH]; intros [|c s]; cbn [lossy_go]; try (unfold slen; simpl; lia).
  pose proof (utf8_head_bounds c (String c s)) as Hb. destruct (utf8_head c (String c s)) as [valid n].
  cbn [snd] in Hb. rewrite slen_app. specialize (IH (sdrop n (String c s))).
  rewrite slen_sdrop in IH. rewrite slen_cons in *.
  destruct valid; [rewrite slen_stake, slen_cons|change (slen replacement_char) with 3]; lia.
Qed.

(** A replacement character is three bytes and stands for at least one. *)
Lemma from_utf8_lossy_length s : (zlen (from_utf8_lossy s) ≤ 3 * zlen s)%Z.
Proof. pose proof (lossy_go_length (slen s) s). unfold zlen, from_utf8_lossy. lia. Qed.

Lemma zlen_le_nat s n : (zlen s ≤ Z.of_nat n)%Z ↔ slen s ≤ n.
Proof. unfold zlen. lia. Qed.

(** *** The characters of a part of a string *)

(** A character starts with any byte and goes on with continuation bytes; one that starts
    with such a byte (the text is no UTF-8) comes first or after an ASCII byte. *)
Definition is_piece (ch : string) : Prop :=
  match ch with String c t => str_all is_cont t = true ∧ (is_ascii_byte c = true → t = EmptyString) | EmptyString => False end.
Definition starts_cont (ch : string) : bool := match ch with String c _ => is_cont c | EmptyString => false end.
Definition ascii_piece (ch : string) : bool := match ch with String c EmptyString => is_ascii_byte c | _ => false end.
Fixpoint linked (l : list string) : Prop :=
  match l with
  | x :: (y :: _) as l' => (starts_cont y = true → ascii_piece x = true) ∧ linked l'
  | _ => True
  end.
Lemma cont_not_ascii c : is_cont c = true → is_ascii_byte c = false.
Proof. unfold is_cont, is_ascii_byte, in_range. lia. Qed.

Lemma linked_tail x l : linked (x :: l) → linked l.
Proof. destruct l; [done|by intros [_ ?]]. Qed.
Lemma linked_app a b : linked (a ++ b) → linked a ∧ linked b.
Proof.
  induction a as [|x a IH]; [done|]. intros Hl. destruct IH as [Ha Hb]; [by eapply linked_tail|]. split; [|done].
  destruct a as [|y a]; [done|]. by destruct Hl.
Qed.

Lemma chars_go_cont t s : str_all is_cont t = true → chars_go (t +:+ s) = (t +:+ (chars_go s).1, (chars_go s).2).
Proof.
  induction t as [|c t IH]; intros Ht; [rewrite !sapp_nil_l; by destruct (chars_go s)|]. cbn [str_all] in Ht. apply andb_true_iff in Ht as [Hc Ht].
  rewrite !sapp_cons. cbn [chars_go]. by rewrite IH, Hc.
Qed.
Lemma chars_go_pieces l : Forall is_piece l → linked l →
  chars_go (concat_str l) = match l with ch :: l' => if starts_cont ch then (ch, l') else (EmptyString, l) | [] => (EmptyString, []) end.
Proof.
  induction l as [|ch l IH]; intros Hp Hl; [done|]. apply Forall_cons in Hp as [Hch Hp]. specialize (IH Hp (linked_tail _ _ Hl)).
  destruct ch as [|c t]; [done|]. destruct Hch as [Ht Ha]. cbn [concat_str starts_cont]. rewrite sapp_cons. cbn [chars_go].
  rewrite chars_go_cont, IH by done. destruct (is_cont c) eqn:Hc.
  - pose proof (cont_not_ascii c Hc) as Hna. destruct l as [|y l]; cbn [fst snd]; [by rewrite sapp_nil_r|].
    destruct Hl as [Hl _]. destruct (starts_cont y); [|cbn [fst snd]; by rewrite sapp_nil_r].
    specialize (Hl eq_refl). cbn in Hl. destruct t; congruence.
  - destruct (is_ascii_byte c) eqn:Hac.
    + rewrite (Ha eq_refl), sapp_nil_l. destruct l as [|y l]; cbn [fst snd]; [done|]. apply Forall_cons in Hp as [Hy _].
      destruct (starts_cont y); [|done]. by destruct y.
    + destruct l as [|y l]; cbn [fst snd]; [by rewrite sapp_nil_r|]. destruct Hl as [Hl _].
      destruct (starts_cont y); [|cbn [fst snd]; by rewrite sapp_nil_r]. specialize (Hl eq_refl). cbn in Hl. destruct t; congruence.
Qed.
Lemma chars_pieces s : Forall is_piece (chars s) ∧ linked (chars s).
Proof.
  assert (str_all is_cont (chars_go s).1 = true ∧ Forall is_piece (chars_go s).2 ∧ linked (chars_go s).2 ∧
    match (chars_go s).2 with y :: _ => starts_cont y = false | [] => True end) as Hs.
  { induction s as [|c s IH]; [done|]. cbn [chars_go]. destruct (chars_go s) as [pre l]. destruct IH as (Hpre & Hp & Hl & Hh). cbn [fst snd] in *.
    destruct (is_cont c) eqn:Hc; cbn [fst snd str_all]; [by rewrite Hc, Hpre|].
    assert (is_ascii_byte c = false → is_piece (String c pre)) as Hn by (intros Ha; split; [done|congruence]).
    destruct (is_ascii_byte c) eqn:Ha; cbn [fst snd].
    - destruct pre as [|d pre]; cbn [cons_nonempty].
      + split_and!; [done|by constructor| |done]. destruct l as [|y l]; [done|]. split; [by rewrite Hh|done].
      + cbn [str_all] in Hpre. apply andb_true_iff in Hpre as [Hd Hpre]. split_and!; [done| | |done].
        * constructor; [done|]. constructor; [|done]. split; [done|]. rewrite (cont_not_ascii d Hd). done.
        * split; [by cbn; rewrite Ha|]. destruct l as [|y l]; [done|]. split; [by rewrite Hh|done].
    - split_and!; [done|constructor; [by apply Hn|done]| |done]. destruct l as [|y l]; [done|]. split; [by rewrite Hh|done]. }
  unfold chars. destruct (chars_go s) as [pre l]. destruct Hs as (Hpre & Hp & Hl & Hh). cbn [fst snd] in *.
  destruct pre as [|d pre]; cbn [cons_nonempty]; [done|]. cbn [str_all] in Hpre. apply andb_true_iff in Hpre as [Hd Hpre]. split.
  - constructor; [|done]. split; [done|]. rewrite (cont_not_ascii d Hd). done.
  - destruct l as [|y l]; [done|]. split; [by rewrite Hh|done].
Qed.

Lemma chars_part s a l b : chars s = a ++ l ++ b → chars (concat_str l) = l.
Proof.
  intros Hs. destruct (chars_pieces s) as [Hp Hl]. rewrite Hs in Hp, Hl. apply Forall_app in Hp as [_ Hp]. apply Forall_app in Hp as [Hp _].
  apply linked_app in Hl as [_ Hl]. apply linked_app in Hl as [Hl _]. unfold chars. rewrite chars_go_pieces by done.
  destruct l as [|ch l]; [done|]. apply Forall_cons in Hp as [Hch _]. destruct (starts_cont ch); [|done]. by destruct ch.
Qed.

Lemma trim_idem s : trim (trim s) = trim s.
Proof.
  unfold trim. set (m := drop_while is_whitespace (chars s)).
  destruct (drop_while_suffix is_whitespace (chars s)) as [a Ha]. destruct (drop_while_end_prefix is_whitespace m) as [b Hb].
  rewrite (chars_part s a (drop_while_end is_whitespace m) b) by by rewrite <- Hb. subst m. by rewrite drop_both_idem.
Qed.
