(* ===== verification/Ip.v ===== *)
(** * [std::net::IpAddr]

    The part of the standard library's address type the program calls: the
    classification predicates, [str::parse::<IpAddr>] and [Display]. An octet is a
    [Z] below 256 and a segment a [Z] below 65536 ([ip_wf]). *)
From S2P Require Import Prelude RStr.

Record Ipv4Addr := V4Addr { oct0 : Z; oct1 : Z; oct2 : Z; oct3 : Z }.
Record Ipv6Addr := V6Addr
  { seg0 : Z; seg1 : Z; seg2 : Z; seg3 : Z; seg4 : Z; seg5 : Z; seg6 : Z; seg7 : Z }.
Inductive IpAddr := V4 (a : Ipv4Addr) | V6 (a : Ipv6Addr).

#[export] Instance Ipv4Addr_eq_dec : EqDecision Ipv4Addr.
Proof. solve_decision. Defined.
#[export] Instance Ipv6Addr_eq_dec : EqDecision Ipv6Addr.
Proof. solve_decision. Defined.
#[export] Instance IpAddr_eq_dec : EqDecision IpAddr.
Proof. solve_decision. Defined.

Definition segments (a : Ipv6Addr) : list Z :=
  [seg0 a; seg1 a; seg2 a; seg3 a; seg4 a; seg5 a; seg6 a; seg7 a].
Definition octets (a : Ipv4Addr) : list Z := [oct0 a; oct1 a; oct2 a; oct3 a].
Definition ip_wf (ip : IpAddr) : Prop :=
  match ip with
  | V4 a => Forall (λ o, 0 ≤ o < 256)%Z (octets a)
  | V6 a => Forall (λ o, 0 ≤ o < 65536)%Z (segments a)
  end.

(** ** Classification *)
Module Ipv4.
Section predicates.
Open Scope Z_scope.
Definition is_loopback (a : Ipv4Addr) : bool := oct0 a =? 127.
Definition is_link_local (a : Ipv4Addr) : bool := (oct0 a =? 169) && (oct1 a =? 254).
Definition is_private (a : Ipv4Addr) : bool :=
  (oct0 a =? 10) || ((oct0 a =? 172) && ((16 <=? oct1 a) && (oct1 a <=? 31)))
  || ((oct0 a =? 192) && (oct1 a =? 168)).
Definition is_unspecified (a : Ipv4Addr) : bool := forallb (Z.eqb 0) (octets a).
Definition is_broadcast (a : Ipv4Addr) : bool := forallb (Z.eqb 255) (octets a).
Definition is_multicast (a : Ipv4Addr) : bool := (224 <=? oct0 a) && (oct0 a <=? 239).
End predicates.
End Ipv4.

Definition seg_list_eqb (l k : list Z) : bool := bool_decide (l = k).

Module Ipv6.
Section predicates.
Open Scope Z_scope.
Definition is_loopback (a : Ipv6Addr) : bool := seg_list_eqb (segments a) [0;0;0;0;0;0;0;1].
Definition is_unspecified (a : Ipv6Addr) : bool := seg_list_eqb (segments a) [0;0;0;0;0;0;0;0].
Definition is_multicast (a : Ipv6Addr) : bool := Z.land (seg0 a) 65280 =? 65280.
Definition to_ipv4_mapped (a : Ipv6Addr) : option Ipv4Addr :=
  if seg_list_eqb (take 6 (segments a)) [0;0;0;0;0;65535] then
    Some (V4Addr (seg6 a / 256) (seg6 a mod 256) (seg7 a / 256) (seg7 a mod 256))
  else None.
End predicates.
End Ipv6.

Definition is_loopback (ip : IpAddr) : bool :=
  match ip with V4 a => Ipv4.is_loopback a | V6 a => Ipv6.is_loopback a end.

(** ** [IpAddr::from_str]: the recursive-descent parser of [core::net] *)
Definition parser (A : Type) : Type := list ascii → option (A * list ascii).

Definition digit_value (radix : Z) (c : ascii) : option Z :=
  let b := byte_of c in
  let v := if is_ascii_digit c then Some (b - 48)%Z
           else if in_range 97 102 c then Some (b - 87)%Z
           else if in_range 65 70 c then Some (b - 55)%Z else None in
  match v with Some d => if (d <? radix)%Z then Some d else None | None => None end.

(** Digits of a number of at most [max] digits and value at most [limit]. *)
Fixpoint read_digits (radix limit : Z) (max count : nat) (acc : Z) (s : list ascii) {struct s} :
    option (Z * nat * list ascii) :=
  match s with
  | c :: s' =>
      match digit_value radix c with
      | Some d =>
          let acc' := (acc * radix + d)%Z in
          if (limit <? acc')%Z || (max <=? count) then None
          else read_digits radix limit max (S count) acc' s'
      | None => Some (acc, count, s)
      end
  | [] => Some (acc, count, [])
  end.
Definition read_number (radix limit : Z) (max : nat) (allow_zero_prefix : bool) : parser Z := λ s,
  let leading_zero := match s with c :: _ => Ascii.eqb c "0" | [] => false end in
  match read_digits radix limit max 0 0 s with
  | Some (v, count, rest) =>
      if (count =? 0) || (negb allow_zero_prefix && leading_zero && (1 <? count)) then None
      else Some (v, rest)
  | None => None
  end.
Definition read_char (c : ascii) : parser unit := λ s,
  match s with d :: s' => if Ascii.eqb c d then Some (tt, s') else None | [] => None end.
Definition read_separator {A} (sep : ascii) (index : nat) (inner : parser A) : parser A := λ s,
  match index with
  | 0 => inner s
  | S _ => match read_char sep s with Some (_, s') => inner s' | None => None end
  end.
Definition read_octet (index : nat) : parser Z :=
  read_separator "." index (read_number 10 255 3 false).
Definition read_ipv4_addr : parser Ipv4Addr := λ s,
  match read_octet 0 s with
  | Some (a, s1) =>
    match read_octet 1 s1 with
    | Some (b, s2) =>
      match read_octet 2 s2 with
      | Some (c, s3) =>
        match read_octet 3 s3 with
        | Some (d, s4) => Some (V4Addr a b c d, s4)
        | None => None
        end
      | None => None
      end
    | None => None
    end
  | None => None
  end.

(** [n] groups are still free and [i] were read: the groups read, whether an IPv4
    address ended them, and the rest. *)
Fixpoint read_groups (n i : nat) (s : list ascii) : list Z * bool * list ascii :=
  match n with
  | 0 => ([], false, s)
  | S n' =>
      let v4 := if 1 <=? n' then read_separator ":" i read_ipv4_addr s else None in
      match v4 with
      | Some (a, rest) => ([oct0 a * 256 + oct1 a; oct2 a * 256 + oct3 a]%Z, true, rest)
      | None =>
          match read_separator ":" i (read_number 16 65535 4 true) s with
          | Some (g, rest) =>
              let '(gs, is4, rest') := read_groups n' (S i) rest in (g :: gs, is4, rest')
          | None => ([], false, s)
          end
      end
  end.
Definition v6_of_list (l : list Z) : option Ipv6Addr :=
  match l with
  | [a; b; c; d; e; f; g; h] => Some (V6Addr a b c d e f g h)
  | _ => None
  end.
Definition read_ipv6_addr : parser Ipv6Addr := λ s,
  let '(head, head4, rest) := read_groups 8 0 s in
  if length head =? 8 then (λ a, (a, rest)) <$> v6_of_list head
  else if head4 then None
  else match read_char ":" rest with
       | Some (_, rest1) =>
           match read_char ":" rest1 with
           | Some (_, rest2) =>
               let '(tail, _, rest3) := read_groups (8 - (length head + 1)) 0 rest2 in
               (λ a, (a, rest3)) <$>
                 v6_of_list (head ++ replicate (8 - (length head + length tail)) 0%Z ++ tail)
           | None => None
           end
       | None => None
       end.
Definition complete {A} (p : parser A) (s : string) : option A :=
  match p (to_bytes s) with Some (a, []) => Some a | _ => None end.
Definition read_ip_addr : parser IpAddr := λ s,
  match read_ipv4_addr s with
  | Some (a, rest) => Some (V4 a, rest)
  | None => (λ '(a, rest), (V6 a, rest)) <$> read_ipv6_addr s
  end.
Definition parse_ip (s : string) : option IpAddr := complete read_ip_addr s.

(** ** [Display] *)
Definition display_v4 (a : Ipv4Addr) : string := join "." (pretty <$> octets a).

Fixpoint strip_zeros (l : list Z) : list Z :=
  match l with
  | [] => []
  | z :: t => if (z =? 0)%Z && (0 <? length t) then strip_zeros t else l
  end.
Definition display_seg (z : Z) : string :=
  let ds := strip_zeros [z / 4096; z / 256 mod 16; z / 16 mod 16; z mod 16]%Z in
  of_bytes (hex_digit false <$> ds).
(** The first longest run of zero segments: its start and length. *)
Fixpoint zero_run (l : list Z) (i start len : nat) (best : nat * nat) : nat * nat :=
  match l with
  | [] => best
  | z :: l' =>
      if (z =? 0)%Z then
        let start' := if len =? 0 then i else start in
        let best' := if best.2 <? S len then (start', S len) else best in
        zero_run l' (S i) start' (S len) best'
      else zero_run l' (S i) 0 0 best
  end.
Definition display_v6 (a : Ipv6Addr) : string :=
  match Ipv6.to_ipv4_mapped a with
  | Some v4 => "::ffff:" +:+ display_v4 v4
  | None =>
      let l := segments a in
      let segs l := join ":" (display_seg <$> l) in
      let '(start, len) := zero_run l 0 0 0 (0, 0) in
      if 1 <? len then segs (take start l) +:+ "::" +:+ segs (drop (start + len) l) else segs l
  end.
Definition display_ip (ip : IpAddr) : string :=
  match ip with V4 a => display_v4 a | V6 a => display_v6 a end.
