(* ===== verification/Errors.v ===== *)
(** * Structured errors (src/error.rs)

    [CronManagerError], its [Display] ([to_string]), the HTTP status and the error code
    of every variant, and the response [into_response] builds. The errors of other
    libraries that two variants wrap ([std::io::Error], [serde_yaml_ng::Error]) are their
    rendered messages. *)
From S2P Require Import Prelude RStr.

Inductive CronManagerError : Type :=
  | JobNotFound (group name : string)
  | JobAlreadyRunning (group name : string)
  | InvalidJobDefinition (source_path reason : string)
  | InvalidConfig (path reason : string)
  | InvalidCron (expression reason : string)
  | RequestTooLarge (limit : Z)
  | TooManyQueryParams (count limit : Z)
  | Unauthorized
  | Forbidden (msg : string)
  | TooManyRequests (retry_after_secs : Z)
  | BadRequest (msg : string)
  | UpstreamHttpError (status : Z) (body : string)
  | UpstreamTimeout (seconds : Z)
  | UpstreamBodyTooLarge (limit : Z)
  | ShellFailed (message : string)
  | ShellTimeout (seconds : Z)
  | Io (err : string)
  | YamlParse (path source : string)
  | Database (msg : string)
  | Internal (msg : string).

#[export] Instance CronManagerError_eq_dec : EqDecision CronManagerError.
Proof. solve_decision. Defined.

(** The [#[error(...)]] attributes. *)
Definition to_string (e : CronManagerError) : string :=
  match e with
  | JobNotFound group name => "job not found: " +:+ group +:+ "/" +:+ name
  | JobAlreadyRunning group name => "job already running: " +:+ group +:+ "/" +:+ name
  | InvalidJobDefinition source_path reason =>
      "invalid job definition " +:+ source_path +:+ ": " +:+ reason
  | InvalidConfig path reason => "invalid config file " +:+ path +:+ ": " +:+ reason
  | InvalidCron expression reason =>
      "invalid cron expression '" +:+ expression +:+ "': " +:+ reason
  | RequestTooLarge limit => "request body exceeds " +:+ pretty limit +:+ " bytes"
  | TooManyQueryParams count limit =>
      "too many query parameters: " +:+ pretty count +:+ " exceeds cap " +:+ pretty limit
  | Unauthorized => "missing or invalid admin bearer token"
  | Forbidden msg => "forbidden: " +:+ msg
  | TooManyRequests secs => "too many requests: " +:+ pretty secs +:+ "s minimum interval"
  | BadRequest msg => "bad request: " +:+ msg
  | UpstreamHttpError status body =>
      "upstream HTTP error " +:+ pretty status +:+ ": " +:+ body
  | UpstreamTimeout seconds => "upstream request timed out after " +:+ pretty seconds +:+ "s"
  | UpstreamBodyTooLarge limit => "upstream response exceeds " +:+ pretty limit +:+ " bytes"
  | ShellFailed message => "shell command exited non-zero: " +:+ message
  | ShellTimeout seconds => "shell command exceeded " +:+ pretty seconds +:+ "s wall clock"
  | Io err => "io error: " +:+ err
  | YamlParse path source => "yaml parse error at " +:+ path +:+ ": " +:+ source
  | Database msg => "database error: " +:+ msg
  | Internal msg => "internal error: " +:+ msg
  end.

(** [CronManagerError::status]. *)
Definition status (e : CronManagerError) : Z :=
  match e with
  | JobNotFound _ _ => 404
  | JobAlreadyRunning _ _ => 409
  | InvalidJobDefinition _ _ | InvalidConfig _ _ | InvalidCron _ _ | BadRequest _ => 400
  | Unauthorized => 401
  | Forbidden _ => 403
  | TooManyRequests _ => 429
  | RequestTooLarge _ | TooManyQueryParams _ _ => 413
  | UpstreamHttpError _ _ | UpstreamBodyTooLarge _ => 502
  | UpstreamTimeout _ => 504
  | ShellFailed _ | ShellTimeout _ | Io _ | YamlParse _ _ | Database _ | Internal _ => 500
  end.

(** [CronManagerError::code]. *)
Definition code (e : CronManagerError) : string :=
  match e with
  | JobNotFound _ _ => "job_not_found"
  | JobAlreadyRunning _ _ => "job_already_running"
  | InvalidJobDefinition _ _ => "invalid_job_definition"
  | InvalidConfig _ _ => "invalid_config"
  | InvalidCron _ _ => "invalid_cron"
  | RequestTooLarge _ => "request_too_large"
  | TooManyQueryParams _ _ => "too_many_query_params"
  | Unauthorized => "unauthorized"
  | Forbidden _ => "forbidden"
  | TooManyRequests _ => "too_many_requests"
  | BadRequest _ => "bad_request"
  | UpstreamHttpError _ _ => "upstream_http_error"
  | UpstreamTimeout _ => "upstream_timeout"
  | UpstreamBodyTooLarge _ => "upstream_body_too_large"
  | ShellFailed _ => "shell_failed"
  | ShellTimeout _ => "shell_timeout"
  | Io _ => "io_error"
  | YamlParse _ _ => "yaml_parse_error"
  | Database _ => "database_error"
  | Internal _ => "internal_error"
  end.

(** ** JSON bodies *)
#[warnings="-register-all"]
Inductive Json : Type :=
  | JStr (s : string)
  | JNum (n : Z)
  | JBool (b : bool)
  | JArr (l : list Json)
  | JObj (fields : list (string * Json)).

Definition json_fields (j : Json) : list (string * Json) :=
  match j with JObj fields => fields | _ => [] end.
Fixpoint assoc {A} (k : string) (l : list (string * A)) : option A :=
  match l with
  | [] => None
  | (k', x) :: l' => if String.eqb k k' then Some x else assoc k l'
  end.
Definition json_get (k : string) (j : Json) : option Json := assoc k (json_fields j).

(** [IntoResponse::into_response]: the status and the body; its log line is left out. *)
Definition into_response (e : CronManagerError) : Z * Json :=
  let base := [("error", JStr (code e)); ("message", JStr (to_string e))] in
  let body :=
    match e with
    | RequestTooLarge limit | UpstreamBodyTooLarge limit => base ++ [("limit", JNum limit)]
    | TooManyQueryParams count limit => base ++ [("count", JNum count); ("limit", JNum limit)]
    | TooManyRequests secs => base ++ [("retry_after_secs", JNum secs)]
    | _ => base
    end in
  (status e, JObj body).

(** ** Properties *)

(** A response to a failed request carries the error code and the message, its status
    is an HTTP error status, and the code alone determines the status and the fields of the
    body, so that a client may dispatch on [error]. *)
Theorem into_response_shape e1 :
  json_get "error" (into_response e1).2 = Some (JStr (code e1)) ∧
  json_get "message" (into_response e1).2 = Some (JStr (to_string e1)) ∧
  (400 ≤ (into_response e1).1 ≤ 504)%Z ∧
  ∀ e2, code e1 = code e2 →
    (into_response e1).1 = (into_response e2).1 ∧
    (json_fields (into_response e1).2).*1 = (json_fields (into_response e2).2).*1.
Proof.
  split_and!; [by destruct e1|by destruct e1|destruct e1; simpl; lia|destruct e1; simpl; lia|].
  intros e2. destruct e1, e2; by intros [=].
Qed.
