(* ===== verification/Security.v ===== *)
(** * Cross-cutting security helpers (src/security.rs)

    The environment-variable blacklist, the two address classifications behind the SSRF
    guard, the normalisation of [security.allowed_private_hosts], the escaping of text
    that reaches logs and the history table, and the size cap of stored bodies. *)
From S2P Require Import Prelude RStr Ip.

(** ** Dangerous environment variables *)
Definition DANGEROUS_ENVS : list string :=
  ["PATH"; "LD_PRELOAD"; "LD_LIBRARY_PATH"; "LD_AUDIT"; "DYLD_INSERT_LIBRARIES";
   "DYLD_LIBRARY_PATH"; "DYLD_FALLBACK_LIBRARY_PATH"; "PYTHONPATH"; "PYTHONHOME";
   "PYTHONSTARTUP"; "NODE_OPTIONS"; "NODE_PATH"; "RUBYOPT"; "RUBYLIB"; "PERL5OPT"; "PERL5LIB";
   "JAVA_TOOL_OPTIONS"; "_JAVA_OPTIONS"; "MallocPreloadClass"].

Definition is_dangerous_env (key : string) : bool :=
  let upper := to_ascii_uppercase key in
  if existsb (λ d, eq_ignore_ascii_case d upper) DANGEROUS_ENVS then true
  else starts_with upper "LD_" || starts_with upper "DYLD_".

(** ** Address classification *)
Definition is_private_or_local_v4 (v4 : Ipv4Addr) : bool :=
  if Ipv4.is_loopback v4 || Ipv4.is_link_local v4 || Ipv4.is_private v4
     || Ipv4.is_unspecified v4 then true
  else if ((oct0 v4 =? 100) && ((64 <=? oct1 v4) && (oct1 v4 <=? 127)))%Z then true
  else if Ipv4.is_multicast v4 || Ipv4.is_broadcast v4 then true
  else false.

(** The recursive call of the source is on the unwrapped IPv4 address only. *)
Definition is_private_or_local (ip : IpAddr) : bool :=
  match ip with
  | V4 v4 => is_private_or_local_v4 v4
  | V6 v6 =>
      if Ipv6.is_loopback v6 || Ipv6.is_unspecified v6 || Ipv6.is_multicast v6 then true
      else match Ipv6.to_ipv4_mapped v6 with
           | Some v4 => is_private_or_local_v4 v4
           | None =>
               if (Z.land (seg0 v6) 65472 =? 65152)%Z then true
               else if (Z.land (seg0 v6) 65024 =? 64512)%Z then true
               else false
           end
  end.

Definition is_always_blocked_v4 (v4 : Ipv4Addr) : bool :=
  Ipv4.is_link_local v4 || Ipv4.is_unspecified v4 || Ipv4.is_multicast v4 || Ipv4.is_broadcast v4.

Definition is_always_blocked (ip : IpAddr) : bool :=
  match ip with
  | V4 v4 => is_always_blocked_v4 v4
  | V6 v6 =>
      match Ipv6.to_ipv4_mapped v6 with
      | Some v4 => is_always_blocked_v4 v4
      | None =>
          Ipv6.is_unspecified v6 || Ipv6.is_multicast v6
          || (Z.land (seg0 v6) 65472 =? 65152)%Z
          || seg_list_eqb (segments v6) [64768; 3778; 0; 0; 0; 0; 0; 596]%Z
      end
  end.

(** ** The private-host allowlist *)
Definition host_char (c : ascii) : bool :=
  is_ascii_alphanumeric c || Ascii.eqb c "-" || Ascii.eqb c "." || Ascii.eqb c "_".

Definition normalize_allowed_host (entry : string) : option string :=
  let host := to_ascii_lowercase (trim_end_matches "." (trim entry)) in
  if String.eqb host "" || (match parse_ip host with Some _ => true | None => false end) then None
  else if negb (str_all host_char host) then None
  else Some host.

(** ** Escaping *)

(** The control characters other than tab, carriage return and line feed. *)
Definition control_code (ch : string) : option Z :=
  match ch with
  | String c EmptyString =>
      if ((byte_of c <? 32) || (byte_of c =? 127))%Z then Some (byte_of c) else None
  | _ => None
  end.
Definition tab : ascii := ascii_of_Z 9.

(** One iteration of the loop body: what is pushed, and what is added to [written]. *)
Definition escape_char (ch : string) : string * Z :=
  if String.eqb ch (single cr) then ("\r", 2%Z)
  else if String.eqb ch (single lf) then ("\n", 2%Z)
  else if String.eqb ch (single tab) then (single tab, 1%Z)
  else match control_code ch with
       | Some u => ("\u" +:+ hex4 u, 6%Z)
       | None => (ch, zlen ch)
       end.

Definition truncated_marker : string := "…[truncated]".

Fixpoint sanitize_go (cs : list string) (written : Z) : string :=
  match cs with
  | [] => EmptyString
  | c :: cs' =>
      if (4096 <? written + 6)%Z then truncated_marker
      else let (out, n) := escape_char c in out +:+ sanitize_go cs' (written + n)%Z
  end.
Definition sanitize_for_log (s : string) : string := sanitize_go (chars s) 0.

Definition sanitize_for_persistence (s : string) : string :=
  concat_str ((λ c, (escape_char c).1) <$> chars s).

(** ** Size cap of stored bodies *)
Fixpoint floor_loop (s : string) (idx : nat) : nat :=
  if is_char_boundary s idx then idx
  else match idx with 0 => 0 | S i => floor_loop s i end.
Definition char_boundary_floor (s : string) (idx : nat) : nat :=
  if slen s <=? idx then slen s else floor_loop s idx.

(** The loop stops at [s.len()] at the latest, hence the fuel. *)
Fixpoint ceil_loop (fuel : nat) (s : string) (idx : nat) : nat :=
  if is_char_boundary s idx then idx
  else match fuel with 0 => idx | S fuel' => ceil_loop fuel' s (S idx) end.
Definition char_boundary_ceil (s : string) (idx : nat) : nat :=
  if slen s <=? idx then slen s else ceil_loop (slen s - idx) s idx.

Definition cut_marker (truncated : nat) : string :=
  single lf +:+ "… [" +:+ pretty truncated +:+ " bytes truncated] …" +:+ single lf.

Definition truncate_response_body (s : string) (max : Z) : string :=
  let clean := sanitize_for_persistence s in
  if (zlen clean <=? max)%Z then clean
  else
    let half := Z.to_nat (max / 2) in
    let head_end := char_boundary_floor clean half in
    let tail_start := char_boundary_ceil clean (slen clean - half) in
    let truncated := slen clean - (head_end + (slen clean - tail_start)) in
    stake head_end clean +:+ cut_marker truncated +:+ sdrop tail_start clean.

(** ** Client hash for log lines *)
Section client_hash.
(** [sha2::Sha256::digest]. *)
Variable sha256 : string → list Z.

Definition short_client_hash (bytes : string) : string :=
  concat_str (hex2 false <$> take 4 (sha256 bytes)).
End client_hash.

(** ** Reference definitions *)

(** An IPv4 address as a 32-bit number, and membership of the block [base/len]. *)
Definition ipv4_num (a : Ipv4Addr) : Z := oct0 a * 16777216 + oct1 a * 65536 + oct2 a * 256 + oct3 a.
Definition in_cidr (a : Ipv4Addr) (block : Ipv4Addr * Z) : bool :=
  (ipv4_num a / 2 ^ (32 - block.2) =? ipv4_num block.1 / 2 ^ (32 - block.2))%Z.

(** The blocks the SSRF guard refuses. *)
Definition refused_blocks : list (Ipv4Addr * Z) :=
  [(V4Addr 127 0 0 0, 8); (V4Addr 169 254 0 0, 16); (V4Addr 10 0 0 0, 8); (V4Addr 172 16 0 0, 12);
   (V4Addr 192 168 0 0, 16); (V4Addr 0 0 0 0, 32); (V4Addr 100 64 0 0, 10); (V4Addr 224 0 0 0, 4);
   (V4Addr 255 255 255 255, 32)]%Z.

(** Bytes a log line or a stored row may contain: no control byte other than a tab. *)
Definition clean_byte (c : ascii) : bool :=
  Ascii.eqb c tab || negb ((byte_of c <? 32) || (byte_of c =? 127))%Z.

(** Every character takes at most four bytes, as in valid UTF-8. *)
Definition utf8_chars (s : string) : Prop := Forall (λ ch, slen ch ≤ 4) (chars s).

(** ** Lemmas *)

Lemma always_blocked_v4_private v4 : is_always_blocked_v4 v4 = true → is_private_or_local_v4 v4 = true.
Proof.
  unfold is_always_blocked_v4, is_private_or_local_v4.
  destruct (Ipv4.is_link_local v4), (Ipv4.is_unspecified v4), (Ipv4.is_multicast v4),
    (Ipv4.is_broadcast v4), (Ipv4.is_loopback v4), (Ipv4.is_private v4); simpl; try done;
    by destruct (_ && _).
Qed.

(** The octets of a well-formed IPv4 address. *)
Definition octets_wf (a : Ipv4Addr) : Prop := Forall (λ o, 0 ≤ o < 256)%Z (octets a).

Ltac cidr_tac :=
  intros [a0 a1 a2 a3] Hwf; unfold octets_wf, octets in *; rewrite !Forall_cons in Hwf;
  destruct Hwf as (? & ? & ? & ? & _); unfold in_cidr, ipv4_num, Ipv4.is_multicast; cbn [fst snd oct0 oct1 oct2 oct3 forallb] in *;
  repeat match goal with |- context [(2 ^ ?e)%Z] =>
    let v := eval vm_compute in (2 ^ e)%Z in change (2 ^ e)%Z with v end;
  div_lia.

Lemma cidr_8 b : (0 ≤ b < 256)%Z →
  ∀ a, octets_wf a → in_cidr a (V4Addr b 0 0 0, 8%Z) = (oct0 a =? b)%Z.
Proof. intros ?. cidr_tac. Qed.
Lemma cidr_16 b c : (0 ≤ b < 256)%Z → (0 ≤ c < 256)%Z →
  ∀ a, octets_wf a → in_cidr a (V4Addr b c 0 0, 16%Z) = ((oct0 a =? b) && (oct1 a =? c))%Z.
Proof. intros ??. cidr_tac. Qed.
Lemma cidr_private_12 : ∀ a, octets_wf a →
  in_cidr a (V4Addr 172 16 0 0, 12%Z) = ((oct0 a =? 172) && ((16 <=? oct1 a) && (oct1 a <=? 31)))%Z.
Proof. cidr_tac. Qed.
Lemma cidr_nat_10 : ∀ a, octets_wf a →
  in_cidr a (V4Addr 100 64 0 0, 10%Z) = ((oct0 a =? 100) && ((64 <=? oct1 a) && (oct1 a <=? 127)))%Z.
Proof. cidr_tac. Qed.
Lemma cidr_multicast_4 : ∀ a, octets_wf a → in_cidr a (V4Addr 224 0 0 0, 4%Z) = Ipv4.is_multicast a.
Proof. cidr_tac. Qed.
Lemma cidr_32 z : (0 ≤ z < 256)%Z →
  ∀ a, octets_wf a → in_cidr a (V4Addr z z z z, 32%Z) = forallb (Z.eqb z) (octets a).
Proof. intros ?. cidr_tac. Qed.

Lemma always_blocked_private ip : is_always_blocked ip = true → is_private_or_local ip = true.
Proof.
  cut (negb (is_always_blocked ip) || is_private_or_local ip = true).
  { intros Ho Hb. by rewrite Hb in Ho. }
  destruct ip as [v4|v6]; simpl.
  - pose proof (always_blocked_v4_private v4). destruct (is_always_blocked_v4 v4); auto.
  - destruct (Ipv6.is_loopback v6), (Ipv6.is_unspecified v6), (Ipv6.is_multicast v6);
      rewrite ?orb_true_r; try done.
    destruct (Ipv6.to_ipv4_mapped v6) as [v4|]; simpl.
    { pose proof (always_blocked_v4_private v4). destruct (is_always_blocked_v4 v4); auto. }
    destruct (Z.land (seg0 v6) 65472 =? 65152)%Z; [done|]. simpl.
    destruct (seg_list_eqb (segments v6) _) eqn:Hs; [|done].
    apply bool_decide_eq_true in Hs. injection Hs as -> _. done.
Qed.

(** [is_always_blocked] is contained in [is_private_or_local] for every address, so no
    host outside the allowlist can reach an address that even a listed host may not. The
    repository pins this on thirteen sample addresses. *)
Theorem always_blocked_subset_private ip :
  negb (is_always_blocked ip) || is_private_or_local ip = true.
Proof. pose proof (always_blocked_private ip). destruct (is_always_blocked ip); auto. Qed.

(** On IPv4 addresses the SSRF guard is exactly membership of nine CIDR blocks. *)
Theorem private_v4_is_cidr_union v4 :
  ip_wf (V4 v4) → is_private_or_local (V4 v4) = existsb (in_cidr v4) refused_blocks.
Proof.
  simpl. intros Hwf. unfold refused_blocks. cbn [existsb].
  rewrite !cidr_8, !cidr_16, cidr_private_12, cidr_nat_10, cidr_multicast_4, !cidr_32 by (done || lia).
  unfold is_private_or_local_v4, Ipv4.is_loopback, Ipv4.is_link_local, Ipv4.is_private,
    Ipv4.is_unspecified, Ipv4.is_broadcast.
  destruct (oct0 v4 =? 127)%Z, ((oct0 v4 =? 169)%Z && _), (oct0 v4 =? 10)%Z,
    ((oct0 v4 =? 172)%Z && _), ((oct0 v4 =? 192)%Z && _), (forallb (Z.eqb 0) _),
    ((oct0 v4 =? 100)%Z && _), (Ipv4.is_multicast v4), (forallb (Z.eqb 255) _); done.
Qed.

Lemma private_v4_is_cidr_union_witness :
  ip_wf (V4 (V4Addr 172 31 255 1)) ∧
  is_private_or_local (V4 (V4Addr 172 31 255 1)) = existsb (in_cidr (V4Addr 172 31 255 1)) refused_blocks.
Proof.
  assert (ip_wf (V4 (V4Addr 172 31 255 1))) as H by (repeat constructor; simpl; lia).
  split; [exact H|]. exact (private_v4_is_cidr_union _ H).
Defined.

(** The documentation ranges that the comment of [is_private_or_local] lists as
    included are not refused. *)
Theorem documentation_ranges_are_not_refused d :
  is_private_or_local (V4 (V4Addr 192 0 2 d)) = false ∧
  is_private_or_local (V4 (V4Addr 198 51 100 d)) = false ∧
  is_private_or_local (V4 (V4Addr 203 0 113 d)) = false.
Proof. split_and!; reflexivity. Qed.

(** ** Environment variables *)

#[export] Instance is_dangerous_env_proper : Proper (same_ascii_case ==> eq) is_dangerous_env.
Proof. intros a b Hab%uppercase_proper. unfold is_dangerous_env. by rewrite Hab. Qed.

(** The blacklist refuses exactly the listed names and the two prefixes, whatever the
    case of their letters. *)
Theorem is_dangerous_env_spec key :
  is_dangerous_env key = true ↔
  (∃ d, d ∈ DANGEROUS_ENVS ∧ same_ascii_case d key) ∨
  (∃ rest, to_ascii_uppercase key = "LD_" +:+ rest) ∨
  (∃ rest, to_ascii_uppercase key = "DYLD_" +:+ rest).
Proof.
  assert (existsb (λ d, eq_ignore_ascii_case d (to_ascii_uppercase key)) DANGEROUS_ENVS = true ↔
          ∃ d, d ∈ DANGEROUS_ENVS ∧ same_ascii_case d key) as Hlist.
  { rewrite existsb_exists. unfold eq_ignore_ascii_case, same_ascii_case.
    setoid_rewrite String.eqb_eq. rewrite lowercase_uppercase.
    by setoid_rewrite <- list_elem_of_In. }
  unfold is_dangerous_env. rewrite <- !starts_with_iff, <- Hlist.
  destruct (existsb _ _); [tauto|]. rewrite orb_true_iff. intuition congruence.
Qed.

(** ** Escaping *)

Lemma escape_char_length ch : zlen (escape_char ch).1 = (escape_char ch).2.
Proof.
  unfold escape_char.
  destruct (String.eqb ch (single cr)), (String.eqb ch (single lf)), (String.eqb ch (single tab)),
    (control_code ch); done.
Qed.

Lemma single_app c s : single c +:+ s = String c s.
Proof. done. Qed.

(** A byte is either escaped, or clean and left alone. *)
Lemma escape_ascii c :
  let out := (escape_char (single c)).1 in
  str_all clean_byte out = true ∧ (0 < zlen out ≤ 6)%Z ∧ (clean_byte c = true → out = single c).
Proof. revert c. intros [[] [] [] [] [] [] [] []]; vm_compute; intuition (congruence || lia). Qed.

Lemma non_ascii_clean ch : non_ascii ch = true → str_all clean_byte ch = true.
Proof.
  apply str_all_impl. intros c. unfold clean_byte, is_ascii_byte.
  destruct (Ascii.eqb c tab); simpl; [done|]. lia.
Qed.

Lemma escape_non_ascii ch : non_ascii ch = true → ch ≠ EmptyString → (escape_char ch).1 = ch.
Proof.
  intros Hna Hne. destruct ch as [|c ch]; [done|].
  assert (∀ d, is_ascii_byte d = true → String.eqb (String c ch) (single d) = false) as Hd.
  { intros d Hd. apply String.eqb_neq. unfold single. intros [= -> ->].
    unfold non_ascii in Hna. simpl in Hna. by rewrite Hd in Hna. }
  unfold escape_char. rewrite !Hd by done. unfold control_code. destruct ch; [|done].
  unfold non_ascii, is_ascii_byte in Hna. cbn [str_all] in Hna.
  destruct ((_ <? 32)%Z || _) eqn:?; [lia|done].
Qed.

Lemma escape_char_clean ch : char_shape ch → str_all clean_byte (escape_char ch).1 = true.
Proof.
  intros [(c & -> & _)|[Hna Hne]]; [apply escape_ascii|].
  rewrite escape_non_ascii by done. by apply non_ascii_clean.
Qed.

Lemma escape_char_fixed ch :
  char_shape ch → str_all clean_byte ch = true → (escape_char ch).1 = ch.
Proof.
  intros [(c & -> & _)|[Hna Hne]] Hcl; [|by apply escape_non_ascii].
  apply escape_ascii. simpl in Hcl. by rewrite andb_true_r in Hcl.
Qed.

Lemma escape_chars_clean l :
  Forall char_shape l → str_all clean_byte (concat_str ((λ c, (escape_char c).1) <$> l)) = true.
Proof.
  intros Hl. induction Hl as [|ch l Hc Hl IH]; [done|]. cbn.
  by rewrite str_all_app, escape_char_clean, IH.
Qed.

Lemma sanitize_go_clean l w : Forall char_shape l → str_all clean_byte (sanitize_go l w) = true.
Proof.
  intros Hl. revert w. induction Hl as [|ch l Hc Hl IH]; intros w; [done|]. cbn [sanitize_go].
  destruct (4096 <? w + 6)%Z; [done|]. pose proof (escape_char_clean ch Hc) as He.
  destruct (escape_char ch) as [out n]. cbn [fst] in He. by rewrite str_all_app, He, IH.
Qed.

Lemma sanitize_for_log_clean s : str_all clean_byte (sanitize_for_log s) = true.
Proof. apply sanitize_go_clean, chars_shape. Qed.

Lemma sanitize_clean_id s : str_all clean_byte s = true → sanitize_for_persistence s = s.
Proof.
  unfold sanitize_for_persistence. rewrite <- (chars_concat s) at 1 3.
  pose proof (chars_shape s) as Hl. rewrite str_all_concat. revert Hl.
  induction (chars s) as [|ch l IH]; [done|].
  intros [Hc Hl]%Forall_cons_1 [Hch Hrest]%andb_true_iff. cbn.
  by rewrite escape_char_fixed, IH.
Qed.

Lemma sanitize_for_persistence_clean s : str_all clean_byte (sanitize_for_persistence s) = true.
Proof. apply escape_chars_clean, chars_shape. Qed.

(** What is persisted contains no control byte except tabs; text without such bytes is
    persisted unchanged, hence escaping twice changes nothing. *)
Theorem sanitize_for_persistence_spec s :
  str_all clean_byte (sanitize_for_persistence s) = true ∧
  (sanitize_for_persistence s = s ↔ str_all clean_byte s = true) ∧
  sanitize_for_persistence (sanitize_for_persistence s) = sanitize_for_persistence s.
Proof.
  pose proof (sanitize_for_persistence_clean s) as Hc. split_and!; [done| |by apply sanitize_clean_id].
  split; [by intros <-|apply sanitize_clean_id].
Qed.

(** The loop of [sanitize_for_log] from [written] bytes: everything, or a prefix within
    the cap and the marker. *)
Lemma sanitize_go_spec l w :
  Forall char_shape l → Forall (λ ch, slen ch ≤ 4) l → (w ≤ 4096)%Z →
  let full := concat_str ((λ c, (escape_char c).1) <$> l) in
  (sanitize_go l w = full ∧ (w + zlen full ≤ 4096)%Z) ∨
  (∃ a b, full = a +:+ b ∧ sanitize_go l w = a +:+ truncated_marker ∧
          b ≠ EmptyString ∧ (4090 < w + zlen a ≤ 4096)%Z).
Proof.
  intros Hs Hl. revert w. induction Hl as [|ch l Hc Hl IH]; intros w Hw; [left; by rewrite Z.add_0_r|].
  apply Forall_cons_1 in Hs as [Hch Hs]. specialize (IH Hs). cbn [fmap list_fmap concat_str sanitize_go].
  pose proof (escape_char_length ch) as Hlen.
  assert (0 < zlen (escape_char ch).1 ≤ 6)%Z as Hout.
  { destruct Hch as [(c & -> & _)|[Hna Hne]]; [apply escape_ascii|].
    rewrite escape_non_ascii by done. destruct ch; [done|]. unfold zlen. rewrite slen_cons in *. lia. }
  destruct (Z.ltb_spec 4096 (w + 6)).
  { right. exists EmptyString. eexists. rewrite !sapp_nil_l, Z.add_0_r. split_and!; [done..|  |lia|done].
    destruct (escape_char ch) as [[|c o] ?]; [by destruct Hout|done]. }
  destruct (escape_char ch) as [out n]. cbn [fst snd] in *. subst n.
  destruct (IH (w + zlen out)%Z) as [[-> Hb]|(a & b & Hab & -> & Hb & Hr)]; [lia|left|right].
  - split; [done|]. rewrite zlen_app. lia.
  - exists (out +:+ a), b. rewrite Hab, !sapp_assoc, zlen_app. split_and!; try done; lia.
Qed.

(** A log line is the escaped text, or a prefix of it of 4091 to 4096 bytes and the
    truncation marker; either way it has at most 4110 bytes and no control byte but tabs. *)
Theorem sanitize_for_log_bounded s :
  utf8_chars s →
  str_all clean_byte (sanitize_for_log s) = true ∧
  (zlen (sanitize_for_log s) ≤ 4096 + zlen truncated_marker)%Z ∧
  ((sanitize_for_log s = sanitize_for_persistence s ∧ zlen (sanitize_for_persistence s) ≤ 4096)%Z ∨
   (∃ a b, sanitize_for_persistence s = a +:+ b ∧ b ≠ EmptyString ∧
           sanitize_for_log s = a +:+ truncated_marker ∧ (4090 < zlen a ≤ 4096)%Z)).
Proof.
  intros Hu. pose proof (sanitize_for_persistence_clean s) as Hc.
  pose proof (zlen_nonneg truncated_marker) as Hm.
  destruct (sanitize_go_spec (chars s) 0 (chars_shape s) Hu) as [[He Hl]|(a & b & Hab & He & Hb & Hr)];
    [lia|unfold sanitize_for_log; rewrite He; fold (sanitize_for_persistence s) in *..].
  - split_and!; [done|lia|]. left. by split.
  - rewrite Hab in Hc |- *. rewrite str_all_app in Hc. apply andb_true_iff in Hc as [Hca _].
    rewrite str_all_app, Hca, zlen_app. split_and!; [done|lia|]. right. by exists a, b.
Qed.

Lemma sanitize_for_log_bounded_witness :
  utf8_chars ("ab" +:+ single cr +:+ single lf +:+ "ä") ∧
  (zlen (sanitize_for_log ("ab" +:+ single cr +:+ single lf +:+ "ä")) ≤ 4096 + zlen truncated_marker)%Z.
Proof.
  assert (utf8_chars ("ab" +:+ single cr +:+ single lf +:+ "ä")) as H.
  { unfold utf8_chars. apply (bool_decide_eq_true_1 _). vm_compute. reflexivity. }
  split; [exact H|]. exact (proj1 (proj2 (sanitize_for_log_bounded _ H))).
Defined.

(** ** Size cap *)

Lemma floor_loop_spec s i : is_char_boundary s (floor_loop s i) = true ∧ floor_loop s i ≤ i.
Proof.
  induction i as [|i IH]; cbn [floor_loop]; [by rewrite is_char_boundary_0|].
  destruct (is_char_boundary s (S i)) eqn:Hb; [done|]. destruct IH. split; [done|lia].
Qed.

(** The upward scan ends at a boundary because [s.len()] is one. *)
Lemma ceil_loop_spec fuel s i :
  i ≤ slen s → slen s ≤ i + fuel →
  is_char_boundary s (ceil_loop fuel s i) = true ∧ i ≤ ceil_loop fuel s i ≤ slen s.
Proof.
  revert i. induction fuel as [|fuel IH]; intros i Hi Hf; cbn [ceil_loop].
  { assert (i = slen s) as -> by lia. rewrite is_char_boundary_len. split; [apply is_char_boundary_len|lia]. }
  destruct (is_char_boundary s i) eqn:Hb; [split; [done|lia]|].
  assert (i ≠ slen s) by (intros ->; by rewrite is_char_boundary_len in Hb).
  destruct (IH (S i)); [lia..|]. split; [done|lia].
Qed.

Lemma char_boundary_floor_spec s i :
  is_char_boundary s (char_boundary_floor s i) = true ∧ char_boundary_floor s i ≤ i ∧
  char_boundary_floor s i ≤ slen s.
Proof.
  unfold char_boundary_floor. destruct (Nat.leb_spec (slen s) i).
  - split_and!; [apply is_char_boundary_len|done..].
  - destruct (floor_loop_spec s i). split_and!; [done|done|lia].
Qed.

Lemma char_boundary_ceil_spec s i :
  is_char_boundary s (char_boundary_ceil s i) = true ∧
  (i ≤ slen s → i ≤ char_boundary_ceil s i) ∧ char_boundary_ceil s i ≤ slen s.
Proof.
  unfold char_boundary_ceil. destruct (Nat.leb_spec (slen s) i).
  - split_and!; [apply is_char_boundary_len|done..].
  - destruct (ceil_loop_spec (slen s - i) s i); [lia..|]. split_and!; [done|lia..].
Qed.

(** A stored body is the escaped text when it fits the cap; otherwise it is a head
    and a tail of it, each within half of the cap and cut at character boundaries,
    around a marker that counts exactly the bytes left out. *)
Theorem truncate_response_body_spec s max :
  (0 ≤ max)%Z →
  let clean := sanitize_for_persistence s in
  if (zlen clean <=? max)%Z then truncate_response_body s max = clean
  else ∃ head mid tail,
    clean = head +:+ mid +:+ tail ∧
    truncate_response_body s max = head +:+ cut_marker (slen mid) +:+ tail ∧
    (zlen head ≤ max / 2)%Z ∧ (zlen tail ≤ max / 2)%Z ∧
    is_char_boundary clean (slen head) = true ∧
    is_char_boundary clean (slen head + slen mid) = true.
Proof.
  intros Hmax clean. unfold truncate_response_body. fold clean.
  destruct (Z.leb_spec (zlen clean) max) as [|Hlong]; [done|].
  assert (0 ≤ max / 2)%Z as Hpos by div_lia.
  set (half := Z.to_nat (max / 2)).
  assert (half + half ≤ slen clean ∧ Z.of_nat half = (max / 2)%Z) as [Hhalf Hz]
    by (unfold half, zlen in *; div_lia).
  clearbody half.
  destruct (char_boundary_floor_spec clean half) as (Hb1 & Hf & _).
  destruct (char_boundary_ceil_spec clean (slen clean - half)) as (Hb2 & Hc & Hcl).
  specialize (Hc ltac:(lia)).
  set (h := char_boundary_floor clean half) in *.
  set (t := char_boundary_ceil clean (slen clean - half)) in *.
  assert (slen (stake h clean) = h) as Hh by (rewrite slen_stake; lia).
  assert (slen (stake (t - h) (sdrop h clean)) = t - h) as Hm by (rewrite slen_stake, slen_sdrop; lia).
  exists (stake h clean), (stake (t - h) (sdrop h clean)), (sdrop t clean).
  unfold zlen. rewrite Hh, Hm, slen_sdrop. split_and!.
  - apply split_three. lia.
  - by replace (slen clean - (h + (slen clean - t))) with (t - h) by lia.
  - lia.
  - lia.
  - done.
  - by replace (h + (t - h)) with t by lia.
Qed.

Lemma truncate_response_body_spec_witness :
  (0 ≤ 18)%Z ∧ ∃ head mid tail,
    "0123456789äöü0123456789" = head +:+ mid +:+ tail ∧
    truncate_response_body "0123456789äöü0123456789" 18 = head +:+ cut_marker (slen mid) +:+ tail.
Proof.
  split; [lia|].
  destruct (truncate_response_body_spec "0123456789äöü0123456789" 18 ltac:(lia))
    as (head & mid & tail & Hs & Ht & _).
  exists head, mid, tail. split; [exact Hs|exact Ht].
Defined.

(** ** The allowlist *)

Lemma host_char_ascii c : host_char c = true → is_ascii_byte c = true.
Proof. revert c. byte_cases. Qed.
Lemma host_char_not_whitespace c : host_char c = true → is_whitespace (single c) = false.
Proof. revert c. byte_cases. Qed.
Lemma ascii_lower_dot c : Ascii.eqb "." (ascii_lower c) = Ascii.eqb "." c.
Proof. revert c. byte_cases. Qed.

Lemma trim_host s : str_all host_char s = true → trim s = s.
Proof.
  intros Hs. apply trim_no_whitespace.
  eapply Forall_impl; [exact (chars_all host_char s host_char_ascii Hs)|].
  intros ch (c & -> & Hc). by apply host_char_not_whitespace.
Qed.

Lemma trim_end_lower_idem s :
  let h := to_ascii_lowercase (trim_end_matches "." s) in trim_end_matches "." h = h.
Proof.
  cbv zeta. unfold trim_end_matches, to_ascii_lowercase. rewrite to_bytes_map, to_of_bytes.
  rewrite drop_while_end_fmap, of_bytes_fmap.
  rewrite (drop_while_end_ext _ (Ascii.eqb ".")) by apply ascii_lower_dot.
  by rewrite drop_while_end_idem.
Qed.

(** A usable entry is a non-empty host name in lower case without trailing dot, never
    an address literal, and normalising it again gives the same name. *)
Theorem normalize_allowed_host_canonical entry host :
  normalize_allowed_host entry = Some host →
  host ≠ "" ∧ str_all host_char host = true ∧ to_ascii_lowercase host = host ∧
  parse_ip host = None ∧ normalize_allowed_host host = Some host.
Proof.
  unfold normalize_allowed_host at 1.
  pose proof (trim_end_lower_idem (trim entry)) as Htr. cbv zeta in Htr |- *.
  pose proof (lowercase_idem (trim_end_matches "." (trim entry))) as Hlow.
  set (h := to_ascii_lowercase (trim_end_matches "." (trim entry))) in *.
  destruct (String.eqb_spec h "") as [|Hne]; simpl; [done|].
  destruct (parse_ip h) eqn:Hip; [done|].
  destruct (str_all host_char h) eqn:Hall; simpl; [|done]. intros [= <-].
  split_and!; try done. unfold normalize_allowed_host.
  rewrite trim_host, Htr, Hlow, Hip, Hall by done. by destruct (String.eqb_spec h "").
Qed.

Lemma normalize_allowed_host_canonical_witness :
  normalize_allowed_host " Ruuter-Internal. " = Some "ruuter-internal" ∧
  normalize_allowed_host "ruuter-internal" = Some "ruuter-internal".
Proof.
  assert (normalize_allowed_host " Ruuter-Internal. " = Some "ruuter-internal") as H by (vm_compute; reflexivity).
  split; [exact H|]. exact (proj2 (proj2 (proj2 (proj2 (normalize_allowed_host_canonical _ _ H))))).
Defined.
