(* ===== verification/Dsl.v ===== *)
(** * DSL types (src/dsl/mod.rs)

    The types the loader, the scheduler and the executors share. A [Duration] is its
    milliseconds, a [u32], [i64] or [u64] field a [Z]. *)
From S2P Require Import Prelude RStr.

Record JobKey := mkJobKey { group : string; name : string }.

#[export] Instance JobKey_eq_dec : EqDecision JobKey.
Proof. solve_decision. Defined.
#[export] Program Instance JobKey_countable : Countable JobKey :=
  inj_countable' (λ k, (group k, name k)) (λ '(g, n), mkJobKey g n) _.
Next Obligation. by intros []. Qed.

Inductive Trigger := Cron (expr : string) | Manual.

Record TimeWindow := mkTimeWindow { start_ms : option Z; end_ms : option Z }.
Definition TimeWindow_default : TimeWindow := mkTimeWindow None None.

(** [TimeWindow::allows]. *)
Definition allows (w : TimeWindow) (now_ms : Z) : bool :=
  if match start_ms w with Some s => (now_ms <? s)%Z | None => false end then false
  else if match end_ms w with Some e => (e <? now_ms)%Z | None => false end then false
  else true.

Record RetryPolicy := mkRetryPolicy { count : Z; delay : Z; ignore_failures : bool }.
Definition RetryPolicy_default : RetryPolicy := mkRetryPolicy 0 1000 false.

Inductive HeaderSource := Literal (v : string) | EnvVar (var : string).
Record HttpHeader := mkHttpHeader { header_name : string; source : HeaderSource }.

Inductive JobKind :=
  | Http (method url : string) (headers : list HttpHeader)
  | Exec (argv allowed_envs : list string).

(** [JobKind::exec_command_display] and [JobKind::type_label]. *)
Definition exec_command_display (k : JobKind) : option string :=
  match k with Exec argv _ => Some (join " " argv) | _ => None end.
Definition type_label (k : JobKind) : string :=
  match k with Http _ _ _ => "http" | Exec _ _ => "exec" end.

Record JobSpec := mkJobSpec
  { key : JobKey; trigger : Trigger; window : TimeWindow; retry : RetryPolicy; kind : JobKind }.

Record LoadedJob := mkLoadedJob { spec : JobSpec; source_path : string }.

#[export] Instance Trigger_eq_dec : EqDecision Trigger.
Proof. solve_decision. Defined.
#[export] Instance TimeWindow_eq_dec : EqDecision TimeWindow.
Proof. solve_decision. Defined.
#[export] Instance RetryPolicy_eq_dec : EqDecision RetryPolicy.
Proof. solve_decision. Defined.
#[export] Instance HeaderSource_eq_dec : EqDecision HeaderSource.
Proof. solve_decision. Defined.
#[export] Instance HttpHeader_eq_dec : EqDecision HttpHeader.
Proof. solve_decision. Defined.
#[export] Instance JobKind_eq_dec : EqDecision JobKind.
Proof. solve_decision. Defined.
#[export] Instance JobSpec_eq_dec : EqDecision JobSpec.
Proof. solve_decision. Defined.

(** ** Lemmas *)

Lemma allows_iff w now :
  allows w now = true ↔
  (∀ s, start_ms w = Some s → s ≤ now)%Z ∧ (∀ e, end_ms w = Some e → now ≤ e)%Z.
Proof.
  unfold allows. destruct (start_ms w) as [s|], (end_ms w) as [e|]; split.
  all: try (intros [Hs He]; try specialize (Hs _ eq_refl); try specialize (He _ eq_refl);
            repeat (case_match; try lia); done).
  all: intros H; repeat (case_match; try done); split; intros ? [= <-]; lia.
Qed.

#[export] Hint Rewrite allows_iff : cron.
