(* ===== verification/SecurityTests.v ===== *)
(** * The unit tests of src/security.rs

    Each test of the source as a function to [bool], with the assertions it makes. That all
    of them hold of the model ties it to what its authors expect of the code. SHA-256, which
    is a parameter of [short_client_hash], is here the function of FIPS 180-4. *)
From S2P Require Import Prelude RStr Ip Security.

(** The bytes that a Rust string literal escapes. *)
Definition byte (z : Z) : string := single (ascii_of_Z z).
Definition crlf : string := byte 13 +:+ byte 10.
Fixpoint repeat_str (s : string) (n : nat) : string := match n with 0 => "" | S n => s +:+ repeat_str s n end.

(** [ip.parse().unwrap()] of each, and the test. *)
Definition for_ips (p : IpAddr → bool) (l : list string) : bool :=
  forallb (λ s, match parse_ip s with Some ip => p ip | None => false end) l.
Definition v4 (a b c d : Z) : IpAddr := V4 (V4Addr a b c d).
Definition v6 (a b c d e f g h : Z) : IpAddr := V6 (V6Addr a b c d e f g h).

Definition dangerous_env_matches_exact_names : bool := forallb is_dangerous_env ["PATH"; "path"; "PythonHome"; "NODE_OPTIONS"].
Definition dangerous_env_covers_ld_and_dyld_prefixes : bool := forallb is_dangerous_env ["LD_PRELOAD"; "LD_ANYTHING"; "DYLD_ANYTHING"].
Definition dangerous_env_ignores_unrelated_vars : bool := forallb (λ v, negb (is_dangerous_env v)) ["LDPRELOAD"; "HELLO"; "MY_LD_HOOK"].

Definition ip_ranges_ipv4_private_blocked : bool :=
  for_ips is_private_or_local ["127.0.0.1"; "169.254.169.254"; "10.0.0.1"; "172.16.0.1"; "192.168.1.1"; "100.64.0.1";
    "0.0.0.0"; "224.0.0.1"; "255.255.255.255"].
Definition ip_ranges_ipv4_public_allowed : bool :=
  for_ips (λ ip, negb (is_private_or_local ip)) ["1.1.1.1"; "8.8.8.8"; "142.250.190.14"].
Definition ip_ranges_ipv6_private_blocked : bool :=
  for_ips is_private_or_local ["::1"; "fe80::1"; "fd00::1"; "::"; "ff02::1"; "::ffff:169.254.0.1"; "::ffff:10.0.0.1"; "::ffff:127.0.0.1"].
Definition ip_ranges_ipv6_public_allowed : bool :=
  for_ips (λ ip, negb (is_private_or_local ip)) ["2001:4860:4860::8888"; "2606:4700:4700::1111"].
Definition ip_ranges_all_ipv4_variants_use_std_flags : bool :=
  is_private_or_local (v4 0 0 0 0) && is_private_or_local (v6 0 0 0 0 0 0 0 1).

Definition sanitize_strips_crlf : bool :=
  let out := sanitize_for_log ("hello" +:+ crlf +:+ "CRIT: pwned" +:+ crlf) in
  negb (contains out (byte 13)) && negb (contains out (byte 10)) && contains out "\r\n".
Definition sanitize_strips_ansi_escape : bool :=
  negb (contains (sanitize_for_log (byte 27 +:+ "[2Jhello")) (byte 27)).
Definition sanitize_strips_null_and_del : bool :=
  let out := sanitize_for_log ("a" +:+ byte 0 +:+ "b" +:+ byte 127 +:+ "c") in
  negb (contains out (byte 0)) && negb (contains out (byte 127)) && contains out "a" && contains out "b" && contains out "c".
Definition sanitize_keeps_tab_and_utf8 : bool :=
  let out := sanitize_for_log ("a" +:+ byte 9 +:+ "bä") in contains out (byte 9) && contains out "ä".
Definition sanitize_caps_at_4kib : bool :=
  let out := sanitize_for_log (repeat_str "A" (Z.to_nat 10000)) in
  (zlen out <=? 4096 + zlen "…[truncated]")%Z && contains out "…[truncated]".

Definition truncate_body_leaves_small_strings_untouched : bool :=
  String.eqb (truncate_response_body "hi" 100) "hi" && String.eqb (truncate_response_body "" 10) "".
Definition truncate_body_keeps_head_and_tail_with_marker : bool :=
  let out := truncate_response_body (repeat_str "x" 200) 100 in
  contains out "truncated" && starts_with out "xxxx" && String.eqb (sdrop (slen (trim out) - 1) (trim out)) "x" && (slen out <? 200).
(** Valid UTF-8: the lossy decoding changes nothing. *)
Definition truncate_body_never_splits_multibyte : bool :=
  let out := truncate_response_body (repeat_str "ä" 100) 100 in String.eqb (from_utf8_lossy out) out.
Definition truncate_response_body_escapes_crlf_before_persist : bool :=
  let q := byte 34 in
  let out := truncate_response_body ("line1" +:+ crlf +:+ "{" +:+ q +:+ "level" +:+ q +:+ ":" +:+ q +:+ "ERROR" +:+ q +:+ "," +:+
    q +:+ "msg" +:+ q +:+ ":" +:+ q +:+ "forged" +:+ q +:+ "}" +:+ crlf) 1024 in
  negb (contains out (byte 13)) && negb (contains out (byte 10)) && contains out "\r\n".
Definition truncate_response_body_escapes_ansi_before_persist : bool :=
  let out := truncate_response_body (byte 27 +:+ "[2Jbenign_text") 1024 in
  negb (contains out (byte 27)) && contains out "\u001b" && contains out "benign_text".
Definition truncate_response_body_escapes_null_and_del_before_persist : bool :=
  let out := truncate_response_body ("a" +:+ byte 0 +:+ "b" +:+ byte 127 +:+ "c") 1024 in
  negb (contains out (byte 0)) && negb (contains out (byte 127)) && contains out "\u0000" && contains out "\u007f".
Definition sanitize_for_persistence_leaves_utf8_and_tab_intact : bool :=
  let s := "hello" +:+ byte 9 +:+ "world äöü 🚀" in String.eqb (sanitize_for_persistence s) s.

Definition normalizes_to (s : string) (r : option string) : bool := bool_decide (normalize_allowed_host s = r).
Definition is_none {A} (o : option A) : bool := match o with None => true | Some _ => false end.
Definition normalize_allowed_host_accepts_plain_hostnames : bool :=
  normalizes_to " Ruuter-Internal. " (Some "ruuter-internal") && normalizes_to "svc.ns.svc.cluster.local" (Some "svc.ns.svc.cluster.local").
Definition normalize_allowed_host_rejects_non_hostnames : bool :=
  forallb (λ bad, is_none (normalize_allowed_host bad))
    [""; "  "; "10.0.0.1"; "::1"; "[::1]"; "ruuter-internal:8080"; "http://ruuter-internal"; "ruuter internal"; "user@ruuter-internal"].
Definition normalize_allowed_host_rejects_sneaky_variants : bool :=
  forallb (λ bad, is_none (normalize_allowed_host bad))
    ["*"; "*.svc.cluster.local"; "."; ".."; "svc" +:+ byte 0 +:+ ".local"; "svc" +:+ byte 127 +:+ "local";
     "svc" +:+ bytes_str [194; 160]%Z +:+ "local"; "svc" +:+ byte 9 +:+ "local"; "ruuter-internal/.."; "ruuter-internal?x";
     "ruuter-internal#frag"; "ruuter-internal%2Eevil"; "ruuter+internal"; "ruuter&internal"].
(** U+00A0, U+2028 and U+3000. *)
Definition normalize_allowed_host_rejects_unicode_whitespace : bool :=
  forallb (λ ws, is_none (normalize_allowed_host ("ruuter" +:+ bytes_str ws +:+ "internal")))
    [[194; 160]; [226; 128; 168]; [227; 128; 128]]%Z.
Definition normalize_allowed_host_accepts_rfc1035_plus_underscore : bool :=
  forallb (λ good, negb (is_none (normalize_allowed_host good)))
    ["ruuter-internal"; "svc1.ns.svc.cluster.local"; "service_v2.ns.svc.cluster.local"; "a"; "a-b-c-1-2-3"; "_tcp.svc.local"].

Definition always_blocked_covers_metadata_not_cluster_ranges : bool :=
  is_always_blocked (v4 169 254 169 254) && is_always_blocked (v6 0xfd00 0xec2 0 0 0 0 0 0x254) &&
  negb (is_always_blocked (v4 10 0 0 1)) && negb (is_always_blocked (v6 0xfd00 0xec2 0 0 0 0 0 0x253)).
Definition always_blocked_is_subset_of_private_or_local : bool :=
  forallb (λ ip, is_always_blocked ip && is_private_or_local ip)
    [v4 169 254 0 1; v4 169 254 169 254; v4 169 254 170 2; v4 0 0 0 0; v4 224 0 0 1; v4 239 255 255 250; v4 255 255 255 255;
     v6 0 0 0 0 0 0 0 0; v6 0xfe80 0 0 0 0 0 0 1; v6 0xfebf 0 0 0 0 0 0 1; v6 0xff02 0 0 0 0 0 0 1;
     v6 0xfd00 0xec2 0 0 0 0 0 0x254; v6 0 0 0 0 0 0xffff 0xa9fe 0xa9fe].
Definition allowlist_actually_opens_something : bool :=
  forallb (λ ip, is_private_or_local ip && negb (is_always_blocked ip))
    [v4 10 0 0 1; v4 172 16 0 1; v4 192 168 1 1; v4 127 0 0 1; v4 100 64 0 1; v6 0xfd12 0 0 0 0 0 0 1; v6 0 0 0 0 0 0 0 1].

(** ** [short_client_hash] *)
Module Sha256.
(** 32-bit words, as integers below [2 ^ 32]. *)
Definition add32 (a b : Z) : Z := Z.land (a + b) 0xffffffff.
Definition rotr (n x : Z) : Z := Z.land (Z.lor (Z.shiftr x n) (Z.shiftl x (32 - n))) 0xffffffff.
Definition not32 (x : Z) : Z := Z.lxor x 0xffffffff.

(** The constants are the fractions of cube and square roots of primes: the first 32 bits. *)
Definition primes (n : nat) : list Z := (λ p, Z.of_nat p) <$> take n (List.filter (λ p, forallb (λ q, negb (p mod q =? 0)) (seq 2 (p - 2))) (seq 2 311)).
(** The largest [r] below [2 ^ bits] above [lo] with [r ^ 3 <= x]. *)
Fixpoint cube_root (bits : nat) (lo x : Z) : Z :=
  match bits with
  | 0 => lo
  | S bits => let r := (lo + 2 ^ Z.of_nat bits)%Z in cube_root bits (if (r * r * r <=? x)%Z then r else lo) x
  end.
Definition constants : list Z := (λ p, Z.land (cube_root 36 0 (Z.shiftl p 96)) 0xffffffff) <$> primes 64.
Definition initial : list Z := (λ p, Z.land (Z.sqrt (Z.shiftl p 64)) 0xffffffff) <$> primes 8.

(** The message schedule, latest word first. *)
Definition next_word (w : list Z) : Z :=
  let at_ i := default 0%Z (w !! i) in
  let s0 := let x := at_ 14 in Z.lxor (Z.lxor (rotr 7 x) (rotr 18 x)) (Z.shiftr x 3) in
  let s1 := let x := at_ 1 in Z.lxor (Z.lxor (rotr 17 x) (rotr 19 x)) (Z.shiftr x 10) in
  add32 (add32 (at_ 15) s0) (add32 (at_ 6) s1).
Definition schedule (block : list Z) : list Z := rev (Nat.iter 48 (λ w, next_word w :: w) (rev block)).
Definition round (h : list Z) (kw : Z * Z) : list Z :=
  match h with
  | [a; b; c; d; e; f; g; h] =>
      let s1 := Z.lxor (Z.lxor (rotr 6 e) (rotr 11 e)) (rotr 25 e) in
      let ch := Z.lxor (Z.land e f) (Z.land (not32 e) g) in
      let t1 := add32 (add32 h s1) (add32 ch (add32 kw.1 kw.2)) in
      let s0 := Z.lxor (Z.lxor (rotr 2 a) (rotr 13 a)) (rotr 22 a) in
      let maj := Z.lxor (Z.lxor (Z.land a b) (Z.land a c)) (Z.land b c) in
      [add32 t1 (add32 s0 maj); a; b; c; add32 d t1; e; f; g]
  | _ => h
  end.
Definition compress (h block : list Z) : list Z := zip_with add32 h (foldl round h (zip constants (schedule block))).

(** Padding to whole blocks of sixteen words. *)
Definition big_endian (n : nat) (z : Z) : list Z := (λ i, Z.land (Z.shiftr z (8 * Z.of_nat i)) 255) <$> rev (seq 0 n).
Definition pad (bytes : list Z) : list Z :=
  let n := length bytes in
  bytes ++ [128%Z] ++ replicate ((119 - n mod 64) mod 64) 0%Z ++ big_endian 8 (8 * Z.of_nat n).
Fixpoint words (bytes : list Z) : list Z :=
  match bytes with a :: b :: c :: d :: rest => (a * 16777216 + b * 65536 + c * 256 + d)%Z :: words rest | _ => [] end.
Fixpoint blocks (n : nat) (w : list Z) : list (list Z) :=
  match n, w with S n, _ :: _ => take 16 w :: blocks n (drop 16 w) | _, _ => [] end.
Definition digest (s : string) : list Z :=
  let w := words (pad (byte_of <$> String.list_ascii_of_string s)) in
  foldl compress initial (blocks (length w) w) ≫= big_endian 4.
End Sha256.

Definition client_hash : string → string := short_client_hash Sha256.digest.
Definition short_client_hash_is_deterministic_and_8_chars : bool :=
  let a := client_hash "1.2.3.4" in
  (slen a =? 8) && String.eqb a (client_hash "1.2.3.4") && str_all is_ascii_hexdigit a.
Definition short_client_hash_distinguishes_different_inputs : bool :=
  negb (String.eqb (client_hash "10.0.0.1") (client_hash "10.0.0.2")) && negb (String.eqb (client_hash "::1") (client_hash "127.0.0.1")).
Definition short_client_hash_matches_expected_sha256_prefix : bool := String.eqb (client_hash "abc") "ba7816bf".

Definition security_tests : list bool :=
  [dangerous_env_matches_exact_names; dangerous_env_covers_ld_and_dyld_prefixes; dangerous_env_ignores_unrelated_vars;
   ip_ranges_ipv4_private_blocked; ip_ranges_ipv4_public_allowed; ip_ranges_ipv6_private_blocked; ip_ranges_ipv6_public_allowed;
   ip_ranges_all_ipv4_variants_use_std_flags; sanitize_strips_crlf; sanitize_strips_ansi_escape; sanitize_strips_null_and_del;
   sanitize_keeps_tab_and_utf8; sanitize_caps_at_4kib; truncate_body_leaves_small_strings_untouched;
   truncate_body_keeps_head_and_tail_with_marker; truncate_body_never_splits_multibyte;
   truncate_response_body_escapes_crlf_before_persist; truncate_response_body_escapes_ansi_before_persist;
   truncate_response_body_escapes_null_and_del_before_persist; sanitize_for_persistence_leaves_utf8_and_tab_intact;
   normalize_allowed_host_accepts_plain_hostnames; normalize_allowed_host_rejects_non_hostnames;
   normalize_allowed_host_rejects_sneaky_variants; normalize_allowed_host_rejects_unicode_whitespace;
   normalize_allowed_host_accepts_rfc1035_plus_underscore; always_blocked_covers_metadata_not_cluster_ranges;
   always_blocked_is_subset_of_private_or_local; allowlist_actually_opens_something;
   short_client_hash_is_deterministic_and_8_chars; short_client_hash_distinguishes_different_inputs;
   short_client_hash_matches_expected_sha256_prefix].

(** The model of [Security] passes them. *)
Example security_tests_pass : security_tests = replicate (length security_tests) true.
Proof. vm_compute. reflexivity. Qed.
