(* ===== verification/History.v ===== *)
(** * Execution history (src/history/mod.rs, src/history/postgres.rs)

    One row per attempt. A recorder is any state with a [record] operation (the trait
    object of the source); the program has the recorder that drops rows and the one that
    inserts them into Postgres, and its tests one that keeps them in a vector. *)
From S2P Require Import Prelude RStr Security Errors.

Inductive ExecutionStatus := Success | Failed | Retrying | Skipped | Timeout | Offline.
#[export] Instance ExecutionStatus_eq_dec : EqDecision ExecutionStatus.
Proof. solve_decision. Defined.

(** [ExecutionStatus::as_str]. *)
Definition as_str (s : ExecutionStatus) : string :=
  match s with
  | Success => "SUCCESS" | Failed => "FAILED" | Retrying => "RETRYING"
  | Skipped => "SKIPPED" | Timeout => "TIMEOUT" | Offline => "OFFLINE"
  end.

(** [execution_time] is milliseconds since the epoch; the [i32] fields are [Z]. *)
Record HistoryEntry := mkHistoryEntry
  { execution_time : Z; job_name : string; job_group : string; job_type : string;
    duration_ms : option Z; hstatus : ExecutionStatus; http_method : option string;
    http_url : option string; http_status_code : option Z; attempt_number : Z;
    max_attempts : Z; response_body : option string; error_message : option string }.
#[export] Instance HistoryEntry_eq_dec : EqDecision HistoryEntry.
Proof. solve_decision. Defined.

(** ** The trait [HistoryRecorder]: [record] never fails. *)
Class HistoryRecorder (R : Type) := record : HistoryEntry → R → R.

Definition record_all {R} `{HistoryRecorder R} (rows : list HistoryEntry) (r : R) : R :=
  foldl (λ r e, record e r) r rows.

(** [NoopRecorder]: only a log line. *)
Definition NoopRecorder : Type := unit.
#[export] Instance noop_record : HistoryRecorder NoopRecorder := λ _ r, r.

(** The vector recorder of the tests, the reference the others are compared with. *)
#[export] Instance vec_record : HistoryRecorder (list HistoryEntry) := λ e r, r ++ [e].

(** ** [PostgresRecorder] *)

(** The bound parameters of the [INSERT]. *)
Record DbRow := mkDbRow
  { row_time : Z; row_name : string; row_group : string; row_type : string;
    row_duration : option Z; row_status : string; row_method : option string;
    row_url : option string; row_http_status : option Z; row_attempt : Z; row_max : Z;
    row_body : option string; row_error : option string }.

(** The table, whether the next inserts succeed, and the warnings logged. *)
Record PostgresRecorder := mkPostgres
  { table : list DbRow; inserts : list bool; warnings : nat; stored_body_max_bytes : Z }.

Definition row_of (cap : Z) (e : HistoryEntry) : DbRow :=
  mkDbRow (execution_time e) (job_name e) (job_group e) (job_type e) (duration_ms e)
    (as_str (hstatus e)) (http_method e) (http_url e) (http_status_code e)
    (attempt_number e) (max_attempts e)
    ((λ s, truncate_response_body s cap) <$> response_body e) (error_message e).

(** A database error becomes a warning. A recorder whose list of outcomes is used up inserts. *)
#[export] Instance postgres_record : HistoryRecorder PostgresRecorder := λ e r,
  let row := row_of (stored_body_max_bytes r) e in
  match inserts r with
  | false :: rest => mkPostgres (table r) rest (S (warnings r)) (stored_body_max_bytes r)
  | _ :: rest => mkPostgres (table r ++ [row]) rest (warnings r) (stored_body_max_bytes r)
  | [] => mkPostgres (table r ++ [row]) [] (warnings r) (stored_body_max_bytes r)
  end.

(** What the driver answers: opening a pool on a DSN, the migrations, and whether each of
    the inserts to come succeeds. *)
Record Driver := mkDriver
  { pool_connect : string → result unit string; migrate : result unit string; executes : list bool }.

Definition connect (dsn : string) (stored_body_max_bytes : Z) (d : Driver) :
    result PostgresRecorder CronManagerError :=
  let? _ := map_err (λ e, Database ("connect: " +:+ e)) (pool_connect d dsn) in
  let? _ := map_err (λ e, Database ("migrate: " +:+ e)) (migrate d) in
  Ok (mkPostgres [] (executes d) 0 stored_body_max_bytes).

(** The recorder of the process, [Arc<dyn HistoryRecorder>]. *)
Inductive Recorder := Noop | Postgres (r : PostgresRecorder).
#[export] Instance recorder_record : HistoryRecorder Recorder := λ e h,
  match h with Noop => Noop | Postgres r => Postgres (record e r) end.

(** ** Lemmas *)

Lemma record_all_app {R} `{HistoryRecorder R} l k (r : R) :
  record_all (l ++ k) r = record_all k (record_all l r).
Proof. apply foldl_app. Qed.

Lemma record_all_vec l (r : list HistoryEntry) : record_all l r = r ++ l.
Proof.
  revert r. induction l as [|e l IH]; intros r; cbn; [by rewrite app_nil_r|].
  unfold record_all in IH. rewrite IH. unfold record, vec_record. by rewrite <- app_assoc.
Qed.

Lemma as_str_inj s1 s2 : as_str s1 = as_str s2 → s1 = s2.
Proof. by destruct s1, s2. Qed.

(** Of rows whose inserts are answered by [answers], in turn, those that were inserted. *)
Definition inserted (answers : list bool) (rows : list HistoryEntry) : list HistoryEntry :=
  omap (λ ir, if bool_decide (answers !! ir.1 = Some false) then None else Some ir.2) (imap pair rows).

Lemma omap_of_fmap {A B C} (f : B → option C) (g : A → B) (l : list A) : omap f (g <$> l) = omap (f ∘ g) l.
Proof. induction l as [|x l IH]; [done|]. cbn. by rewrite IH. Qed.

Lemma inserted_cons answers e rows :
  inserted answers (e :: rows) =
    (if bool_decide (head answers = Some false) then id else cons e) (inserted (tail answers) rows).
Proof.
  set (kept := λ (l : list bool) (ir : nat * HistoryEntry), if bool_decide (l !! ir.1 = Some false) then None else Some ir.2).
  assert (omap (kept answers) (imap (pair ∘ S) rows) = inserted (tail answers) rows) as Heq.
  { assert (imap (pair ∘ S) rows = (λ ir, (S ir.1, ir.2)) <$> imap pair rows) as -> by (by rewrite fmap_imap).
    rewrite omap_of_fmap. apply list_omap_ext, Forall_Forall2_diag, Forall_forall. intros [i x] _.
    unfold kept. cbn. by destruct answers. }
  change (inserted answers (e :: rows)) with
    (match kept answers (0, e) with Some x => x :: omap (kept answers) (imap (pair ∘ S) rows) | None => omap (kept answers) (imap (pair ∘ S) rows) end).
  rewrite Heq. unfold kept. by destruct answers as [|[] ?].
Qed.

Lemma record_all_postgres l r :
  table (record_all l r) = table r ++ (row_of (stored_body_max_bytes r) <$> inserted (inserts r) l) ∧
  length (inserted (inserts r) l) + warnings (record_all l r) = length l + warnings r.
Proof.
  revert r. induction l as [|e l IH]; intros r; [cbn; by rewrite app_nil_r|].
  change (record_all (e :: l) r) with (record_all l (record e r)). destruct (IH (record e r)) as [Ht Hw].
  rewrite inserted_cons, Ht. unfold record, postgres_record in *.
  destruct (inserts r) as [|[] rest]; cbn [head tail table warnings stored_body_max_bytes inserts] in *;
    case_bool_decide; try done; unfold id; cbn [fmap list_fmap length]; rewrite <- ?app_assoc; (split; [done|lia]).
Qed.

(** Recording a run never fails and never reorders rows: the table gains, in order, the
    rows whose insert succeeded, each with its response body capped, and every other row
    costs one warning. *)
Theorem postgres_record_all_spec rows r :
  table (record_all rows r) = table r ++ (row_of (stored_body_max_bytes r) <$> inserted (inserts r) rows) ∧
  length (inserted (inserts r) rows) + warnings (record_all rows r) = length rows + warnings r.
Proof. apply record_all_postgres. Qed.
