(* ===== verification/EnvSafety.v ===== *)
(** * Environment-aware safety gates (src/env_safety.rs)

    The classification of the deployment environment, the dev-fixture patterns for DSL
    files, the weak-credential check and the two gates that run at boot. Slicing a
    string off a character boundary panics; a computation that may do so returns [None]. *)
From S2P Require Import Prelude RStr Config.

Inductive Environment := Dev | Test_ | Staging | Production.
#[export] Instance Environment_eq_dec : EqDecision Environment.
Proof. solve_decision. Defined.

(** [Environment::from_env_str]; the message on standard error is left out. *)
Definition from_env_str (raw : string) : Environment :=
  let v := to_ascii_lowercase (trim raw) in
  let one_of l := existsb (String.eqb v) l in
  if one_of ["dev"; "development"; "local"] then Dev
  else if one_of ["test"; "testing"; "ci"] then Test_
  else if one_of ["stage"; "staging"; "preprod"] then Staging
  else if one_of ["prod"; "production"; "live"] then Production
  else Production.

(** [Environment::from_env], the first call (later calls return its cached value). *)
Definition from_env (env : Env) : Environment :=
  let raw := match env_var env "APP_ENV" with
             | Some v => v
             | None => match env_var env "ENVIRONMENT" with
                       | Some v => v
                       | None => default "dev" (env_var env "DEPLOY_ENV")
                       end
             end in
  from_env_str raw.

Definition requires_prod_creds (e : Environment) : bool :=
  match e with Dev => false | _ => true end.

(** The [Debug] rendering. *)
Definition debug_env (e : Environment) : string :=
  match e with Dev => "Dev" | Test_ => "Test" | Staging => "Staging" | Production => "Production" end.

(** ** Dev-fixture DSL files *)
Definition DEV_ONLY_DSL_PATTERNS : list string :=
  ["dev-login"; "mock-"; "-mock"; "/test/"; "example-"; "-example"; "/dev/"; "/mocks/"].

Definition dev_fixture_pattern (path_str : string) : option string :=
  let normalised := to_ascii_lowercase (replace_char "\" "/" path_str) in
  List.find (contains normalised) DEV_ONLY_DSL_PATTERNS.

Inductive DevFixtureAction := Ignore | Warn | Refuse.
Definition action_from_env (env : Environment) (allow_dev_fixture_dsls : bool) : DevFixtureAction :=
  if negb (requires_prod_creds env) || allow_dev_fixture_dsls then Warn else Refuse.

(** ** Credentials *)
Definition WEAK_PATTERNS : list string :=
  ["changeit"; "changeme"; "change-me"; "changethis"; "letmein"; "password"; "qwerty"; "welcome";
   "01234"; "12345"; "123456"; "abcdef";
   "dev-"; "-dev"; "test-"; "-test"; "example"; "sample"; "default-"; "-default"; "todo"; "tbd";
   "fixme"; "-poc"; "poc-"; "mock-"; "-mock"; "staging-"; "-staging"; "test-admin-token"].

Inductive WeakReason := Empty | TooShort | Pattern (p : string).
Definition display_reason (r : WeakReason) : string :=
  match r with
  | Empty => "empty"
  | TooShort => "too_short"
  | Pattern p => "weak-pattern:" +:+ p
  end.

Record CredCheck := mkCred { context : string; field : string; value : string; min_len : Z }.

(** [CredCheck::is_weak]. *)
Definition is_weak (c : CredCheck) : option WeakReason :=
  let v := trim (value c) in
  if String.eqb v "" then Some Empty
  else if (zlen v <? min_len c)%Z then Some TooShort
  else
    let lower := to_ascii_lowercase v in
    match List.find (contains lower) WEAK_PATTERNS with
    | Some p => Some (Pattern p)
    | None => None
    end.

(** [redact]: [None] is the panic of a slice off a character boundary. *)
Definition redact (v : string) : option string :=
  if slen v <=? 4 then Some "****"
  else if is_char_boundary v 2 && is_char_boundary v (slen v - 2) then
    Some (stake 2 v +:+ "****" +:+ sdrop (slen v - 2) v)
  else None.

Definition cred_line (c : CredCheck) (reason : WeakReason) (redacted : string) : string :=
  "  - " +:+ context c +:+ "." +:+ field c +:+ " = " +:+ redacted +:+
  " (weak: " +:+ display_reason reason +:+ ")".

(** The lines for the weak credentials, in order; [None] when rendering one panics. *)
Fixpoint cred_failures (checks : list CredCheck) : option (list string) :=
  match checks with
  | [] => Some []
  | c :: rest =>
      match is_weak c with
      | None => cred_failures rest
      | Some reason =>
          match redact (trim (value c)) with
          | None => None
          | Some r => (cons (cred_line c reason r)) <$> cred_failures rest
          end
      end
  end.

Definition newline : string := single lf.
(** [enforce_creds]; in dev the lines are only logged. *)
Definition enforce_creds (env : Environment) (checks : list CredCheck) :
    option (result unit string) :=
  failures ← cred_failures checks;
  Some (match failures with
        | [] => Ok tt
        | _ =>
            if requires_prod_creds env then
              Err ("REFUSING TO START in " +:+ debug_env env +:+ ": " +:+ pretty (length failures) +:+
                   " weak/default credential(s) detected:" +:+ newline +:+ join newline failures +:+
                   newline +:+ "Rotate these before starting in a non-dev environment. Set APP_ENV=dev (or ENVIRONMENT=dev, DEPLOY_ENV=dev) to permit dev defaults locally.")
            else Ok tt
        end).

(** ** Posture flags *)
Record PostureCheck := mkPosture
  { pname : string; is_safe : bool; description : string; fix_hint : string }.

Definition posture_line (c : PostureCheck) : string :=
  "  - " +:+ pname c +:+ ": " +:+ description c +:+ newline +:+ "      fix: " +:+ fix_hint c.

Definition enforce_posture (env : Environment) (checks : list PostureCheck) : result unit string :=
  let unsafe_items := List.filter (λ c, negb (is_safe c)) checks in
  match unsafe_items with
  | [] => Ok tt
  | _ =>
      if requires_prod_creds env then
        Err ("REFUSING TO START in " +:+ debug_env env +:+ ": " +:+ pretty (length unsafe_items) +:+
             " unsafe posture item(s):" +:+ newline +:+ join newline (posture_line <$> unsafe_items))
      else Ok tt
  end.

(** ** The checks of this program *)
Definition cred_checks_for (cfg : AppConfig) (env : Env) : list CredCheck :=
  let admin_token := default "" (resolve_admin_token cfg env) in
  mkCred "admin" "token" admin_token 32 ::
  match database cfg with
  | Some db => [mkCred "database" "password" (default "" (env_var env (password_env db))) 12]
  | None => []
  end.

Definition posture_checks_for (cfg : AppConfig) : list PostureCheck :=
  [mkPosture "admin.trust_network" (negb (trust_network (admin cfg)))
     "the boot-time refusal on non-loopback binds without a token is DISABLED"
     "set admin.trust_network=false and configure a bearer token";
   mkPosture "security.block_private_networks" (block_private_networks (security cfg))
     "SSRF pre-flight is disabled; HTTP jobs may target link-local, RFC 1918, or ULA endpoints (cloud metadata included)"
     "set security.block_private_networks=true (default)";
   mkPosture "security.allow_dangerous_env_overrides"
     (negb (allow_dangerous_env_overrides (security cfg)))
     "PATH / LD_* / DYLD_* / PYTHONPATH / NODE_OPTIONS can be set from /execute query params"
     "set security.allow_dangerous_env_overrides=false (default)";
   mkPosture "security.allow_dev_fixture_dsls" (negb (allow_dev_fixture_dsls (security cfg)))
     "FLEET §11.3 — any file under dsl_path matching a dev-fixture pattern (dev-login, mock-, -mock, /test/, example-, -example, /dev/, /mocks/) loads with only a WARN in non-dev environments; otherwise refused"
     "set security.allow_dev_fixture_dsls=false (default) and rename any dev-fixture files out of dsl_path"].

(** ** Lemmas *)

(** A credential no check objects to. *)
Definition strong (c : CredCheck) : bool := match is_weak c with None => true | Some _ => false end.
(** A value that [redact] can render. *)
Definition redactable (c : CredCheck) : bool :=
  match redact (trim (value c)) with Some _ => true | None => false end.

Lemma cred_failures_spec checks :
  match cred_failures checks with
  | None => ∃ c, c ∈ checks ∧ strong c = false ∧ redactable c = false
  | Some l => Forall (λ c, strong c = true ∨ redactable c = true) checks ∧
              (l = [] ↔ forallb strong checks = true)
  end.
Proof.
  unfold strong, redactable. induction checks as [|c checks IH]; cbn [cred_failures forallb]; [done|].
  destruct (is_weak c) as [reason|] eqn:Hw.
  - destruct (redact _) as [r|] eqn:Hr.
    + destruct (cred_failures checks) as [l|]; cbn.
      * destruct IH as [IH _]. split; [|done]. constructor; [by rewrite Hr; right|done].
      * destruct IH as (d & ? & ?). exists d. split; [by right|done].
    + exists c. rewrite Hw, Hr. split; [by left|done].
  - destruct (cred_failures checks) as [l|]; cbn.
    + destruct IH as [IH1 IH2]. split; [|done]. constructor; [by rewrite Hw; left|done].
    + destruct IH as (d & ? & ?). exists d. split; [by right|done].
Qed.

Lemma enforce_posture_ok env checks :
  is_ok (enforce_posture env checks) = negb (requires_prod_creds env) || forallb is_safe checks.
Proof.
  unfold enforce_posture. assert (List.filter (λ c, negb (is_safe c)) checks = [] ↔ forallb is_safe checks = true) as Hf.
  { induction checks as [|c checks IH]; [done|]. cbn. by destruct (is_safe c). }
  destruct (List.filter _ checks), (requires_prod_creds env); simpl in *.
  - symmetry. by apply Hf.
  - done.
  - symmetry. apply not_true_iff_false. intros H. by apply Hf in H.
  - done.
Qed.

(** The credential gate. Rendering the failure lines panics exactly when some weak value
    cannot be cut after two bytes and before its last two; otherwise boot goes on in
    dev whatever the values are, and elsewhere exactly when no credential is weak. *)
Theorem enforce_creds_spec env checks :
  match enforce_creds env checks with
  | None => ∃ c, c ∈ checks ∧ strong c = false ∧ redactable c = false
  | Some r => is_ok r = negb (requires_prod_creds env) || forallb strong checks
  end.
Proof.
  unfold enforce_creds. pose proof (cred_failures_spec checks) as H.
  destruct (cred_failures checks) as [l|]; [|done]. cbn. destruct H as [_ H].
  destruct l, (requires_prod_creds env); simpl in *.
  - symmetry. by apply H.
  - done.
  - symmetry. apply not_true_iff_false. intros Ht. by apply H in Ht.
  - done.
Qed.

(** A short admin token that starts with a three-byte character makes the gate panic in
    every environment, dev included, where weak credentials are meant to be permitted. *)
Theorem multibyte_weak_token_panics env :
  enforce_creds env [mkCred "admin" "token" "€uro-token" 32] = None.
Proof. reflexivity. Qed.

(** An unknown environment name is treated as production, and an environment that is
    not named at all as dev. *)
Theorem from_env_defaults (env : Env) :
  (env !! "APP_ENV" = None → env !! "ENVIRONMENT" = None → env !! "DEPLOY_ENV" = None →
   from_env env = Dev) ∧
  (∀ raw, env !! "APP_ENV" = Some raw →
   to_ascii_lowercase (trim raw) ∉ ["dev"; "development"; "local"; "test"; "testing"; "ci"; "stage";
     "staging"; "preprod"] → from_env env = Production).
Proof.
  unfold from_env, env_var. split.
  - by intros -> -> ->.
  - intros raw -> Hn. unfold from_env_str. cbv zeta.
    assert (∀ l, (∀ x, x ∈ l → x ∈ ["dev"; "development"; "local"; "test"; "testing"; "ci"; "stage";
      "staging"; "preprod"]) → existsb (String.eqb (to_ascii_lowercase (trim raw))) l = false) as He.
    { intros l Hl. apply not_true_iff_false. intros (x & Hx & <-%String.eqb_eq)%existsb_exists.
      apply Hn, Hl. by apply list_elem_of_In. }
    rewrite !He by (intros x; rewrite !elem_of_cons; tauto). by destruct (existsb _ _).
Qed.

#[export] Instance dev_fixture_pattern_proper :
  Proper (same_ascii_case ==> eq) dev_fixture_pattern.
Proof.
  intros a b Hab. unfold dev_fixture_pattern, same_ascii_case in *.
  assert (∀ s, to_ascii_lowercase (replace_char "\" "/" s) = replace_char "\" "/" (to_ascii_lowercase s)) as Hc.
  { intros s. unfold to_ascii_lowercase, replace_char. rewrite !str_map_map. apply str_map_ext.
    intros [[] [] [] [] [] [] [] []]; reflexivity. }
  by rewrite !Hc, Hab.
Qed.

Lemma dev_fixture_pattern_some path p :
  dev_fixture_pattern path = Some p →
  p ∈ DEV_ONLY_DSL_PATTERNS ∧ contains (to_ascii_lowercase (replace_char "\" "/" path)) p = true.
Proof. intros [Hin ?]%List.find_some. split; [by apply list_elem_of_In|done]. Qed.
