(* ===== verification/Libs.v ===== *)
(** * Third-party code as an interface

    What the program calls of the crates [cron], [url], [http] (through [reqwest]) and
    [serde_yaml_ng], as the operations of a class; nothing is assumed of them but the laws
    of [LibLaws], which state their documentation. [Sample] is a concrete implementation
    that the witnesses compute with. *)
From S2P Require Import Prelude RStr Ip Dsl.

(** The accessors of [url::Url] the program reads. *)
Inductive Host := Domain (d : string) | HostIpv4 (a : Ipv4Addr) | HostIpv6 (a : Ipv6Addr).
Record Url := mkUrl { scheme : string; host : option Host; url_port : option Z }.

(** [Url::host_str]: an IPv6 literal is wrapped in brackets. *)
Definition host_str (u : Url) : option string :=
  (λ h, match h with
        | Domain d => d
        | HostIpv4 a => display_v4 a
        | HostIpv6 a => "[" +:+ display_v6 a +:+ "]"
        end) <$> host u.

(** A job as the YAML decoder returns it. *)
Inductive RawTrigger := RawBool (b : bool) | RawStr (s : string).
Inductive RawCommand := CmdString (s : string) | CmdList (l : list string).
Record RawJob := mkRawJob
  { raw_trigger : RawTrigger; raw_ty : string; start_date : option Z; end_date : option Z;
    retry_count : option Z; retry_delay_ms : option Z; raw_ignore_failures : option bool;
    raw_method : option string; raw_url : option string;
    raw_headers : option (gmap string string); header_envs : option (gmap string string);
    command : option RawCommand; raw_allowed_envs : option (list string) }.

Class Libs := {
  (** [cron::Schedule::from_str] and [schedule.upcoming(Utc).next()] at a time in ms. *)
  Schedule : Type;
  cron_from_str : string → result Schedule string;
  upcoming_next : Schedule → Z → option Z;
  (** [url::Url::parse]. *)
  url_parse : string → result Url string;
  (** [HeaderName::from_bytes(..)] with the name it normalises to, [HeaderValue::from_str(..)],
      [Method::from_bytes(..)]. *)
  header_name_from_bytes : string → option string;
  header_value_from_str : string → bool;
  method_from_bytes : string → bool;
  (** [serde_yaml_ng::from_str] for a job file. *)
  yaml_jobs : string → result (gmap string RawJob) string;
  (** [str::to_uppercase], which maps all of Unicode. *)
  str_to_uppercase : string → string;
  (** [HeaderValue::to_str(..).ok()]. *)
  header_value_to_str : string → option string;
  (** [form_urlencoded::parse] on a query string. *)
  form_urlencoded_parse : string → list (string * string);
  (** [subtle::ConstantTimeEq::ct_eq]. *)
  ct_eq : string → string → bool
}.

Definition all_ascii (s : string) : bool := str_all is_ascii_byte s.

Definition visible_ascii (c : ascii) : bool := (32 <=? byte_of c)%Z && (byte_of c <? 127)%Z.

Class LibLaws (L : Libs) : Prop := {
  (** A header name is stored in lower case, and normalising it again changes nothing. *)
  header_name_normal n m : header_name_from_bytes n = Some m →
    to_ascii_lowercase m = m ∧ header_name_from_bytes m = Some m;
  (** A scheduled fire is not before the time asked about. *)
  upcoming_after s now t : upcoming_next s now = Some t → (now < t)%Z;
  (** On ASCII text the Unicode upper case is the ASCII one. *)
  to_uppercase_ascii s : all_ascii s = true → str_to_uppercase s = to_ascii_uppercase s;
  (** Visible ASCII is a header value and reads back as itself. *)
  header_value_visible s : str_all visible_ascii s = true →
    header_value_from_str s = true ∧ header_value_to_str s = Some s;
  (** [ct_eq] is equality on slices of one length. *)
  ct_eq_spec a b : slen a = slen b → ct_eq a b = String.eqb a b;
  (** [retry_count] is decoded as an [Option<u32>]. *)
  yaml_retry_count body jobs n raw c : yaml_jobs body = Ok jobs → jobs !! n = Some raw →
    retry_count raw = Some c → (0 ≤ c ≤ u32_max)%Z
}.

(** ** A sample implementation *)
Module Sample.
(** Accepts expressions of six or seven fields; fires at the next full minute. *)
Definition cron (s : string) : result unit string :=
  let n := length (split_whitespace s) in
  if (n =? 6) || (n =? 7) then Ok tt else Err "expected 6 or 7 fields".

Definition parse_host (h : string) : Host :=
  match strip_prefix h "[" with
  | Some rest =>
      match parse_ip (stake (slen rest - 1) rest) with
      | Some (V6 a) => HostIpv6 a
      | _ => Domain h
      end
  | None => match parse_ip h with Some (V4 a) => HostIpv4 a | _ => Domain (to_ascii_lowercase h) end
  end.
(** The host follows the user information; a port follows its last colon. *)
Definition parse_authority (a : string) : Host * option Z :=
  let a := match srfind "@" a with Some i => sdrop (S i) a | None => a end in
  match srfind ":" a with
  | Some i =>
      match complete (read_number 10 65535 5 true) (sdrop (S i) a) with
      | Some p => (parse_host (stake i a), Some p)
      | None => (parse_host a, None)
      end
  | None => (parse_host a, None)
  end.
Definition url (s : string) : result Url string :=
  match sfind s "://" with
  | None => Err "relative URL without a base"
  | Some i =>
      let authority := default EmptyString (head (split_on "/" (sdrop (i + 3) s))) in
      if String.eqb authority "" then Ok (mkUrl (stake i s) None None)
      else let (h, port) := parse_authority authority in Ok (mkUrl (stake i s) (Some h) port)
  end.

Definition token_char (c : ascii) : bool := is_ascii_alphanumeric c || Ascii.eqb c "-" || Ascii.eqb c "_".
Definition header_name (s : string) : option string :=
  if str_all token_char s && negb (String.eqb s "") then Some (to_ascii_lowercase s) else None.

(** Decodes one text, to a file with a single job. *)
Definition ping : RawJob :=
  mkRawJob (RawStr "0 * * * * ?") "http" None None (Some 2%Z) None None (Some "get")
    (Some "https://example.org/ping") (Some {["X-Source" := "cron"]}) None None None.
Definition yaml (s : string) : result (gmap string RawJob) string :=
  if String.eqb s "ping" then Ok {["ping" := ping]} else Err "unknown document".

(** [k=v] pairs between ampersands, without decoding. *)
Definition parse_form (s : string) : list (string * string) :=
  (λ p, match sfind p "=" with Some i => (stake i p, sdrop (S i) p) | None => (p, EmptyString) end) <$>
    List.filter (λ p, negb (String.eqb p "")) (split_on "&" s).

(** With any decoder of job files. *)
Definition libs_with (yaml : string → result (gmap string RawJob) string) : Libs := {|
  Schedule := unit;
  cron_from_str := cron;
  upcoming_next _ now := Some (now - now mod 60000 + 60000)%Z;
  url_parse := url;
  header_name_from_bytes := header_name;
  header_value_from_str := str_all visible_ascii;
  method_from_bytes s := str_all is_ascii_alphabetic s && negb (String.eqb s "");
  yaml_jobs := yaml;
  str_to_uppercase := to_ascii_uppercase;
  header_value_to_str s := if str_all visible_ascii s then Some s else None;
  form_urlencoded_parse := parse_form;
  ct_eq := String.eqb
|}.
#[export] Instance libs : Libs := libs_with yaml.

Lemma token_char_lower c : token_char (ascii_lower c) = token_char c.
Proof. revert c. byte_cases. Qed.

#[export] Instance libs_laws : LibLaws libs.
Proof.
  split.
  - intros n m. simpl. unfold header_name.
    destruct (str_all token_char n) eqn:Hall; simpl; [|done].
    destruct (String.eqb_spec n ""); simpl; [done|]. intros [= <-]. split; [apply lowercase_idem|].
    rewrite lowercase_idem.
    assert (str_all token_char (to_ascii_lowercase n) = true) as ->.
    { clear -Hall. unfold to_ascii_lowercase. induction n as [|c n IH]; [done|].
      cbn [str_map str_all] in *. apply andb_true_iff in Hall as [Hc Hn]. by rewrite token_char_lower, Hc, IH. }
    by destruct n.
  - intros s now t. simpl. intros [= <-]. pose proof (Z.mod_pos_bound now 60000). lia.
  - done.
  - cbn. intros s Hs. by rewrite Hs.
  - done.
  - cbn. unfold yaml. intros body jobs n raw c. destruct (String.eqb body "ping"); [|done]. intros [= <-].
    rewrite lookup_singleton_Some. intros [_ <-]. cbn. intros [= <-]. done.
Qed.
End Sample.
