(* ===== verification/Serde.v ===== *)
(** * Typed decoding of YAML: what [#[derive(Deserialize)]] and the reader promise

    The code that [serde_derive] generates and the reader of texts ([serde_yaml_ng]) are not
    part of the source: both are the class [Yaml], a parameter of [Decode]. What the source
    does write is the declaration of each structure, a list of [Slot]s with one entry per
    field (its name, its aliases, the decoder of its type, its default) and the attribute
    [deny_unknown_fields]; [de_struct] is the derive applied to one. [YamlLaws] has the
    documented behaviour: [says] for a structure, and what each type of a field reads.
    [SampleYaml] is an implementation that satisfies the laws. *)
From S2P Require Import Prelude RStr.

(** The one error that is told apart names an unknown field. *)
Inductive DecodeError :=
  | UnknownField (f : string)
  | OtherError (e : string).

(** ** Declarations of structures *)

(** A field of [T]: its name in the document, its aliases, its type, what it is if it is left
    out ([None] is an error), and the projection. [N] is the type of values. *)
Record Slot (N T : Type) := mkSlot
  { slot_name : string; slot_aliases : list string; slot_type : Type;
    slot_decode : N → result slot_type DecodeError; slot_default : option slot_type; slot_get : T → slot_type }.
Arguments mkSlot {N T}.
Arguments slot_name {N T}.
Arguments slot_aliases {N T}.
Arguments slot_type {N T}.
Arguments slot_decode {N T}.
Arguments slot_default {N T}.
Arguments slot_get {N T}.

Definition slot_keys {N T} (s : Slot N T) : list string := slot_name s :: slot_aliases s.
Definition names {N T} (s : Slot N T) (k : string) : bool := existsb (String.eqb k) (slot_keys s).
Definition find_slot {N T} (sch : list (Slot N T)) (k : string) : option (Slot N T) := List.find (λ s, names s k) sch.

(** No key belongs to two fields. *)
Definition schema_wf {N T} (sch : list (Slot N T)) : Prop := NoDup (concat (slot_keys <$> sch)).
#[export] Instance schema_wf_dec {N T} (sch : list (Slot N T)) : Decision (schema_wf sch).
Proof. apply NoDup_dec. Defined.

(** A constructor of [T] from the values of all its fields. *)
Definition Builder (N T : Type) : Type := (∀ s : Slot N T, result (slot_type s) DecodeError) → result T DecodeError.
Definition builds {N T} (sch : list (Slot N T)) (build : Builder N T) : Prop :=
  ∀ get y, build get = Ok y ↔ Forall (λ s, get s = Ok (slot_get s y)) sch.

(** The fields that the entries of a mapping name. *)
Definition named {N T} (sch : list (Slot N T)) (es : list (string * N)) : list string :=
  omap (λ e, slot_name <$> find_slot sch e.1) es.
(** What a mapping says of [x]: with [deny_unknown_fields] every key is known, no field comes
    twice, each field of [x] is the decoded value or, left out, its default. *)
Definition says {N T} (deny : bool) (sch : list (Slot N T)) (es : list (string * N)) (x : T) : Prop :=
  (deny = true → Forall (λ e, is_Some (find_slot sch e.1)) es) ∧
  NoDup (named sch es) ∧
  Forall (λ s, (∃ k n, (k, n) ∈ es ∧ names s k = true ∧ slot_decode s n = Ok (slot_get s x)) ∨
               ((∀ k n, (k, n) ∈ es → names s k = false) ∧ slot_default s = Some (slot_get s x))) sch.
(** Entries without a defect. *)
Definition clean {N T} (sch : list (Slot N T)) (es : list (string * N)) : Prop :=
  Forall (λ e, ∃ s, find_slot sch e.1 = Some s ∧ is_ok (slot_decode s e.2) = true) es ∧ NoDup (named sch es).

(** ** The libraries *)
Class Yaml := {
  Node : Type;
  (** Reading a document, and the text of an error about it. *)
  parse_doc : string → result Node string;
  show_error : string → DecodeError → string;
  (** What a value is: a mapping with string keys, in the order of the text; a sequence; a
      text; a boolean; an integer; null. *)
  map_of : Node → option (list (string * Node));
  seq_of : Node → option (list Node);
  str_of : Node → option string;
  bool_of : Node → option bool;
  int_of : Node → option Z;
  is_null : Node → bool;
  (** The copy of a value that the variants of an untagged enum are tried on. *)
  buffered : Node → Node;
  (** [Deserialize] of an integer type of the given range, of [bool], [String], [Option],
      [Vec], [BTreeMap<String, _>], of an untagged enum with its name and its variants, and of
      a structure: [deny_unknown_fields], the fields, the constructor. *)
  de_int : Z → Z → Node → result Z DecodeError;
  de_bool : Node → result bool DecodeError;
  de_str : Node → result string DecodeError;
  de_option {A} : (Node → result A DecodeError) → Node → result (option A) DecodeError;
  de_vec {A} : (Node → result A DecodeError) → Node → result (list A) DecodeError;
  de_btree {A} : (Node → result A DecodeError) → Node → result (gmap string A) DecodeError;
  de_untagged {A} : string → list (Node → result A DecodeError) → Node → result A DecodeError;
  de_struct {T} : bool → list (Slot Node T) → Builder Node T → Node → result T DecodeError;
  (** [Serialize] of the same types. *)
  ser_int : Z → Node;
  ser_bool : bool → Node;
  ser_str : string → Node;
  ser_option {A} : (A → Node) → option A → Node;
  ser_vec {A} : (A → Node) → list A → Node;
  ser_btree {A} : (A → Node) → gmap string A → Node;
  ser_struct : list (string * Node) → Node
}.

(** The first variant that decodes. *)
Definition first_ok {A E N} (ds : list (N → result A E)) (n : N) : option A :=
  head (omap (λ d, match d n with Ok x => Some x | Err _ => None end) ds).

Class YamlLaws (Y : Yaml) : Prop := {
  de_int_ok lo hi n z : de_int lo hi n = Ok z ↔ int_of n = Some z ∧ (lo ≤ z ≤ hi)%Z;
  de_bool_ok n b : de_bool n = Ok b ↔ bool_of n = Some b;
  de_str_ok n s : de_str n = Ok s ↔ str_of n = Some s;
  de_option_ok {A} (d : Node → result A DecodeError) n o :
    de_option d n = Ok o ↔ match o with None => is_null n = true | Some x => is_null n = false ∧ d n = Ok x end;
  de_vec_ok {A} (d : Node → result A DecodeError) n l :
    de_vec d n = Ok l ↔ ∃ ns, seq_of n = Some ns ∧ Forall2 (λ m x, d m = Ok x) ns l;
  (** A later entry replaces an earlier one. *)
  de_btree_ok {A} (d : Node → result A DecodeError) n m :
    de_btree d n = Ok m ↔
    ∃ es l, map_of n = Some es ∧ Forall2 (λ e kx, e.1 = kx.1 ∧ d e.2 = Ok kx.2) es l ∧ m = list_to_map (reverse l);
  de_untagged_ok {A} enum (ds : list (Node → result A DecodeError)) n x :
    de_untagged enum ds n = Ok x ↔ first_ok ds (buffered n) = Some x;
  de_struct_ok {T} deny (sch : list (Slot Node T)) build n x :
    schema_wf sch → builds sch build →
    de_struct deny sch build n = Ok x ↔ ∃ es, map_of n = Some es ∧ says deny sch es x;
  (** The entries are gone through in their order, up to the first defect. *)
  de_struct_unknown {T} (sch : list (Slot Node T)) build n es1 k v es2 :
    map_of n = Some (es1 ++ (k, v) :: es2) → clean sch es1 → find_slot sch k = None →
    de_struct true sch build n = Err (UnknownField k);
  (** The error about a field names it. *)
  show_unknown body f : contains (show_error body (UnknownField f)) f = true;
  (** A value is one thing. *)
  null_has_no_entries n e es : map_of n = Some (e :: es) → is_null n = false;
  seq_is_no_text n l : seq_of n = Some l → str_of n = None;
  buffered_seq n l : seq_of n = Some l → seq_of (buffered n) = Some (buffered <$> l);
  (** What is written reads as what it was. *)
  ser_int_of z : int_of (ser_int z) = Some z;
  ser_bool_of b : bool_of (ser_bool b) = Some b;
  ser_str_of s : str_of (ser_str s) = Some s;
  ser_str_buffered s : str_of (buffered (ser_str s)) = Some s;
  ser_none_of {A} (e : A → Node) : is_null (ser_option e None) = true;
  ser_some_of {A} (e : A → Node) x : ser_option e (Some x) = e x;
  ser_vec_of {A} (e : A → Node) l : seq_of (ser_vec e l) = Some (e <$> l);
  ser_btree_of {A} (e : A → Node) m : map_of (ser_btree e m) = Some (prod_map id e <$> btree_iter m);
  ser_struct_of l : map_of (ser_struct l) = Some l;
  ser_struct_is_no_null l : is_null (ser_struct l) = false
}.

(** [serde_yaml_ng::from_str]. *)
Definition from_str_with `{Yaml} {A} (d : Node → result A DecodeError) (body : string) : result A string :=
  let? n := parse_doc body in map_err (show_error body) (d n).

(** ** Schemas *)

Section schema_facts.
Context {N T : Type} (sch : list (Slot N T)) (Hwf : schema_wf sch).

Lemma names_spec (s : Slot N T) k : names s k = true ↔ k ∈ slot_keys s.
Proof.
  unfold names. rewrite existsb_exists. split.
  - intros (k' & Hk & <-%String.eqb_eq). by apply list_elem_of_In.
  - intros Hk. exists k. split; [by apply list_elem_of_In|apply String.eqb_refl].
Qed.
Lemma find_slot_some k s : find_slot sch k = Some s → s ∈ sch ∧ names s k = true.
Proof. intros [Hin Hn]%find_some. split; [by apply list_elem_of_In|done]. Qed.

Lemma names_unique s1 s2 k : s1 ∈ sch → s2 ∈ sch → names s1 k = true → names s2 k = true → s1 = s2.
Proof.
  intros [i Hi]%list_elem_of_lookup [j Hj]%list_elem_of_lookup H1%names_spec H2%names_spec.
  assert (i = j) as -> by by eapply (NoDup_concat_index slot_keys). congruence.
Qed.
Lemma find_slot_names s k : s ∈ sch → names s k = true → find_slot sch k = Some s.
Proof.
  intros Hs Hk. destruct (find_slot sch k) as [s'|] eqn:Hf.
  - apply find_slot_some in Hf as [Hs' Hk']. f_equal. by eapply names_unique.
  - exfalso. unfold find_slot in Hf. apply list_elem_of_In in Hs. by rewrite (find_none _ _ Hf _ Hs) in Hk.
Qed.
Lemma own_name (s : Slot N T) : names s (slot_name s) = true.
Proof. apply names_spec. by left. Qed.
Lemma slot_name_inj s1 s2 : s1 ∈ sch → s2 ∈ sch → slot_name s1 = slot_name s2 → s1 = s2.
Proof. intros H1 H2 Heq. apply (names_unique _ _ (slot_name s1)); [done|done|apply own_name|]. rewrite Heq. apply own_name. Qed.
Lemma slot_names_NoDup : NoDup (slot_name <$> sch).
Proof.
  clear -Hwf. induction sch as [|s l IH]; [constructor|]. unfold schema_wf in Hwf. cbn [fmap list_fmap concat] in *.
  apply NoDup_app in Hwf as (_ & Hdisj & Hl). constructor; [|by apply IH]. intros (s' & Heq & Hs')%list_elem_of_fmap.
  apply (Hdisj (slot_name s)); [left|]. apply list_elem_of_In, in_concat. exists (slot_keys s').
  split; [by apply list_elem_of_In, list_elem_of_fmap_2|]. rewrite Heq. by left.
Qed.

(** Two entries for one field are the same entry. *)
Lemma named_once es k1 n1 k2 n2 s :
  s ∈ sch → NoDup (named sch es) → (k1, n1) ∈ es → (k2, n2) ∈ es → names s k1 = true → names s k2 = true → (k1, n1) = (k2, n2).
Proof. intros Hs Hnd H1 H2 Hn1 Hn2. apply (NoDup_omap_once _ _ _ _ (slot_name s) Hnd H1 H2); cbn; by rewrite (find_slot_names s) by done. Qed.
Lemma not_named es s : (∀ k n, (k, n) ∈ es → names s k = false) → s ∈ sch → slot_name s ∉ named sch es.
Proof.
  intros Hno Hs ([k n] & Hin & Hk)%list_elem_of_omap. cbn in Hk. destruct (find_slot sch k) as [s'|] eqn:Hf; [|done]. injection Hk as Hk.
  apply find_slot_some in Hf as [Hs' Hn]. rewrite (slot_name_inj s' s) in Hn by done. by rewrite (Hno k n Hin) in Hn.
Qed.

(** The order of the entries does not matter. *)
Lemma says_perm deny es1 es2 x : es1 ≡ₚ es2 → says deny sch es1 x ↔ says deny sch es2 x.
Proof.
  intros Hp. assert (∀ e, e ∈ es1 ↔ e ∈ es2) as He by (intros e; by rewrite Hp). unfold says, named. rewrite Hp, !Forall_forall.
  split; intros (Hk & Hn & Hs); (split_and!; [done..|]); intros s Hin;
    (destruct (Hs s Hin) as [(k & n & Hkn & ?)|[Hno ?]]; [left; exists k, n; by rewrite (He (k, n)) in *|right; split; [|done]]);
    intros k n Hkn; by eapply Hno, He.
Qed.

(** A field has what every value of its type has, if its default does. *)
Lemma says_field deny es x s (P : slot_type s → Prop) :
  says deny sch es x → s ∈ sch → (∀ n v, slot_decode s n = Ok v → P v) → (∀ v, slot_default s = Some v → P v) → P (slot_get s x).
Proof.
  intros (_ & _ & Hf) Hs Hd Hdef. rewrite Forall_forall in Hf. destruct (Hf s Hs) as [(k & n & _ & _ & Hv)|[_ Hv]]; eauto.
Qed.

(** An empty document says the defaults. *)
Lemma says_nothing deny x : Forall (λ s, slot_default s = Some (slot_get s x)) sch → says deny sch [] x.
Proof.
  intros Hd. split; [constructor|]. split; [constructor|]. apply (Forall_impl _ _ _ Hd). intros s Hs. right. split; [|done].
  intros k n Hin. by apply not_elem_of_nil in Hin.
Qed.

(** One entry sets one field. *)
Lemma says_one deny k n x s :
  find_slot sch k = Some s → slot_decode s n = Ok (slot_get s x) →
  Forall (λ s', slot_name s' = slot_name s ∨ slot_default s' = Some (slot_get s' x)) sch → says deny sch [(k, n)] x.
Proof.
  intros Hf Hd Ho. pose proof (find_slot_some _ _ Hf) as [Hin Hk]. split_and!.
  - intros _. constructor; [|constructor]. by eexists.
  - unfold named. cbn. rewrite Hf. apply NoDup_singleton.
  - rewrite Forall_forall in *. intros s' Hs'. destruct (names s' k) eqn:Hk'.
    + left. exists k, n. assert (s' = s) as -> by by eapply names_unique. split_and!; [by left|done|done].
    + right. split; [by intros k' n' [= -> ->]%list_elem_of_singleton|]. destruct (Ho s' Hs') as [Heq|?]; [|done].
      assert (s' = s) as -> by by apply slot_name_inj. by rewrite Hk in Hk'.
Qed.

(** A field left out is a field with its default. *)
Lemma says_default deny es x s e d :
  s ∈ sch → slot_default s = Some d → slot_decode s e = Ok d → (∀ k n, (k, n) ∈ es → names s k = false) →
  says deny sch es x ↔ says deny sch (es ++ [(slot_name s, e)]) x.
Proof.
  intros Hs Hdef Hdec Hno. unfold says, named. rewrite Forall_app, Forall_singleton, omap_app, NoDup_app, !Forall_forall. cbn [fst omap list_omap].
  rewrite (find_slot_names s) by (done || apply own_name). cbn [fmap option_fmap option_map]. split.
  - intros (Hk & Hnd & Hf). split_and!; [by intros Hdeny; split; [apply Hk|eexists]|done| |apply NoDup_singleton|].
    + intros o Ho ->%list_elem_of_singleton. by apply (not_named es s Hno Hs) in Ho.
    + intros s' Hs'. destruct (Hf s' Hs') as [(k & n & Hin & Hn & Hd)|[Hno' Hd]].
      * left. exists k, n. split_and!; [by apply elem_of_app; left|done|done].
      * destruct (names s' (slot_name s)) eqn:Hn.
        -- left. exists (slot_name s), e. split_and!; [by apply elem_of_app; right; left|done|].
           rewrite (names_unique s' s (slot_name s)) in Hd |- * by (done || apply own_name). by rewrite Hdef in Hd; injection Hd as <-.
        -- right. split; [|done]. by intros k n [Hin|[= -> ->]%list_elem_of_singleton]%elem_of_app; [eapply Hno'|].
  - intros (Hk & (Hnd & _) & Hf). split_and!; [by intros Hdeny; apply Hk|done|]. intros s' Hs'.
    destruct (Hf s' Hs') as [(k & n & Hin & Hn & Hd)|[Hno' Hd]].
    + apply elem_of_app in Hin as [Hin|[= -> ->]%list_elem_of_singleton]; [left; by exists k, n|]. right.
      rewrite (names_unique s' s (slot_name s)) in Hd |- * by (done || apply own_name). split; [done|]. rewrite Hdec in Hd. by injection Hd as <-.
    + right. split; [|done]. intros k n Hin. apply (Hno' k n). apply elem_of_app. by left.
Qed.
End schema_facts.

(** ** Decoders of structures *)
Section struct_facts.
Context `{YamlLaws} {T : Type} (sch : list (Slot Node T)) (Hwf : schema_wf sch) (build : Builder Node T) (Hb : builds sch build).

(** Nothing is dropped silently: a key that names no field is an error. *)
Lemma unknown_is_refused n es k v :
  map_of n = Some es → (k, v) ∈ es → find_slot sch k = None → is_ok (de_struct true sch build n) = false.
Proof.
  intros Hn Hin Hk. destruct (de_struct true sch build n) as [x|] eqn:Hd; [|done].
  apply de_struct_ok in Hd as (es' & Hn' & Hknown & _); [|done..]. specialize (Hknown eq_refl). rewrite Forall_forall in Hknown.
  rewrite Hn in Hn'. injection Hn' as <-. destruct (Hknown _ Hin) as [s Hs]. cbn in Hs. congruence.
Qed.
(** And so is a value that the type of its field does not have. *)
Lemma bad_value_is_refused n es k v s :
  map_of n = Some es → (k, v) ∈ es → find_slot sch k = Some s → is_ok (slot_decode s v) = false →
  is_ok (de_struct true sch build n) = false.
Proof.
  intros Hn Hin Hk Hv. destruct (de_struct true sch build n) as [x|] eqn:Hd; [|done].
  apply de_struct_ok in Hd as (es' & Hn' & _ & Hnd & Hf); [|done..]. rewrite Hn in Hn'. injection Hn' as <-.
  apply find_slot_some in Hk as [Hs Hk]. rewrite Forall_forall in Hf. destruct (Hf s Hs) as [(k' & v' & Hin' & Hk' & Hd)|[Hno _]].
  - assert ((k, v) = (k', v')) as [= -> ->] by by apply (named_once sch Hwf es k v k' v' s). by rewrite Hd in Hv.
  - by rewrite (Hno _ _ Hin) in Hk.
Qed.

(** What [ser_struct] writes is read back. *)
Lemma struct_roundtrip deny fields x :
  Forall2 (λ s e, slot_name s = e.1 ∧ slot_decode s e.2 = Ok (slot_get s x)) sch fields →
  de_struct deny sch build (ser_struct fields) = Ok x.
Proof.
  intros Hr. apply de_struct_ok; [done..|]. exists fields. split; [apply ser_struct_of|].
  assert (∀ e, e ∈ fields → ∃ s, s ∈ sch ∧ slot_name s = e.1) as Hslot.
  { intros e [i Hi]%list_elem_of_lookup. destruct (Forall2_lookup_r _ _ _ _ _ Hr Hi) as (s & Hs & Hn & _). exists s.
    split; [by eapply list_elem_of_lookup_2|done]. }
  assert (∀ e, e ∈ fields → slot_name <$> find_slot sch e.1 = Some e.1) as Hfind.
  { intros e He. destruct (Hslot e He) as (s & Hs & <-). by rewrite (find_slot_names sch Hwf s) by (done || apply own_name). }
  split_and!.
  - intros _. apply Forall_forall. intros e He. specialize (Hfind e He). by destruct (find_slot sch e.1).
  - assert (named sch fields = slot_name <$> sch) as ->; [|by apply slot_names_NoDup].
    transitivity (fst <$> fields).
    + clear -Hfind. unfold named. induction fields as [|e l IH]; [done|]. cbn. rewrite Hfind by left. f_equal. apply IH. intros e' He'. apply Hfind. by right.
    + clear -Hr. induction Hr as [|s e l l' [Hn _] _ IH]; [done|]. cbn. by rewrite Hn, IH.
  - apply Forall_forall. intros s [i Hi]%list_elem_of_lookup. left. destruct (Forall2_lookup_l _ _ _ _ _ Hr Hi) as ([name v] & He & Hn & Hd).
    exists (slot_name s), v. split_and!; [|apply own_name|done]. rewrite Hn. by apply list_elem_of_lookup_2 in He.
Qed.
End struct_facts.

(** *** Round trips of the types of fields *)
Section roundtrips.
Context `{YamlLaws}.
Lemma int_roundtrip lo hi z : (lo ≤ z ≤ hi)%Z → de_int lo hi (ser_int z) = Ok z.
Proof. intros Hz. apply de_int_ok. split; [apply ser_int_of|done]. Qed.
Lemma bool_roundtrip b : de_bool (ser_bool b) = Ok b.
Proof. apply de_bool_ok, ser_bool_of. Qed.
Lemma str_roundtrip s : de_str (ser_str s) = Ok s.
Proof. apply de_str_ok, ser_str_of. Qed.
Lemma vec_roundtrip {A} (d : Node → result A DecodeError) e l : Forall (λ x, d (e x) = Ok x) l → de_vec d (ser_vec e l) = Ok l.
Proof. intros Hl. apply de_vec_ok. eexists. split; [apply ser_vec_of|]. by apply Forall2_fmap_l, Forall_Forall2_diag. Qed.
Lemma btree_roundtrip {A} (d : Node → result A DecodeError) e (m : gmap string A) :
  map_Forall (λ _ x, d (e x) = Ok x) m → de_btree d (ser_btree e m) = Ok m.
Proof.
  intros Hm. apply de_btree_ok. exists (prod_map id e <$> btree_iter m), (btree_iter m). split; [apply ser_btree_of|]. split.
  - apply Forall2_fmap_l, Forall_Forall2_diag, Forall_forall. intros [k x] Hin%btree_iter_elem. split; [done|]. exact (Hm k x Hin).
  - rewrite <- (list_to_map_to_list m) at 1. apply list_to_map_proper.
    + apply NoDup_fst_map_to_list.
    + rewrite reverse_Permutation. symmetry. apply sort_by_key_perm.
Qed.
Lemma option_roundtrip {A} (d : Node → result A DecodeError) e o :
  (∀ x, is_null (e x) = false ∧ d (e x) = Ok x) → de_option d (ser_option e o) = Ok o.
Proof. intros He. apply de_option_ok. destruct o as [x|]; [|apply ser_none_of]. rewrite ser_some_of. apply He. Qed.
(** A list of texts inside an untagged enum. *)
Lemma buffered_texts l : de_vec de_str (buffered (ser_vec ser_str l)) = Ok l.
Proof.
  apply de_vec_ok. eexists. split; [apply buffered_seq, ser_vec_of|]. rewrite <- list_fmap_compose.
  apply Forall2_fmap_l, Forall_Forall2_diag, Forall_true. intros s. apply de_str_ok, ser_str_buffered.
Qed.
Lemma seq_is_refused_as_text n l : seq_of n = Some l → is_ok (de_str n) = false.
Proof. intros Hn. destruct (de_str n) as [s|] eqn:Hs; [|done]. apply de_str_ok in Hs. by rewrite (seq_is_no_text n l Hn) in Hs. Qed.
End roundtrips.

(** ** A sample implementation, for any reader of texts *)
Module SampleYaml.
#[warnings="-register-all"]
Inductive SNode :=
  | NNull | NBool (b : bool) | NInt (z : Z) | NStr (s : string) | NSeq (l : list SNode) | NMap (l : list (string * SNode)).
Definition show (e : DecodeError) : string := match e with UnknownField f => "unknown field `" +:+ f +:+ "`" | OtherError e => e end.
Definition or_other {A} (e : string) (o : option A) : result A DecodeError := ok_or o (OtherError e).

Definition map_of' (n : SNode) : option (list (string * SNode)) := match n with NMap l => Some l | _ => None end.
Definition seq_of' (n : SNode) : option (list SNode) := match n with NSeq l => Some l | _ => None end.
Definition str_of' (n : SNode) : option string := match n with NStr s => Some s | _ => None end.
Definition bool_of' (n : SNode) : option bool := match n with NBool b => Some b | _ => None end.
Definition int_of' (n : SNode) : option Z := match n with NInt z => Some z | _ => None end.
Definition is_null' (n : SNode) : bool := match n with NNull => true | _ => false end.

Definition int (lo hi : Z) (n : SNode) : result Z DecodeError :=
  let? z := or_other "expected an integer" (int_of' n) in
  if (lo <=? z)%Z && (z <=? hi)%Z then Ok z else Err (OtherError ("invalid value: integer `" +:+ pretty z +:+ "`")).
Definition optional {A} (d : SNode → result A DecodeError) (n : SNode) : result (option A) DecodeError :=
  if is_null' n then Ok None else let? x := d n in Ok (Some x).
Definition vec {A} (d : SNode → result A DecodeError) (n : SNode) : result (list A) DecodeError :=
  let? l := or_other "expected a sequence" (seq_of' n) in collect d l.
Definition btree {A} (d : SNode → result A DecodeError) (n : SNode) : result (gmap string A) DecodeError :=
  let? es := or_other "expected a mapping" (map_of' n) in
  let? l := collect (λ '(k, v), let? x := d v in Ok (k, x)) es in
  Ok (list_to_map (reverse l)).
Definition untagged {A} (enum : string) (ds : list (SNode → result A DecodeError)) (n : SNode) : result A DecodeError :=
  or_other ("data did not match any variant of untagged enum " +:+ enum) (first_ok ds n).

Section struct.
Context {T : Type} (deny : bool) (sch : list (Slot SNode T)).
(** The entries of the mapping one by one: the values of the fields seen so far. *)
Fixpoint scan (seen : gmap string SNode) (es : list (string * SNode)) : result (gmap string SNode) DecodeError :=
  match es with
  | [] => Ok seen
  | (k, n) :: rest =>
      match find_slot sch k with
      | None => if deny then Err (UnknownField k) else scan seen rest
      | Some s =>
          match seen !! slot_name s with
          | Some _ => Err (OtherError ("duplicate field `" +:+ slot_name s +:+ "`"))
          | None => let? _ := slot_decode s n in scan (<[slot_name s := n]> seen) rest
          end
      end
  end.
Definition field (m : gmap string SNode) (s : Slot SNode T) : result (slot_type s) DecodeError :=
  match m !! slot_name s with
  | Some n => slot_decode s n
  | None => or_other ("missing field `" +:+ slot_name s +:+ "`") (slot_default s)
  end.
Definition struct (build : Builder SNode T) (n : SNode) : result T DecodeError :=
  let? es := or_other "expected a mapping" (map_of' n) in let? m := scan ∅ es in build (field m).
End struct.

Definition yaml (parse : string → result SNode string) : Yaml := {|
  Node := SNode; parse_doc := parse; show_error _ := show;
  map_of := map_of'; seq_of := seq_of'; str_of := str_of'; bool_of := bool_of'; int_of := int_of'; is_null := is_null'; buffered := id;
  de_int := int; de_bool n := or_other "expected a boolean" (bool_of' n); de_str n := or_other "expected a string" (str_of' n);
  de_option A := optional; de_vec A := vec; de_btree A := btree; de_untagged A := untagged; de_struct T := struct;
  ser_int := NInt; ser_bool := NBool; ser_str := NStr; ser_option A e o := match o with Some x => e x | None => NNull end;
  ser_vec A e l := NSeq (e <$> l); ser_btree A e m := NMap (prod_map id e <$> btree_iter m); ser_struct := NMap
|}.

(** *** The laws *)
Section laws.
Context {T : Type} (deny : bool) (sch : list (Slot SNode T)).

(** Entries that the scan goes through: known, if it must be, not seen before, of their types. *)
Definition fits (seen : gmap string SNode) (es : list (string * SNode)) : Prop :=
  (deny = true → Forall (λ e, is_Some (find_slot sch e.1)) es) ∧
  Forall (λ e, ∀ s, find_slot sch e.1 = Some s → seen !! slot_name s = None ∧ is_ok (slot_decode s e.2) = true) es ∧
  NoDup (named sch es).

Lemma scan_ok seen es m :
  scan deny sch seen es = Ok m →
  fits seen es ∧ ∀ f n, m !! f = Some n ↔ seen !! f = Some n ∨ ∃ k s, (k, n) ∈ es ∧ find_slot sch k = Some s ∧ slot_name s = f.
Proof.
  unfold fits, named. revert seen. induction es as [|[k n] es IH]; intros seen; cbn [scan omap list_omap fst].
  { intros [= <-]. split; [split_and!; constructor|]. intros f n. split; [by left|]. by intros [?|(? & ? & ?%not_elem_of_nil & _)]. }
  destruct (find_slot sch k) as [s|] eqn:Hf; cbn.
  - destruct (seen !! slot_name s) eqn:Hs; [done|]. destruct (slot_decode s n) as [v|] eqn:Hd; [|done]. intros ((Hk & Hall & Hnd) & Hm)%IH.
    rewrite Forall_forall in Hall. split; [split_and!|].
    + intros Hdeny. constructor; [cbn; by rewrite Hf|by apply Hk].
    + constructor; [cbn; intros s' [= <-]%(eq_trans (eq_sym Hf)); by rewrite Hd|]. apply Forall_forall. intros e He s' Hf'.
      destruct (Hall e He s' Hf') as [Hs' ?]. by apply lookup_insert_None in Hs' as [? _].
    + constructor; [|done]. intros (e & He & Heq)%list_elem_of_omap. destruct (find_slot sch e.1) as [s'|] eqn:Hf'; [|done]. injection Heq as Heq.
      destruct (Hall e He s' Hf') as [Hs' _]. by rewrite Heq, lookup_insert_eq in Hs'.
    + intros f n'. rewrite Hm, lookup_insert_Some. split.
      * intros [[[<- <-]|[_ ?]]|(k' & s' & ? & ? & ?)]; [right; exists k, s; split_and!; [left|..]; done|by left|].
        right. exists k', s'. split_and!; [by right|done..].
      * intros [Hn|(k' & s' & [[= -> ->]|?]%elem_of_cons & Hf' & <-)].
        -- left. right. split; [|done]. intros <-. congruence.
        -- rewrite Hf in Hf'. injection Hf' as <-. left. by left.
        -- right. by exists k', s'.
  - intros Hx. assert (deny = false ∧ scan deny sch seen es = Ok m) as [Hdeny ((Hk & Hall & Hnd) & Hm)%IH] by (by destruct deny).
    split; [split_and!; [by rewrite Hdeny|constructor; [cbn; intros s' ?; congruence|done]|done]|]. intros f n'. rewrite Hm. split.
    + intros [?|(k' & s' & ? & ? & ?)]; [by left|right]. exists k', s'. split_and!; [by right|done..].
    + intros [?|(k' & s' & [[= -> ->]|?]%elem_of_cons & Hf' & <-)]; [by left|congruence|]. right. by exists k', s'.
Qed.
Lemma scan_complete seen es : fits seen es → ∃ m, scan deny sch seen es = Ok m.
Proof.
  unfold fits, named. revert seen. induction es as [|[k n] es IH]; intros seen; cbn [scan omap list_omap fst]; [by exists seen|].
  intros (Hk & Hall & Hnd). apply Forall_cons in Hall as [Hd Hall]. assert (deny = true → Forall (λ e, is_Some (find_slot sch e.1)) es) as Hk'.
  { intros Hdeny. by apply Forall_cons in Hk as [_ ?]. }
  cbn in Hd, Hnd. destruct (find_slot sch k) as [s|] eqn:Hf; cbn in Hnd.
  - destruct (Hd s eq_refl) as [-> Hs]. destruct (slot_decode s n); [|done]. apply NoDup_cons in Hnd as [Hn Hnd].
    apply IH. split_and!; [done| |done]. rewrite Forall_forall in Hall. apply Forall_forall. intros e He s' Hf'.
    destruct (Hall e He s' Hf') as [Hs' ?]. split; [|done]. apply lookup_insert_None. split; [done|].
    intros Heq. apply Hn, list_elem_of_omap. exists e. split; [done|]. rewrite Hf'. cbn. by rewrite Heq.
  - destruct deny; [|by apply IH]. specialize (Hk eq_refl). apply Forall_cons in Hk as [Hk _]. cbn in Hk. rewrite Hf in Hk. by destruct Hk.
Qed.

Lemma or_other_ok {A} e (o : option A) x : or_other e o = Ok x ↔ o = Some x.
Proof. destruct o; cbn; split; congruence. Qed.

(** The fields of [x] after the scan. *)
Lemma scanned_says es m x :
  schema_wf sch → scan deny sch ∅ es = Ok m → Forall (λ s, field m s = Ok (slot_get s x)) sch ↔ says deny sch es x.
Proof.
  intros Hwf ((Hk & Hall & Hnd) & Hm)%scan_ok.
  assert (∀ s f, s ∈ sch → m !! slot_name s = Some f ↔ ∃ k, (k, f) ∈ es ∧ names s k = true) as Hms.
  { intros s f Hs. rewrite Hm, lookup_empty. split.
    - intros [?|(k & s' & Hin & Hf & Heq)]; [done|]. apply find_slot_some in Hf as [Hs' Hk']. exists k.
      by assert (s = s') as -> by by apply (slot_name_inj sch Hwf).
    - intros (k & Hin & Hn). right. exists k, s. by rewrite (find_slot_names sch Hwf s k). }
  unfold says. rewrite !(Forall_forall _ sch). split.
  - intros Hf. split_and!; [done|done|]. intros s Hs. specialize (Hf s Hs). unfold field in Hf. destruct (m !! slot_name s) as [f|] eqn:Hl.
    + apply Hms in Hl as (k & Hin & Hn); [|done]. left. by exists k, f.
    + right. split; [|by apply or_other_ok in Hf]. intros k f Hin. apply not_true_iff_false. intros Hn.
      assert (m !! slot_name s = Some f) by (apply Hms; [done|by exists k]). congruence.
  - intros (_ & _ & Hf) s Hs. unfold field. destruct (Hf s Hs) as [(k & f & Hin & Hn & Hd)|[Hno Hd]].
    + by rewrite (proj2 (Hms s f Hs) (ex_intro _ k (conj Hin Hn))).
    + destruct (m !! slot_name s) as [f|] eqn:Hl; [|by apply or_other_ok]. apply Hms in Hl as (k & Hin & Hn); [|done].
      by rewrite (Hno _ _ Hin) in Hn.
Qed.
Lemma says_fits es x : schema_wf sch → says deny sch es x → fits ∅ es.
Proof.
  intros Hwf (Hk & Hnd & Hf). split_and!; [done| |done]. rewrite Forall_forall in Hf. apply Forall_forall. intros [k f] Hin s Hs. cbn [fst snd] in *.
  split; [apply lookup_empty|]. apply find_slot_some in Hs as [Hs Hn]. destruct (Hf s Hs) as [(k' & f' & Hin' & Hn' & Hd)|[Hno _]].
  - assert ((k, f) = (k', f')) as [= -> ->]; [|by rewrite Hd]. by apply (named_once sch Hwf es k f k' f' s).
  - by rewrite (Hno _ _ Hin) in Hn.
Qed.
Lemma struct_ok build n x :
  schema_wf sch → builds sch build → struct deny sch build n = Ok x ↔ ∃ es, map_of' n = Some es ∧ says deny sch es x.
Proof.
  intros Hwf Hb. unfold struct. destruct (map_of' n) as [es|]; cbn; [|split; [done|by intros (? & ? & _)]].
  destruct (scan deny sch ∅ es) as [m|e] eqn:Hscan; cbn.
  - rewrite (Hb (field m) x), (scanned_says es m x) by done. split; [by exists es|]. by intros (es' & [= <-] & ?).
  - split; [done|]. intros (es' & [= <-] & [m Hm]%says_fits%scan_complete); [congruence|done].
Qed.
End laws.

Lemma struct_unknown {T} (sch : list (Slot SNode T)) build n es1 k v es2 :
  map_of' n = Some (es1 ++ (k, v) :: es2) → clean sch es1 → find_slot sch k = None → struct true sch build n = Err (UnknownField k).
Proof.
  intros Hn [Hall Hnd] Hk. unfold struct. rewrite Hn. cbn.
  destruct (scan_complete true sch ∅ es1) as [m Hm].
  { split_and!; [..|done]; [intros _|]; apply (Forall_impl _ _ _ Hall); intros e (s & Hs & Hd); [by eexists|].
    intros s' Hs'. rewrite Hs in Hs'. injection Hs' as <-. split; [apply lookup_empty|done]. }
  assert (∀ seen, is_ok (scan true sch seen es1) = true → scan true sch seen (es1 ++ (k, v) :: es2) = Err (UnknownField k)) as ->;
    [|done|by rewrite Hm].
  clear -Hk. induction es1 as [|[k1 v1] es1 IH]; intros seen; cbn; [by rewrite Hk|]. destruct (find_slot sch k1) as [s|]; [|done].
  destruct (seen !! slot_name s); [done|]. destruct (slot_decode s v1); [apply IH|done].
Qed.

#[export] Instance yaml_laws parse : YamlLaws (yaml parse).
Proof.
  split; cbn; try done.
  - intros lo hi n z. unfold int. destruct (int_of' n) as [v|]; cbn; [|by split; [|intros [? _]]].
    destruct (_ && _) eqn:Hr; bool_prop; split; [intros [= <-]; split; [done|lia]|by intros [[= <-] _]|done|intros [[= <-] ?]; lia].
  - intros n b. apply or_other_ok.
  - intros n s. apply or_other_ok.
  - intros A d n o. unfold optional. destruct (is_null' n), o as [x|]; cbn; try (split; [done|by intros [? _]]); [done|..].
    + destruct (d n); split; [by intros [= <-]|by intros [_ [= <-]]|done|by intros [_ ?]].
    + by destruct (d n).
  - intros A d n l. unfold vec. destruct (seq_of' n) as [ns|]; cbn; [|by split; [|intros (? & ? & _)]].
    rewrite collect_ok. split; [by exists ns|]. by intros (? & [= <-] & ?).
  - intros A d n m. unfold btree. destruct (map_of' n) as [es|]; cbn; [|by split; [|intros (? & ? & ? & _)]].
    assert (∀ l, collect (λ '(k, v), let? x := d v in Ok (k, x)) es = Ok l ↔ Forall2 (λ e kx, e.1 = kx.1 ∧ d e.2 = Ok kx.2) es l) as Hl.
    { intros l. rewrite collect_ok. split; intros HF; apply (Forall2_impl _ _ _ _ HF); intros [k v] [k' x]; cbn; destruct (d v);
        [by intros [= <- <-]|done|by intros [-> [= ->]]|by intros [_ ?]]. }
    destruct (collect _ es) as [l|] eqn:Hc.
    + split; [intros [= <-]; exists es, l; split_and!; [done|by apply Hl|done]|]. intros (? & l' & [= <-] & Hl'%Hl & ->). by injection Hl' as ->.
    + split; [done|]. by intros (? & l' & [= <-] & Hl'%Hl & ->).
  - intros A enum ds n x. apply or_other_ok.
  - intros T deny sch build n x. apply struct_ok.
  - intros T sch build n es1 k v es2. apply struct_unknown.
  - intros body f. apply contains_iff. by exists "unknown field `", "`".
  - by intros [].
  - by intros [].
  - intros n l ->. f_equal. by rewrite list_fmap_id.
Qed.
End SampleYaml.
