(* ===== verification/Decode.v ===== *)
(** * Decoding the configuration and the job files (src/config.rs, src/dsl/loader.rs)

    The structures that the source derives [Deserialize] for, as schemas of [Serde]: one slot
    per field with its attributes, and [deny_unknown_fields] of each as the flag of
    [de_struct]. What the derive does with a schema is a parameter ([Yaml], [YamlLaws]).
    [decode_config] is the decoder of [cronmanager.yaml], [decode_jobs] that of a job file. *)
From S2P Require Import Prelude RStr Config Libs Serde.

Section decode.
Context `{Yaml}.

(** The integer types of the fields, [usize] on a 64-bit target. *)
Definition i64_min : Z := -9223372036854775808.
Definition i64_max : Z := 9223372036854775807.
Definition u16 : Node → result Z DecodeError := de_int 0 65535.
Definition u32 : Node → result Z DecodeError := de_int 0 u32_max.
Definition u64 : Node → result Z DecodeError := de_int 0 u64_max.
Definition usize : Node → result Z DecodeError := de_int 0 u64_max.
Definition i64 : Node → result Z DecodeError := de_int i64_min i64_max.
Definition strings : Node → result (list string) DecodeError := de_vec de_str.
Definition string_map : Node → result (gmap string string) DecodeError := de_btree de_str.
Definition default_true : bool := true.

(** ** [Limits] *)
Definition lim_request : Slot Node Limits := mkSlot "max_request_bytes" [] Z usize (Some default_max_request_bytes) max_request_bytes.
Definition lim_response : Slot Node Limits := mkSlot "max_response_bytes" [] Z usize (Some default_max_response_bytes) max_response_bytes.
Definition lim_http : Slot Node Limits := mkSlot "request_timeout_secs" [] Z u64 (Some default_request_timeout_secs) request_timeout_secs.
Definition lim_shell : Slot Node Limits := mkSlot "shell_timeout_secs" [] Z u64 (Some default_shell_timeout_secs) shell_timeout_secs.
Definition limits_schema : list (Slot Node Limits) := [lim_request; lim_response; lim_http; lim_shell].
Definition build_limits (get : ∀ s : Slot Node Limits, result (slot_type s) DecodeError) : result Limits DecodeError :=
  let? a := get lim_request in let? b := get lim_response in
  let? c := get lim_http in let? d := get lim_shell in Ok (mkLimits a b c d).
Definition decode_limits : Node → result Limits DecodeError := de_struct true limits_schema build_limits.

(** ** [AdminConfig] *)
Definition adm_token : Slot Node AdminConfig :=
  mkSlot "bearer_token_env" ["bearerTokenEnv"] string de_str (Some default_admin_token_env) bearer_token_env.
Definition adm_trust : Slot Node AdminConfig := mkSlot "trust_network" ["trustNetwork"] bool de_bool (Some false) trust_network.
Definition admin_schema : list (Slot Node AdminConfig) := [adm_token; adm_trust].
Definition build_admin (get : ∀ s : Slot Node AdminConfig, result (slot_type s) DecodeError) : result AdminConfig DecodeError :=
  let? a := get adm_token in let? b := get adm_trust in Ok (mkAdmin a b).
Definition decode_admin : Node → result AdminConfig DecodeError := de_struct true admin_schema build_admin.

(** ** [SecurityConfig] *)
Definition sec_block : Slot Node SecurityConfig :=
  mkSlot "block_private_networks" ["blockPrivateNetworks"] bool de_bool (Some default_true) block_private_networks.
Definition sec_dangerous : Slot Node SecurityConfig :=
  mkSlot "allow_dangerous_env_overrides" ["allowDangerousEnvOverrides"] bool de_bool (Some false) allow_dangerous_env_overrides.
Definition sec_params : Slot Node SecurityConfig :=
  mkSlot "max_query_params" ["maxQueryParams"] Z usize (Some default_max_query_params) max_query_params.
Definition sec_dsl_bytes : Slot Node SecurityConfig :=
  mkSlot "max_dsl_file_bytes" ["maxDslFileBytes"] Z u64 (Some default_max_dsl_file_bytes) max_dsl_file_bytes.
Definition sec_load_timeout : Slot Node SecurityConfig :=
  mkSlot "dsl_load_timeout_secs" ["dslLoadTimeoutSecs"] Z u64 (Some default_dsl_load_timeout_secs) dsl_load_timeout_secs.
Definition sec_retry : Slot Node SecurityConfig :=
  mkSlot "max_retry_count" ["maxRetryCount"] Z u32 (Some default_max_retry_count) max_retry_count.
Definition sec_cron : Slot Node SecurityConfig :=
  mkSlot "min_cron_interval_secs" ["minCronIntervalSecs"] Z i64 (Some default_min_cron_interval_secs) min_cron_interval_secs.
Definition sec_stored : Slot Node SecurityConfig :=
  mkSlot "stored_response_body_max_bytes" ["storedResponseBodyMaxBytes"] Z usize (Some default_stored_response_body_max_bytes)
    stored_response_body_max_bytes.
Definition sec_reload : Slot Node SecurityConfig :=
  mkSlot "reload_min_interval_secs" ["reloadMinIntervalSecs"] Z u64 (Some default_reload_min_interval_secs) reload_min_interval_secs.
Definition sec_jobs : Slot Node SecurityConfig :=
  mkSlot "expose_jobs_publicly" ["exposeJobsPublicly"] bool de_bool (Some default_true) expose_jobs_publicly.
Definition sec_running : Slot Node SecurityConfig :=
  mkSlot "expose_running_publicly" ["exposeRunningPublicly"] bool de_bool (Some default_true) expose_running_publicly.
Definition sec_groups : Slot Node SecurityConfig :=
  mkSlot "per_group_token_envs" ["perGroupTokenEnvs"] (gmap string string) string_map (Some ∅) per_group_token_envs.
Definition sec_hosts : Slot Node SecurityConfig :=
  mkSlot "allowed_private_hosts" ["allowedPrivateHosts"] (list string) strings (Some []) allowed_private_hosts.
Definition sec_fixtures : Slot Node SecurityConfig :=
  mkSlot "allow_dev_fixture_dsls" ["allowDevFixtureDsls"] bool de_bool (Some false) allow_dev_fixture_dsls.
Definition security_schema : list (Slot Node SecurityConfig) :=
  [sec_block; sec_dangerous; sec_params; sec_dsl_bytes; sec_load_timeout; sec_retry; sec_cron; sec_stored; sec_reload;
   sec_jobs; sec_running; sec_groups; sec_hosts; sec_fixtures].
Definition build_security (get : ∀ s : Slot Node SecurityConfig, result (slot_type s) DecodeError) : result SecurityConfig DecodeError :=
  let? a := get sec_block in let? b := get sec_dangerous in let? c := get sec_params in
  let? d := get sec_dsl_bytes in let? e := get sec_load_timeout in let? f := get sec_retry in
  let? g := get sec_cron in let? h := get sec_stored in let? i := get sec_reload in
  let? j := get sec_jobs in let? k := get sec_running in let? l := get sec_groups in
  let? n := get sec_hosts in let? o := get sec_fixtures in Ok (mkSecurity a b c d e f g h i j k l n o).
Definition decode_security : Node → result SecurityConfig DecodeError := de_struct true security_schema build_security.

(** ** [DatabaseCfg] *)
Definition db_url : Slot Node DatabaseCfg := mkSlot "url" [] string de_str None url.
Definition db_password : Slot Node DatabaseCfg := mkSlot "password_env" [] string de_str (Some default_password_env) password_env.
Definition database_schema : list (Slot Node DatabaseCfg) := [db_url; db_password].
Definition build_database (get : ∀ s : Slot Node DatabaseCfg, result (slot_type s) DecodeError) : result DatabaseCfg DecodeError :=
  let? a := get db_url in let? b := get db_password in Ok (mkDatabase a b).
Definition decode_database : Node → result DatabaseCfg DecodeError := de_struct true database_schema build_database.

(** ** [AppConfig] *)

(** [de_origins] on a value: the variants of the untagged enum in order. *)
Definition decode_origins (n : Node) : result (list string) DecodeError :=
  let? val := de_untagged "OneOrMany" [λ m, let? s := de_str m in Ok (One s); λ m, let? l := strings m in Ok (Many l)] n in
  Ok (de_origins val).
Definition app_port : Slot Node AppConfig := mkSlot "port" [] Z u16 (Some default_port) port.
Definition app_dsl : Slot Node AppConfig := mkSlot "dsl_path" ["configPath"] string de_str (Some default_dsl_path) dsl_path.
Definition app_root : Slot Node AppConfig := mkSlot "app_root_path" ["appRootPath"] string de_str (Some default_app_root_path) app_root_path.
Definition app_origins : Slot Node AppConfig :=
  mkSlot "allowed_origins" ["allowedOrigins"] (list string) decode_origins (Some []) allowed_origins.
Definition app_shell : Slot Node AppConfig :=
  mkSlot "shell_environment" ["shellEnvironment"] (gmap string string) string_map (Some ∅) shell_environment.
Definition app_limits : Slot Node AppConfig := mkSlot "limits" [] Limits decode_limits (Some Limits_default) limits.
Definition app_admin : Slot Node AppConfig := mkSlot "admin" [] AdminConfig decode_admin (Some AdminConfig_default) admin.
Definition app_security : Slot Node AppConfig := mkSlot "security" [] SecurityConfig decode_security (Some SecurityConfig_default) security.
Definition app_database : Slot Node AppConfig := mkSlot "database" [] (option DatabaseCfg) (de_option decode_database) (Some None) database.
Definition app_schema : list (Slot Node AppConfig) :=
  [app_port; app_dsl; app_root; app_origins; app_shell; app_limits; app_admin; app_security; app_database].
Definition build_app (get : ∀ s : Slot Node AppConfig, result (slot_type s) DecodeError) : result AppConfig DecodeError :=
  let? a := get app_port in let? b := get app_dsl in let? c := get app_root in
  let? d := get app_origins in let? e := get app_shell in let? f := get app_limits in
  let? g := get app_admin in let? h := get app_security in let? i := get app_database in
  Ok (mkAppConfig a b c d e f g h i).
Definition decode_config : Node → result AppConfig DecodeError := de_struct true app_schema build_app.
(** [serde_yaml_ng::from_str::<AppConfig>]. *)
Definition config_from_str : string → result AppConfig string := from_str_with decode_config.

(** ** [RawJob] *)
Definition decode_trigger : Node → result RawTrigger DecodeError :=
  de_untagged "RawTrigger" [λ m, let? b := de_bool m in Ok (RawBool b); λ m, let? s := de_str m in Ok (RawStr s)].
Definition decode_command : Node → result RawCommand DecodeError :=
  de_untagged "RawCommand" [λ m, let? s := de_str m in Ok (CmdString s); λ m, let? l := strings m in Ok (CmdList l)].
(** An [Option] that is left out is [None], with the attribute [default] or without. *)
Definition opt_slot {A} (name : string) (d : Node → result A DecodeError) (get : RawJob → option A) : Slot Node RawJob :=
  mkSlot name [] (option A) (de_option d) (Some None) get.
Definition job_trigger : Slot Node RawJob := mkSlot "trigger" [] RawTrigger decode_trigger None raw_trigger.
Definition job_type : Slot Node RawJob := mkSlot "type" [] string de_str None raw_ty.
Definition job_start : Slot Node RawJob := opt_slot "startDate" i64 start_date.
Definition job_end : Slot Node RawJob := opt_slot "endDate" i64 end_date.
Definition job_retry : Slot Node RawJob := opt_slot "retryCount" u32 retry_count.
Definition job_delay : Slot Node RawJob := opt_slot "retryDelay" u64 retry_delay_ms.
Definition job_ignore : Slot Node RawJob := opt_slot "ignoreFailures" de_bool raw_ignore_failures.
Definition job_method : Slot Node RawJob := opt_slot "method" de_str raw_method.
Definition job_url : Slot Node RawJob := opt_slot "url" de_str raw_url.
Definition job_headers : Slot Node RawJob := opt_slot "headers" string_map raw_headers.
Definition job_header_envs : Slot Node RawJob := opt_slot "headerEnvs" string_map header_envs.
Definition job_command : Slot Node RawJob := opt_slot "command" decode_command command.
Definition job_envs : Slot Node RawJob := opt_slot "allowedEnvs" strings raw_allowed_envs.
Definition job_schema : list (Slot Node RawJob) :=
  [job_trigger; job_type; job_start; job_end; job_retry; job_delay; job_ignore; job_method; job_url; job_headers;
   job_header_envs; job_command; job_envs].
Definition build_job (get : ∀ s : Slot Node RawJob, result (slot_type s) DecodeError) : result RawJob DecodeError :=
  let? a := get job_trigger in let? b := get job_type in let? c := get job_start in
  let? d := get job_end in let? e := get job_retry in let? f := get job_delay in
  let? g := get job_ignore in let? h := get job_method in let? i := get job_url in
  let? j := get job_headers in let? k := get job_header_envs in let? l := get job_command in
  let? n := get job_envs in Ok (mkRawJob a b c d e f g h i j k l n).
Definition decode_job : Node → result RawJob DecodeError := de_struct true job_schema build_job.
Definition decode_jobs : Node → result (gmap string RawJob) DecodeError := de_btree decode_job.
Definition jobs_from_str : string → result (gmap string RawJob) string := from_str_with decode_jobs.

(** ** [#[derive(Serialize)]] *)
Definition encode_limits (x : Limits) : Node := ser_struct
  [("max_request_bytes", ser_int (max_request_bytes x)); ("max_response_bytes", ser_int (max_response_bytes x));
   ("request_timeout_secs", ser_int (request_timeout_secs x)); ("shell_timeout_secs", ser_int (shell_timeout_secs x))].
Definition encode_admin (x : AdminConfig) : Node := ser_struct
  [("bearer_token_env", ser_str (bearer_token_env x)); ("trust_network", ser_bool (trust_network x))].
Definition encode_security (x : SecurityConfig) : Node := ser_struct
  [("block_private_networks", ser_bool (block_private_networks x));
   ("allow_dangerous_env_overrides", ser_bool (allow_dangerous_env_overrides x));
   ("max_query_params", ser_int (max_query_params x)); ("max_dsl_file_bytes", ser_int (max_dsl_file_bytes x));
   ("dsl_load_timeout_secs", ser_int (dsl_load_timeout_secs x)); ("max_retry_count", ser_int (max_retry_count x));
   ("min_cron_interval_secs", ser_int (min_cron_interval_secs x));
   ("stored_response_body_max_bytes", ser_int (stored_response_body_max_bytes x));
   ("reload_min_interval_secs", ser_int (reload_min_interval_secs x));
   ("expose_jobs_publicly", ser_bool (expose_jobs_publicly x));
   ("expose_running_publicly", ser_bool (expose_running_publicly x));
   ("per_group_token_envs", ser_btree ser_str (per_group_token_envs x));
   ("allowed_private_hosts", ser_vec ser_str (allowed_private_hosts x));
   ("allow_dev_fixture_dsls", ser_bool (allow_dev_fixture_dsls x))].
Definition encode_database (x : DatabaseCfg) : Node := ser_struct
  [("url", ser_str (url x)); ("password_env", ser_str (password_env x))].
Definition encode_config (x : AppConfig) : Node := ser_struct
  [("port", ser_int (port x)); ("dsl_path", ser_str (dsl_path x)); ("app_root_path", ser_str (app_root_path x));
   ("allowed_origins", ser_vec ser_str (allowed_origins x)); ("shell_environment", ser_btree ser_str (shell_environment x));
   ("limits", encode_limits (limits x)); ("admin", encode_admin (admin x)); ("security", encode_security (security x));
   ("database", ser_option encode_database (database x))].
End decode.

(** ** Lemmas *)

(** A builder takes every field of its schema: [solve_build] proves it from the definition. *)
Ltac solve_build :=
  intros get y;
  split;
  [ intros Hb; repeat (match type of Hb with context [get ?s] => destruct (get s) eqn:?; [|discriminate Hb] end);
    injection Hb as <-; repeat constructor; assumption
  | intros Hf; repeat (apply Forall_cons in Hf as [Hx Hf]; rewrite Hx; clear Hx);
    match goal with |- _ = Ok ?y => by destruct y end ].

Section facts.
Context `{YamlLaws}.

Lemma build_limits_ok : builds limits_schema build_limits.
Proof. unfold build_limits. solve_build. Qed.
Lemma build_admin_ok : builds admin_schema build_admin.
Proof. unfold build_admin. solve_build. Qed.
Lemma build_security_ok : builds security_schema build_security.
Proof. unfold build_security. solve_build. Qed.
Lemma build_database_ok : builds database_schema build_database.
Proof. unfold build_database. solve_build. Qed.
Lemma build_app_ok : builds app_schema build_app.
Proof. unfold build_app. solve_build. Qed.
Lemma build_job_ok : builds job_schema build_job.
Proof. unfold build_job. solve_build. Qed.

(** The names and aliases of every structure are distinct. *)
Lemma limits_wf : schema_wf limits_schema.
Proof. apply (bool_decide_eq_true_1 (schema_wf _)). vm_compute. reflexivity. Qed.
Lemma admin_wf : schema_wf admin_schema.
Proof. apply (bool_decide_eq_true_1 (schema_wf _)). vm_compute. reflexivity. Qed.
Lemma security_wf : schema_wf security_schema.
Proof. apply (bool_decide_eq_true_1 (schema_wf _)). vm_compute. reflexivity. Qed.
Lemma database_wf : schema_wf database_schema.
Proof. apply (bool_decide_eq_true_1 (schema_wf _)). vm_compute. reflexivity. Qed.
Lemma app_wf : schema_wf app_schema.
Proof. apply (bool_decide_eq_true_1 (schema_wf _)). vm_compute. reflexivity. Qed.
Lemma job_wf : schema_wf job_schema.
Proof. apply (bool_decide_eq_true_1 (schema_wf _)). vm_compute. reflexivity. Qed.

(** Each decoder against what the document says. *)
Lemma decode_limits_says n x : decode_limits n = Ok x ↔ ∃ es, map_of n = Some es ∧ says true limits_schema es x.
Proof. apply de_struct_ok; [apply limits_wf|apply build_limits_ok]. Qed.
Lemma decode_admin_says n x : decode_admin n = Ok x ↔ ∃ es, map_of n = Some es ∧ says true admin_schema es x.
Proof. apply de_struct_ok; [apply admin_wf|apply build_admin_ok]. Qed.
Lemma decode_security_says n x : decode_security n = Ok x ↔ ∃ es, map_of n = Some es ∧ says true security_schema es x.
Proof. apply de_struct_ok; [apply security_wf|apply build_security_ok]. Qed.
Lemma decode_database_says n x : decode_database n = Ok x ↔ ∃ es, map_of n = Some es ∧ says true database_schema es x.
Proof. apply de_struct_ok; [apply database_wf|apply build_database_ok]. Qed.
Lemma decode_config_says n x : decode_config n = Ok x ↔ ∃ es, map_of n = Some es ∧ says true app_schema es x.
Proof. apply de_struct_ok; [apply app_wf|apply build_app_ok]. Qed.
Lemma decode_job_says n x : decode_job n = Ok x ↔ ∃ es, map_of n = Some es ∧ says true job_schema es x.
Proof. apply de_struct_ok; [apply job_wf|apply build_job_ok]. Qed.

Lemma decode_job_count n j c : decode_job n = Ok j → retry_count j = Some c → (0 ≤ c ≤ u32_max)%Z.
Proof.
  intros (es & _ & Hs)%decode_job_says. change (retry_count j) with (slot_get job_retry j).
  apply (says_field job_schema true es j job_retry (λ v, v = Some c → (0 ≤ c ≤ u32_max)%Z)); [done|set_solver| |by intros v [= <-]].
  intros m v Hv ->. apply de_option_ok in Hv as [_ Hv]. by apply de_int_ok in Hv as [_ Hv].
Qed.
End facts.

(** ** Well-formed configurations *)
Definition in_range (lo hi z : Z) : Prop := (lo ≤ z ≤ hi)%Z.
Definition limits_ok (l : Limits) : Prop :=
  in_range 0 u64_max (max_request_bytes l) ∧ in_range 0 u64_max (max_response_bytes l) ∧
  in_range 0 u64_max (request_timeout_secs l) ∧ in_range 0 u64_max (shell_timeout_secs l).
Definition security_ok (s : SecurityConfig) : Prop :=
  in_range 0 u64_max (max_query_params s) ∧ in_range 0 u64_max (max_dsl_file_bytes s) ∧
  in_range 0 u64_max (dsl_load_timeout_secs s) ∧ in_range 0 u32_max (max_retry_count s) ∧
  in_range i64_min i64_max (min_cron_interval_secs s) ∧ in_range 0 u64_max (stored_response_body_max_bytes s) ∧
  in_range 0 u64_max (reload_min_interval_secs s).
(** Origins are trimmed and not empty. *)
Definition origin_ok (o : string) : Prop := trim o = o ∧ o ≠ "".
Definition config_ok (c : AppConfig) : Prop :=
  in_range 0 65535 (port c) ∧ Forall origin_ok (allowed_origins c) ∧ limits_ok (limits c) ∧ security_ok (security c).

Lemma de_origins_ok v : Forall origin_ok (de_origins v).
Proof.
  assert (∀ l, Forall origin_ok (List.filter (λ p, negb (String.eqb p "")) (trim <$> l))) as Hl; [|destruct v; apply Hl].
  intros l. apply Forall_forall. intros o [Hin Hne]%list_elem_of_In%filter_In. bool_prop.
  apply list_elem_of_In, list_elem_of_fmap in Hin as (o' & -> & _). split; [apply trim_idem|done].
Qed.
Lemma de_origins_id l : Forall origin_ok l → de_origins (Many l) = l.
Proof.
  induction 1 as [|o l [Ht Hne] _ IH]; [done|]. cbn in *. rewrite Ht. cbn. destruct (String.eqb_spec o ""); [done|]. cbn. by rewrite IH.
Qed.

(** Defaults, constant bounds, membership of a literal schema, conjunctions without unfolding. *)
Ltac the_default := let Hd := fresh in intros ? Hd; cbn in Hd; injection Hd as <-.
Ltac closed_range := split; vm_compute; discriminate.
Ltac in_schema := repeat first [apply list_elem_of_here|apply list_elem_of_further].
Ltac conjuncts := repeat match goal with |- _ ∧ _ => split end.

Section configuration.
Context `{YamlLaws}.

Ltac field_range slot_ :=
  lazymatch goal with
  | Hs : says true ?sch ?es ?x |- in_range ?lo ?hi _ =>
      apply (says_field sch true es x slot_ (in_range lo hi)); [exact Hs|in_schema|let m := fresh in let v := fresh in let Hv := fresh in intros m v Hv; exact (proj2 (proj1 (de_int_ok lo hi m v) Hv))|the_default; closed_range]
  end.
Lemma decode_limits_ok n l : decode_limits n = Ok l → limits_ok l.
Proof.
  intros (es & _ & Hs)%decode_limits_says. unfold limits_ok. conjuncts; [field_range lim_request|field_range lim_response|field_range lim_http|field_range lim_shell].
Qed.
Lemma decode_security_ok n s : decode_security n = Ok s → security_ok s.
Proof.
  intros (es & _ & Hs)%decode_security_says. unfold security_ok.
  conjuncts; [field_range sec_params|field_range sec_dsl_bytes|field_range sec_load_timeout|field_range sec_retry|field_range sec_cron
    |field_range sec_stored|field_range sec_reload].
Qed.
Lemma config_default_ok : config_ok AppConfig_default.
Proof. unfold config_ok, limits_ok, security_ok. conjuncts; first [closed_range|constructor]. Qed.

Lemma decode_config_ok n c : decode_config n = Ok c → config_ok c.
Proof.
  intros (es & _ & Hs)%decode_config_says. pose proof config_default_ok as (Hp & Ho & Hl & Hc). unfold config_ok. conjuncts.
  - field_range app_port.
  - apply (says_field app_schema true es c app_origins (Forall origin_ok)); [done|in_schema| |by the_default].
    intros m l. cbn. unfold decode_origins. destruct (de_untagged _ _ m) as [val|]; [intros [= <-]; apply de_origins_ok|done].
  - apply (says_field app_schema true es c app_limits limits_ok); [done|in_schema|exact decode_limits_ok|by the_default].
  - apply (says_field app_schema true es c app_security security_ok); [done|in_schema|exact decode_security_ok|by the_default].
Qed.

(** *** Round trips *)
Lemma limits_roundtrip l : limits_ok l → decode_limits (encode_limits l) = Ok l.
Proof.
  intros (? & ? & ? & ?). apply (struct_roundtrip _ limits_wf _ build_limits_ok). repeat constructor; by apply int_roundtrip.
Qed.
Lemma admin_roundtrip a : decode_admin (encode_admin a) = Ok a.
Proof. apply (struct_roundtrip _ admin_wf _ build_admin_ok). repeat constructor; [apply str_roundtrip|apply bool_roundtrip]. Qed.
Lemma string_map_roundtrip m : string_map (ser_btree ser_str m) = Ok m.
Proof. apply btree_roundtrip. intros k x _. apply str_roundtrip. Qed.
Lemma security_roundtrip s : security_ok s → decode_security (encode_security s) = Ok s.
Proof.
  intros (? & ? & ? & ? & ? & ? & ?). apply (struct_roundtrip _ security_wf _ build_security_ok).
  repeat constructor; cbn; first
    [apply bool_roundtrip|by apply int_roundtrip|apply string_map_roundtrip|apply vec_roundtrip, Forall_true; intros; apply str_roundtrip].
Qed.
Lemma database_roundtrip d : decode_database (encode_database d) = Ok d.
Proof. apply (struct_roundtrip _ database_wf _ build_database_ok). repeat constructor; apply str_roundtrip. Qed.
Lemma origins_roundtrip l : Forall origin_ok l → decode_origins (ser_vec ser_str l) = Ok l.
Proof.
  intros Hl. unfold decode_origins. erewrite (proj2 (de_untagged_ok _ _ _ (Many l))); [by rewrite de_origins_id|].
  unfold first_ok, strings. cbn. rewrite buffered_texts.
  pose proof (seq_is_refused_as_text _ _ (buffered_seq _ _ (ser_vec_of ser_str l))) as Hs. by destruct (de_str _).
Qed.
Lemma app_roundtrip c : config_ok c → decode_config (encode_config c) = Ok c.
Proof.
  intros (? & ? & ? & ?). apply (struct_roundtrip _ app_wf _ build_app_ok).
  repeat constructor; cbn -[decode_limits decode_admin decode_security decode_database]; first
    [apply str_roundtrip|by apply int_roundtrip|apply string_map_roundtrip|by apply origins_roundtrip|by apply limits_roundtrip
    |apply admin_roundtrip|by apply security_roundtrip|idtac].
  apply option_roundtrip. intros d. split; [apply ser_struct_is_no_null|apply database_roundtrip].
Qed.
End configuration.

(** ** What the decoders promise *)

(** C26: the two ways of writing a default agree: a field that the document leaves out has the
    value that the [Default] of its structure gives it, so that an empty document is the
    built-in configuration, and leaving out a section is the same as writing it empty. *)
Theorem defaults_agree `{YamlLaws} n :
  map_of n = Some [] →
  decode_config n = Ok AppConfig_default ∧ decode_limits n = Ok Limits_default ∧ decode_admin n = Ok AdminConfig_default ∧
  decode_security n = Ok SecurityConfig_default ∧
  ∀ section es m m' c, section ∈ ["limits"; "admin"; "security"] → section ∉ es.*1 →
    map_of m = Some es → map_of m' = Some (es ++ [(section, n)]) → decode_config m = Ok c ↔ decode_config m' = Ok c.
Proof.
  intros Hn.
  assert (decode_limits n = Ok Limits_default) as Hl by (apply decode_limits_says; exists []; split; [done|]; apply says_nothing; repeat constructor).
  assert (decode_admin n = Ok AdminConfig_default) as Ha by (apply decode_admin_says; exists []; split; [done|]; apply says_nothing; repeat constructor).
  assert (decode_security n = Ok SecurityConfig_default) as Hs by (apply decode_security_says; exists []; split; [done|]; apply says_nothing; repeat constructor).
  conjuncts; [|done..|].
  { apply decode_config_says. exists []. split; [done|]. apply says_nothing. repeat constructor. }
  intros section es m m' c Hsec Hno Hm Hm'. rewrite !decode_config_says. setoid_rewrite Hm. setoid_rewrite Hm'.
  assert (says true app_schema es c ↔ says true app_schema (es ++ [(section, n)]) c) as Hsays.
  2: { split; intros (es1 & [= <-] & Hx); (eexists; split; [done|]); by apply Hsays. }
  assert (∀ s : Slot Node AppConfig, slot_aliases s = [] → slot_name s ∉ es.*1 → ∀ k v, (k, v) ∈ es → names s k = false) as Hnames.
  { intros s Hal Hs' k v Hin. apply not_true_iff_false. rewrite names_spec. unfold slot_keys. rewrite Hal.
    intros ->%list_elem_of_singleton. apply Hs'. by apply (list_elem_of_fmap_2 fst) in Hin. }
  repeat (apply elem_of_cons in Hsec as [->|Hsec]); [| | |by apply not_elem_of_nil in Hsec].
  - apply (says_default app_schema app_wf true es c app_limits n Limits_default); [in_schema|done|done|by apply Hnames].
  - apply (says_default app_schema app_wf true es c app_admin n AdminConfig_default); [in_schema|done|done|by apply Hnames].
  - apply (says_default app_schema app_wf true es c app_security n SecurityConfig_default); [in_schema|done|done|by apply Hnames].
Qed.

(** C27: a configuration that is written out reads back as itself, and what is read from any
    document is well-formed: numbers fit their types, origins are trimmed and not empty. *)
Theorem config_roundtrip `{YamlLaws} :
  (∀ c, config_ok c → decode_config (encode_config c) = Ok c) ∧
  ∀ n c, decode_config n = Ok c → config_ok c ∧ decode_config (encode_config c) = Ok c.
Proof.
  split; [apply app_roundtrip|]. intros n c Hd%decode_config_ok. split; [done|]. by apply app_roundtrip.
Qed.

(** ** The decoder as an implementation of [Libs] *)

(** The other parsers with this decoder of job files. *)
Definition with_yaml (L : Libs) `{Yaml} : Libs := {|
  Schedule := Schedule; cron_from_str := cron_from_str; upcoming_next := upcoming_next; url_parse := url_parse;
  header_name_from_bytes := header_name_from_bytes; header_value_from_str := header_value_from_str;
  method_from_bytes := method_from_bytes; yaml_jobs := jobs_from_str; str_to_uppercase := str_to_uppercase;
  header_value_to_str := header_value_to_str; form_urlencoded_parse := form_urlencoded_parse; ct_eq := ct_eq |}.

Lemma from_str_ok `{Yaml} {A} (d : Node → result A DecodeError) body x : from_str_with d body = Ok x → ∃ n, parse_doc body = Ok n ∧ d n = Ok x.
Proof.
  unfold from_str_with. destruct (parse_doc body) as [n|]; [|done]. destruct (d n) as [y|] eqn:Hd; [|done]. intros [= ->]. by exists n.
Qed.
Lemma btree_entry `{YamlLaws} {A} (d : Node → result A DecodeError) n m k x :
  de_btree d n = Ok m → m !! k = Some x → ∃ v, d v = Ok x.
Proof.
  intros (es & l & _ & Hl & ->)%de_btree_ok Hk. apply elem_of_list_to_map_2 in Hk. rewrite elem_of_reverse in Hk.
  apply list_elem_of_lookup in Hk as [i Hi]. destruct (Forall2_lookup_r _ _ _ _ _ Hl Hi) as ([k' v] & _ & _ & Hd). by exists v.
Qed.

#[export] Instance with_yaml_laws L `{!LibLaws L} `{YamlLaws} : LibLaws (with_yaml L).
Proof.
  destruct LibLaws0 as [Hname Hup Hupper Hvalue Heq _].
  split; [exact Hname|exact Hup|exact Hupper|exact Hvalue|exact Heq|].
  intros body jobs n raw c (m & _ & Hm)%from_str_ok Hn Hc. destruct (btree_entry _ _ _ _ _ Hm Hn) as [v Hv].
  by eapply decode_job_count.
Qed.

(** ** Sample documents *)
Import SampleYaml.
#[local] Instance sample_yaml : Yaml := yaml (λ _, Err "not read").

(** A mapping, and one with a section, an alias and origins as one string. *)
Definition doc (l : list (string * SNode)) : Node := NMap l.
Definition sample_document : Node :=
  doc [("configPath", NStr "/etc/jobs"); ("allowedOrigins", NStr " https://a.example, ,https://b.example "); ("port", NInt 9000);
        ("security", NMap [("maxRetryCount", NInt 3); ("allowedPrivateHosts", NSeq [NStr "10.0.0.7"])]);
        ("database", NMap [("url", NStr "mysql://app@db/cron")])].

Lemma defaults_agree_witness :
  map_of (doc []) = Some [] ∧ decode_config (doc []) = Ok AppConfig_default ∧
  ∀ c, decode_config (doc [("port", NInt 9000)]) = Ok c ↔ decode_config (doc [("port", NInt 9000); ("security", NMap [])]) = Ok c.
Proof.
  destruct (defaults_agree (doc []) eq_refl) as (Hd & _ & _ & _ & Hs).
  split; [reflexivity|]. split; [exact Hd|]. intros c. apply (Hs "security" [("port", NInt 9000)]); [in_schema| |reflexivity|reflexivity].
  apply not_elem_of_cons. split; [discriminate|apply not_elem_of_nil].
Defined.

(** What the sample document says; written out it reads back. *)
Lemma config_roundtrip_witness :
  ∃ c, decode_config sample_document = Ok c ∧ allowed_origins c = ["https://a.example"; "https://b.example"] ∧ dsl_path c = "/etc/jobs" ∧
    max_retry_count (security c) = 3%Z ∧ reload_min_interval_secs (security c) = 60%Z ∧ password_env <$> database c = Some default_password_env ∧
    decode_config (encode_config c) = Ok c.
Proof.
  assert (∃ c, decode_config sample_document = Ok c) as [c Hc] by (eexists; vm_compute; reflexivity).
  exists c. split; [exact Hc|]. pose proof (proj2 config_roundtrip sample_document c Hc) as [_ Hr].
  vm_compute in Hc. injection Hc as <-. do 5 (split; [reflexivity|]). exact Hr.
Defined.
