(* ===== verification/Handbook.v ===== *)
(** * The field reference of the handbook (book/src/configuration.md)

    What a user is told about [cronmanager.yaml] and about job files, written down from the
    tables of the book and not from the schemas of [Decode]: for each field its key, its type
    and its default. The book calls every number an integer; the ranges are those of the types
    that src/config.rs and src/dsl/loader.rs declare. It lists the camelCase spelling of the
    fields at the top; that the fields of [admin] and [security] have one too is from the
    comment at the top of src/config.rs. [documented_keys_bind] relates the decoders of
    [Decode] to these tables. *)
From S2P Require Import Prelude RStr Config Libs Serde Decode.

(** ** Spellings *)

(** [max_query_params] as [maxQueryParams]. *)
Fixpoint camel (after_underscore : bool) (s : string) : string :=
  match s with
  | EmptyString => ""
  | String "_" rest => camel true rest
  | String c rest => String (if after_underscore then ascii_upper c else c) (camel false rest)
  end.
Definition both (key : string) : list string := [key; camel false key].

Section tables.
Context `{Yaml}.

(** ** Types *)
Definition integer (lo hi : Z) (n : Node) (z : Z) : Prop := int_of n = Some z ∧ (lo ≤ z ≤ hi)%Z.
Definition unsigned : Node → Z → Prop := integer 0 18446744073709551615.
Definition switch (n : Node) (b : bool) : Prop := bool_of n = Some b.
Definition string_ (n : Node) (s : string) : Prop := str_of n = Some s.
Definition list_of_strings (n : Node) (l : list string) : Prop := ∃ ns, seq_of n = Some ns ∧ Forall2 string_ ns l.
(** The last entry of a key counts. *)
Definition map_of_strings (n : Node) (m : gmap string string) : Prop :=
  ∃ es l, map_of n = Some es ∧ Forall2 (λ e kx, e.1 = kx.1 ∧ string_ e.2 kx.2) es l ∧ m = list_to_map (reverse l).
(** One form or, when the value does not have it, another. *)
Definition either {A B C} (P : Node → A → Prop) (f : A → C) (Q : Node → B → Prop) (g : B → C) (n : Node) (x : C) : Prop :=
  (∃ a, P (buffered n) a ∧ x = f a) ∨ ((∀ a, ¬ P (buffered n) a) ∧ ∃ b, Q (buffered n) b ∧ x = g b).
(** Spaces around an origin and empty origins are dropped. *)
Definition tidy (l : list string) : list string := filter (λ o, o ≠ "") (trim <$> l).
Definition origins : Node → list string → Prop := either string_ (λ s, tidy (split_on "," s)) list_of_strings tidy.
(** A field of a job that may be left out, or be null. *)
Definition optional {A} (P : Node → A → Prop) (n : Node) (o : option A) : Prop :=
  match o with Some x => is_null n = false ∧ P n x | None => is_null n = true end.

(** ** Tables *)
Record Row (T : Type) := mkRow { row_keys : list string; row_reads : Node → T → Prop; row_default : T → Prop }.
#[local] Arguments mkRow {T}.
#[local] Arguments row_keys {T}.
#[local] Arguments row_reads {T}.
#[local] Arguments row_default {T}.
Definition row {T A} (keys : list string) (type : Node → A → Prop) (default : option A) (get : T → A) : Row T :=
  mkRow keys (λ n x, type n (get x)) (λ x, default = Some (get x)).

(** A mapping whose keys are in the table, no row twice, each row read or at its default. *)
Definition documented {T} (table : list (Row T)) (n : Node) (x : T) : Prop :=
  ∃ es, map_of n = Some es ∧
    (∀ k v, (k, v) ∈ es → ∃ r : Row T, r ∈ table ∧ k ∈ row_keys r) ∧
    (∀ i j k1 v1 k2 v2 (r : Row T), es !! i = Some (k1, v1) → es !! j = Some (k2, v2) → r ∈ table → k1 ∈ row_keys r → k2 ∈ row_keys r → i = j) ∧
    (∀ r : Row T, r ∈ table → (∃ k v, (k, v) ∈ es ∧ k ∈ row_keys r ∧ row_reads r v x) ∨
                      ((∀ k v, (k, v) ∈ es → k ∉ row_keys r) ∧ row_default r x)).

Definition limits_table : list (Row Limits) :=
  [row ["max_request_bytes"] unsigned (Some 1048576%Z) max_request_bytes;
   row ["max_response_bytes"] unsigned (Some 16777216%Z) max_response_bytes;
   row ["request_timeout_secs"] unsigned (Some 30%Z) request_timeout_secs;
   row ["shell_timeout_secs"] unsigned (Some 300%Z) shell_timeout_secs].
Definition admin_table : list (Row AdminConfig) :=
  [row (both "bearer_token_env") string_ (Some "CRONMANAGER_ADMIN_TOKEN") bearer_token_env;
   row (both "trust_network") switch (Some false) trust_network].
Definition security_table : list (Row SecurityConfig) :=
  [row (both "block_private_networks") switch (Some true) block_private_networks;
   row (both "allow_dangerous_env_overrides") switch (Some false) allow_dangerous_env_overrides;
   row (both "max_query_params") unsigned (Some 64%Z) max_query_params;
   row (both "max_dsl_file_bytes") unsigned (Some 1048576%Z) max_dsl_file_bytes;
   row (both "dsl_load_timeout_secs") unsigned (Some 15%Z) dsl_load_timeout_secs;
   row (both "max_retry_count") (integer 0 4294967295) (Some 10%Z) max_retry_count;
   row (both "min_cron_interval_secs") (integer (-9223372036854775808) 9223372036854775807) (Some 10%Z) min_cron_interval_secs;
   row (both "stored_response_body_max_bytes") unsigned (Some 65536%Z) stored_response_body_max_bytes;
   row (both "reload_min_interval_secs") unsigned (Some 60%Z) reload_min_interval_secs;
   row (both "expose_jobs_publicly") switch (Some true) expose_jobs_publicly;
   row (both "expose_running_publicly") switch (Some true) expose_running_publicly;
   row (both "per_group_token_envs") map_of_strings (Some ∅) per_group_token_envs;
   row (both "allowed_private_hosts") list_of_strings (Some []) allowed_private_hosts;
   row (both "allow_dev_fixture_dsls") switch (Some false) allow_dev_fixture_dsls].
(** The section may be left out, but not its URL. *)
Definition database_table : list (Row DatabaseCfg) :=
  [row ["url"] string_ None url; row ["password_env"] string_ (Some "CRONMANAGER_DB_PASSWORD") password_env].
Definition app_table : list (Row AppConfig) :=
  [row ["port"] (integer 0 65535) (Some 8080%Z) port;
   row ["dsl_path"; "configPath"] string_ (Some "./DSL") dsl_path;
   row (both "app_root_path") string_ (Some "/app") app_root_path;
   row (both "allowed_origins") origins (Some []) allowed_origins;
   row (both "shell_environment") map_of_strings (Some ∅) shell_environment;
   row ["limits"] (documented limits_table) (Some (mkLimits 1048576 16777216 30 300)) limits;
   row ["admin"] (documented admin_table) (Some (mkAdmin "CRONMANAGER_ADMIN_TOKEN" false)) admin;
   row ["security"] (documented security_table)
     (Some (mkSecurity true false 64 1048576 15 10 10 65536 60 true true ∅ [] false)) security;
   row ["database"] (optional (documented database_table)) (Some None) database].
(** The fields of a job; the defaults of those left out are set when the job is built. *)
Definition job_table : list (Row RawJob) :=
  [row ["trigger"] (either switch RawBool string_ RawStr) None raw_trigger;
   row ["type"] string_ None raw_ty;
   row ["startDate"] (optional (integer (-9223372036854775808) 9223372036854775807)) (Some None) start_date;
   row ["endDate"] (optional (integer (-9223372036854775808) 9223372036854775807)) (Some None) end_date;
   row ["retryCount"] (optional (integer 0 4294967295)) (Some None) retry_count;
   row ["retryDelay"] (optional unsigned) (Some None) retry_delay_ms;
   row ["ignoreFailures"] (optional switch) (Some None) raw_ignore_failures;
   row ["method"] (optional string_) (Some None) raw_method;
   row ["url"] (optional string_) (Some None) raw_url;
   row ["headers"] (optional map_of_strings) (Some None) raw_headers;
   row ["headerEnvs"] (optional map_of_strings) (Some None) header_envs;
   row ["command"] (optional (either string_ CmdString list_of_strings CmdList)) (Some None) command;
   row ["allowedEnvs"] (optional list_of_strings) (Some None) raw_allowed_envs].
End tables.
Arguments mkRow {_ T}.
Arguments row_keys {_ T}.
Arguments row_reads {_ T}.
Arguments row_default {_ T}.

(** ** A schema and a table *)
Section match_tables.
Context `{YamlLaws}.

(** A slot that takes what a row documents. *)
Definition slot_matches {T} (s : Slot Node T) (r : Row T) : Prop :=
  slot_keys s = row_keys r ∧ (∀ n x, slot_decode s n = Ok (slot_get s x) ↔ row_reads r n x) ∧
  ∀ x, slot_default s = Some (slot_get s x) ↔ row_default r x.

Lemma named_known {T} (sch : list (Slot Node T)) es :
  Forall (λ e, is_Some (find_slot sch e.1)) es → Some <$> named sch es = (λ e, slot_name <$> find_slot sch e.1) <$> es.
Proof. unfold named. induction 1 as [|e es [s Hs] _ IH]; [done|]. cbn. rewrite Hs. cbn. by rewrite IH. Qed.

Section one_structure.
Context {T : Type} (sch : list (Slot Node T)) (table : list (Row T)) (Hwf : schema_wf sch) (Hm : Forall2 slot_matches sch table).

Lemma row_of_slot s : s ∈ sch → ∃ r : Row T, r ∈ table ∧ slot_matches s r.
Proof.
  intros [i Hi]%list_elem_of_lookup. destruct (Forall2_lookup_l _ _ _ _ _ Hm Hi) as (r & Hr & ?). exists r. split; [by eapply list_elem_of_lookup_2|done].
Qed.
Lemma slot_of_row r : r ∈ table → ∃ s, s ∈ sch ∧ slot_matches s r.
Proof.
  intros [i Hi]%list_elem_of_lookup. destruct (Forall2_lookup_r _ _ _ _ _ Hm Hi) as (s & Hs & ?). exists s. split; [by eapply list_elem_of_lookup_2|done].
Qed.
Lemma slot_matches_names s (r : Row T) k : slot_matches s r → names s k = true ↔ k ∈ row_keys r.
Proof. intros [<- _]. apply names_spec. Qed.

Lemma known_keys (es : list (string * Node)) :
  Forall (λ e, is_Some (find_slot sch e.1)) es ↔ ∀ k v, (k, v) ∈ es → ∃ r : Row T, r ∈ table ∧ k ∈ row_keys r.
Proof.
  rewrite Forall_forall. split.
  - intros Hk k v Hin. destruct (Hk _ Hin) as [s [Hs Hn]%find_slot_some]. destruct (row_of_slot s Hs) as (r & Hr & Hsr).
    exists r. split; [done|]. by apply (slot_matches_names s).
  - intros Hk [k v] Hin. destruct (Hk k v Hin) as (r & Hr & Hkr). destruct (slot_of_row r Hr) as (s & Hs & Hsr). exists s.
    apply (find_slot_names sch Hwf); [done|]. by apply (slot_matches_names s r).
Qed.
Lemma no_row_twice (es : list (string * Node)) :
  Forall (λ e, is_Some (find_slot sch e.1)) es →
  NoDup (named sch es) ↔ ∀ i j k1 v1 k2 v2 (r : Row T), es !! i = Some (k1, v1) → es !! j = Some (k2, v2) →
    r ∈ table → k1 ∈ row_keys r → k2 ∈ row_keys r → i = j.
Proof.
  intros Hk. rewrite <- (NoDup_fmap Some), named_known, NoDup_alt by done. split.
  - intros Hn i j k1 v1 k2 v2 r Hi Hj Hr H1 H2. destruct (slot_of_row r Hr) as (s & Hs & Hsr).
    apply (Hn i j (Some (slot_name s))); rewrite list_lookup_fmap, ?Hi, ?Hj; cbn;
      by rewrite (find_slot_names sch Hwf s) by (done || by apply (slot_matches_names s r)).
  - intros Hn i j o Hi Hj. rewrite list_lookup_fmap in Hi, Hj. destruct (es !! i) as [[k1 v1]|] eqn:H1; [|done].
    destruct (es !! j) as [[k2 v2]|] eqn:H2; [|done]. cbn in Hi, Hj. injection Hi as <-. injection Hj as Heq. rewrite Forall_forall in Hk.
    destruct (Hk (k1, v1)) as [s1 Hs1]; [by eapply list_elem_of_lookup_2|]. destruct (Hk (k2, v2)) as [s2 Hs2]; [by eapply list_elem_of_lookup_2|].
    cbn in Hs1, Hs2. rewrite Hs1, Hs2 in Heq. injection Heq as Heq. apply find_slot_some in Hs1 as [Hin1 Hn1], Hs2 as [Hin2 Hn2].
    apply (slot_name_inj sch Hwf) in Heq as ->; [|done..]. destruct (row_of_slot s1 Hin1) as (r & Hr & Hsr).
    by apply (Hn i j k1 v1 k2 v2 r); try done; apply (slot_matches_names s1 r).
Qed.

(** The derive applied to the schema reads what the table documents. *)
Lemma documented_struct build n x : builds sch build → de_struct true sch build n = Ok x ↔ documented table n x.
Proof.
  intros Hb. rewrite de_struct_ok by done. unfold documented, says. apply exist_and. intros es _.
  split.
  - intros (Hk & Hn & Hf). specialize (Hk eq_refl). split_and!; [by apply known_keys|by apply no_row_twice|]. intros r Hr.
    destruct (slot_of_row r Hr) as (s & Hs & Hsr). rewrite Forall_forall in Hf. destruct (Hf s Hs) as [(k & v & Hin & Hks & Hd)|[Hno Hd]].
    + left. exists k, v. split_and!; [done|by apply (slot_matches_names s)|by apply Hsr].
    + right. split; [|by apply Hsr]. intros k v Hin Hkr. apply (slot_matches_names s r) in Hkr; [|done]. by rewrite (Hno k v Hin) in Hkr.
  - intros (Hk & Hn & Hf). apply known_keys in Hk. split_and!; [done|by apply no_row_twice|]. apply Forall_forall. intros s Hs.
    destruct (row_of_slot s Hs) as (r & Hr & Hsr). destruct (Hf r Hr) as [(k & v & Hin & Hkr & Hd)|[Hno Hd]].
    + left. exists k, v. split_and!; [done|by apply (slot_matches_names s r)|by apply Hsr].
    + right. split; [|by apply Hsr]. intros k v Hin. apply not_true_iff_false. intros Hkr%(slot_matches_names s r); [|done]. by apply (Hno k v).
Qed.
End one_structure.

(** *** Types *)
Lemma strings_reads n l : strings n = Ok l ↔ list_of_strings n l.
Proof.
  unfold strings, list_of_strings. rewrite de_vec_ok. apply exist_and. intros ns _.
  split; intros HF; apply (Forall2_impl _ _ _ _ HF); intros m s; apply de_str_ok.
Qed.
Lemma string_map_reads n m : string_map n = Ok m ↔ map_of_strings n m.
Proof.
  unfold string_map, map_of_strings. rewrite de_btree_ok. apply exist_iff. intros es. apply exist_and. intros l _.
  apply and_iff_compat_r. split; intros HF; apply (Forall2_impl _ _ _ _ HF); intros [k v] [k' s]; cbn; unfold string_; by rewrite de_str_ok.
Qed.
Lemma optional_reads {A} (d : Node → result A DecodeError) (P : Node → A → Prop) n o :
  (∀ m x, d m = Ok x ↔ P m x) → de_option d n = Ok o ↔ optional P n o.
Proof. intros Hd. rewrite de_option_ok. destruct o; [|done]. by rewrite Hd. Qed.
Lemma either_reads {A B C} enum (d : Node → result A DecodeError) (d' : Node → result B DecodeError) P Q (f : A → C) (g : B → C) n x :
  (∀ m a, d m = Ok a ↔ P m a) → (∀ m b, d' m = Ok b ↔ Q m b) →
  de_untagged enum [λ m, let? a := d m in Ok (f a); λ m, let? b := d' m in Ok (g b)] n = Ok x ↔ either P f Q g n x.
Proof.
  intros HP HQ. rewrite de_untagged_ok. unfold first_ok, either. setoid_rewrite <- HP. setoid_rewrite <- HQ. cbn.
  destruct (d (buffered n)) as [a|]; cbn.
  - split; [intros [= <-]; left; by exists a|]. intros [(a' & [= <-] & ->)|[Hno _]]; [done|by destruct (Hno a)].
  - destruct (d' (buffered n)) as [b|]; cbn; split; [|intros [(? & ? & _)|(_ & b' & [= <-] & ->)]|..]; try done.
    + intros [= <-]. right. split; [done|]. by exists b.
    + by intros [(? & ? & _)|(_ & ? & ? & _)].
Qed.

(** *** The structures of the source *)
Ltac reads_as := intros; cbn [slot_decode slot_get row_reads row]; first
  [apply de_int_ok|apply de_bool_ok|apply de_str_ok|apply strings_reads|apply string_map_reads
  |simple refine (optional_reads _ _ _ _ _); reads_as|idtac].
Ltac slot_by_slot := repeat (apply Forall2_cons; split); [..|apply Forall2_nil_2]; (split; [reflexivity|]; split; [reads_as|intros x; reflexivity]).

Lemma limits_matches : Forall2 slot_matches limits_schema limits_table.
Proof. slot_by_slot. Qed.
Lemma limits_documented n l : decode_limits n = Ok l ↔ documented limits_table n l.
Proof. apply documented_struct; [apply limits_wf|apply limits_matches|apply build_limits_ok]. Qed.
Lemma admin_matches : Forall2 slot_matches admin_schema admin_table.
Proof. slot_by_slot. Qed.
Lemma admin_documented n a : decode_admin n = Ok a ↔ documented admin_table n a.
Proof. apply documented_struct; [apply admin_wf|apply admin_matches|apply build_admin_ok]. Qed.
Lemma security_matches : Forall2 slot_matches security_schema security_table.
Proof. slot_by_slot. Qed.
Lemma security_documented n s : decode_security n = Ok s ↔ documented security_table n s.
Proof. apply documented_struct; [apply security_wf|apply security_matches|apply build_security_ok]. Qed.
Lemma database_matches : Forall2 slot_matches database_schema database_table.
Proof. slot_by_slot. Qed.
Lemma database_documented n d : decode_database n = Ok d ↔ documented database_table n d.
Proof. apply documented_struct; [apply database_wf|apply database_matches|apply build_database_ok]. Qed.

Lemma tidy_keeps l : tidy l = List.filter (λ p, negb (String.eqb p "")) (trim <$> l).
Proof.
  unfold tidy. induction (trim <$> l) as [|o os IH]; [done|]. rewrite filter_cons, IH. cbn.
  by destruct (String.eqb_spec o "") as [->|Hne]; cbn; [rewrite decide_False by auto|rewrite decide_True by done].
Qed.
Lemma origins_reads n l : decode_origins n = Ok l ↔ origins n l.
Proof.
  unfold decode_origins, origins. split.
  - destruct (de_untagged _ _ n) as [val|] eqn:Hv; [|done]. intros [= <-].
    apply (either_reads _ _ _ _ _ _ _ _ _ de_str_ok strings_reads) in Hv as [(s & Hs & ->)|(Hno & ss & Hs & ->)].
    + left. exists s. by rewrite tidy_keeps.
    + right. split; [done|]. exists ss. by rewrite tidy_keeps.
  - intros Ho. assert (∃ val, either string_ One list_of_strings Many n val ∧ l = de_origins val) as (val & Hval & ->).
    { destruct Ho as [(s & Hs & ->)|(Hno & ss & Hs & ->)]; [exists (One s)|exists (Many ss)]; rewrite tidy_keeps; (split; [|done]);
        [left; by exists s|right; split; [done|by exists ss]]. }
    apply (either_reads "OneOrMany" _ _ _ _ _ _ _ _ de_str_ok strings_reads) in Hval. by rewrite Hval.
Qed.
Lemma app_matches : Forall2 slot_matches app_schema app_table.
Proof.
  slot_by_slot; [apply origins_reads|apply limits_documented|apply admin_documented|apply security_documented|apply database_documented].
Qed.
Lemma job_matches : Forall2 slot_matches job_schema job_table.
Proof.
  slot_by_slot; [exact (either_reads _ _ _ _ _ _ _ _ _ de_bool_ok de_str_ok)|exact (either_reads _ _ _ _ _ _ _ _ _ de_str_ok strings_reads)].
Qed.
End match_tables.

(** C24: the handbook is right about what may be written. A document is accepted as the
    configuration [c] exactly when it is a mapping whose keys are those of the tables of the
    book (snake_case, or camelCase at the top, under [admin] and under [security]; [configPath]
    for [dsl_path]), no field twice, and every field of [c] is what the documented type reads
    or, left out, the documented default; the sections by their own tables. Likewise each
    section read alone, and the jobs of a DSL file by the table of job fields. *)
Theorem documented_keys_bind `{YamlLaws} n :
  (∀ c, decode_config n = Ok c ↔ documented app_table n c) ∧
  (∀ l, decode_limits n = Ok l ↔ documented limits_table n l) ∧
  (∀ a, decode_admin n = Ok a ↔ documented admin_table n a) ∧
  (∀ s, decode_security n = Ok s ↔ documented security_table n s) ∧
  (∀ d, decode_database n = Ok d ↔ documented database_table n d) ∧
  (∀ j, decode_job n = Ok j ↔ documented job_table n j).
Proof.
  conjuncts; intros x; [|apply limits_documented|apply admin_documented|apply security_documented|apply database_documented|].
  - apply documented_struct; [apply app_wf|apply app_matches|apply build_app_ok].
  - apply documented_struct; [apply job_wf|apply job_matches|apply build_job_ok].
Qed.

(** ** The full example of the book *)
Import SampleYaml.
#[local] Instance book_yaml : Yaml := yaml (λ _, Err "not read").
Definition full_example : Node :=
  NMap [("port", NInt 8080); ("dsl_path", NStr "/app/DSL/samples"); ("app_root_path", NStr "/app");
        ("allowed_origins", NSeq [NStr "http://localhost"; NStr "http://127.0.0.1"]);
        ("shell_environment", NMap [("BACKUP_DIR", NStr "/tmp/backups"); ("RETENTION_DAYS", NStr "7")]);
        ("limits", NMap [("max_request_bytes", NInt 1048576); ("max_response_bytes", NInt 16777216);
                         ("request_timeout_secs", NInt 30); ("shell_timeout_secs", NInt 300)]);
        ("database", NMap [("url", NStr "postgres://cronmanager@timescaledb:5432/cronmanager"); ("password_env", NStr "CRONMANAGER_DB_PASSWORD")])].
Definition health_check : Node :=
  NMap [("trigger", NStr "0 */5 * * * ?"); ("type", NStr "http"); ("method", NStr "GET"); ("url", NStr "https://httpbin.org/status/200");
        ("retryCount", NInt 3); ("retryDelay", NInt 1000); ("ignoreFailures", NBool true)].

(** The spellings, the full example of the book, and its first job. *)
Example camel_spelling : both "stored_response_body_max_bytes" = ["stored_response_body_max_bytes"; "storedResponseBodyMaxBytes"].
Proof. reflexivity. Qed.
Lemma documented_keys_bind_witness :
  (∃ c, documented app_table full_example c ∧ max_retry_count (security c) = 10%Z ∧ bearer_token_env (admin c) = "CRONMANAGER_ADMIN_TOKEN") ∧
  ∃ j, documented job_table health_check j ∧ retry_count j = Some 3%Z ∧ raw_headers j = None.
Proof.
  destruct (documented_keys_bind full_example) as (Hc & _). destruct (documented_keys_bind health_check) as (_ & _ & _ & _ & _ & Hj). split.
  - assert (∃ c, decode_config full_example = Ok c) as [c Hd] by (eexists; vm_compute; reflexivity).
    exists c. split; [apply Hc; exact Hd|]. vm_compute in Hd. injection Hd as <-. split; reflexivity.
  - assert (∃ j, decode_job health_check = Ok j) as [j Hd] by (eexists; vm_compute; reflexivity).
    exists j. split; [apply Hj; exact Hd|]. vm_compute in Hd. injection Hd as <-. split; reflexivity.
Defined.
