(* ===== verification/Loader.v ===== *)
(** * DSL loader (src/dsl/loader.rs)

    From a directory tree to the list of loaded jobs: the traversal with the dev-fixture gate
    and the per-file skip, the size cap, and the validation that turns a decoded YAML job
    into a [JobSpec]. A path is the list of its components; the file system is a tree of
    what [metadata], [read_to_string] and [read_dir] return. Log lines are left out. *)
From S2P Require Import Prelude RStr Ip Errors Security Dsl Config EnvSafety Libs.

(** ** Paths *)
Abbreviation PathBuf := (list string).
Definition display (p : PathBuf) : string :=
  match p with
  | c :: rest => if String.eqb c "/" then "/" +:+ join "/" rest else join "/" p
  | [] => ""
  end.
(** [Path::strip_prefix]. *)
Fixpoint strip_path_prefix (root file : PathBuf) : option PathBuf :=
  match root, file with
  | [], _ => Some file
  | r :: root', f :: file' => if String.eqb r f then strip_path_prefix root' file' else None
  | _ :: _, [] => None
  end.
(** The stem and the extension of a file name: split at the last dot unless it comes first. *)
Definition split_extension (n : string) : string * option string :=
  match srfind "." n with
  | Some (S i) => (stake (S i) n, Some (sdrop (S (S i)) n))
  | _ => (n, None)
  end.
(** [path.with_extension("")]. *)
Fixpoint without_extension (p : PathBuf) : PathBuf :=
  match p with
  | [] => []
  | [n] => [(split_extension n).1]
  | d :: rest => d :: without_extension rest
  end.
Definition extension (p : PathBuf) : option string := last p ≫= λ n, (split_extension n).2.

Definition group_from_path (root file : PathBuf) : string :=
  let rel := default file (strip_path_prefix root file) in
  let s := display (without_extension rel) in
  trim_matches "-" (replace_char "/" "-" (replace_char "\" "-" s)).

Definition is_yaml (path : PathBuf) : bool :=
  match extension path with
  | Some e => String.eqb e "yaml" || String.eqb e "yml"
  | None => false
  end.

(** ** Policy *)
Record LoadPolicy := mkLoadPolicy
  { max_file_bytes : Z; policy_max_retry_count : Z; policy_min_cron_interval_secs : Z;
    policy_block_private_networks : bool; dev_fixture_action : DevFixtureAction }.
Definition permissive : LoadPolicy := mkLoadPolicy (8 * 1024 * 1024) u32_max 0 false Ignore.

Section loader.
Context `{Libs} (env : Env).

Definition invalid (source : PathBuf) (reason : string) : CronManagerError :=
  InvalidJobDefinition (display source) reason.

(** ** Triggers and commands *)
Definition normalise_trigger (raw : RawTrigger) (source : PathBuf) : result Trigger CronManagerError :=
  match raw with
  | RawBool false => Ok Manual
  | RawBool true =>
      Err (invalid source "trigger: true is not a valid schedule; use a cron string or `off`")
  | RawStr s =>
      if existsb (String.eqb (to_ascii_lowercase s)) ["off"; "false"; "no"; "disabled"] then Ok Manual
      else Ok (Cron s)
  end.

Definition into_argv (cmd : RawCommand) (key : JobKey) (source : PathBuf) :
    result (list string) CronManagerError :=
  let argv := match cmd with CmdString s => split_whitespace s | CmdList v => v end in
  match argv with
  | [] | "" :: _ =>
      Err (invalid source ("job '" +:+ name key +:+ "' has type: exec but the command field is empty; specify at least the program name"))
  | _ => Ok argv
  end.

(** ** URLs *)
Definition private_ip_error (key : JobKey) (source : PathBuf) (ip : string) : CronManagerError :=
  invalid source ("job '" +:+ name key +:+ "' url host '" +:+ ip +:+ "' is a non-routable / private IP; set security.block_private_networks=false to allow (danger: SSRF against cloud metadata)").

Definition validate_http_url (url_str : string) (policy : LoadPolicy) (source : PathBuf)
    (key : JobKey) : result unit CronManagerError :=
  let? parsed := map_err (λ e, invalid source
    ("job '" +:+ name key +:+ "' url '" +:+ url_str +:+ "' is not a valid URL: " +:+ e)) (url_parse url_str) in
  if negb (String.eqb (scheme parsed) "http" || String.eqb (scheme parsed) "https") then
    Err (invalid source ("job '" +:+ name key +:+ "' url uses scheme '" +:+ scheme parsed +:+ "' — only http and https are allowed"))
  else
    let? h := ok_or (host parsed) (invalid source
      ("job '" +:+ name key +:+ "' url '" +:+ url_str +:+ "' has no host component")) in
    if negb (policy_block_private_networks policy) then Ok tt
    else match h with
         | HostIpv4 v4 =>
             if is_private_or_local (V4 v4) then Err (private_ip_error key source (display_v4 v4)) else Ok tt
         | HostIpv6 v6 =>
             if is_private_or_local (V6 v6) then Err (private_ip_error key source (display_v6 v6)) else Ok tt
         | Domain _ => Ok tt
         end.

(** ** Headers *)
Definition FORBIDDEN_HEADERS : list string :=
  ["host"; "content-length"; "transfer-encoding"; "connection"; "upgrade"; "te"; "trailer"].

Definition bad (key : JobKey) (source : PathBuf) (reason : string) : CronManagerError :=
  invalid source ("job '" +:+ name key +:+ "' " +:+ reason).
Definition check_name (key : JobKey) (source : PathBuf) (n : string) : result string CronManagerError :=
  let? parsed := ok_or (header_name_from_bytes n)
    (bad key source ("has invalid header name '" +:+ n +:+ "'")) in
  if existsb (String.eqb parsed) FORBIDDEN_HEADERS then
    Err (bad key source ("may not set header '" +:+ n +:+ "'"))
  else Ok parsed.

(** The first loop: [headers:], in key order. *)
Fixpoint literal_headers (key : JobKey) (source : PathBuf) (l : list (string * string)) :
    result (list HttpHeader) CronManagerError :=
  match l with
  | [] => Ok []
  | (n, v) :: l' =>
      let? parsed := check_name key source n in
      if negb (header_value_from_str v) then
        Err (bad key source ("has invalid value for header '" +:+ parsed +:+ "'"))
      else
        let? rest := literal_headers key source l' in
        Ok (mkHttpHeader parsed (Literal v) :: rest)
  end.

Definition valid_env_name (n : string) : bool :=
  negb (String.eqb n "")
  && negb (match n with String c _ => is_ascii_digit c | EmptyString => false end)
  && str_all (λ c, is_ascii_alphanumeric c || Ascii.eqb c "_") n.

(** The second loop: [headerEnvs:], pushing onto [out]. *)
Fixpoint env_headers (key : JobKey) (source : PathBuf) (l : list (string * string))
    (out : list HttpHeader) : result (list HttpHeader) CronManagerError :=
  match l with
  | [] => Ok out
  | (n, env_name) :: l' =>
      let? parsed := check_name key source n in
      if existsb (λ h, String.eqb (header_name h) parsed) out then
        Err (bad key source ("sets header '" +:+ parsed +:+ "' in both headers and headerEnvs"))
      else if negb (valid_env_name env_name) then
        Err (bad key source ("headerEnvs['" +:+ parsed +:+ "'] is not a valid env-var name"))
      else
        match env_var env env_name with
        | Some v =>
            if negb (String.eqb v "") && header_value_from_str v then
              env_headers key source l' (out ++ [mkHttpHeader parsed (EnvVar env_name)])
            else Err (bad key source ("env var '" +:+ env_name +:+ "' (header '" +:+ parsed +:+ "') is empty or not a valid header value"))
        | None => Err (bad key source ("header '" +:+ parsed +:+ "' needs env var '" +:+ env_name +:+ "', which is not set"))
        end
  end.

Definition build_http_headers (literal envs : gmap string string) (source : PathBuf) (key : JobKey) :
    result (list HttpHeader) CronManagerError :=
  let? out := literal_headers key source (btree_iter literal) in
  env_headers key source (btree_iter envs) out.

(** ** Jobs *)
Definition KNOWN_METHODS : list string :=
  ["GET"; "POST"; "PUT"; "DELETE"; "PATCH"; "HEAD"; "OPTIONS"].

Definition into_kind (raw : RawJob) (key : JobKey) (source : PathBuf) (policy : LoadPolicy) :
    result JobKind CronManagerError :=
  let fail reason := invalid source ("job '" +:+ name key +:+ "' " +:+ reason) in
  if String.eqb (raw_ty raw) "http" then
    let? method := ok_or (raw_method raw) (fail "has type: http but no method field") in
    let? url := ok_or (raw_url raw) (fail "has type: http but no url field") in
    if negb (existsb (String.eqb (to_ascii_uppercase method)) KNOWN_METHODS) then
      Err (fail ("has unknown HTTP method '" +:+ method +:+ "'"))
    else
      let? _ := validate_http_url url policy source key in
      let? headers := build_http_headers (default ∅ (raw_headers raw)) (default ∅ (header_envs raw)) source key in
      Ok (Http method url headers)
  else if String.eqb (raw_ty raw) "exec" then
    let? raw_command := ok_or (command raw) (fail "has type: exec but no command field") in
    let? argv := into_argv raw_command key source in
    Ok (Exec argv (default [] (raw_allowed_envs raw)))
  else Err (fail ("has unknown type: '" +:+ raw_ty raw +:+ "'")).

(** [RawJob::into_spec]. *)
Definition into_spec (raw : RawJob) (key : JobKey) (source : PathBuf) (policy : LoadPolicy) :
    result JobSpec CronManagerError :=
  let? trig := normalise_trigger (raw_trigger raw) source in
  let? _ := match trig with
            | Cron expr => map_err (InvalidCron expr) (let? _ := cron_from_str expr in Ok tt)
            | Manual => Ok tt
            end in
  let window := mkTimeWindow (start_date raw) (end_date raw) in
  let n := default 0%Z (retry_count raw) in
  if (policy_max_retry_count policy <? n)%Z then
    Err (invalid source ("job '" +:+ name key +:+ "' has retryCount " +:+ pretty n +:+ " which exceeds security.max_retry_count cap " +:+ pretty (policy_max_retry_count policy)))
  else
    let retry := mkRetryPolicy n (default 1000%Z (retry_delay_ms raw)) (default false (raw_ignore_failures raw)) in
    let? kind := into_kind raw key source policy in
    Ok (mkJobSpec key trig window retry kind).

(** ** Files *)

(** What reading a file yields: [metadata(..).len()] and [read_to_string]. *)
Record File := mkFile { file_len : result Z string; contents : result string string }.

Definition load_file_with_policy (root file : PathBuf) (policy : LoadPolicy) (f : File) :
    result (list LoadedJob) CronManagerError :=
  let? len := map_err Io (file_len f) in
  if (max_file_bytes policy <? len)%Z then
    Err (invalid file ("DSL file size " +:+ pretty len +:+ " bytes exceeds security.max_dsl_file_bytes cap " +:+ pretty (max_file_bytes policy) +:+ " — a YAML anchor bomb can amplify well past this in the parser; refuse to load"))
  else
    let? body := map_err Io (contents f) in
    let? raw := map_err (YamlParse (display file)) (yaml_jobs body) in
    let group := group_from_path root file in
    collect (λ '(name, raw_job),
      let? spec := into_spec raw_job (mkJobKey group name) file policy in
      Ok (mkLoadedJob spec (display file))) (btree_iter raw).
End loader.

(** ** Directories

    An entry that cannot be read is dropped by the source's [filter_map] and so is not in the
    list; [DirNode (Err e)] is a directory that cannot be opened. *)
#[warnings="-register-all"]
Inductive Node :=
  | FileNode (f : File)
  | DirNode (entries : result (list (string * Node)) string).

Record WalkState := mkWalk { out : list LoadedJob; yaml_files_seen : nat; files_failed : nat }.

Fixpoint foldM {S A E} (step : A → S → result S E) (l : list A) (s : S) : result S E :=
  match l with
  | [] => Ok s
  | x :: l' => let? s' := step x s in foldM step l' s'
  end.

Section walk.
Context `{Libs} (env : Env) (root : PathBuf) (policy : LoadPolicy).

Definition refuse_fixture (path : PathBuf) (pattern : string) : CronManagerError :=
  invalid path ("REFUSING TO LOAD dev-fixture DSL in non-dev environment: matched pattern '" +:+ pattern +:+ "'. Remove the file from the prod build, OR set APP_ENV=dev, OR set security.allow_dev_fixture_dsls=true to explicitly permit dev-fixture DSLs in this environment (WARN at boot).").

(** The body of the loop for a path that is not a directory. *)
Definition visit_file (path : PathBuf) (f : File) (st : WalkState) : result WalkState CronManagerError :=
  if is_yaml path then
    let st := mkWalk (out st) (S (yaml_files_seen st)) (files_failed st) in
    let gate := match dev_fixture_pattern (display path) with
                | Some pattern =>
                    match dev_fixture_action policy with
                    | Refuse => Err (refuse_fixture path pattern)
                    | Ignore | Warn => Ok tt
                    end
                | None => Ok tt
                end in
    let? _ := gate in
    match load_file_with_policy env root path policy f with
    | Ok loaded => Ok (mkWalk (out st ++ loaded) (yaml_files_seen st) (files_failed st))
    | Err _ => Ok (mkWalk (out st) (yaml_files_seen st) (S (files_failed st)))
    end
  else Ok st.

(** [walk] on the directory or file at a path. The source sorts the entries and then
    recurses; here the traversals of the entries are sorted by name and then run. *)
Fixpoint walk (n : Node) : PathBuf → WalkState → result WalkState CronManagerError :=
  match n with
  | FileNode f => λ path st, visit_file path f st
  | DirNode (Err e) => λ _ _, Err (Io e)
  | DirNode (Ok entries) => λ path st,
      foldM (λ '(name, visit) st, visit (path ++ [name]) st)
        (sort_by_key (map (λ '(name, child), (name, walk child)) entries)) st
  end.

(** [load_all_with_policy]; [None] is a root that does not exist. The root is opened as
    a directory. *)
Definition load_all_with_policy (n : option Node) : result (list LoadedJob) CronManagerError :=
  match n with
  | None => Ok []
  | Some (FileNode _) => Err (Io "Not a directory (os error 20)")
  | Some (DirNode entries) =>
      let? st := walk (DirNode entries) root (mkWalk [] 0 0) in Ok (out st)
  end.
End walk.

(** What the runtime reports of the blocking task within [load_timeout]. *)
Inductive JoinEvent := Joined | TaskPanicked (e : string) | TimedOut.

Section bounded.
Context `{Libs} (env : Env).

Definition load_all_bounded (root : PathBuf) (n : option Node) (event : JoinEvent)
    (max_file_bytes load_timeout_secs max_retry_count min_cron_interval_secs : Z)
    (block_private_networks : bool) (action : DevFixtureAction) :
    result (list LoadedJob) CronManagerError :=
  let policy := mkLoadPolicy max_file_bytes max_retry_count min_cron_interval_secs
                  block_private_networks action in
  match event with
  | Joined => load_all_with_policy env root policy n
  | TaskPanicked e => Err (Internal ("dsl load task panicked: " +:+ e))
  | TimedOut => Err (Internal ("dsl load exceeded " +:+ pretty load_timeout_secs +:+ "s wall clock — investigate DSL file sizes / anchor use"))
  end.

(** [load_all] and [load_file], under the permissive policy. *)
Definition load_all (root : PathBuf) (n : option Node) : result (list LoadedJob) CronManagerError :=
  load_all_with_policy env root permissive n.
Definition load_file (root file : PathBuf) (f : File) : result (list LoadedJob) CronManagerError :=
  load_file_with_policy env root file permissive f.
End bounded.

(** ** Reference definitions *)

(** What the traversal meets, in its order: files, and directories that cannot be opened. *)
Inductive Visit := VisitFile (path : PathBuf) (f : File) | VisitError (e : string).
Fixpoint visits (n : Node) : PathBuf → list Visit :=
  match n with
  | FileNode f => λ path, [VisitFile path f]
  | DirNode (Err e) => λ _, [VisitError e]
  | DirNode (Ok entries) => λ path,
      concat (map (λ '(name, sub), sub (path ++ [name]))
        (sort_by_key (map (λ '(name, child), (name, visits child)) entries)))
  end.

Section reference.
Context `{Libs} (env : Env) (root : PathBuf) (policy : LoadPolicy).

(** The error a visit aborts the whole load with. *)
Definition fatal (v : Visit) : option CronManagerError :=
  match v with
  | VisitError e => Some (Io e)
  | VisitFile path _ =>
      match is_yaml path, dev_fixture_pattern (display path), dev_fixture_action policy with
      | true, Some p, Refuse => Some (refuse_fixture path p)
      | _, _, _ => None
      end
  end.
(** The jobs of a visit; a file that fails to load contributes none. *)
Definition jobs_of (v : Visit) : list LoadedJob :=
  match v with
  | VisitFile path f =>
      if is_yaml path then
        match load_file_with_policy env root path policy f with Ok l => l | Err _ => [] end
      else []
  | VisitError _ => []
  end.

(** What a job that reached the scheduler satisfies. *)
Definition header_ok (h : HttpHeader) : Prop :=
  (∃ raw, header_name_from_bytes raw = Some (header_name h)) ∧
  (header_name h ∉ FORBIDDEN_HEADERS) ∧
  match source h with
  | Literal v => header_value_from_str v = true
  | EnvVar var => ∃ v, env !! var = Some v ∧ v ≠ "" ∧ header_value_from_str v = true
  end.
Definition url_ok (u : string) : Prop :=
  ∃ parsed h, url_parse u = Ok parsed ∧ host parsed = Some h ∧
    (scheme parsed = "http" ∨ scheme parsed = "https") ∧
    (policy_block_private_networks policy = true →
     match h with
     | HostIpv4 a => is_private_or_local (V4 a) = false
     | HostIpv6 a => is_private_or_local (V6 a) = false
     | Domain _ => True
     end).
Definition kind_ok (k : JobKind) : Prop :=
  match k with
  | Http method u headers =>
      to_ascii_uppercase method ∈ KNOWN_METHODS ∧ url_ok u ∧ Forall header_ok headers
  | Exec argv _ => ∃ program args, argv = program :: args ∧ program ≠ ""
  end.
Definition spec_ok (s : JobSpec) : Prop :=
  (∀ expr, trigger s = Cron expr → is_ok (cron_from_str expr) = true) ∧
  (0 <= count (retry s) <= policy_max_retry_count policy)%Z ∧ kind_ok (kind s).
End reference.

(** ** Validation *)
Section validation.
Context `{Libs} (env : Env) (policy : LoadPolicy).

Lemma check_name_ok key source n parsed :
  check_name key source n = Ok parsed →
  header_name_from_bytes n = Some parsed ∧ parsed ∉ FORBIDDEN_HEADERS.
Proof.
  unfold check_name. destruct (header_name_from_bytes n) as [m|]; cbn [ok_or]; [|done].
  destruct (existsb _ _) eqn:Hf; [done|]. intros [= <-]. split; [done|].
  intros Hin. assert (existsb (String.eqb m) FORBIDDEN_HEADERS = true) as Ht; [|congruence].
  apply existsb_exists. exists m. split; [by apply list_elem_of_In|apply String.eqb_refl].
Qed.

Lemma literal_headers_ok key source l hs :
  literal_headers key source l = Ok hs → Forall (header_ok env) hs.
Proof.
  revert hs. induction l as [|[n v] l IH]; intros hs; cbn [literal_headers].
  { intros [= <-]. constructor. }
  destruct (check_name _ _ _) as [p|] eqn:Hc; [|done]. apply check_name_ok in Hc as [Hn Hf].
  destruct (header_value_from_str v) eqn:Hv; cbn [negb]; [|done].
  destruct (literal_headers _ _ l) as [rest|]; [|done]. intros [= <-].
  constructor; [|by apply IH]. split_and!; [by exists n|done|done].
Qed.

(** The second loop only appends, and never a name that is already present. *)
Lemma env_headers_ok key source l out hs :
  env_headers env key source l out = Ok hs →
  ∃ added, hs = out ++ added ∧ Forall (header_ok env) added ∧
    NoDup (map header_name added) ∧
    ∀ h, h ∈ added → header_name h ∉ map header_name out.
Proof.
  revert out. induction l as [|[n var] l IH]; intros out; cbn [env_headers].
  { intros [= <-]. exists []. rewrite app_nil_r. split_and!; [done|constructor|constructor|by intros h ?%not_elem_of_nil]. }
  destruct (check_name _ _ _) as [p|] eqn:Hc; [|done]. apply check_name_ok in Hc as [Hn Hf].
  destruct (existsb _ out) eqn:Hdup; [done|].
  destruct (valid_env_name var) eqn:Hvar; cbn [negb]; [|done].
  destruct (env_var env var) as [v|] eqn:Hlook; [|done].
  destruct (negb _ && _) eqn:Hval; [|done]. bool_prop.
  intros (added & -> & Hok & Hnd & Hfresh)%IH. exists (mkHttpHeader p (EnvVar var) :: added).
  rewrite <- app_assoc. split_and!; [done| | |].
  - constructor; [|done]. split_and!; [by exists n|done|]. by exists v.
  - cbn [map header_name]. constructor; [|done].
    intros (h & Hh & Hin)%list_elem_of_fmap. apply (Hfresh _ Hin).
    rewrite <- Hh, map_app. apply elem_of_app. right. apply list_elem_of_singleton. done.
  - intros h Hh. apply elem_of_cons in Hh as [->|Hh]; cbn [header_name].
    + intros (h & -> & Hin)%list_elem_of_fmap.
      assert (existsb (λ h0, header_name h0 =? header_name h)%string out = true) as Ht; [|congruence].
      apply existsb_exists. exists h. split; [by apply list_elem_of_In|apply String.eqb_refl].
    + intros Hin. apply (Hfresh _ Hh). rewrite map_app. apply elem_of_app. by left.
Qed.

Lemma build_http_headers_ok literal envs source key hs :
  build_http_headers env literal envs source key = Ok hs → Forall (header_ok env) hs.
Proof.
  unfold build_http_headers. destruct (literal_headers _ _ _) as [out|] eqn:Hl; [|done].
  intros (added & -> & Hadd & _)%env_headers_ok. apply Forall_app. split; [|done].
  by eapply literal_headers_ok.
Qed.

Lemma validate_http_url_ok u source key :
  validate_http_url u policy source key = Ok tt → url_ok policy u.
Proof.
  unfold validate_http_url. destruct (url_parse u) as [parsed|] eqn:Hp; cbn [map_err]; [|done].
  destruct (String.eqb _ "http" || _) eqn:Hs; cbn [negb]; [|done].
  destruct (host parsed) as [h|] eqn:Hh; cbn [ok_or]; [|done]. intros Hpol.
  exists parsed, h. split_and!; [done|done| |].
  - apply orb_true_iff in Hs as [Hs|Hs]; apply String.eqb_eq in Hs; tauto.
  - intros Hb. rewrite Hb in Hpol. cbn [negb] in Hpol. by split_matches.
Qed.

Lemma into_argv_ok cmd key source argv :
  into_argv cmd key source = Ok argv → ∃ program args, argv = program :: args ∧ program ≠ "".
Proof.
  unfold into_argv. destruct (match cmd with CmdString s => _ | CmdList v => _ end) as [|[|c s] args]; try done.
  intros [= <-]. by exists (String c s), args.
Qed.

Lemma into_kind_ok raw key source k :
  into_kind env raw key source policy = Ok k → kind_ok env policy k.
Proof.
  unfold into_kind. destruct (String.eqb (raw_ty raw) "http"); [|destruct (String.eqb (raw_ty raw) "exec"); [|done]].
  - destruct (raw_method raw) as [m|]; cbn [ok_or]; [|done].
    destruct (raw_url raw) as [u|]; cbn [ok_or]; [|done].
    destruct (existsb _ KNOWN_METHODS) eqn:Hm; cbn [negb]; [|done].
    destruct (validate_http_url u policy source key) as [[]|] eqn:Hu; [|done].
    destruct (build_http_headers _ _ _ _ _) as [hs|] eqn:Hh; [|done]. intros [= <-].
    split_and!; [|by eapply validate_http_url_ok|by eapply build_http_headers_ok].
    apply existsb_exists in Hm as (k' & Hin & ->%String.eqb_eq). by apply list_elem_of_In.
  - destruct (command raw) as [cmd|]; cbn [ok_or]; [|done].
    destruct (into_argv _ _ _) as [argv|] eqn:Ha; [|done]. intros [= <-]. by eapply into_argv_ok.
Qed.

Lemma into_spec_sound raw key source s :
  into_spec env raw key source policy = Ok s → (∀ c, retry_count raw = Some c → 0 ≤ c)%Z → spec_ok env policy s.
Proof.
  intros Hs Hc. revert Hs. unfold into_spec. destruct (normalise_trigger _ _) as [t|]; [|done].
  destruct (match t with Cron expr => _ | Manual => _ end) as [[]|] eqn:Ht; [|done].
  cbv zeta. destruct (Z.ltb_spec (policy_max_retry_count policy) (default 0%Z (retry_count raw))); [done|].
  destruct (into_kind _ _ _ _ _) as [k|] eqn:Hk; [|done]. intros [= <-].
  assert (0 ≤ default 0 (retry_count raw))%Z by (destruct (retry_count raw) as [c|]; [by apply Hc|done]).
  split_and!; cbn [trigger retry count kind]; [|lia|done|by eapply into_kind_ok].
  intros expr ->. destruct (cron_from_str expr); [done|]. done.
Qed.

Lemma into_spec_key raw k source s : into_spec env raw k source policy = Ok s → key s = k.
Proof. unfold into_spec. intros Hs. repeat case_match; simplify_eq/=; done. Qed.
End validation.

(** ** The traversal *)
Lemma foldM_app {S A E} (step : A → S → result S E) l1 l2 s :
  foldM step (l1 ++ l2) s = let? s' := foldM step l1 s in foldM step l2 s'.
Proof. revert s. induction l1 as [|x l1 IH]; intros s; [done|]. cbn. destruct (step x s); [apply IH|done]. Qed.

Lemma foldM_ext {S A E} (f g : A → S → result S E) l s :
  (∀ x s, x ∈ l → f x s = g x s) → foldM f l s = foldM g l s.
Proof.
  revert s. induction l as [|x l IH]; intros s Hfg; [done|]. cbn.
  rewrite Hfg by constructor. destruct (g x s); [|done]. apply IH. intros. apply Hfg. by constructor.
Qed.

Lemma foldM_map {S A B E} (f : A → B) (step : B → S → result S E) l s :
  foldM step (map f l) s = foldM (λ x, step (f x)) l s.
Proof. revert s. induction l as [|x l IH]; intros s; [done|]. cbn. destruct (step (f x) s); [apply IH|done]. Qed.

Lemma foldM_concat {S A E} (step : A → S → result S E) ls s :
  foldM step (concat ls) s = foldM (foldM step) ls s.
Proof.
  revert s. induction ls as [|l ls IH]; intros s; [done|]. cbn [concat foldM].
  rewrite foldM_app. destruct (foldM step l s); [apply IH|done].
Qed.

(** Structural induction through the list of entries. *)
Lemma Node_nested_ind (P : Node → Prop)
    (Hfile : ∀ f, P (FileNode f)) (Herr : ∀ e, P (DirNode (Err e)))
    (Hdir : ∀ entries, Forall (λ e, P e.2) entries → P (DirNode (Ok entries))) :
  ∀ n, P n.
Proof.
  fix IH 1. intros [f|[entries|e]]; [apply Hfile| |apply Herr].
  apply Hdir. induction entries as [|[name child] entries IHe]; constructor; [apply IH|apply IHe].
Qed.

Section traversal.
Context `{Libs} (env : Env) (root : PathBuf) (policy : LoadPolicy).
Abbreviation visit_step := (λ v st,
  match v with VisitFile path f => visit_file env root policy path f st | VisitError e => Err (Io e) end).

Lemma walk_visits n path st :
  walk env root policy n path st = foldM visit_step (visits n path) st.
Proof.
  revert path st. induction n as [f|e|entries IH] using Node_nested_ind; intros path st.
  - cbn. by destruct (visit_file _ _ _ _ _ _).
  - done.
  - cbn [walk visits].
    rewrite (sort_by_key_fmap_pair (walk env root policy)), (sort_by_key_fmap_pair visits).
    rewrite foldM_map, map_map, foldM_concat, foldM_map.
    apply foldM_ext. intros [name child] st' Hin. rewrite sort_by_key_perm in Hin.
    rewrite Forall_forall in IH. apply (IH _ Hin).
Qed.

(** One visit: the error it aborts with, or its jobs appended. *)
Lemma visit_step_spec v st :
  match fatal policy v with
  | Some e => visit_step v st = Err e
  | None => ∃ seen failed,
      visit_step v st = Ok (mkWalk (out st ++ jobs_of env root policy v) seen failed)
  end.
Proof.
  destruct v as [path f|e]; cbn [fatal jobs_of]; [|reflexivity]. unfold visit_file.
  destruct (is_yaml path).
  - destruct (dev_fixture_pattern (display path)); [destruct (dev_fixture_action policy)|]; cbn [out]; try reflexivity;
      destruct (load_file_with_policy _ _ _ _ _); cbn [out]; rewrite ?app_nil_r; do 2 eexists; reflexivity.
  - exists (yaml_files_seen st), (files_failed st). rewrite app_nil_r. by destruct st.
Qed.

Lemma visits_spec vs st :
  match head (omap (fatal policy) vs) with
  | Some e => foldM visit_step vs st = Err e
  | None => ∃ seen failed,
      foldM visit_step vs st = Ok (mkWalk (out st ++ concat (map (jobs_of env root policy) vs)) seen failed)
  end.
Proof.
  revert st. induction vs as [|v vs IH]; intros st.
  { exists (yaml_files_seen st), (files_failed st). rewrite app_nil_r. by destruct st. }
  cbn [omap list_omap foldM map concat]. pose proof (visit_step_spec v st) as Hv.
  destruct (fatal policy v) as [e|]; cbn [head].
  - by rewrite Hv.
  - destruct Hv as (seen & failed & ->). specialize (IH (mkWalk (out st ++ jobs_of env root policy v) seen failed)).
    cbn [out] in IH. by rewrite <- app_assoc in IH.
Qed.

Lemma not_fatal vs v : head (omap (fatal policy) vs) = None → v ∈ vs → fatal policy v = None.
Proof.
  intros Hh Hin. induction Hin as [v vs|v w vs _ IH]; cbn in Hh.
  - by destruct (fatal policy v).
  - destruct (fatal policy w); [done|by apply IH].
Qed.

(** The jobs of a file come from [into_spec] under that file's path. *)
Lemma load_file_sound `{!LibLaws _} file f jobs :
  load_file_with_policy env root file policy f = Ok jobs →
  Forall (λ j, spec_ok env policy (spec j) ∧ source_path j = display file ∧
               group (key (spec j)) = group_from_path root file) jobs.
Proof.
  unfold load_file_with_policy. destruct (file_len f) as [len|]; [|done]. cbn [map_err].
  destruct (_ <? _)%Z; [done|]. destruct (contents f) as [body|]; [|done]. cbn [map_err].
  destruct (yaml_jobs body) as [raw|] eqn:Hyaml; [|done]. cbn [map_err]. intros Hc%collect_ok.
  apply Forall_forall. intros j Hj. apply list_elem_of_lookup_1 in Hj as [i Hj].
  destruct (Forall2_lookup_r _ _ _ _ _ Hc Hj) as ([name raw_job] & Hraw & Hx).
  destruct (into_spec _ _ _ _ _) as [sp|] eqn:Hs; [|done]. injection Hx as <-.
  apply into_spec_key in Hs as Hk. apply into_spec_sound in Hs; [cbn; by rewrite Hk|].
  intros c Hrc. eapply (yaml_retry_count body raw name); [done| |done].
  by eapply btree_iter_elem, list_elem_of_lookup_2.
Qed.
End traversal.

(** C36: [load_all_with_policy] reads the tree in the order of [visits]: the first
    directory that cannot be opened or dev fixture that is refused decides the error,
    and otherwise the result is the jobs of every YAML file in that order, where a file
    that fails to load contributes none and stops nothing. *)
Theorem load_all_spec `{Libs} env root policy entries :
  load_all_with_policy env root policy (Some (DirNode entries)) =
    match head (omap (fatal policy) (visits (DirNode entries) root)) with
    | Some e => Err e
    | None => Ok (concat (map (jobs_of env root policy) (visits (DirNode entries) root)))
    end.
Proof.
  unfold load_all_with_policy. rewrite walk_visits.
  pose proof (visits_spec env root policy (visits (DirNode entries) root) (mkWalk [] 0 0)) as Hv.
  destruct (head _); [by rewrite Hv|]. by destruct Hv as (seen & failed & ->).
Qed.

Lemma loaded_jobs_sound `{LibLaws} env root policy n jobs j :
  load_all_with_policy env root policy n = Ok jobs → j ∈ jobs →
  spec_ok env policy (spec j) ∧
  (dev_fixture_action policy = Refuse → dev_fixture_pattern (source_path j) = None).
Proof.
  unfold load_all_with_policy. destruct n as [[f|entries]|]; [done| |intros [= <-]; by intros ?%not_elem_of_nil].
  rewrite walk_visits. set (vs := visits _ _).
  pose proof (visits_spec env root policy vs (mkWalk [] 0 0)) as Hv.
  destruct (head _) eqn:Hfatal; [by rewrite Hv|]. destruct Hv as (seen & failed & ->).
  intros [= <-]. cbn [out app]. rewrite list_elem_of_In, in_concat. intros (l & Hl & Hj).
  apply in_map_iff in Hl as (v & <- & Hin).
  assert (fatal policy v = None) as Hnf.
  { apply not_fatal with vs; [done|]. by apply list_elem_of_In. }
  destruct v as [path f|e]; cbn [jobs_of fatal] in *; [|done].
  destruct (is_yaml path); [|done].
  destruct (load_file_with_policy _ _ _ _ _) as [js|] eqn:Hload; [|done].
  pose proof (load_file_sound _ _ _ _ _ _ Hload) as Hsound. rewrite Forall_forall in Hsound.
  apply list_elem_of_In, Hsound in Hj as (Hok & -> & _). split; [done|].
  intros Hact. rewrite Hact in Hnf. by destruct (dev_fixture_pattern (display path)).
Qed.

(** C16: every job that [load_all_with_policy] returns passed the validation of the
    loader: a cron expression that parses, a retry count from 0 to the cap, a known method,
    an http(s) URL that is not a private address when those are blocked, headers that are
    well-formed, not reserved and whose environment variable is set, a program that is
    not empty. Under [Refuse] none comes from a dev fixture. *)
Theorem loaded_jobs_are_valid `{LibLaws} env root policy n jobs j :
  load_all_with_policy env root policy n = Ok jobs → j ∈ jobs →
  spec_ok env policy (spec j) ∧
  (dev_fixture_action policy = Refuse → dev_fixture_pattern (source_path j) = None).
Proof. apply loaded_jobs_sound. Qed.

Definition sample_tree : Node :=
  DirNode (Ok [("zz.yaml", FileNode (mkFile (Ok 4) (Ok "ping")));
               ("apps", DirNode (Ok [("demo.yml", FileNode (mkFile (Ok 4) (Ok "ping")))]));
               ("broken.yaml", FileNode (mkFile (Ok 3) (Ok "???")));
               ("notes.txt", FileNode (mkFile (Ok 3) (Ok "???")))])%Z.
Definition sample_policy : LoadPolicy := mkLoadPolicy 1000 5 0 true Refuse.
Definition sample_job (group source : string) : LoadedJob :=
  mkLoadedJob (mkJobSpec (mkJobKey group "ping") (Cron "0 * * * * ?") (mkTimeWindow None None)
    (mkRetryPolicy 2 1000 false)
    (Http "get" "https://example.org/ping" [mkHttpHeader "x-source" (Literal "cron")])) source.

#[local] Existing Instance Sample.libs.
#[local] Existing Instance Sample.libs_laws.
Lemma loaded_jobs_are_valid_witness :
  load_all_with_policy ∅ ["jobs"] sample_policy (Some sample_tree) =
    Ok [sample_job "apps-demo" "jobs/apps/demo.yml"; sample_job "zz" "jobs/zz.yaml"] ∧
  spec_ok ∅ sample_policy (spec (sample_job "zz" "jobs/zz.yaml")) ∧
  (dev_fixture_action sample_policy = Refuse → dev_fixture_pattern "jobs/zz.yaml" = None).
Proof.
  assert (load_all_with_policy ∅ ["jobs"] sample_policy (Some sample_tree) =
    Ok [sample_job "apps-demo" "jobs/apps/demo.yml"; sample_job "zz" "jobs/zz.yaml"]) as H
    by (vm_compute; reflexivity).
  split; [exact H|]. refine (loaded_jobs_are_valid _ _ _ _ _ _ H _). right. left.
Defined.

(** A group name has no path separator and no dash at either end, so it is one
    segment of an admin route. *)
Theorem group_from_path_is_one_segment root file :
  let g := group_from_path root file in
  str_all (λ c, negb (Ascii.eqb c "/" || Ascii.eqb c "\")) g = true ∧ trim_matches "-" g = g.
Proof.
  cbv zeta. unfold group_from_path. split; [|apply trim_matches_idem].
  apply str_all_trim_matches. unfold replace_char. rewrite !str_all_map.
  apply str_all_true. byte_cases.
Qed.
