(* ===== verification/LoaderTests.v ===== *)
(** * The unit tests of src/dsl/loader.rs

    Each test of the source as a function to [bool]. A YAML text stands for the jobs that
    its decoder reads from it: [written] gives every file the jobs of the test's text, and
    [docs] tells the two files apart that one test writes. The variables that a test sets
    are its environment. *)
From S2P Require Import Prelude RStr Errors Dsl Config EnvSafety Libs Loader.

(** ** Fixtures *)
Definition root : PathBuf := ["/"; "tmp"; "cm"].
Definition no_env : Env := ∅.
Definition file : File := mkFile (Ok 100%Z) (Ok "").
Definition file_of (body : string) : File := mkFile (Ok 100%Z) (Ok body).

(** [write] of a file at a relative path. *)
Fixpoint tree (rel : PathBuf) (f : File) : Node :=
  match rel with [] => FileNode f | name :: rel' => DirNode (Ok [(name, tree rel' f)]) end.
Definition docs (l : list (string * list (string * RawJob))) : Libs :=
  Sample.libs_with (λ body, match assoc body l with Some jobs => Ok (list_to_map jobs) | None => Err "unknown document" end).
Definition written (jobs : list (string * RawJob)) : Libs := Sample.libs_with (λ _, Ok (list_to_map jobs)).

Abbreviation Loaded := (result (list LoadedJob) CronManagerError).
Definition load_tree (rel : PathBuf) (jobs : list (string * RawJob)) : Loaded :=
  load_all (H := written jobs) no_env root (Some (tree rel file)).
Definition load_path (env : Env) (rel : PathBuf) (jobs : list (string * RawJob)) : Loaded :=
  load_file (H := written jobs) env root (root ++ rel) file.

Definition off : RawTrigger := RawStr "off".
Definition http_job (trigger : RawTrigger) (method url : string) : RawJob :=
  mkRawJob trigger "http" None None None None None (Some method) (Some url) None None None None.
Definition exec_job (cmd : RawCommand) : RawJob :=
  mkRawJob off "exec" None None None None None None None None None (Some cmd) None.
Definition telnet_job : RawJob :=
  mkRawJob off "telnet" None None None None None (Some "GET") (Some "https://x") None None None None.

(** What the assertions look at. *)
Definition loads (n : nat) (r : Loaded) : bool := match r with Ok jobs => length jobs =? n | Err _ => false end.
Definition on_first (p : JobSpec → bool) (r : Loaded) : bool :=
  match r with Ok (j :: _) => p (spec j) | _ => false end.
Definition fails (p : CronManagerError → bool) (r : Loaded) : bool := match r with Err e => p e | Ok _ => false end.
Definition says (parts : list string) : Loaded → bool := fails (λ e, forallb (contains (to_string e)) parts).
Definition hides (parts : list string) : Loaded → bool := fails (λ e, forallb (λ p, negb (contains (to_string e) p)) parts).
Definition is_invalid_definition (e : CronManagerError) : bool := match e with InvalidJobDefinition _ _ => true | _ => false end.
Definition argv_is (argv : list string) (s : JobSpec) : bool :=
  match kind s with Exec a _ => bool_decide (a = argv) | Http _ _ _ => false end.
Definition headers_are (hs : list HttpHeader) (s : JobSpec) : bool :=
  match kind s with Http _ _ l => bool_decide (l = hs) | Exec _ _ => false end.
Definition is_manual (s : JobSpec) : bool := bool_decide (trigger s = Manual).

(** ** Groups and commands *)
Definition group_derivation_matches_jvm_convention : bool :=
  String.eqb (group_from_path ["/"; "dsl"] ["/"; "dsl"; "samples"; "http"; "health-check.yaml"]) "samples-http-health-check".
Definition group_derivation_flat_file : bool :=
  String.eqb (group_from_path ["/"; "dsl"] ["/"; "dsl"; "simple.yml"]) "simple".
Definition exec_command_string_form_tokenises_on_whitespace : bool :=
  let jobs := load_tree ["shell"; "j.yaml"] [("j", exec_job (CmdString "/bin/echo hello world"))] in
  loads 1 jobs && on_first (argv_is ["/bin/echo"; "hello"; "world"]) jobs.
Definition exec_command_list_form_preserves_argv : bool :=
  let argv := ["/bin/sh"; "-c"; "sleep 30; echo done"] in
  let jobs := load_tree ["shell"; "j.yaml"] [("j", exec_job (CmdList argv))] in
  loads 1 jobs && on_first (argv_is argv) jobs.
Definition exec_command_empty_string_rejected : bool :=
  says ["empty"] (load_path no_env ["shell"; "j.yaml"] [("j", exec_job (CmdString "   "))]).
Definition exec_command_empty_list_rejected : bool :=
  says ["empty"] (load_path no_env ["shell"; "j.yaml"] [("j", exec_job (CmdList []))]).

(** ** Headers *)
Definition load_http (env : Env) (headers envs : list (string * string)) : Loaded :=
  load_path env ["h"; "j.yaml"]
    [("j", mkRawJob off "http" None None None None None (Some "POST") (Some "https://example.com/")
       (Some (list_to_map headers)) (Some (list_to_map envs)) None None)].
Definition crlf : string := single cr +:+ single lf.
Definition byte (z : Z) : string := single (ascii_of_Z z).

Definition http_headers_literal_and_env_load : bool :=
  let jobs := load_http {["CM_TEST_HDR_LOAD_OK" := "tok"]} [("X-Static", "one")]
                [("X-Internal-Service-Token", "CM_TEST_HDR_LOAD_OK")] in
  on_first (headers_are [mkHttpHeader "x-static" (Literal "one");
                         mkHttpHeader "x-internal-service-token" (EnvVar "CM_TEST_HDR_LOAD_OK")]) jobs.
Definition http_header_env_unset_rejected_at_load : bool :=
  says ["not set"] (load_http no_env [] [("X-Token", "CM_TEST_HDR_DEFINITELY_UNSET")]).
Definition http_header_forbidden_and_duplicate_rejected : bool :=
  let env : Env := {["CM_TEST_HDR_DUP" := "v"]} in
  says ["may not set"] (load_http env [("Host", "evil.example")] []) &&
  says ["both"] (load_http env [("X-A", "one")] [("x-a", "CM_TEST_HDR_DUP")]) &&
  says ["invalid header name"] (load_http env [("bad name", "one")] []).
Definition http_header_literal_value_with_control_bytes_rejected : bool :=
  forallb (λ value, says ["invalid value for header"] (load_http no_env [("X-A", value)] []))
    ["legit" +:+ crlf +:+ "X-Injected: evil"; "has" +:+ byte 0 +:+ "nul"; "has" +:+ byte 1 +:+ "control"].
Definition http_header_env_var_name_malformed_rejected : bool :=
  forallb (λ bad_name, says ["not a valid env-var name"] (load_http no_env [] [("X-Token", bad_name)]))
    [""; "1STARTS_WITH_DIG"; "HAS-DASH"; "HAS.DOT"; "HAS SPACE"].
Definition http_header_env_value_invalid_rejected_at_load : bool :=
  let r := load_http {["CM_TEST_HDR_ENV_VAL_CRLF" := "secret-stuff" +:+ crlf +:+ "X-Injected: evil"]} []
             [("X-Token", "CM_TEST_HDR_ENV_VAL_CRLF")] in
  says ["not a valid header value"; "CM_TEST_HDR_ENV_VAL_CRLF"] r && hides ["secret-stuff"; "X-Injected"] r.
Definition http_header_forbidden_case_insensitive_variants : bool :=
  forallb (λ name, says ["may not set"] (load_http no_env [(name, "whatever")] []))
    ["HOST"; "HoSt"; "host"; "CONNECTION"; "CoNnEcTiOn"; "CONTENT-LENGTH"; "content-length"; "Content-Length";
     "TRANSFER-ENCODING"; "Transfer-Encoding"; "transfer-ENCODING"; "TE"; "te"; "Te"; "TRAILER"; "trailer";
     "UPGRADE"; "upgrade"; "Upgrade"].
Definition http_header_name_with_control_or_whitespace_rejected : bool :=
  forallb (λ name, says ["invalid header name"] (load_http no_env [(name, "v")] []))
    ["X-" +:+ crlf +:+ "-A"; crlf +:+ "Host"; "X-" +:+ byte 0 +:+ "-A"; "X-Has Space"; "X-Has" +:+ byte 9 +:+ "Tab";
     "X-Has" +:+ byte 1 +:+ "Ctrl"].
Definition http_header_name_pseudo_header_rejected : bool :=
  forallb (λ name, says ["invalid header name"] (load_http no_env [(name, "v")] []))
    [":authority"; ":method"; ":path"; ":scheme"; ":status"].
Definition http_header_env_crlf_injection_rejected_at_load : bool :=
  let r := load_http
    {["CM_TEST_HDR_CRLF_INJECT" := "tok" +:+ crlf +:+ "X-Forwarded-For: 203.0.113.9" +:+ crlf +:+ "Authorization: Bearer stolen"]}
    [] [("X-Token", "CM_TEST_HDR_CRLF_INJECT")] in
  says ["not a valid header value"; "CM_TEST_HDR_CRLF_INJECT"] r && hides ["X-Forwarded-For"; "203.0.113.9"; "Bearer stolen"] r.
Definition http_header_env_set_but_empty_rejected_at_load : bool :=
  says ["empty or not a valid header value"] (load_http {["CM_TEST_HDR_EMPTY" := ""]} [] [("X-Token", "CM_TEST_HDR_EMPTY")]).
Definition http_header_literal_empty_value_accepted : bool :=
  on_first (headers_are [mkHttpHeader "x-a" (Literal "")]) (load_http no_env [("X-A", "")] []).
Definition http_header_error_includes_job_name : bool :=
  says ["job 'j'"] (load_http no_env [("Host", "evil.example")] []).

(** ** Jobs and triggers *)
Definition loads_http_job_with_all_fields : bool :=
  let raw := mkRawJob (RawStr "0 */5 * * * ?") "http" (Some 1000%Z) (Some 2000%Z) (Some 2%Z) (Some 500%Z) (Some true)
               (Some "GET") (Some "https://example.com") None None None None in
  let jobs := load_tree ["http"; "health.yaml"] [("hc", raw)] in
  loads 1 jobs &&
  on_first (λ s, bool_decide (s = mkJobSpec (mkJobKey "http-health" "hc") (Cron "0 */5 * * * ?")
    (mkTimeWindow (Some 1000%Z) (Some 2000%Z)) (mkRetryPolicy 2 500 true) (Http "GET" "https://example.com" []))) jobs.
Definition loads_manual (t : RawTrigger) : bool :=
  on_first is_manual (load_tree ["http"; "m.yaml"] [("m", http_job t "GET" "https://x")]).
Definition manual_trigger_string_off : bool := loads_manual off.
Definition manual_trigger_bool_false : bool := loads_manual (RawBool false).
Definition manual_trigger_string_false_and_no : bool := forallb (λ lit, loads_manual (RawStr lit)) ["false"; "no"; "disabled"].
Definition bad_cron_expression_fails_per_file_load : bool :=
  fails (λ e, match e with InvalidCron _ _ => true | _ => false end)
    (load_path no_env ["http"; "bad.yaml"] [("b", http_job (RawStr "not a cron") "GET" "https://x")]).
Definition unknown_http_method_fails_per_file_load : bool :=
  fails is_invalid_definition (load_path no_env ["http"; "bad.yaml"] [("b", http_job off "FLOOP" "https://x")]).
Definition unknown_job_type_fails_per_file_load : bool :=
  fails is_invalid_definition (load_path no_env ["x.yaml"] [("b", telnet_job)]).
Definition load_all_skips_bad_file_and_loads_good_ones : bool :=
  let jobs := load_all
    (H := docs [("good", [("good", http_job off "GET" "https://example.com/")]); ("bad", [("bad", telnet_job)])]) no_env root
    (Some (DirNode (Ok [("http", DirNode (Ok [("good.yaml", FileNode (file_of "good")); ("bad.yaml", FileNode (file_of "bad"))]))]))) in
  loads 1 jobs && on_first (λ s, String.eqb (name (key s)) "good") jobs.
Definition load_all_returns_empty_when_every_file_fails : bool :=
  loads 0 (load_all
    (H := docs [("one", [("b", telnet_job)]); ("two", [("b", http_job off "FLOOP" "https://x")])]) no_env root
    (Some (DirNode (Ok [("one.yaml", FileNode (file_of "one")); ("two.yaml", FileNode (file_of "two"))])))).
Definition missing_dsl_path_is_warning_not_error : bool := loads 0 (load_all (H := written []) no_env root None).

(** ** Time windows *)
Definition i64_min : Z := -9223372036854775808.
Definition i64_max : Z := 9223372036854775807.
Definition window_answers (w : TimeWindow) (l : list (Z * bool)) : bool := forallb (λ '(t, a), Bool.eqb (allows w t) a) l.
Definition time_window_allows : bool :=
  window_answers (mkTimeWindow (Some 100%Z) (Some 200%Z))
    [(99%Z, false); (100%Z, true); (150%Z, true); (200%Z, true); (201%Z, false)].
Definition time_window_open_ended : bool :=
  window_answers (mkTimeWindow (Some 100%Z) None) [(50%Z, false); (100%Z, true); (i64_max, true)] &&
  window_answers (mkTimeWindow None (Some 100%Z)) [(i64_min, true); (100%Z, true); (101%Z, false)] &&
  window_answers TimeWindow_default [(i64_min, true); (i64_max, true)].

(** ** Caps and the SSRF check *)
Definition policy (block_private_networks : bool) : LoadPolicy := mkLoadPolicy (1024 * 1024) 10 10 block_private_networks Ignore.
Definition load_blocked (rel : PathBuf) (f : File) (jobs : list (string * RawJob)) : Loaded :=
  load_file_with_policy (H := written jobs) no_env root (root ++ rel) (policy true) f.
Definition load_url (rel : PathBuf) (url : string) : Loaded := load_blocked rel file [("j", http_job off "GET" url)].
Definition load_tree_under (p : LoadPolicy) (rel : PathBuf) (url : string) : Loaded :=
  load_all_with_policy (H := written [("j", http_job off "GET" url)]) no_env root p (Some (tree rel file)).

(** The file is its text and 1 MiB of padding. *)
Definition file_size_cap_refuses_oversize_dsl : bool :=
  says ["max_dsl_file_bytes"; "YAML anchor bomb"]
    (load_blocked ["http"; "big.yaml"] (mkFile (Ok (70 + 1024 * 1024)%Z) (Ok "")) [("hc", http_job off "GET" "https://x/")]).
Definition retry_count_cap_refuses_oversize_retry : bool :=
  says ["retryCount"; "max_retry_count"] (load_blocked ["http"; "rc.yaml"] file
    [("hc", mkRawJob off "http" None None (Some 100%Z) None None (Some "GET") (Some "https://x/") None None None None)]).
Definition ssrf_load_refuses_literal_private_ip : bool :=
  says ["169.254.169.254"; "non-routable"] (load_url ["attack"; "meta.yaml"] "http://169.254.169.254/latest/meta-data/").
Definition ssrf_load_refuses_ipv6_loopback : bool := says ["non-routable"] (load_url ["attack"; "loop.yaml"] "http://[::1]/").
Definition ssrf_load_refuses_ipv4_mapped_ipv6_private : bool :=
  says ["non-routable"] (load_url ["attack"; "mapped.yaml"] "http://[::ffff:169.254.169.254]/").
Definition ssrf_load_rejects_non_http_scheme : bool := says ["scheme"] (load_url ["attack"; "file.yaml"] "file:///etc/passwd").
Definition ssrf_load_allows_public_hostname : bool := loads 1 (load_tree_under (policy true) ["ok"; "ex.yaml"] "https://example.com/").
Definition ssrf_bypass_disabled_when_block_private_networks_false : bool :=
  loads 1 (load_tree_under (policy false) ["attack"; "meta.yaml"] "http://169.254.169.254/").
Definition ssrf_load_rejects_userinfo_trick : bool :=
  says ["169.254.169.254"] (load_url ["attack"; "ui.yaml"] "http://legit.com@169.254.169.254/").
Definition load_all_bounded_delegates_to_sync_loader : bool :=
  loads 1 (load_all_bounded (H := written [("hc", http_job off "GET" "https://example.com/")]) no_env root
    (Some (tree ["http"; "x.yaml"] file)) Joined (1024 * 1024) 15 10 10 true Ignore).

Definition loader_tests : list bool :=
  [group_derivation_matches_jvm_convention; group_derivation_flat_file; exec_command_string_form_tokenises_on_whitespace;
   exec_command_list_form_preserves_argv; exec_command_empty_string_rejected; exec_command_empty_list_rejected;
   http_headers_literal_and_env_load; http_header_env_unset_rejected_at_load; http_header_forbidden_and_duplicate_rejected;
   http_header_literal_value_with_control_bytes_rejected; http_header_env_var_name_malformed_rejected;
   http_header_env_value_invalid_rejected_at_load; http_header_forbidden_case_insensitive_variants;
   http_header_name_with_control_or_whitespace_rejected; http_header_name_pseudo_header_rejected;
   http_header_env_crlf_injection_rejected_at_load; http_header_env_set_but_empty_rejected_at_load;
   http_header_literal_empty_value_accepted; http_header_error_includes_job_name;
   loads_http_job_with_all_fields; manual_trigger_string_off; manual_trigger_bool_false; manual_trigger_string_false_and_no;
   bad_cron_expression_fails_per_file_load; unknown_http_method_fails_per_file_load; unknown_job_type_fails_per_file_load;
   load_all_skips_bad_file_and_loads_good_ones; load_all_returns_empty_when_every_file_fails;
   missing_dsl_path_is_warning_not_error; time_window_allows; time_window_open_ended; file_size_cap_refuses_oversize_dsl;
   retry_count_cap_refuses_oversize_retry; ssrf_load_refuses_literal_private_ip; ssrf_load_refuses_ipv6_loopback;
   ssrf_load_refuses_ipv4_mapped_ipv6_private; ssrf_load_rejects_non_http_scheme; ssrf_load_allows_public_hostname;
   ssrf_bypass_disabled_when_block_private_networks_false; ssrf_load_rejects_userinfo_trick;
   load_all_bounded_delegates_to_sync_loader].

(** The model of [Loader] passes them. *)
Example loader_tests_pass : loader_tests = replicate (length loader_tests) true.
Proof. vm_compute. reflexivity. Qed.
