(* ===== verification/HttpExec.v ===== *)
(** * HTTP executor (src/executor/http.rs)

    One attempt: method and SSRF checks, header resolution, the send raced against
    [/stop], the bounded read of the body and the status check. What the network answers
    in one attempt is an [HttpWorld]; [execute] returns its result together with the trace
    of what it asked of the network, so that "nothing is sent" is a statement about it. *)
From S2P Require Import Prelude RStr Ip Errors Security Dsl Config Libs Loader.

Record HttpExecutor := mkHttpExecutor
  { max_response_bytes : Z; timeout : Z; block_private_networks : bool;
    allowed_private_hosts : list string }.
Record HttpAttempt := mkHttpAttempt { attempt_status : Z; body : string }.

(** [with_ssrf_policy], for a client that builds, and [with_allowed_private_hosts]. *)
Definition with_ssrf_policy (limits : Limits) (block_private_networks : bool) : HttpExecutor :=
  mkHttpExecutor (Config.max_response_bytes limits) (request_timeout_secs limits)
    block_private_networks [].
(** [HttpExecutor::new]. *)
Definition new (limits : Limits) : HttpExecutor := with_ssrf_policy limits true.
Definition with_allowed_private_hosts (e : HttpExecutor) (hosts : list string) : HttpExecutor :=
  mkHttpExecutor (max_response_bytes e) (timeout e) (block_private_networks e) hosts.

(** ** The network *)

(** What [resp.chunk()] returns, call by call; the end of the list is [None]. *)
Inductive ChunkEvent := Chunk (bytes : string) | ChunkErr (e : string).
Record Response := mkResponse { resp_status : Z; resp_chunks : list ChunkEvent }.
Inductive SendErr := TimedOutErr | OtherErr (e : string).
(** Which branch of the [select!] completes. *)
Inductive SendEvent := Sent (r : result Response SendErr) | SendCancelled.

Record Request := mkRequest { req_method : string; req_url : string; req_headers : list (string * string) }.
Record HttpWorld := mkHttpWorld
  { lookup_host : string → result (list IpAddr) string; send : Request → SendEvent }.
Inductive HttpIo := Lookup (target : string) | Send (r : Request).
#[export] Instance Request_eq_dec : EqDecision Request.
Proof. solve_decision. Defined.
#[export] Instance HttpIo_eq_dec : EqDecision HttpIo.
Proof. solve_decision. Defined.

(** ** SSRF checks *)
Definition is_allowlisted (host : string) (allowed : list string) : bool :=
  existsb (λ a, eq_ignore_ascii_case a (trim_end_matches "." host)) allowed.

Definition ssrf_refuses (ip : IpAddr) (allowlisted : bool) : bool :=
  if allowlisted then is_always_blocked ip else is_private_or_local ip.

Definition non_routable (host : string) (ip : IpAddr) : CronManagerError :=
  BadRequest ("hostname '" +:+ host +:+ "' resolves to non-routable IP " +:+ display_ip ip +:+
    " (SSRF pre-flight); list the host in security.allowed_private_hosts to allow").

Fixpoint check_addrs (host : string) (allowlisted : bool) (addrs : list IpAddr) :
    result unit CronManagerError :=
  match addrs with
  | [] => Ok tt
  | ip :: rest =>
      if ssrf_refuses ip allowlisted then Err (non_routable host ip)
      else check_addrs host allowlisted rest
  end.

(** ** Bodies *)
Fixpoint read_chunks (buf : string) (limit : Z) (chunks : list ChunkEvent) :
    result string CronManagerError :=
  match chunks with
  | [] => Ok buf
  | ChunkErr e :: _ => Err (Internal ("reading upstream body chunk: " +:+ e))
  | Chunk c :: rest =>
      if (limit <? zlen buf + zlen c)%Z then Err (UpstreamBodyTooLarge limit)
      else read_chunks (buf +:+ c) limit rest
  end.
Definition read_bounded (resp : Response) (limit : Z) : result string CronManagerError :=
  let? buf := read_chunks "" limit (resp_chunks resp) in Ok (from_utf8_lossy buf).

Definition truncate (s : string) (max : nat) : string :=
  if slen s <=? max then s else stake (floor_loop s (max `min` slen s)) s +:+ "… (truncated)".

Section http.
Context `{Libs} (env : Env) (w : HttpWorld).

(** [reject_private_dns]. *)
Definition dns_target (parsed : Url) (host : string) : string :=
  let port := default (if String.eqb (scheme parsed) "https" then 443 else 80)%Z (url_port parsed) in
  host +:+ ":" +:+ pretty port.

Definition reject_private_dns (e : HttpExecutor) (url_str : string) :
    list HttpIo * result unit CronManagerError :=
  match url_parse url_str with
  | Err err => ([], Err (Internal ("re-parsing url '" +:+ url_str +:+ "': " +:+ err)))
  | Ok parsed =>
      match host_str parsed with
      | None => ([], Ok tt)
      | Some host =>
          match parse_ip host with
          | Some _ => ([], Ok tt)
          | None =>
              let target := dns_target parsed host in
              ([Lookup target],
               match lookup_host w target with
               | Err err => Err (Internal ("dns lookup " +:+ target +:+ ": " +:+ err))
               | Ok addrs => check_addrs host (is_allowlisted host (allowed_private_hosts e)) addrs
               end)
          end
      end
  end.

Definition header_value (h : HttpHeader) : result (string * string) CronManagerError :=
  let? value :=
    match source h with
    | Literal v => Ok v
    | EnvVar var =>
        ok_or (env_var env var)
          (Internal ("header '" +:+ header_name h +:+ "' needs env var '" +:+ var +:+ "', which is not set"))
    end in
  if header_value_from_str value then Ok (header_name h, value)
  else Err (Internal ("header '" +:+ header_name h +:+ "' has an invalid value")).

Definition map_send_err (e : HttpExecutor) (err : SendErr) : CronManagerError :=
  match err with
  | TimedOutErr => UpstreamTimeout (timeout e)
  | OtherErr msg => Internal ("upstream request: " +:+ msg)
  end.

Definition finish (e : HttpExecutor) (resp : Response) : result HttpAttempt CronManagerError :=
  let status := resp_status resp in
  let? body := read_bounded resp (max_response_bytes e) in
  if (200 <=? status)%Z && (status <? 300)%Z then Ok (mkHttpAttempt status body)
  else Err (UpstreamHttpError status (truncate (sanitize_for_log body) 1024)).

(** [HttpExecutor::execute]. *)
Definition execute (e : HttpExecutor) (method url : string) (headers : list HttpHeader) :
    list HttpIo * result HttpAttempt CronManagerError :=
  let m := str_to_uppercase method in
  if negb (method_from_bytes m) then
    ([], Err (Internal ("unknown HTTP method '" +:+ method +:+ "'")))
  else
    let (io, checked) := if block_private_networks e then reject_private_dns e url else ([], Ok tt) in
    match (let? _ := checked in collect header_value headers) with
    | Err err => (io, Err err)
    | Ok hs =>
        let request := mkRequest m url hs in
        (io ++ [Send request],
         match send w request with
         | SendCancelled => Err (Internal "aborted by /stop before response")
         | Sent (Err err) => Err (map_send_err e err)
         | Sent (Ok resp) => finish e resp
         end)
    end.
End http.

(** ** Reference definitions *)

(** A body whose chunks all arrive. *)
Definition chunk_bytes (c : ChunkEvent) : option string :=
  match c with Chunk b => Some b | ChunkErr _ => None end.
Definition whole_body (chunks : list ChunkEvent) : option string :=
  concat_str <$> mapM chunk_bytes chunks.

(** ** Bodies *)
Lemma read_chunks_ok buf limit chunks r :
  (zlen buf ≤ limit)%Z →
  read_chunks buf limit chunks = Ok r ↔
  ∃ raw, whole_body chunks = Some raw ∧ r = buf +:+ raw ∧ (zlen r ≤ limit)%Z.
Proof.
  unfold whole_body. revert buf. induction chunks as [|[c|e] chunks IH]; intros buf Hbuf; cbn [read_chunks mapM].
  - split; [intros [= <-]; exists ""; by rewrite sapp_nil_r|].
    intros (raw & [= <-] & -> & _). by rewrite sapp_nil_r.
  - cbn [mbind option_bind chunk_bytes]. rewrite <- zlen_app.
    destruct (Z.ltb_spec limit (zlen (buf +:+ c))) as [Hgt|Hle].
    + split; [done|]. intros (raw & Hraw & -> & Hle). exfalso.
      destruct (mapM chunk_bytes chunks); [|done]. injection Hraw as <-. cbn [concat_str] in Hle.
      rewrite !zlen_app in *. pose proof (zlen_nonneg (concat_str l)). lia.
    + rewrite IH by done. destruct (mapM chunk_bytes chunks) as [l|]; cbn.
      * split; intros (raw & [= <-] & -> & Hr); eexists; (split; [done|]); by rewrite !sapp_assoc in *.
      * split; by intros (? & ? & ?).
  - split; [done|]. by intros (? & ? & ?).
Qed.

Lemma read_bounded_ok resp limit b :
  (0 ≤ limit)%Z →
  read_bounded resp limit = Ok b ↔
  ∃ raw, whole_body (resp_chunks resp) = Some raw ∧ (zlen raw ≤ limit)%Z ∧ b = from_utf8_lossy raw.
Proof.
  intros Hlim. unfold read_bounded. split.
  - destruct (read_chunks _ _ _) as [raw|] eqn:Hr; [|done]. intros [= <-].
    apply read_chunks_ok in Hr as (raw' & Hw & -> & Hl); [|done]. rewrite sapp_nil_l in *. by exists raw'.
  - intros (raw & Hw & Hl & ->).
    assert (read_chunks "" limit (resp_chunks resp) = Ok raw) as ->; [|done].
    apply read_chunks_ok; [done|]. by exists raw.
Qed.

Lemma read_bounded_err resp limit st text :
  read_bounded resp limit = Err (UpstreamHttpError st text) → False.
Proof.
  unfold read_bounded. generalize "". induction (resp_chunks resp) as [|[c|e] l IH]; intros buf; cbn [read_chunks]; [done| |done].
  destruct (_ <? _)%Z; [done|apply IH].
Qed.

Lemma truncate_clean s n : str_all clean_byte s = true → str_all clean_byte (truncate s n) = true.
Proof.
  intros Hs. unfold truncate. destruct (slen s <=? n); [done|].
  by rewrite str_all_app, (str_all_stake clean_byte _ _ Hs).
Qed.

Lemma truncate_length s n : slen (truncate s n) ≤ n + slen "… (truncated)".
Proof.
  unfold truncate. destruct (Nat.leb_spec (slen s) n); [lia|].
  rewrite slen_app, slen_stake. destruct (floor_loop_spec s (n `min` slen s)). lia.
Qed.

(** ** SSRF *)
Lemma check_addrs_ok host allowlisted addrs :
  check_addrs host allowlisted addrs = Ok tt ↔ Forall (λ ip, ssrf_refuses ip allowlisted = false) addrs.
Proof.
  induction addrs as [|ip addrs IH]; cbn [check_addrs]; [by split|].
  destruct (ssrf_refuses ip allowlisted) eqn:Hip.
  - split; [done|]. intros Hf. apply Forall_cons_1 in Hf as [Hf _]. congruence.
  - rewrite IH, Forall_cons. tauto.
Qed.

Lemma check_addrs_err host allowlisted addrs ip :
  ip ∈ addrs → ssrf_refuses ip allowlisted = true →
  ∃ ip', ip' ∈ addrs ∧ check_addrs host allowlisted addrs = Err (non_routable host ip').
Proof.
  intros Hin Href. induction addrs as [|ip1 addrs IH]; [by apply not_elem_of_nil in Hin|]. cbn [check_addrs].
  destruct (ssrf_refuses ip1 allowlisted) eqn:Hip; [exists ip1; split; [by left|done]|].
  apply elem_of_cons in Hin as [<-|Hin]; [congruence|].
  destruct (IH Hin) as (ip' & ? & ?). exists ip'. split; [by right|done].
Qed.

Lemma ssrf_passes ip allowlisted :
  ssrf_refuses ip allowlisted = false →
  is_always_blocked ip = false ∧ (allowlisted = false → is_private_or_local ip = false).
Proof.
  unfold ssrf_refuses. intros Hr. split.
  - destruct allowlisted; [done|]. destruct (is_always_blocked ip) eqn:Hb; [|done].
    by rewrite always_blocked_private in Hr.
  - by intros ->.
Qed.

Section http_facts.
Context `{Libs} (env : Env) (w : HttpWorld) (e : HttpExecutor).

(** What [execute] does once it sends. *)
Lemma execute_sent method url headers r :
  Send r ∈ (execute env w e method url headers).1 →
  ∃ io hs, (execute env w e method url headers).1 = io ++ [Send r] ∧
    collect (header_value env) headers = Ok hs ∧ r = mkRequest (str_to_uppercase method) url hs ∧
    (block_private_networks e = true → reject_private_dns w e url = (io, Ok tt)) ∧
    (block_private_networks e = false → io = []) ∧
    (execute env w e method url headers).2 =
      match send w r with
      | SendCancelled => Err (Internal "aborted by /stop before response")
      | Sent (Err err) => Err (map_send_err e err)
      | Sent (Ok resp) => finish e resp
      end.
Proof.
  unfold execute. destruct (method_from_bytes _); cbn [negb]; [|by intros ?%not_elem_of_nil].
  destruct (if block_private_networks e then _ else _) as [io checked] eqn:Hio.
  assert (∀ r', Send r' ∉ io) as Hno.
  { intros r'. destruct (block_private_networks e); [|injection Hio as <- _; apply not_elem_of_nil].
    unfold reject_private_dns in Hio. repeat case_match; simplify_eq/=; intros Hin; repeat (apply elem_of_cons in Hin as [?|Hin]; [done|]); by apply not_elem_of_nil in Hin. }
  destruct checked as [[]|err]; cbn beta iota; [|intros Hin; by apply Hno in Hin].
  destruct (collect _ _) as [hs|err] eqn:Hh; [|intros Hin; by apply Hno in Hin].
  cbn [fst snd]. intros [Hin|Hin]%elem_of_app; [by apply Hno in Hin|].
  apply list_elem_of_singleton in Hin. injection Hin as ->. exists io, hs. split_and!; try done.
  - by intros Hb; rewrite Hb in Hio.
  - intros Hb; rewrite Hb in Hio. by injection Hio.
Qed.

(** No step but the last produces an upstream status error. *)
Lemma reject_private_dns_err url io st text :
  reject_private_dns w e url = (io, Err (UpstreamHttpError st text)) → False.
Proof.
  unfold reject_private_dns. destruct (url_parse url); [|done]. destruct (host_str _); [|done].
  destruct (parse_ip _); [done|]. destruct (lookup_host w _) as [addrs|]; [|done]. intros [= _ Hc].
  induction addrs as [|ip addrs IH]; [done|]. cbn [check_addrs] in Hc. by destruct (ssrf_refuses _ _); [|apply IH].
Qed.

Lemma collect_header_err headers st text :
  collect (header_value env) headers = Err (UpstreamHttpError st text) → False.
Proof.
  induction headers as [|h headers IH]; [done|]. cbn [collect].
  destruct (header_value env h) as [x|err] eqn:Hh.
  - destruct (collect _ _); [done|]. intros [= ->]. by apply IH.
  - intros [= ->]. unfold header_value in Hh.
    destruct (source h) as [v|var]; [|destruct (env_var env var)]; cbn [ok_or] in Hh; by repeat case_match.
Qed.
End http_facts.

(** What the SSRF check leaves of a request to [url]: a literal address is public, and any
    other host that is not itself an address was resolved first, to addresses of which none
    is always blocked and, unless the host is on the operator's list, none is private. *)
Definition address_checked `{Libs} (w : HttpWorld) (e : HttpExecutor) (trace : list HttpIo) (url : string) (r : Request) : Prop :=
  ∃ parsed h name, url_parse url = Ok parsed ∧ host parsed = Some h ∧ host_str parsed = Some name ∧
    (scheme parsed = "http" ∨ scheme parsed = "https") ∧
    match h with
    | HostIpv4 a => is_private_or_local (V4 a) = false
    | HostIpv6 a => is_private_or_local (V6 a) = false
    | Domain _ => True
    end ∧
    (parse_ip name = None → ∃ addrs,
       trace = [Lookup (dns_target parsed name); Send r] ∧ lookup_host w (dns_target parsed name) = Ok addrs ∧
       Forall (λ ip, is_always_blocked ip = false ∧
         (is_allowlisted name (allowed_private_hosts e) = false → is_private_or_local ip = false)) addrs).

(** With private networks blocked, a request to a URL that the loader accepted leaves the
    process only if the SSRF check passed on every address. *)
Theorem no_send_to_blocked_address `{Libs} env w e policy method url headers r :
  block_private_networks e = true → policy_block_private_networks policy = true →
  url_ok policy url → Send r ∈ (execute env w e method url headers).1 →
  address_checked w e (execute env w e method url headers).1 url r.
Proof.
  intros Hblock Hpol (parsed & h & Hparse & Hhost & Hscheme & Hlit) Hsend. specialize (Hlit Hpol).
  apply execute_sent in Hsend as (io & hs & Htrace & _ & _ & Hdns & _). specialize (Hdns Hblock).
  unfold reject_private_dns in Hdns. rewrite Hparse in Hdns.
  destruct (host_str parsed) as [name|] eqn:Hname; [|unfold host_str in Hname; by rewrite Hhost in Hname].
  exists parsed, h, name. split_and!; [done..|]. intros Hnone. rewrite Hnone in Hdns.
  injection Hdns as <- Hdns. destruct (lookup_host w _) as [addrs|] eqn:Hlook; [|done].
  exists addrs. split_and!; [done..|]. apply check_addrs_ok in Hdns.
  eapply Forall_impl; [exact Hdns|]. intros ip. apply ssrf_passes.
Qed.

(** The headers of a request have the names of the job's and valid values. *)
Lemma sent_headers `{Libs} env headers hs n v :
  collect (header_value env) headers = Ok hs → (n, v) ∈ hs →
  header_value_from_str v = true ∧ ∃ h, h ∈ headers ∧ header_name h = n.
Proof.
  revert hs. induction headers as [|h headers IH]; intros hs; cbn [collect]; [intros [= <-] []%not_elem_of_nil|].
  destruct (header_value env h) as [[n1 v1]|] eqn:Hh; [|done]. destruct (collect _ _) as [hs1|]; [|done].
  intros [= <-] [[= <- <-]|Hin]%elem_of_cons.
  - unfold header_value in Hh. destruct (match source h with Literal v => _ | EnvVar _ => _ end) as [val|]; [|done].
    destruct (header_value_from_str val) eqn:Hv; [|done]. injection Hh as <- <-. split; [done|]. exists h. split; [by left|done].
  - destruct (IH _ eq_refl Hin) as (? & h' & ? & ?). split; [done|]. exists h'. split; [by right|done].
Qed.

(** What is looked up is the host of the URL. *)
Lemma execute_lookup `{Libs} env w e method url headers target :
  Lookup target ∈ (execute env w e method url headers).1 →
  ∃ parsed name, url_parse url = Ok parsed ∧ host_str parsed = Some name ∧ target = dns_target parsed name.
Proof.
  unfold execute. destruct (method_from_bytes _); cbn [negb]; [|by intros ?%not_elem_of_nil].
  destruct (if block_private_networks e then _ else _) as [io checked] eqn:Hio. intros Hin.
  assert (Lookup target ∈ io) as Ht.
  { destruct (let? _ := checked in _) as [hs|]; [|done]. cbn [fst] in Hin.
    by apply elem_of_app in Hin as [?|?%list_elem_of_singleton]. }
  destruct (block_private_networks e); [|injection Hio as <- _; by apply not_elem_of_nil in Ht].
  unfold reject_private_dns in Hio. destruct (url_parse url) as [u|]; [|injection Hio as <- _; by apply not_elem_of_nil in Ht].
  destruct (host_str u) as [n|] eqn:Hn; [|injection Hio as <- _; by apply not_elem_of_nil in Ht].
  destruct (parse_ip n); injection Hio as <- _; [by apply not_elem_of_nil in Ht|].
  apply list_elem_of_singleton in Ht as [= ->]. by exists u, n.
Qed.

Definition sample_world : HttpWorld :=
  mkHttpWorld (λ _, Ok [V4 (V4Addr 93 184 216 34); V4 (V4Addr 10 0 0 7)])
    (λ _, Sent (Ok (mkResponse 204 [Chunk "o"; Chunk "k"]))).
Definition sample_executor : HttpExecutor := mkHttpExecutor 4 30 true ["example.org"].

#[local] Existing Instance Sample.libs.
Lemma no_send_to_blocked_address_witness :
  Send (mkRequest "GET" "https://example.org/ping" []) ∈
    (execute ∅ sample_world sample_executor "get" "https://example.org/ping" []).1 ∧
  ∃ parsed h name, url_parse "https://example.org/ping" = Ok parsed ∧ host parsed = Some h ∧
    host_str parsed = Some name.
Proof.
  assert (Send (mkRequest "GET" "https://example.org/ping" []) ∈
    (execute ∅ sample_world sample_executor "get" "https://example.org/ping" []).1) as Hin.
  { vm_compute. right. left. }
  split; [exact Hin|].
  assert (url_ok sample_policy "https://example.org/ping") as Hurl.
  { do 2 eexists. split_and!; [reflexivity|reflexivity|right; reflexivity|done]. }
  destruct (no_send_to_blocked_address ∅ sample_world sample_executor sample_policy _ _ _ _
    eq_refl eq_refl Hurl Hin) as (parsed & h & name & ? & ? & ? & _).
  exists parsed, h, name. split_and!; assumption.
Defined.

(** A refused address stops the fire before anything is sent: if some resolved address
    of a host that is not itself an address is refused, [execute] only resolves, and fails
    with the 400 of the pre-flight. *)
Theorem refused_address_never_sends `{Libs} env w e method url headers parsed name addrs ip :
  block_private_networks e = true → method_from_bytes (str_to_uppercase method) = true →
  url_parse url = Ok parsed → host_str parsed = Some name → parse_ip name = None →
  lookup_host w (dns_target parsed name) = Ok addrs →
  ip ∈ addrs → ssrf_refuses ip (is_allowlisted name (allowed_private_hosts e)) = true →
  ∃ ip', ip' ∈ addrs ∧
    execute env w e method url headers =
      ([Lookup (dns_target parsed name)], Err (non_routable name ip')) ∧
    status (non_routable name ip') = 400%Z.
Proof.
  intros Hblock Hm Hparse Hname Hip Hlook Hin Href.
  destruct (check_addrs_err name _ _ _ Hin Href) as (ip' & Hin' & Hc).
  exists ip'. split; [done|]. split; [|done].
  unfold execute, reject_private_dns. by rewrite Hm, Hblock, Hparse, Hname, Hip, Hlook, Hc.
Qed.

Lemma refused_address_never_sends_witness :
  ∃ ip', ip' ∈ [V4 (V4Addr 93 184 216 34); V4 (V4Addr 10 0 0 7)] ∧
    execute ∅ sample_world (mkHttpExecutor 4 30 true []) "get" "https://example.org/ping" [] =
      ([Lookup "example.org:443"], Err (non_routable "example.org" ip')) ∧
    status (non_routable "example.org" ip') = 400%Z.
Proof.
  refine (refused_address_never_sends ∅ sample_world (mkHttpExecutor 4 30 true []) "get"
    "https://example.org/ping" [] (mkUrl "https" (Some (Domain "example.org")) None) "example.org" _
    (V4 (V4Addr 10 0 0 7)) eq_refl _ _ eq_refl _ eq_refl _ _); [reflexivity..|right; left|reflexivity].
Defined.

(** Every address that the host of [url] resolves to, unless it is one itself, may be
    connected to: none is always blocked and, unless the operator lists the host, none is
    private. *)
Definition preflight_passes `{Libs} (w : HttpWorld) (e : HttpExecutor) (url : string) : Prop :=
  ∃ parsed, url_parse url = Ok parsed ∧
    ∀ name, host_str parsed = Some name → parse_ip name = None →
      ∃ addrs, lookup_host w (dns_target parsed name) = Ok addrs ∧
        ∀ ip, ip ∈ addrs → is_always_blocked ip = false ∧
          (is_allowlisted name (allowed_private_hosts e) = false → is_private_or_local ip = false).
(** The header sent for one of the job: under its name, with its literal value or the value
    that its variable has now, which is a valid header value. *)
Definition resolves_to `{Libs} (env : Env) (h : HttpHeader) (sent : string * string) : Prop :=
  sent.1 = header_name h ∧ header_value_from_str sent.2 = true ∧
  match source h with Literal v => sent.2 = v | EnvVar var => env !! var = Some sent.2 end.

Lemma ssrf_passes_iff ip allowlisted :
  ssrf_refuses ip allowlisted = false ↔
  is_always_blocked ip = false ∧ (allowlisted = false → is_private_or_local ip = false).
Proof. split; [apply ssrf_passes|]. intros [Hb Hp]. unfold ssrf_refuses. destruct allowlisted; [done|by apply Hp]. Qed.

Lemma reject_private_dns_ok `{Libs} w e url :
  (reject_private_dns w e url).2 = Ok tt ↔ preflight_passes w e url.
Proof.
  unfold reject_private_dns, preflight_passes. destruct (url_parse url) as [parsed|err]; [|split; [done|by intros (? & ? & _)]].
  destruct (host_str parsed) as [name|] eqn:Hname; [|split; [|done]; intros _; exists parsed; split; [done|congruence]].
  destruct (parse_ip name) as [a|] eqn:Hip; cbn [snd].
  { split; [|done]. intros _. exists parsed. split; [done|]. intros n Hn Hi. congruence. }
  split.
  - intros Hc. exists parsed. split; [done|]. intros n [= <-]%(eq_trans (eq_sym Hname)) _.
    destruct (lookup_host w _) as [addrs|]; [|done]. exists addrs. split; [done|]. intros ip Hin.
    apply check_addrs_ok in Hc. rewrite Forall_forall in Hc. by apply ssrf_passes, Hc.
  - intros (p & [= <-] & Hall). destruct (Hall name Hname Hip) as (addrs & -> & Hin).
    apply check_addrs_ok, Forall_forall. intros ip ?. by apply ssrf_passes_iff, Hin.
Qed.

Lemma header_value_ok `{Libs} env h sent : header_value env h = Ok sent ↔ resolves_to env h sent.
Proof.
  unfold header_value, resolves_to, env_var. destruct sent as [n v]. cbn [fst snd].
  destruct (source h) as [l|var]; [|destruct (env !! var) as [l|]; cbn [ok_or]].
  1, 2: destruct (header_value_from_str l) eqn:Hv; split; [by intros [= <- <-]|by intros (-> & _ & [= <-])|done|intros (_ & Hv' & [= ->]); congruence].
  split; [done|]. by intros (_ & _ & ?).
Qed.

(** C37: an attempt succeeds exactly when every stage does: the method is an HTTP method in
    upper case; if private networks are blocked, the host resolves and no address it
    resolves to is refused; every header of the job has a valid value; and the request
    with these gets a 2xx answer whose whole body arrives within the cap (an answer over
    it is a failure, not cut). The result is its status and its body, decoded lossily and
    so at most three times as long. *)
Theorem execute_success_iff `{Libs} env w e method url headers a :
  (0 ≤ max_response_bytes e)%Z →
  (execute env w e method url headers).2 = Ok a ↔
  method_from_bytes (str_to_uppercase method) = true ∧
  (block_private_networks e = true → preflight_passes w e url) ∧
  ∃ hs resp raw, Forall2 (resolves_to env) headers hs ∧
    send w (mkRequest (str_to_uppercase method) url hs) = Sent (Ok resp) ∧
    (200 ≤ resp_status resp < 300)%Z ∧ whole_body (resp_chunks resp) = Some raw ∧
    (zlen raw ≤ max_response_bytes e)%Z ∧
    a = mkHttpAttempt (resp_status resp) (from_utf8_lossy raw) ∧
    (zlen (body a) ≤ 3 * max_response_bytes e)%Z.
Proof.
  intros Hcap.
  assert (∀ hs, collect (header_value env) headers = Ok hs ↔ Forall2 (resolves_to env) headers hs) as Hhs.
  { intros hs. rewrite collect_ok. split; intros Hf; (eapply Forall2_impl; [exact Hf|]); intros h sent; apply header_value_ok. }
  unfold execute. destruct (method_from_bytes _); cbn [negb]; [|split; [done|by intros [? _]]].
  set (check := if block_private_networks e then _ else _).
  assert (check.2 = Ok tt ↔ (block_private_networks e = true → preflight_passes w e url)) as Hcheck.
  { unfold check. destruct (block_private_networks e); [|done]. rewrite reject_private_dns_ok. tauto. }
  rewrite <- Hcheck. clearbody check. clear Hcheck. destruct check as [io [[]|err]]; cbn [snd]; [|split; [done|by intros (_ & ? & _)]].
  setoid_rewrite <- Hhs. clear Hhs. destruct (collect _ _) as [hs|err]; cbn [snd]; [|split; [done|by intros (_ & _ & ? & ? & ? & ? & _)]].
  split.
  - intros Hres. split_and!; [done|done|]. destruct (send w _) as [[resp|]|] eqn:Hsend; [|done..]. unfold finish in Hres.
    destruct (read_bounded resp _) as [b|] eqn:Hb; [|done]. apply read_bounded_ok in Hb as (raw & Hw & Hl & ->); [|done].
    destruct ((200 <=? resp_status resp) && _)%Z eqn:Hst; [|done]. injection Hres as <-. bool_prop.
    exists hs, resp, raw. cbn [body]. pose proof (from_utf8_lossy_length raw). split_and!; try done; lia.
  - intros (_ & _ & hs' & resp & raw & [= <-] & -> & Hst & Hw & Hl & -> & _). unfold finish.
    assert (read_bounded resp (max_response_bytes e) = Ok (from_utf8_lossy raw)) as ->
      by (apply read_bounded_ok; [done|by exists raw]).
    destruct ((200 <=? resp_status resp) && _)%Z eqn:Hb; [done|]. lia.
Qed.

Lemma execute_success_iff_witness :
  (execute ∅ sample_world sample_executor "get" "https://example.org/ping" []).2 = Ok (mkHttpAttempt 204 "ok") ∧
  preflight_passes sample_world sample_executor "https://example.org/ping".
Proof.
  assert ((execute ∅ sample_world sample_executor "get" "https://example.org/ping" []).2 =
    Ok (mkHttpAttempt 204 "ok")) as Hok by (vm_compute; reflexivity).
  split; [exact Hok|].
  exact (proj1 (proj2 (proj1 (execute_success_iff ∅ sample_world sample_executor _ _ _ _ ltac:(done)) Hok)) eq_refl).
Defined.

(** An upstream error carries a status outside 2xx and a text of at most 1024 bytes
    before its truncation mark, without control characters; the environment's secrets
    play no part in it: it is a function of the response alone. *)
Theorem upstream_error_is_clean `{Libs} env w e method url headers status text :
  (execute env w e method url headers).2 = Err (UpstreamHttpError status text) →
  ¬ (200 ≤ status < 300)%Z ∧ str_all clean_byte text = true ∧
  slen text ≤ 1024 + slen "… (truncated)" ∧
  ∃ r resp, send w r = Sent (Ok resp) ∧ finish e resp = Err (UpstreamHttpError status text).
Proof.
  unfold execute. destruct (method_from_bytes _); cbn [negb]; [|done].
  destruct (if block_private_networks e then _ else _) as [io checked] eqn:Hio.
  destruct checked as [[]|err]; cbn beta iota zeta.
  2: { intros [= ->]. destruct (block_private_networks e); [|done]. by apply reject_private_dns_err in Hio. }
  destruct (collect _ _) as [hs|err] eqn:Hhs.
  2: { intros [= ->]. by apply collect_header_err in Hhs. }
  cbn [snd]. destruct (send w _) as [[resp|[]]|] eqn:Hsend; [|done..]. intros Hf.
  pose proof Hf as Hf'. unfold finish in Hf'. destruct (read_bounded _ _) as [b|err] eqn:Hb.
  - destruct ((200 <=? resp_status resp) && _)%Z eqn:Hst; [done|]. injection Hf' as <- <-.
    split_and!; [lia|apply truncate_clean, sanitize_for_log_clean|apply truncate_length|eauto].
  - injection Hf' as ->. by apply read_bounded_err in Hb.
Qed.

Lemma upstream_error_is_clean_witness :
  let w := mkHttpWorld (λ _, Ok []) (λ _, Sent (Ok (mkResponse 503 [Chunk (String "027" "[31m")]))) in
  let text := "\u001b[31m" in
  (execute ∅ w (mkHttpExecutor 64 30 true []) "get" "https://example.org/ping" []).2 =
    Err (UpstreamHttpError 503 text) ∧
  str_all clean_byte text = true.
Proof.
  cbv zeta. split; [vm_compute; reflexivity|].
  refine (proj1 (proj2 (upstream_error_is_clean ∅
    (mkHttpWorld (λ _, Ok []) (λ _, Sent (Ok (mkResponse 503 [Chunk (String "027" "[31m")]))))
    (mkHttpExecutor 64 30 true []) "get" "https://example.org/ping" [] 503 _ _))).
  vm_compute. reflexivity.
Defined.

(** ** Secrets *)

(** Two environments that agree on which header variables hold a valid value. *)
Definition same_validity `{Libs} (env1 env2 : Env) (headers : list HttpHeader) : Prop :=
  ∀ h var, h ∈ headers → source h = EnvVar var →
    match env1 !! var, env2 !! var with
    | Some a, Some b => header_value_from_str a = header_value_from_str b
    | None, None => True
    | _, _ => False
    end.
(** Requests that differ at most in the values of their headers. *)
Definition same_shape (r1 r2 : Request) : Prop :=
  req_method r1 = req_method r2 ∧ req_url r1 = req_url r2 ∧ (req_headers r1).*1 = (req_headers r2).*1.

Lemma collect_same_validity `{Libs} env1 env2 headers :
  same_validity env1 env2 headers →
  match collect (header_value env1) headers, collect (header_value env2) headers with
  | Ok hs1, Ok hs2 => hs1.*1 = hs2.*1
  | Err e1, Err e2 => e1 = e2
  | _, _ => False
  end.
Proof.
  induction headers as [|h headers IH]; intros Hv; [done|]. cbn [collect].
  assert (same_validity env1 env2 headers) as Hv' by (intros ? ? ?; apply Hv; by right). specialize (IH Hv').
  assert (match header_value env1 h, header_value env2 h with
          | Ok a, Ok b => a.1 = b.1 | Err e1, Err e2 => e1 = e2 | _, _ => False end) as Hh.
  { unfold header_value. specialize (Hv h). destruct (source h) as [v|var]; cbn.
    - by destruct (header_value_from_str v).
    - specialize (Hv var (ltac:(by left)) eq_refl). unfold env_var.
      destruct (env1 !! var) as [a|], (env2 !! var) as [b|]; cbn; try done. rewrite Hv.
      by destruct (header_value_from_str b). }
  destruct (header_value env1 h), (header_value env2 h); try done.
  destruct (collect (header_value env1) headers), (collect (header_value env2) headers); try done.
  cbn. by f_equal.
Qed.

(** Effects that differ at most in header values. *)
Definition same_io (a b : HttpIo) : Prop :=
  match a, b with
  | Lookup t1, Lookup t2 => t1 = t2
  | Send r1, Send r2 => same_shape r1 r2
  | _, _ => False
  end.

Lemma execute_alike `{Libs} env1 env2 w1 w2 e method url headers :
  same_validity env1 env2 headers →
  (∀ target, lookup_host w1 target = lookup_host w2 target) →
  (∀ r1 r2, same_shape r1 r2 → send w1 r1 = send w2 r2) →
  (execute env1 w1 e method url headers).2 = (execute env2 w2 e method url headers).2 ∧
  Forall2 same_io (execute env1 w1 e method url headers).1 (execute env2 w2 e method url headers).1.
Proof.
  intros Hv Hdns Hsend. pose proof (collect_same_validity _ _ _ Hv) as Hh. unfold execute.
  destruct (method_from_bytes _); cbn [negb]; [|done].
  assert (reject_private_dns w1 e url = reject_private_dns w2 e url) as ->.
  { unfold reject_private_dns. destruct (url_parse url) as [u|]; [|done]. destruct (host_str u); [|done].
    by rewrite Hdns. }
  destruct (if block_private_networks e then _ else _) as [io checked] eqn:Hio.
  assert (Forall2 same_io io io) as Hrefl by (apply Forall_Forall2_diag, Forall_true; by intros [|]).
  destruct checked as [[]|err]; cbn beta iota; [|done].
  destruct (collect (header_value env1) headers) as [hs1|], (collect (header_value env2) headers) as [hs2|];
    try done; [|by subst]. cbn [fst snd].
  split; [by rewrite (Hsend _ (mkRequest (str_to_uppercase method) url hs2))|]. apply Forall2_app; [done|]. by constructor.
Qed.

(** The secret values that [headerEnvs] names reach the wire and nothing else: if the
    environments differ only in those values, and the network answers requests that
    differ only in header values alike, then the result of the attempt, and so its
    error text and its history row, is the same. *)
Theorem header_values_do_not_leak `{Libs} env1 env2 w1 w2 e method url headers :
  same_validity env1 env2 headers →
  (∀ target, lookup_host w1 target = lookup_host w2 target) →
  (∀ r1 r2, same_shape r1 r2 → send w1 r1 = send w2 r2) →
  (execute env1 w1 e method url headers).2 = (execute env2 w2 e method url headers).2.
Proof. intros Hv Hdns Hsend. exact (proj1 (execute_alike _ _ _ _ _ _ _ _ Hv Hdns Hsend)). Qed.

Lemma header_values_do_not_leak_witness :
  let headers := [mkHttpHeader "x-token" (EnvVar "TOKEN")] in
  (execute {["TOKEN" := "alpha"]} sample_world sample_executor "get" "https://example.org/ping" headers).2 =
  (execute {["TOKEN" := "beta"]} sample_world sample_executor "get" "https://example.org/ping" headers).2.
Proof.
  cbv zeta. refine (header_values_do_not_leak {["TOKEN" := "alpha"]} {["TOKEN" := "beta"]}
    sample_world sample_world _ _ _ _ _ _ _); [|done|done].
  intros h var Hin Hsrc. apply list_elem_of_singleton in Hin as ->. injection Hsrc as <-. vm_compute. reflexivity.
Defined.
