(* ===== verification/ShellExec.v ===== *)
(** * Shell executor (src/executor/shell.rs)

    One run of a child process: its environment, the spawn with its retries on a busy
    executable, the race of exit, wall clock and [/stop], and the two bounded pipe
    readers. What the system answers in one attempt is a [ShellWorld]; [execute] returns
    the spawns and the kill it performed next to its result. A pipe may stay open for ever;
    the run that reads it then has no end and no result. *)
From S2P Require Import Prelude RStr Errors Security Dsl Config.

Record ShellExecutor := mkShellExecutor
  { baseline_env : gmap string string; app_root : string; timeout : Z; max_output_bytes : Z }.
Record ShellAttempt := mkShellAttempt { exit_code : Z; stdout : string }.

(** [ShellExecutor::new]. *)
Definition new (cfg : AppConfig) : ShellExecutor :=
  mkShellExecutor (shell_environment cfg) (app_root_path cfg)
    (shell_timeout_secs (limits cfg)) (max_response_bytes (limits cfg)).

(** ** The system *)
Inductive SpawnErr := Busy | SpawnFailed (e : string).
(** What [read] returns on a pipe, call by call; the end of the list is end of file. *)
Inductive ReadEvent := ReadBytes (bytes : string) | ReadErr (e : string).
(** A pipe: its reads, and when the last of them returns, if it ever does. A process that
    inherited the pipe from the child keeps it open after the child is gone, for ever if
    that process lives on. *)
Record Pipe := mkPipe { reads : list ReadEvent; eof_after : option Z }.
(** A child: when it exits by itself if it does, with which code ([None] is a signal) or error of
    [wait], and its pipes. Times are milliseconds from the spawn. *)
Record Child := mkChild
  { exit_after : option Z; wait_result : result (option Z) string; stdout_pipe : Pipe; stderr_pipe : Pipe }.
(** The outcome of each spawn; when a [/stop] reaches the wait, if one does; and the random
    choice of [select!] among the branches that are ready at the same time. *)
Record ShellWorld := mkShellWorld
  { spawn : nat → result Child SpawnErr; stop_after : option Z; pick : nat }.

Record Spawn := mkSpawn { program : string; args : list string; cwd : string; child_env : gmap string string }.
Inductive ShellIo := DoSpawn (s : Spawn) | DoKill.
#[export] Instance Spawn_eq_dec : EqDecision Spawn.
Proof. solve_decision. Defined.
#[export] Instance ShellIo_eq_dec : EqDecision ShellIo.
Proof. solve_decision. Defined.

(** ** The environment of the child *)
Definition baseline_step (e : ShellExecutor) (m : gmap string string) (name : string) : gmap string string :=
  match baseline_env e !! name with Some v => <[name := v]> m | None => m end.
Definition override_step (allowed_envs : list string) (m : gmap string string) (kv : string * string) : gmap string string :=
  if existsb (λ a, String.eqb a kv.1) allowed_envs then <[kv.1 := kv.2]> m else m.
Definition build_env (e : ShellExecutor) (allowed_envs : list string) (overrides : list (string * string)) :
    gmap string string :=
  foldl (override_step allowed_envs) (foldl (baseline_step e) ∅ allowed_envs) overrides.

(** ** Pipes *)
Definition output_truncated : string := "..." +:+ single lf +:+ "[output truncated]" +:+ single lf.

(** Once the cap is crossed the rest of the pipe is drained and dropped. A read returns at
    most 4096 bytes. *)
Fixpoint read_pipe (buf : string) (limit : Z) (reads : list ReadEvent) : result string CronManagerError :=
  match reads with
  | [] | ReadBytes "" :: _ => Ok buf
  | ReadErr e :: _ => Err (Internal ("reading child pipe: " +:+ e))
  | ReadBytes c :: rest =>
      if (limit <? zlen buf + zlen c)%Z then
        let room := Z.to_nat (sat_sub limit (zlen buf)) in
        Ok (buf +:+ stake room c +:+ output_truncated)
      else read_pipe (buf +:+ c) limit rest
  end.
Definition read_bounded (limit : Z) (reads : list ReadEvent) : result string CronManagerError :=
  read_pipe "" limit reads.

Definition truncate (s : string) (max : nat) : string :=
  if slen s <=? max then s else stake (floor_loop s (max `min` slen s)) s +:+ "…".

(** ** Spawning *)

(** The loop [for attempt in 0..5], from attempt [i] with [left] iterations to go: the
    spawns made, and the child, an error, or [None] when the loop ends without either. *)
Fixpoint spawn_loop (w : ShellWorld) (s : Spawn) (left i : nat) :
    list ShellIo * option (result Child CronManagerError) :=
  match left with
  | 0 => ([], None)
  | S left' =>
      match spawn w i with
      | Ok c => ([DoSpawn s], Some (Ok c))
      | Err Busy =>
          if i <? 4 then
            let (io, r) := spawn_loop w s left' (S i) in (DoSpawn s :: io, r)
          else ([DoSpawn s], Some (Err (Io "Text file busy (os error 26)")))
      | Err (SpawnFailed e) => ([DoSpawn s], Some (Err (Io e)))
      end
  end.

Definition spawn_child (w : ShellWorld) (s : Spawn) : list ShellIo * result Child CronManagerError :=
  let (io, r) := spawn_loop w s 5 0 in
  (io, default (Err (Io "shell: spawn retried 5× on ETXTBSY and still failed")) r).

(** ** Waiting *)
Inductive WaitOutcome := Exited (r : result (option Z) string) | WallClock | Stopped.

(** The branches of the [select!], each with the time it becomes ready. *)
Definition branches (w : ShellWorld) (timeout_secs : Z) (c : Child) : list (Z * WaitOutcome) :=
  match exit_after c with Some t => [(t, Exited (wait_result c))] | None => [] end ++
  [(timeout_secs * 1000, WallClock)]%Z ++
  match stop_after w with Some t => [(t, Stopped)] | None => [] end.
Definition earliest (l : list (Z * WaitOutcome)) : list (Z * WaitOutcome) :=
  List.filter (λ b, forallb (λ b', (b.1 <=? b'.1)%Z) l) l.
Definition race (w : ShellWorld) (timeout_secs : Z) (c : Child) : Z * WaitOutcome :=
  let ready := earliest (branches w timeout_secs c) in
  default (0%Z, WallClock) (ready !! (pick w mod length ready)).

(** What remains after the child exited: both pipes are read to their end, with neither
    the clock nor [/stop] in play. The first component is when it is done; [None] is a
    wait that nothing ends. *)
Definition finish (e : ShellExecutor) (c : Child) (exited_at : Z) (code : option Z) :
    option (Z * result ShellAttempt CronManagerError) :=
  t ← eof_after (stdout_pipe c);
  let after_out := Z.max exited_at t in
  match read_bounded (max_output_bytes e) (reads (stdout_pipe c)) with
  | Err err => Some (after_out, Err err)
  | Ok out =>
      t ← eof_after (stderr_pipe c);
      let after_err := Z.max after_out t in
      Some (after_err,
        match read_bounded (max_output_bytes e) (reads (stderr_pipe c)) with
        | Err err => Err err
        | Ok err =>
            if bool_decide (code = Some 0%Z) then Ok (mkShellAttempt (default 0%Z code) (from_utf8_lossy out))
            else Err (ShellFailed ("exit " +:+ pretty (default (-1)%Z code) +:+ ": " +:+
                        truncate (sanitize_for_log (from_utf8_lossy err)) 512))
        end)
  end.

(** What a run did, and, if it ended, when that was (from the spawn) and its result. *)
Record Run := mkRun { io : list ShellIo; ended : option (Z * result ShellAttempt CronManagerError) }.
Definition ended_at (r : Run) : option Z := fst <$> ended r.
Definition outcome (r : Run) : option (result ShellAttempt CronManagerError) := snd <$> ended r.

(** [ShellExecutor::execute]. *)
Definition execute (w : ShellWorld) (e : ShellExecutor) (argv allowed_envs : list string)
    (overrides : list (string * string)) : Run :=
  match argv with
  | [] => mkRun [] (Some (0, Err (BadRequest "shell job argv is empty")))%Z
  | prog :: rest =>
      let s := mkSpawn prog rest (app_root e) (build_env e allowed_envs overrides) in
      let (io, spawned) := spawn_child w s in
      match spawned with
      | Err err => mkRun io (Some (0, Err err))%Z
      | Ok c =>
          let (t, waited) := race w (timeout e) c in
          match waited with
          | Exited (Err err) => mkRun io (Some (t, Err (Io err)))
          | Exited (Ok code) => mkRun io (finish e c t code)
          | WallClock => mkRun (io ++ [DoKill]) (Some (t, Err (ShellTimeout (timeout e))))
          | Stopped => mkRun (io ++ [DoKill]) (Some (t, Err (ShellFailed "aborted by /stop")))
          end
      end
  end.

(** Whether the run got as far as the [select!], with a child to wait for. *)
Definition reaches_wait (w : ShellWorld) (e : ShellExecutor) (argv allowed_envs : list string)
    (overrides : list (string * string)) : bool :=
  match argv with
  | [] => false
  | prog :: rest => is_ok (spawn_child w (mkSpawn prog rest (app_root e) (build_env e allowed_envs overrides))).2
  end.
(** Whether the run ended by the branch of [/stop]. *)
Definition was_stopped (w : ShellWorld) (e : ShellExecutor) (argv allowed_envs : list string)
    (overrides : list (string * string)) : bool :=
  match argv with
  | [] => false
  | prog :: rest =>
      match (spawn_child w (mkSpawn prog rest (app_root e) (build_env e allowed_envs overrides))).2 with
      | Ok c => match (race w (timeout e) c).2 with Stopped => true | _ => false end
      | Err _ => false
      end
  end.

(** ** Reference definitions *)

(** The value the last override gives a name. *)
Definition last_override (k : string) (overrides : list (string * string)) : option string :=
  foldl (λ acc kv, if String.eqb kv.1 k then Some kv.2 else acc) None overrides.
Definition read_bytes (r : ReadEvent) : option string :=
  match r with ReadBytes "" | ReadErr _ => None | ReadBytes b => Some b end.
(** What a pipe delivers when no read fails. *)
Definition pipe_bytes (reads : list ReadEvent) : option string := concat_str <$> mapM read_bytes reads.

(** ** The environment *)
Lemma decide_elem_cons {A} (k a : string) l (x y : A) :
  (if decide (k ∈ a :: l) then x else y) = if decide (k = a) then x else if decide (k ∈ l) then x else y.
Proof.
  pose proof (elem_of_cons l k a). destruct (decide (k ∈ a :: l)), (decide (k = a)), (decide (k ∈ l)); tauto.
Qed.

Lemma baseline_lookup e allowed m k :
  foldl (baseline_step e) m allowed !! k =
    if decide (k ∈ allowed) then match baseline_env e !! k with Some v => Some v | None => m !! k end
    else m !! k.
Proof.
  revert m. induction allowed as [|a allowed IH]; intros m; [done|]. cbn [foldl].
  rewrite IH, decide_elem_cons. unfold baseline_step.
  destruct (decide (k = a)) as [<-|Hne].
  - destruct (baseline_env e !! k); rewrite ?lookup_insert_eq; by destruct (decide (k ∈ allowed)).
  - by destruct (baseline_env e !! a); rewrite ?lookup_insert_ne by done.
Qed.

Lemma foldl_some k (l : list (string * string)) v :
  foldl (λ acc kv, if String.eqb kv.1 k then Some kv.2 else acc) (Some v) l ≠ None.
Proof. revert v. induction l as [|kv l IH]; intros v; [done|]. cbn. by destruct (String.eqb _ _). Qed.

Lemma override_lookup allowed overrides m k :
  foldl (override_step allowed) m overrides !! k =
    if decide (k ∈ allowed) then
      match last_override k overrides with Some v => Some v | None => m !! k end
    else m !! k.
Proof.
  unfold last_override. assert (∀ acc m,
    (acc = None ∨ (k ∈ allowed ∧ acc = m !! k ∧ is_Some acc)) →
    foldl (override_step allowed) m overrides !! k =
      if decide (k ∈ allowed) then
        match foldl (λ acc kv, if String.eqb kv.1 k then Some kv.2 else acc) acc overrides with
        | Some v => Some v | None => m !! k end
      else m !! k) as Hgen; [|apply Hgen; by left].
  clear m. induction overrides as [|[a v] l IH]; intros acc m Hacc; cbn [foldl].
  - destruct Hacc as [->|(Hin & Hl & [x Hx])]; [by destruct (decide _)|].
    rewrite decide_True, Hx by done. by rewrite <- Hl.
  - unfold override_step at 2. cbn [fst snd].
    destruct (existsb _ allowed) eqn:Hin.
    + apply existsb_exists in Hin as (a' & Hin & ->%String.eqb_eq). apply list_elem_of_In in Hin.
      destruct (String.eqb_spec a k) as [->|Hne].
      * rewrite (IH (Some v)) by (right; rewrite lookup_insert_eq; done). rewrite !decide_True by done.
        destruct (foldl _ (Some v) l) eqn:Hf; [done|]. by apply foldl_some in Hf.
      * rewrite (IH acc), lookup_insert_ne by (rewrite ?lookup_insert_ne; done). done.
    + destruct (String.eqb_spec a k) as [->|Hne]; [|by apply IH].
      assert (k ∉ allowed) as Hk.
      { intros Hk. apply list_elem_of_In in Hk.
        assert (existsb (λ a, String.eqb a k) allowed = true) as Ht; [|congruence].
        apply existsb_exists. exists k. by rewrite String.eqb_refl. }
      rewrite (IH None) by by left. by rewrite !decide_False.
Qed.

(** The environment of the child has exactly the names of [allowedEnvs]: for each the
    last override wins, else the configured baseline; nothing else is inherited. *)
Theorem child_environment_spec e allowed overrides k :
  build_env e allowed overrides !! k =
    if decide (k ∈ allowed) then
      match last_override k overrides with Some v => Some v | None => baseline_env e !! k end
    else None.
Proof.
  unfold build_env. rewrite override_lookup, baseline_lookup, lookup_empty.
  destruct (decide (k ∈ allowed)); [|done]. by destruct (baseline_env e !! k).
Qed.

(** ** Pipes *)
Lemma read_bytes_some r b : read_bytes r = Some b → r = ReadBytes b ∧ b ≠ "".
Proof. destruct r as [[|c s]|]; [done| |done]. by intros [= <-]. Qed.

Lemma stake_app_ge n a b : slen a ≤ n → stake n (a +:+ b) = a +:+ stake (n - slen a) b.
Proof.
  revert n. induction a as [|c a IH]; intros n Hn.
  - rewrite !sapp_nil_l. change (slen "") with 0. by rewrite Nat.sub_0_r.
  - destruct n as [|n]; rewrite slen_cons in *; [lia|]. rewrite !sapp_cons. cbn [stake]. by rewrite IH by lia.
Qed.

Lemma stake_app_le n a b : n ≤ slen a → stake n (a +:+ b) = stake n a.
Proof.
  revert n. induction a as [|c a IH]; intros [|n] Hn; rewrite ?sapp_cons; cbn [stake].
  - by destruct b.
  - unfold slen in Hn; simpl in Hn; lia.
  - done.
  - rewrite slen_cons in Hn. by rewrite IH by lia.
Qed.

Lemma read_pipe_spec buf limit reads raw :
  (zlen buf ≤ limit)%Z → pipe_bytes reads = Some raw →
  read_pipe buf limit reads =
    Ok (if (zlen (buf +:+ raw) <=? limit)%Z then buf +:+ raw
        else stake (Z.to_nat limit) (buf +:+ raw) +:+ output_truncated).
Proof.
  unfold pipe_bytes. revert buf raw. induction reads as [|r reads IH]; intros buf raw Hbuf; cbn [mapM].
  { intros [= <-]. cbn [read_pipe concat_str]. rewrite sapp_nil_r.
    destruct (Z.leb_spec (zlen buf) limit); [done|lia]. }
  destruct (read_bytes r) as [c|] eqn:Hr; cbn [mbind option_bind]; [|done].
  apply read_bytes_some in Hr as [-> Hne].
  destruct (mapM read_bytes reads) as [l|] eqn:Hl; cbn; [|done]. intros [= <-].
  destruct c as [|x c]; [done|]. set (cs := String x c) in *. cbn [concat_str].
  rewrite <- zlen_app, <- !sapp_assoc.
  destruct (Z.ltb_spec limit (zlen (buf +:+ cs))) as [Hgt|Hle].
  - destruct (Z.leb_spec (zlen ((buf +:+ cs) +:+ concat_str l)) limit) as [H|_].
    { rewrite zlen_app in H. pose proof (zlen_nonneg (concat_str l)). lia. }
    do 2 f_equal. rewrite sapp_assoc, (stake_app_ge _ buf) by (unfold zlen in *; lia). f_equal.
    unfold sat_sub, zlen in *. rewrite slen_app in Hgt. rewrite stake_app_le by lia. f_equal. lia.
  - apply IH; [done|]. done.
Qed.

Lemma read_pipe_err buf limit reads err :
  read_pipe buf limit reads = Err err → ∃ m, err = Internal m.
Proof.
  revert buf. induction reads as [|[[|c s]|m] reads IH]; intros buf; cbn [read_pipe]; try done.
  - destruct (_ <? _)%Z; [done|apply IH].
  - intros [= <-]. eauto.
Qed.

(** C30: a pipe whose reads succeed is captured up to the cap: its bytes when they fit, else
    exactly the first [limit] of them and the truncation marker, however the reads cut
    the stream. *)
Theorem read_bounded_spec limit reads raw :
  (0 ≤ limit)%Z → pipe_bytes reads = Some raw →
  read_bounded limit reads =
    Ok (if (zlen raw <=? limit)%Z then raw else stake (Z.to_nat limit) raw +:+ output_truncated).
Proof. intros Hl Hr. unfold read_bounded. by rewrite (read_pipe_spec "" limit reads raw). Qed.

Lemma read_bounded_spec_witness :
  read_bounded 5 [ReadBytes "abc"; ReadBytes "def"; ReadBytes "g"] = Ok ("abcde" +:+ output_truncated).
Proof. exact (read_bounded_spec 5 [ReadBytes "abc"; ReadBytes "def"; ReadBytes "g"] "abcdefg" ltac:(done) eq_refl). Defined.

(** ** Spawning *)
Lemma spawn_loop_spec w s left i :
  left = 5 - i → i < 5 →
  ∃ n, i ≤ n < 5 ∧ (∀ j, i ≤ j < n → spawn w j = Err Busy) ∧
    (spawn_loop w s left i).1 = replicate (S (n - i)) (DoSpawn s) ∧
    match spawn w n with
    | Ok c => (spawn_loop w s left i).2 = Some (Ok c)
    | Err (SpawnFailed e) => (spawn_loop w s left i).2 = Some (Err (Io e))
    | Err Busy => n = 4 ∧ (spawn_loop w s left i).2 = Some (Err (Io "Text file busy (os error 26)"))
    end.
Proof.
  revert i. induction left as [|left IH]; intros i Hleft Hi; [lia|]. cbn [spawn_loop].
  destruct (spawn w i) as [c|[|err]] eqn:Hs.
  1, 3: exists i; rewrite Hs, Nat.sub_diag; split_and!; [lia|lia|intros; lia|done|done].
  destruct (Nat.ltb_spec i 4) as [Hlt|Hge].
  - destruct (IH (S i)) as (n & Hn & Hbusy & Hio & Hres); [lia..|].
    exists n. destruct (spawn_loop w s left (S i)) as [io r]. cbn [fst snd] in *. split_and!; [lia|lia| | |done].
    + intros j Hj. destruct (decide (j = i)) as [->|]; [done|]. apply Hbusy. lia.
    + rewrite Hio. replace (n - i) with (S (n - S i)) by lia. done.
  - assert (i = 4) as -> by lia. exists 4. rewrite Hs. split_and!; [lia|lia|intros; lia|done|done|done].
Qed.

(** A busy executable is spawned again at most four times and the first other outcome
    is the result; after five busy spawns the error is the one of the fifth, so the
    message the source prepares for that case is never used. *)
Theorem spawn_child_spec w s :
  ∃ n, n < 5 ∧ (∀ i, i < n → spawn w i = Err Busy) ∧
    (spawn_child w s).1 = replicate (S n) (DoSpawn s) ∧
    match spawn w n with
    | Ok c => (spawn_child w s).2 = Ok c
    | Err (SpawnFailed e) => (spawn_child w s).2 = Err (Io e)
    | Err Busy => n = 4 ∧ (spawn_child w s).2 = Err (Io "Text file busy (os error 26)")
    end.
Proof.
  destruct (spawn_loop_spec w s 5 0) as (n & Hn & Hbusy & Hio & Hres); [lia..|]. exists n.
  unfold spawn_child. destruct (spawn_loop w s 5 0) as [io r]. cbn [fst snd] in *.
  rewrite Nat.sub_0_r in Hio. split_and!; [lia| |done|].
  - intros i Hi. apply Hbusy. lia.
  - destruct (spawn w n) as [c|[|err]]; [by rewrite Hres| |by rewrite Hres].
    destruct Hres as [-> ->]. done.
Qed.

(** ** Waiting *)
Lemma race_spec w timeout_secs c :
  race w timeout_secs c ∈ branches w timeout_secs c ∧
  ∀ b, b ∈ branches w timeout_secs c → ((race w timeout_secs c).1 ≤ b.1)%Z.
Proof.
  set (l := branches w timeout_secs c).
  assert (race w timeout_secs c ∈ earliest l) as Hin.
  { unfold race. fold l. assert (earliest l ≠ []) as Hne.
    { unfold l, branches. destruct (exit_after c) as [t1|], (stop_after w) as [t2|]; unfold earliest; cbn;
        repeat case_match; try done; lia. }
    destruct (earliest l !! (pick w mod length (earliest l))) as [b|] eqn:Hb.
    - by eapply list_elem_of_lookup_2.
    - apply lookup_ge_None in Hb. destruct (earliest l) as [|b k]; [done|].
      pose proof (Nat.mod_upper_bound (pick w) (length (b :: k))). cbn [length] in *. lia. }
  unfold earliest in Hin. apply list_elem_of_In, filter_In in Hin as [Hl Hmin].
  split; [by apply list_elem_of_In|]. intros b Hb. rewrite forallb_forall in Hmin.
  apply list_elem_of_In, Hmin in Hb. lia.
Qed.

Lemma spawn_child_err w s err : (spawn_child w s).2 = Err err → ∃ m, err = Io m.
Proof.
  destruct (spawn_loop_spec w s 5 0) as (n & _ & _ & _ & Hres); [lia..|].
  unfold spawn_child. destruct (spawn_loop w s 5 0) as [io r]. cbn [fst snd] in *.
  destruct (spawn w n) as [c|[|m]]; [rewrite Hres|destruct Hres as [_ ->]|rewrite Hres]; cbn; intros [= <-]; eauto.
Qed.

Lemma spawn_child_io w s : DoKill ∉ (spawn_child w s).1.
Proof.
  destruct (spawn_loop_spec w s 5 0) as (n & _ & _ & Hio & _); [lia..|].
  unfold spawn_child. destruct (spawn_loop w s 5 0) as [io r]. cbn [fst snd] in *. rewrite Hio.
  by intros [? _]%elem_of_replicate.
Qed.

(** The error of a child that exited is neither of the two errors of a kill. *)
Lemma finish_not_killed e c t code :
  snd <$> finish e c t code ≠ Some (Err (ShellTimeout (timeout e))) ∧
  snd <$> finish e c t code ≠ Some (Err (ShellFailed "aborted by /stop")).
Proof.
  unfold finish. destruct (eof_after (stdout_pipe c)) as [t1|]; cbn; [|done].
  destruct (read_bounded _ (reads (stdout_pipe c))) as [out|err] eqn:Ho.
  2: { unfold read_bounded in Ho. apply read_pipe_err in Ho as [m ->]. done. }
  destruct (eof_after (stderr_pipe c)) as [t2|]; cbn; [|done].
  destruct (read_bounded _ (reads (stderr_pipe c))) as [out'|err] eqn:He.
  2: { unfold read_bounded in He. apply read_pipe_err in He as [m ->]. done. }
  by case_bool_decide.
Qed.

Section runs.
Context (w : ShellWorld) (e : ShellExecutor) (prog : string) (rest allowed : list string)
  (overrides : list (string * string)).
Let s := mkSpawn prog rest (app_root e) (build_env e allowed overrides).
Let run := execute w e (prog :: rest) allowed overrides.

Lemma execute_child c :
  (spawn_child w s).2 = Ok c →
  run = match race w (timeout e) c with
        | (t, Exited (Err err)) => mkRun (spawn_child w s).1 (Some (t, Err (Io err)))
        | (t, Exited (Ok code)) => mkRun (spawn_child w s).1 (finish e c t code)
        | (t, WallClock) => mkRun ((spawn_child w s).1 ++ [DoKill]) (Some (t, Err (ShellTimeout (timeout e))))
        | (t, Stopped) => mkRun ((spawn_child w s).1 ++ [DoKill]) (Some (t, Err (ShellFailed "aborted by /stop")))
        end.
Proof.
  intros Hc. unfold run, execute. fold s. destruct (spawn_child w s) as [io spawned].
  cbn [fst snd] in *. subst spawned. by destruct (race w (timeout e) c) as [t [[code|err]| |]].
Qed.

Lemma execute_spawn_err err : (spawn_child w s).2 = Err err → run = mkRun (spawn_child w s).1 (Some (0, Err err))%Z.
Proof.
  intros Hc. unfold run, execute. fold s. destruct (spawn_child w s) as [io spawned].
  cbn [fst snd] in *. by subst spawned.
Qed.
End runs.

(** Every spawn is of the program, in the root of the application, with the environment of [build_env]. *)
Lemma execute_spawns w e argv allowed overrides s :
  DoSpawn s ∈ io (execute w e argv allowed overrides) →
  argv = program s :: args s ∧ cwd s = app_root e ∧ child_env s = build_env e allowed overrides.
Proof.
  destruct argv as [|prog rest]; [by intros ?%not_elem_of_nil|].
  set (s0 := mkSpawn prog rest (app_root e) (build_env e allowed overrides)).
  assert (∀ s, DoSpawn s ∈ (spawn_child w s0).1 → s = s0) as Hs.
  { intros s' Hin. destruct (spawn_loop_spec w s0 5 0) as (n & _ & _ & Hio & _); [lia..|].
    unfold spawn_child in Hin. destruct (spawn_loop w s0 5 0) as [l r]. cbn [fst] in *. rewrite Hio in Hin.
    by apply elem_of_replicate in Hin as [[= ->] _]. }
  assert (∀ s, DoSpawn s ∈ (spawn_child w s0).1 ++ [DoKill] → s = s0) as Hk.
  { intros s' [Hin|Hin%list_elem_of_singleton]%elem_of_app; [by apply Hs|done]. }
  intros Hin. enough (s = s0) as -> by done. destruct (spawn_child w s0).2 as [c|err] eqn:Hc.
  - rewrite (execute_child w e prog rest allowed overrides c Hc) in Hin. fold s0 in Hin.
    destruct (race w (timeout e) c) as [t [[code|err]| |]]; cbn [io] in Hin; auto.
  - rewrite (execute_spawn_err w e prog rest allowed overrides err Hc) in Hin. by apply Hs.
Qed.

Lemma not_stopped w e argv allowed overrides :
  stop_after w = None → was_stopped w e argv allowed overrides = false.
Proof.
  intros Hs. unfold was_stopped. destruct argv as [|prog rest]; [done|].
  destruct (spawn_child _ _).2 as [c|]; [|done]. destruct (race_spec w (timeout e) c) as [Hin _].
  destruct (race w (timeout e) c) as [t []]; [done..|]. unfold branches in Hin. rewrite Hs, app_nil_r in Hin.
  apply elem_of_app in Hin as [Hin|Hin%list_elem_of_singleton]; [|done].
  destruct (exit_after c); [by apply list_elem_of_singleton in Hin|by apply not_elem_of_nil in Hin].
Qed.

(** The child is killed exactly in the runs that report the wall clock or a stop, and
    those end by the wall clock; no exit status or output of a script can produce either
    report. *)
Theorem shell_kill_spec w e prog rest allowed overrides :
  let run := execute w e (prog :: rest) allowed overrides in
  (DoKill ∈ io run ↔ outcome run = Some (Err (ShellTimeout (timeout e))) ∨
                     outcome run = Some (Err (ShellFailed "aborted by /stop"))) ∧
  (DoKill ∈ io run → ∃ t, ended_at run = Some t ∧ t ≤ timeout e * 1000)%Z.
Proof.
  cbv zeta. set (s := mkSpawn prog rest (app_root e) (build_env e allowed overrides)).
  pose proof (spawn_child_io w s) as Hno.
  destruct (spawn_child w s).2 as [c|err] eqn:Hc.
  - rewrite (execute_child w e prog rest allowed overrides c Hc). fold s.
    destruct (race_spec w (timeout e) c) as [Hin Hmin].
    assert ((race w (timeout e) c).1 ≤ timeout e * 1000)%Z as Ht.
    { apply (Hmin (timeout e * 1000, WallClock)%Z). unfold branches. apply elem_of_app. right. by left. }
    destruct (race w (timeout e) c) as [t [[code|err]| |]]; unfold outcome, ended_at; cbn [io ended fst snd fmap option_fmap option_map] in *.
    + destruct (finish_not_killed e c t code). split; [split|]; [done|tauto|done].
    + split; [split|]; [done|by intros [?|?]|done].
    + rewrite elem_of_app, list_elem_of_singleton. split; [split|]; [by left|by right|by exists t].
    + rewrite elem_of_app, list_elem_of_singleton. split; [split|]; [by right|by right|by exists t].
  - rewrite (execute_spawn_err w e prog rest allowed overrides err Hc). fold s. unfold outcome. cbn [io ended snd fmap option_fmap option_map].
    apply spawn_child_err in Hc as [m ->]. split; [split|]; [done|by intros [?|?]|done].
Qed.

Lemma finish_none e c t code :
  finish e c t code = None ↔
    eof_after (stdout_pipe c) = None ∨
    (is_ok (read_bounded (max_output_bytes e) (reads (stdout_pipe c))) = true ∧ eof_after (stderr_pipe c) = None).
Proof.
  unfold finish. destruct (eof_after (stdout_pipe c)) as [t1|]; cbn; [|tauto].
  destruct (read_bounded _ (reads (stdout_pipe c))) as [out|err]; cbn; [|by split; [|intros [|[]]]].
  destruct (eof_after (stderr_pipe c)) as [t2|]; cbn; [by split; [|intros [|[]]]|tauto].
Qed.

(** A run never ends exactly when its child exited before the wall clock and any stop, and
    a pipe that is still to be read never reaches its end. *)
Theorem run_never_ends w e prog rest allowed overrides :
  ended (execute w e (prog :: rest) allowed overrides) = None ↔
  ∃ c t code, (spawn_child w (mkSpawn prog rest (app_root e) (build_env e allowed overrides))).2 = Ok c ∧
    race w (timeout e) c = (t, Exited (Ok code)) ∧
    (eof_after (stdout_pipe c) = None ∨
     (is_ok (read_bounded (max_output_bytes e) (reads (stdout_pipe c))) = true ∧ eof_after (stderr_pipe c) = None)).
Proof.
  destruct (spawn_child w _).2 as [c|err] eqn:Hc.
  - rewrite (execute_child w e prog rest allowed overrides c Hc).
    destruct (race w (timeout e) c) as [t [[code|err]| |]] eqn:Hr; cbn [ended].
    + rewrite (finish_none e c t code). split; [intros ?; by exists c, t, code|]. by intros (? & ? & ? & [= <-] & Hr' & ?); rewrite Hr in Hr'.
    + split; [done|]. by intros (? & ? & ? & [= <-] & Hr' & _); rewrite Hr in Hr'.
    + split; [done|]. by intros (? & ? & ? & [= <-] & Hr' & _); rewrite Hr in Hr'.
    + split; [done|]. by intros (? & ? & ? & [= <-] & Hr' & _); rewrite Hr in Hr'.
  - rewrite (execute_spawn_err w e prog rest allowed overrides err Hc). split; [done|]. by intros (? & ? & ? & ? & _).
Qed.

(** The pipes of every child reach their end. *)
Definition pipes_close (w : ShellWorld) : Prop :=
  ∀ n c, spawn w n = Ok c → is_Some (eof_after (stdout_pipe c)) ∧ is_Some (eof_after (stderr_pipe c)).

Lemma execute_ends w e argv allowed overrides :
  pipes_close w → is_Some (ended (execute w e argv allowed overrides)).
Proof.
  intros Hw. destruct argv as [|prog rest]; [by eexists|]. apply not_eq_None_Some.
  rewrite run_never_ends. intros (c & t & code & Hc & _ & He).
  destruct (spawn_child_spec w (mkSpawn prog rest (app_root e) (build_env e allowed overrides))) as (n & _ & _ & _ & Hn).
  destruct (spawn w n) as [c'|[|m]] eqn:Hs; [|destruct Hn; congruence|congruence].
  assert (c' = c) as -> by congruence. destruct (Hw n c Hs) as [[t1 H1] [t2 H2]]. rewrite H1, H2 in He. by destruct He as [|[]].
Qed.

(** A configured wall clock of zero does not disable the cap: any child that takes
    time at all is killed at once. *)
Theorem zero_timeout_kills_at_once w e prog rest allowed overrides c :
  timeout e = 0%Z → spawn w 0 = Ok c →
  (∀ t, exit_after c = Some t → 0 < t)%Z → (∀ t, stop_after w = Some t → 0 < t)%Z →
  let run := execute w e (prog :: rest) allowed overrides in
  ended run = Some (0%Z, Err (ShellTimeout 0)) ∧ DoKill ∈ io run.
Proof.
  intros Ht Hs Hexit Hstop. cbv zeta.
  set (s := mkSpawn prog rest (app_root e) (build_env e allowed overrides)).
  assert ((spawn_child w s).2 = Ok c) as Hc by (unfold spawn_child; cbn; by rewrite Hs).
  rewrite (execute_child w e prog rest allowed overrides c Hc). fold s.
  destruct (race_spec w (timeout e) c) as [Hin Hmin]. rewrite Ht in *.
  specialize (Hmin (0, WallClock)%Z ltac:(unfold branches; apply elem_of_app; right; by left)).
  unfold branches in Hin. apply elem_of_app in Hin as [Hin|[Hin|Hin]%elem_of_cons].
  - destruct (exit_after c) as [t|]; [|by apply not_elem_of_nil in Hin].
    apply list_elem_of_singleton in Hin. rewrite Hin in Hmin. specialize (Hexit t eq_refl). cbn in Hmin. lia.
  - rewrite Hin. cbn. split; [done|]. apply elem_of_app. right. by left.
  - destruct (stop_after w) as [t|]; [|by apply not_elem_of_nil in Hin].
    apply list_elem_of_singleton in Hin. rewrite Hin in Hmin. specialize (Hstop t eq_refl). cbn in Hmin. lia.
Qed.

Definition quiet_pipe (eof : option Z) : Pipe := mkPipe [] eof.
Definition child_of (exits eof : option Z) : Child :=
  mkChild exits (Ok (Some 0%Z)) (quiet_pipe eof) (quiet_pipe eof).
Definition world_of (c : Child) : ShellWorld := mkShellWorld (λ _, Ok c) None 0.
Definition sample_shell (secs : Z) : ShellExecutor := mkShellExecutor ∅ "/" secs 4096.

Lemma zero_timeout_kills_at_once_witness :
  ended (execute (world_of (child_of (Some 5%Z) (Some 5%Z))) (sample_shell 0) ["true"] [] []) = Some (0%Z, Err (ShellTimeout 0)).
Proof.
  refine (proj1 (zero_timeout_kills_at_once (world_of (child_of (Some 5%Z) (Some 5%Z))) (sample_shell 0) "true" [] [] []
    _ eq_refl eq_refl _ _)); cbn; [intros t [= <-]; lia|discriminate].
Defined.

(** The wall clock bounds the wait for the child only. A child that exits in time but
    leaves its output pipe open in a background process keeps the run going for as long
    as that process lives, for ever if it never ends; and nothing is killed. *)
Theorem wall_clock_does_not_bound_run e (eof : option Z) :
  (0 < timeout e)%Z →
  ∃ w, let run := execute w e ["run"] [] [] in
    (DoKill ∉ io run) ∧
    match eof with
    | Some t => ended run = Some (Z.max 1 t, Ok (mkShellAttempt 0 ""))%Z
    | None => ended run = None
    end.
Proof.
  intros Ht. exists (world_of (child_of (Some 1%Z) eof)). cbv zeta.
  assert (race (world_of (child_of (Some 1%Z) eof)) (timeout e) (child_of (Some 1%Z) eof) =
          (1%Z, Exited (Ok (Some 0%Z)))) as Hrace.
  { unfold race, branches, earliest. cbn -[Z.mul Z.leb Nat.modulo].
    destruct (Z.leb_spec 1 (timeout e * 1000)); [|lia].
    destruct (Z.leb_spec (timeout e * 1000) 1); [lia|]. by rewrite !Z.leb_refl. }
  rewrite (execute_child (world_of (child_of (Some 1%Z) eof)) e "run" [] [] [] (child_of (Some 1%Z) eof) eq_refl), Hrace.
  split; [apply spawn_child_io|]. unfold finish. destruct eof as [t|]; cbn; [|done]. do 2 f_equal. lia.
Qed.

Lemma wall_clock_does_not_bound_run_witness :
  ∃ w, ended (execute w (sample_shell 30) ["run"] [] []) = None.
Proof.
  destruct (wall_clock_does_not_bound_run (sample_shell 30) None ltac:(done)) as (w & _ & Hw).
  exists w. exact Hw.
Defined.
