(* ===== verification/Dispatch.v ===== *)
(** * Dispatch (src/executor/mod.rs)

    One fire of a job: the retry loop over the attempts of its executor, a history row per
    attempt, and the outcome the scheduler sees. An attempt that never ends leaves the fire
    without an outcome. What happens around attempt [i] is an
    [AttemptWorld]; the history recorder is any instance of [HistoryRecorder]. The release
    build wraps [u32] arithmetic. Log lines are left out. *)
From S2P Require Import Prelude RStr Errors Dsl History Config Libs.
From S2P Require HttpExec ShellExec.

Record DispatchOutcome := mkOutcome { status : ExecutionStatus; attempts : Z; last_error : option string }.
#[export] Instance DispatchOutcome_eq_dec : EqDecision DispatchOutcome.
Proof. solve_decision. Defined.

Record ExecutorBundle := mkBundle
  { http : HttpExec.HttpExecutor; shell : ShellExec.ShellExecutor; offline_mode : bool }.

(** [ExecutorBundle::offline_from_env] and [ExecutorBundle::new]. *)
Definition offline_from_env (env : Env) : bool :=
  match env_var env "CRONMANAGER_OFFLINE" with
  | Some v => existsb (String.eqb (to_ascii_lowercase (trim v))) ["true"; "1"; "yes"; "on"]
  | None => false
  end.
Definition bundle_new (env : Env) (cfg : AppConfig) : ExecutorBundle :=
  mkBundle
    (HttpExec.with_allowed_private_hosts
      (HttpExec.with_ssrf_policy (limits cfg) (block_private_networks (security cfg)))
      (split_allowed_private_hosts (security cfg)).1)
    (ShellExec.new cfg) (offline_from_env env).

(** What surrounds one attempt: the clock at its start and its duration, the process
    environment, the network and the system, and whether a [/stop] ends the pause after it. *)
Inductive DelayEvent := Slept | StopDuringDelay.
Record AttemptWorld := mkAttempt
  { at_ms : Z; took_ms : Z; attempt_env : Env; net : HttpExec.HttpWorld; sys : ShellExec.ShellWorld;
    pause : DelayEvent }.

(** ** [HttpDispatchResult] *)
Record HttpDispatchResult := mkDispatchResult
  { result_body : option string; result_status : option Z; result_error : option string;
    is_shell_timeout : bool }.
Definition from_ok (res : HttpExec.HttpAttempt) : HttpDispatchResult :=
  mkDispatchResult (Some (HttpExec.body res)) (Some (HttpExec.attempt_status res)) None false.
Definition from_err (err : CronManagerError) : HttpDispatchResult :=
  mkDispatchResult None (match err with UpstreamHttpError st _ => Some st | _ => None end)
    (Some (to_string err)) false.
Definition from_shell_ok (res : ShellExec.ShellAttempt) : HttpDispatchResult :=
  mkDispatchResult (Some (ShellExec.stdout res)) None None false.
Definition from_shell_err (err : CronManagerError) : HttpDispatchResult :=
  mkDispatchResult None None (Some (to_string err)) (match err with ShellTimeout _ => true | _ => false end).

Definition map_result {A B E F} (f : A → B) (g : E → F) (r : result A E) : result B F :=
  match r with Ok x => Ok (f x) | Err e => Err (g e) end.

(** [(Some(method), Some(url))] for HTTP jobs. *)
Definition method_url (k : JobKind) : option string * option string :=
  match k with Http method url _ => (Some method, Some url) | Exec _ _ => (None, None) end.

Section dispatch.
Context `{Libs} {R : Type} `{HistoryRecorder R} (b : ExecutorBundle) (spec : JobSpec)
  (env_overrides : list (string * string)) (world : Z → AttemptWorld).

(** One attempt of the executor the job's kind selects; [None] if it never ends. *)
Definition attempt_result (attempt : Z) : option (result HttpDispatchResult HttpDispatchResult) :=
  let a := world attempt in
  match kind spec with
  | Http method url headers =>
      Some (map_result from_ok from_err (HttpExec.execute (attempt_env a) (net a) (http b) method url headers).2)
  | Exec argv allowed_envs =>
      map_result from_shell_ok from_shell_err <$>
        ShellExec.outcome (ShellExec.execute (sys a) (shell b) argv allowed_envs env_overrides)
  end.

Definition max_attempts : Z := wrap_u32 (count (retry spec) + 1).

(** The row of an attempt. *)
Definition status_for_history (attempt : Z) (r : result HttpDispatchResult HttpDispatchResult) : ExecutionStatus :=
  match r with
  | Ok _ => Success
  | Err e =>
      if is_shell_timeout e then Timeout
      else if (attempt <? max_attempts)%Z then Retrying else Failed
  end.
Definition attempt_row (attempt : Z) (r : result HttpDispatchResult HttpDispatchResult) : HistoryEntry :=
  let a := world attempt in
  let '(method, url) := method_url (kind spec) in
  let '(err, body, code) := match r with
                            | Ok x => (None, result_body x, result_status x)
                            | Err x => (result_error x, None, result_status x)
                            end in
  mkHistoryEntry (at_ms a) (name (key spec)) (group (key spec)) (type_label (kind spec)) (Some (took_ms a))
    (status_for_history attempt r) method url code (as_i32 attempt) (as_i32 max_attempts) body err.

(** How the loop is left: past its last iteration, by a return, or never. *)
Inductive LoopExit := FellThrough (last_error : option string) | Returned (o : DispatchOutcome) | NeverLeft.

(** The iterations [attempt..=max_attempts], [left] of them. *)
Fixpoint attempts_loop (left : nat) (attempt : Z) (last_error : option string) (h : R) : R * LoopExit :=
  match left with
  | 0 => (h, FellThrough last_error)
  | S left' =>
      match attempt_result attempt with
      | None => (h, NeverLeft)
      | Some r =>
          let h := record (attempt_row attempt r) h in
          match r with
          | Ok _ => (h, Returned (mkOutcome Success attempt None))
          | Err e =>
              let last_error := result_error e in
              if is_shell_timeout e then (h, Returned (mkOutcome Timeout attempt last_error))
              else if (attempt <? max_attempts)%Z then
                match pause (world attempt) with
                | Slept => attempts_loop left' (attempt + 1) last_error h
                | StopDuringDelay => (h, Returned (mkOutcome Failed attempt (Some "aborted by /stop")))
                end
              else attempts_loop left' (attempt + 1) last_error h
          end
      end
  end.

(** [ExecutorBundle::offline_stub] at the time [now]. *)
Definition offline_row (now : Z) : HistoryEntry :=
  let '(method, url) := method_url (kind spec) in
  mkHistoryEntry now (name (key spec)) (group (key spec)) (type_label (kind spec)) (Some 0%Z)
    Offline method url None 1 1 None (Some "CRONMANAGER_OFFLINE=true").
Definition offline_stub (now : Z) (h : R) : R * DispatchOutcome :=
  (record (offline_row now) h, mkOutcome Offline 1 None).

(** What follows the loop. *)
Definition after_loop (x : LoopExit) : option DispatchOutcome :=
  match x with
  | FellThrough last_error =>
      let final_status := if ignore_failures (retry spec) then Skipped else Failed in
      Some (mkOutcome final_status max_attempts last_error)
  | Returned outcome => Some outcome
  | NeverLeft => None
  end.

(** [ExecutorBundle::dispatch]: [for attempt in 1..=max_attempts] makes [max_attempts]
    iterations. *)
Definition dispatch (now : Z) (h : R) : R * option DispatchOutcome :=
  if offline_mode b then let (h, outcome) := offline_stub now h in (h, Some outcome)
  else let (h, exit) := attempts_loop (Z.to_nat max_attempts) 1 None h in (h, after_loop exit).
End dispatch.

(** ** Reference definitions *)
Section reference.
Context `{Libs} (b : ExecutorBundle) (spec : JobSpec) (env_overrides : list (string * string))
  (world : Z → AttemptWorld).
Let res := attempt_result b spec env_overrides world.
Let max := max_attempts spec.

(** Attempt [i] is followed by another one. *)
Definition retried (i : Z) : Prop :=
  (i < max)%Z ∧ pause (world i) = Slept ∧ ∃ e, res i = Some (Err e) ∧ is_shell_timeout e = false.

(** The ways a sequence ends at attempt [n], and the outcome reported, if one is. *)
Inductive ends (n : Z) : option DispatchOutcome → Prop :=
  | ends_ok r : res n = Some (Ok r) → ends n (Some (mkOutcome Success n None))
  | ends_timeout e : res n = Some (Err e) → is_shell_timeout e = true →
      ends n (Some (mkOutcome Timeout n (result_error e)))
  | ends_stopped e : res n = Some (Err e) → is_shell_timeout e = false → (n < max)%Z →
      pause (world n) = StopDuringDelay → ends n (Some (mkOutcome Failed n (Some "aborted by /stop")))
  | ends_exhausted e : res n = Some (Err e) → is_shell_timeout e = false → n = max →
      ends n (Some (mkOutcome (if ignore_failures (retry spec) then Skipped else Failed) n (result_error e)))
  | ends_never : res n = None → ends n None.

(** The row of attempt [i], if it ended, and those of the attempts [i..n]. *)
Definition row_at (i : Z) : option HistoryEntry := attempt_row spec world i <$> res i.
Definition rows_from (i n : Z) : list HistoryEntry := omap row_at (seqZ i (n - i + 1)).
(** The rows of the first [n] attempts. *)
Definition rows (n : Z) : list HistoryEntry := rows_from 1 n.
End reference.

(** ** The retry loop *)
Section loop.
Context `{Libs} {R : Type} `{HistoryRecorder R} (b : ExecutorBundle) (spec : JobSpec)
  (env_overrides : list (string * string)) (world : Z → AttemptWorld).
Local Abbreviation res := (attempt_result b spec env_overrides world).
Local Abbreviation loop := (attempts_loop b spec env_overrides world).
Local Abbreviation row_at := (row_at b spec env_overrides world).
Local Abbreviation rows_from := (rows_from b spec env_overrides world).

Lemma rows_from_first i n : (i ≤ n)%Z → rows_from i n = option_list (row_at i) ++ rows_from (i + 1) n.
Proof.
  intros Hn. unfold rows_from. rewrite seqZ_cons by lia.
  replace (Z.pred (n - i + 1)) with (n - (i + 1) + 1)%Z by lia. cbn. by destruct (row_at i).
Qed.
Lemma rows_from_nil i n : (n < i)%Z → rows_from i n = [].
Proof. intros Hn. unfold rows_from. by rewrite seqZ_nil by lia. Qed.
Lemma rows_from_one i : rows_from i i = option_list (row_at i).
Proof. by rewrite rows_from_first, rows_from_nil, app_nil_r by lia. Qed.

(** From attempt [i] the loop makes attempts [i..n], all but the last retried. *)
Lemma attempts_loop_spec left i last_error h :
  (Z.of_nat left = max_attempts spec - i + 1)%Z → (i ≤ max_attempts spec)%Z →
  ∃ n, (i ≤ n ≤ max_attempts spec)%Z ∧
    (∀ j, (i ≤ j < n)%Z → retried b spec env_overrides world j) ∧
    ends b spec env_overrides world n (after_loop spec (loop left i last_error h).2) ∧
    (loop left i last_error h).1 = record_all (rows_from i n) h.
Proof.
  revert i last_error h. induction left as [|left IH]; intros i last_error h Hleft Hi; [lia|].
  assert (∀ o h', ends b spec env_overrides world i o → h' = record_all (option_list (row_at i)) h →
    ∃ n, (i ≤ n ≤ max_attempts spec)%Z ∧ (∀ j, (i ≤ j < n)%Z → retried b spec env_overrides world j) ∧
      ends b spec env_overrides world n o ∧ h' = record_all (rows_from i n) h) as Hlast.
  { intros o h' He ->. exists i. rewrite rows_from_one. split_and!; [lia|lia|intros; lia|done|done]. }
  cbn [attempts_loop]. destruct (res i) as [[r|e]|] eqn:Hr.
  - apply Hlast; [by eapply ends_ok|]. unfold Dispatch.row_at. by rewrite Hr.
  - destruct (is_shell_timeout e) eqn:Ht; [apply Hlast; [by eapply ends_timeout|unfold Dispatch.row_at; by rewrite Hr]|].
    destruct (Z.ltb_spec i (max_attempts spec)) as [Hlt|Hge].
    + destruct (pause (world i)) eqn:Hp; [|apply Hlast; [by eapply ends_stopped|unfold Dispatch.row_at; by rewrite Hr]].
      destruct (IH (i + 1)%Z (result_error e) (record (attempt_row spec world i (Err e)) h)) as (n & Hn & Hret & Hend & Hrows); [lia..|].
      exists n. split_and!; [lia|lia| |done|].
      * intros j Hj. destruct (decide (j = i)) as [->|]; [|apply Hret; lia]. split_and!; [done|done|by exists e].
      * rewrite Hrows, (rows_from_first i) by lia. unfold Dispatch.row_at. by rewrite Hr.
    + assert (i = max_attempts spec) as Him by lia. destruct left; [|lia]. cbn [attempts_loop fst snd after_loop].
      apply Hlast; [|unfold Dispatch.row_at; by rewrite Hr]. rewrite <- Him. by eapply ends_exhausted.
  - apply Hlast; [by eapply ends_never|]. unfold Dispatch.row_at. by rewrite Hr.
Qed.

Lemma attempts_loop_natural left i last_error (h : R) (v : list HistoryEntry) :
  loop left i last_error (record_all v h) =
    let (v', x) := loop left i last_error v in (record_all v' h, x).
Proof.
  revert i last_error v. induction left as [|left IH]; intros i last_error v; [done|]. cbn [attempts_loop].
  destruct (res i) as [r|]; [|done].
  assert (record (attempt_row spec world i r) (record_all v h) = record_all (record (attempt_row spec world i r) v) h) as ->.
  { unfold record at 2, vec_record. by rewrite record_all_app. }
  destruct r as [r|e]; [done|]. destruct (is_shell_timeout e); [done|].
  destruct (i <? max_attempts spec)%Z; [|apply IH]. destruct (pause (world i)); [apply IH|done].
Qed.

Lemma dispatch_run now h :
  offline_mode b = false → (1 ≤ max_attempts spec)%Z →
  ∃ n outcome, (1 ≤ n ≤ max_attempts spec)%Z ∧
    (∀ j, (1 ≤ j < n)%Z → retried b spec env_overrides world j) ∧
    ends b spec env_overrides world n outcome ∧
    dispatch b spec env_overrides world now h =
      (record_all (rows b spec env_overrides world n) h, outcome).
Proof.
  intros Hoff Hmax. unfold dispatch. rewrite Hoff.
  destruct (attempts_loop_spec (Z.to_nat (max_attempts spec)) 1 None h) as (n & Hn & Hret & Hend & Hrows); [lia..|].
  destruct (loop _ _ _ _) as [h' x]. cbn [fst snd] in *. exists n, (after_loop spec x). subst h'. by split_and!; [lia|lia|..].
Qed.
End loop.

Lemma ends_attempts `{Libs} b spec ov w n o : ends b spec ov w n (Some o) → attempts o = n.
Proof. by inversion 1. Qed.

Lemma max_attempts_small spec :
  (0 ≤ count (retry spec) < u32_max)%Z → max_attempts spec = (count (retry spec) + 1)%Z.
Proof. intros. unfold max_attempts. apply wrap_u32_small. lia. Qed.

Lemma ends_unique `{Libs} b spec ov w n1 o1 n2 o2 :
  ends b spec ov w n1 o1 → (∀ j, (1 ≤ j < n1)%Z → retried b spec ov w j) →
  ends b spec ov w n2 o2 → (∀ j, (1 ≤ j < n2)%Z → retried b spec ov w j) →
  (1 ≤ n1)%Z → (1 ≤ n2)%Z → n1 = n2 ∧ o1 = o2.
Proof.
  intros E1 R1 E2 R2 H1 H2.
  assert (∀ n o, ends b spec ov w n o → ¬ retried b spec ov w n) as Hno.
  { intros n o Hend (Hlt & Hs & e & He & Ht). destruct Hend; first [congruence|lia]. }
  assert (n1 = n2) as ->.
  { destruct (Z.lt_trichotomy n1 n2) as [Hlt|[Heq|Hlt]]; [|done|].
    - exfalso. apply (Hno _ _ E1), R2. lia.
    - exfalso. apply (Hno _ _ E2), R1. lia. }
  split; [done|]. destruct E1, E2; first [congruence|lia|done].
Qed.

(** ** Properties *)

(** C4: outside offline mode, and for a retry count in [0, 2^32 - 2], a fire makes attempts 1
    to [n] for a unique [n] of at most [retryCount + 1]: every attempt before [n] failed
    (a stop during an attempt is one such failure), was no shell timeout, and the pause
    after it was slept through; the [n]-th ends the sequence in one of the ways of [ends],
    which gives the outcome: success, shell timeout, a stop during the pause after it, the
    last attempt allowed, or an attempt that never ends, without an outcome; and the
    recorder is given exactly one row per attempt that ended, in order. *)
Theorem dispatch_spec `{Libs} {R} `{HistoryRecorder R} b spec ov world now (h : R) :
  offline_mode b = false → (0 ≤ count (retry spec) < u32_max)%Z →
  ∃ n outcome, (1 ≤ n ≤ count (retry spec) + 1)%Z ∧
    (∀ j, (1 ≤ j < n)%Z → retried b spec ov world j) ∧
    ends b spec ov world n outcome ∧
    dispatch b spec ov world now h = (record_all (rows b spec ov world n) h, outcome) ∧
    ∀ n' outcome', (1 ≤ n')%Z → (∀ j, (1 ≤ j < n')%Z → retried b spec ov world j) →
      ends b spec ov world n' outcome' → n' = n ∧ outcome' = outcome.
Proof.
  intros Hoff Hcount. pose proof (max_attempts_small spec Hcount) as Hmax.
  destruct (dispatch_run b spec ov world now h Hoff) as (n & o & Hn & Hret & Hend & Hd); [lia|].
  exists n, o. split_and!; [lia|lia|done|done|done|].
  intros n' o' Hn' Hret' Hend'. eapply ends_unique; [exact Hend'|exact Hret'|exact Hend|exact Hret|lia|lia].
Qed.

(** An attempt that never ends is a command whose run never ends. *)
Lemma attempt_never_ends `{Libs} b spec ov w i :
  ¬ is_Some (attempt_result b spec ov w i) →
  ∃ argv allowed, kind spec = Exec argv allowed ∧
    ShellExec.ended (ShellExec.execute (sys (w i)) (shell b) argv allowed ov) = None.
Proof.
  unfold attempt_result, ShellExec.outcome. destruct (kind spec) as [|argv allowed]; [intros Hn; destruct Hn; by eexists|].
  intros Hn. exists argv, allowed. split; [done|]. destruct (ShellExec.ended _); [|done]. destruct Hn. by eexists.
Qed.

(** A fire whose attempts all end has an outcome. *)
Lemma dispatch_ends `{Libs} {R} `{HistoryRecorder R} b spec ov world now (h : R) :
  (∀ i, is_Some (attempt_result b spec ov world i)) → is_Some (dispatch b spec ov world now h).2.
Proof.
  intros Hall. unfold dispatch. destruct (offline_mode b); [by eexists|].
  destruct (Z.lt_ge_cases (max_attempts spec) 1) as [Hlt|Hge].
  { replace (Z.to_nat (max_attempts spec)) with 0 by lia. by eexists. }
  destruct (attempts_loop_spec b spec ov world (Z.to_nat (max_attempts spec)) 1 None h) as (n & _ & _ & He & _); [lia..|].
  destruct (attempts_loop _ _ _ _ _ _ _ _) as [h' x]. cbn [snd] in *. destruct (after_loop spec x); [by eexists|].
  inversion He as [| | | |Hres]. destruct (Hall n). congruence.
Qed.

Definition sample_spec (count : Z) (ignore : bool) : JobSpec :=
  mkJobSpec (mkJobKey "apps-demo" "ping") Manual TimeWindow_default (mkRetryPolicy count 1000 ignore)
    (Http "get" "https://example.org/ping" []).
Definition sample_bundle : ExecutorBundle :=
  mkBundle (HttpExec.mkHttpExecutor 4 30 false []) (ShellExec.sample_shell 30) false.
(** The network cancels attempt 1, answers 503 to attempt 2 and 200 to the others. *)
Definition sample_send (i : Z) : HttpExec.SendEvent :=
  if (i =? 1)%Z then HttpExec.SendCancelled
  else HttpExec.Sent (Ok (HttpExec.mkResponse (if (i =? 2)%Z then 503 else 200)%Z [HttpExec.Chunk "hi"])).
Definition sample_attempts (i : Z) : AttemptWorld :=
  mkAttempt (i * 1000) 7 ∅ (HttpExec.mkHttpWorld (λ _, Err "no dns") (λ _, sample_send i))
    (ShellExec.world_of (ShellExec.child_of None None)) Slept.

#[local] Existing Instance Sample.libs.
Lemma dispatch_spec_witness :
  ∃ n outcome, (1 ≤ n ≤ 6)%Z ∧ ends sample_bundle (sample_spec 5 false) [] sample_attempts n outcome ∧
    dispatch sample_bundle (sample_spec 5 false) [] sample_attempts 0 ([] : list HistoryEntry) =
      (record_all (rows sample_bundle (sample_spec 5 false) [] sample_attempts n) [], outcome).
Proof.
  destruct (dispatch_spec sample_bundle (sample_spec 5 false) [] sample_attempts 0 ([] : list HistoryEntry)
    eq_refl ltac:(done)) as (n & o & Hn & _ & He & Hd & _).
  exists n, o. exact (conj Hn (conj He Hd)).
Defined.

(** The recorder only observes: for any recorder, also one that drops rows or talks to
    a failing database, [dispatch] has the outcome it has with a vector, and leaves the
    recorder as if it were given the vector's rows. *)
Theorem dispatch_recorder_irrelevant `{Libs} {R} `{HistoryRecorder R} b spec ov world now (h : R) :
  let reference := dispatch b spec ov world now ([] : list HistoryEntry) in
  dispatch b spec ov world now h = (record_all reference.1 h, reference.2).
Proof.
  cbv zeta. unfold dispatch. destruct (offline_mode b); [done|].
  pose proof (attempts_loop_natural b spec ov world (Z.to_nat (max_attempts spec)) 1 None h []) as Hn.
  change (record_all [] h) with h in Hn. rewrite Hn. by destruct (attempts_loop _ _ _ _ _ _ _ []).
Qed.

(** Offline mode touches no executor: the fire leaves one OFFLINE row and reports one
    attempt, whatever the network and the system would do. *)
Theorem offline_dispatch_spec `{Libs} {R} `{HistoryRecorder R} b spec ov world now (h : R) :
  offline_mode b = true →
  dispatch b spec ov world now h = (record (offline_row spec now) h, Some (mkOutcome Offline 1 None)) ∧
  hstatus (offline_row spec now) = Offline ∧ attempt_number (offline_row spec now) = 1%Z.
Proof. intros Hoff. unfold dispatch, offline_stub. rewrite Hoff. split_and!; [done|unfold offline_row; by destruct (method_url _)..]. Qed.

Lemma offline_dispatch_spec_witness :
  dispatch (mkBundle (http sample_bundle) (shell sample_bundle) true) (sample_spec 5 false) [] sample_attempts 9
    ([] : list HistoryEntry) = ([offline_row (sample_spec 5 false) 9], Some (mkOutcome Offline 1 None)).
Proof.
  exact (proj1 (offline_dispatch_spec (mkBundle (http sample_bundle) (shell sample_bundle) true)
    (sample_spec 5 false) [] sample_attempts 9 ([] : list HistoryEntry) eq_refl)).
Defined.

(** ** What the history shows *)

(** The rows of attempts that all ended. *)
Lemma rows_from_ended `{Libs} b spec ov w i n :
  (∀ j, (i ≤ j ≤ n)%Z → is_Some (attempt_result b spec ov w j)) →
  ∀ k : nat, rows_from b spec ov w i n !! k =
    (if decide (Z.of_nat k ≤ n - i)%Z then row_at b spec ov w (i + Z.of_nat k) else None).
Proof.
  intros Hall. remember (Z.to_nat (n - i + 1)) as m eqn:Hm. revert i Hm Hall.
  induction m as [|m IH]; intros i Hm Hall k.
  - rewrite rows_from_nil by lia. by rewrite decide_False by lia.
  - rewrite rows_from_first by lia. destruct (Hall i ltac:(lia)) as [r Hr]. unfold row_at at 1. rewrite Hr. cbn [fmap option_fmap option_map option_list app].
    destruct k as [|k]; cbn [lookup list_lookup].
    + rewrite decide_True by lia. replace (i + Z.of_nat 0)%Z with i by lia. unfold row_at. by rewrite Hr.
    + change ((rows_from b spec ov w (i + 1) n : list HistoryEntry) !! k =
        (if decide (Z.of_nat (S k) ≤ n - i)%Z then row_at b spec ov w (i + Z.of_nat (S k)) else None)).
      rewrite IH; [|lia|intros; apply Hall; lia]. replace (i + 1 + Z.of_nat k)%Z with (i + Z.of_nat (S k))%Z by lia.
      by destruct (decide (Z.of_nat k ≤ n - (i + 1))%Z), (decide (Z.of_nat (S k) ≤ n - i)%Z); try lia.
Qed.

Lemma rows_lookup `{Libs} b spec ov w n :
  (∀ j, (1 ≤ j ≤ n)%Z → is_Some (attempt_result b spec ov w j)) →
  ∀ (i : nat) row, rows b spec ov w n !! i = Some row ↔
    (Z.of_nat i < n)%Z ∧ row_at b spec ov w (1 + Z.of_nat i) = Some row.
Proof.
  intros Hall i row. unfold rows. rewrite rows_from_ended by done.
  destruct (decide _); split; [intros ?; split; [lia|done]|by intros [_ ?]|done|intros [? _]; lia].
Qed.

Lemma rows_length `{Libs} b spec ov w n :
  (0 ≤ n)%Z → (∀ j, (1 ≤ j ≤ n)%Z → is_Some (attempt_result b spec ov w j)) →
  Z.of_nat (length (rows b spec ov w n)) = n.
Proof.
  intros Hn Hall. pose proof (rows_lookup b spec ov w n Hall) as Hl.
  assert (∀ i : nat, i < length (rows b spec ov w n) ↔ (Z.of_nat i < n)%Z) as Hlt.
  { intros i. rewrite <- lookup_lt_is_Some. unfold is_Some. setoid_rewrite Hl. unfold row_at. split; [by intros (? & ? & _)|].
    intros Hi. destruct (Hall (1 + Z.of_nat i)%Z) as [r ->]; [lia|]. by eexists. }
  pose proof (Hlt (length (rows b spec ov w n))). pose proof (Hlt (Z.to_nat n)). lia.
Qed.

(** The attempts of a sequence that ended: all [n], or all but the last. *)
Definition ended_attempts (n : Z) (o : option DispatchOutcome) : Z := match o with Some _ => n | None => n - 1 end.

Lemma ends_rows `{Libs} b spec ov w n o :
  (1 ≤ n)%Z → ends b spec ov w n o → (∀ j, (1 ≤ j < n)%Z → retried b spec ov w j) →
  rows b spec ov w n = rows b spec ov w (ended_attempts n o) ∧
  ∀ j, (1 ≤ j ≤ ended_attempts n o)%Z → is_Some (attempt_result b spec ov w j).
Proof.
  intros Hn He Hr. split.
  - destruct He as [| | | |Hres]; try done. unfold ended_attempts, rows, rows_from.
    replace (n - 1 - 1 + 1)%Z with (n - 1)%Z by lia. rewrite (seqZ_app 1 (n - 1) 1) by lia.
    rewrite omap_app. replace (1 + (n - 1))%Z with n by lia.
    rewrite (seqZ_cons n 1), (seqZ_nil (Z.succ n)) by lia. cbn. unfold row_at at 2. rewrite Hres. apply app_nil_r.
  - intros j Hj. destruct (decide (j < n)%Z) as [Hlt|Hge].
    + destruct (Hr j ltac:(lia)) as (_ & _ & e & -> & _). by eexists.
    + assert (j = n) as -> by (destruct o; cbn in Hj; lia).
      destruct He as [r ->|e ->|e ->|e ->|]; [by eexists..|cbn in Hj; lia].
Qed.

Lemma attempt_row_fields spec w i r :
  attempt_number (attempt_row spec w i r) = as_i32 i ∧
  History.max_attempts (attempt_row spec w i r) = as_i32 (max_attempts spec) ∧
  hstatus (attempt_row spec w i r) = status_for_history spec i r.
Proof. unfold attempt_row. destruct (method_url _). by destruct r. Qed.

Lemma retried_row `{Libs} b spec ov w i row :
  row_at b spec ov w i = Some row →
  attempt_number row = as_i32 i ∧ History.max_attempts row = as_i32 (max_attempts spec) ∧ hstatus row ≠ Skipped ∧
  (retried b spec ov w i → hstatus row = Retrying).
Proof.
  unfold row_at. destruct (attempt_result b spec ov w i) as [r|] eqn:Hr; [|done]. intros [= <-].
  destruct (attempt_row_fields spec w i r) as (-> & -> & ->). unfold status_for_history. split_and!; [done|done| |].
  - destruct r as [|e]; [done|]. destruct (is_shell_timeout e); [done|]. by destruct (_ <? _)%Z.
  - intros (Hm & _ & e & He & Ht). rewrite Hr in He. injection He as ->. rewrite Ht.
    by destruct (Z.ltb_spec i (max_attempts spec)); [|lia].
Qed.

(** The row of the last attempt and the outcome. *)
Lemma last_row `{Libs} b spec ov w n o :
  ends b spec ov w n (Some o) →
  ∃ r, row_at b spec ov w n = Some r ∧
    (status o = Success ↔ hstatus r = Success) ∧ (status o = Timeout ↔ hstatus r = Timeout) ∧
    (status o = Skipped → hstatus r = Failed ∧ ignore_failures (retry spec) = true) ∧
    (status o = Failed → hstatus r = Failed ∨ (hstatus r = Retrying ∧ last_error o = Some "aborted by /stop")).
Proof.
  unfold row_at. inversion 1 as [r Hr|e Hr He|e Hr He Hlt Hp|e Hr He Heq|]; subst o || subst; rewrite Hr; cbn [fmap option_fmap option_map];
    eexists; (split; [reflexivity|]);
    match goal with |- context [attempt_row spec w n ?r] => destruct (attempt_row_fields spec w n r) as (_ & _ & ->) end;
    unfold status_for_history; cbn [status last_error].
  - done.
  - by rewrite He.
  - rewrite He. destruct (Z.ltb_spec n (max_attempts spec)); [|lia]. split_and!; try done. intros _. by right.
  - rewrite He. destruct (Z.ltb_spec n (max_attempts spec)); [lia|].
    destruct (ignore_failures (retry spec)); split_and!; try done. intros _. by left.
Qed.

(** C19: the history of a fire and its outcome agree: the rows are numbered from 1, all but
    the last RETRYING, none SKIPPED; a fire with an outcome leaves one row per attempt, of
    which the last is SUCCESS or TIMEOUT exactly when the outcome is; an outcome SKIPPED
    ([ignoreFailures]) leaves FAILED in the history, and an outcome FAILED leaves FAILED,
    or RETRYING if a stop ended the pause; a fire that never ends leaves RETRYING only. *)
Theorem history_agrees_with_outcome `{Libs} b spec ov world now :
  offline_mode b = false → (0 ≤ count (retry spec) < 2147483647)%Z →
  let (rows, outcome) := dispatch b spec ov world now ([] : list HistoryEntry) in
  (∀ (i : nat) r, rows !! i = Some r →
     attempt_number r = (Z.of_nat i + 1)%Z ∧ History.max_attempts r = (count (retry spec) + 1)%Z ∧
     hstatus r ≠ Skipped ∧ (S i < length rows → hstatus r = Retrying)) ∧
  match outcome with
  | Some o =>
      Z.of_nat (length rows) = attempts o ∧
      ∃ r, last rows = Some r ∧
        (status o = Success ↔ hstatus r = Success) ∧ (status o = Timeout ↔ hstatus r = Timeout) ∧
        (status o = Skipped → hstatus r = Failed ∧ ignore_failures (retry spec) = true) ∧
        (status o = Failed → hstatus r = Failed ∨
           (hstatus r = Retrying ∧ last_error o = Some "aborted by /stop"))
  | None => ∀ r, r ∈ rows → hstatus r = Retrying
  end.
Proof.
  intros Hoff Hcount. pose proof (max_attempts_small spec ltac:(unfold u32_max; lia)) as Hmax.
  destruct (dispatch_run b spec ov world now ([] : list HistoryEntry) Hoff) as (n & o & Hn & Hret & Hend & Hd); [lia|].
  rewrite Hd, record_all_vec. cbn [app].
  destruct (ends_rows b spec ov world n o) as [-> Hall]; [lia|done|done|].
  set (m := ended_attempts n o) in *. assert (0 ≤ m ≤ n)%Z as Hm by (unfold m; destruct o; cbn; lia).
  pose proof (rows_length b spec ov world m ltac:(lia) Hall) as Hlen.
  pose proof (rows_lookup b spec ov world m Hall) as Hl. split.
  - intros i r Hr. apply Hl in Hr as [Hi Hr]. destruct (retried_row b spec ov world (1 + Z.of_nat i) r Hr) as (-> & -> & Hst & Hrt).
    rewrite !as_i32_small by lia. split_and!; [lia|lia|done|]. intros Hlt. apply Hrt, Hret. lia.
  - destruct o as [o|]; cbn in m.
    + pose proof (ends_attempts _ _ _ _ _ _ Hend). split; [lia|].
      destruct (last_row b spec ov world n o Hend) as (r & Hr & Hag). exists r. split; [|exact Hag].
      rewrite last_lookup. apply Hl. split; [lia|]. by replace (1 + Z.of_nat (Nat.pred (length (rows b spec ov world m))))%Z with n by lia.
    + intros r [i Hr]%list_elem_of_lookup_1. apply Hl in Hr as [Hi Hr].
      apply (retried_row b spec ov world (1 + Z.of_nat i) r Hr), Hret. lia.
Qed.

Lemma history_agrees_with_outcome_witness :
  match dispatch sample_bundle (sample_spec 1 true) [] sample_attempts 0 ([] : list HistoryEntry) with
  | (rows, Some o) => map hstatus rows = [Retrying; Failed] ∧ status o = Skipped ∧ Z.of_nat (length rows) = attempts o
  | _ => False
  end.
Proof.
  pose proof (history_agrees_with_outcome sample_bundle (sample_spec 1 true) [] sample_attempts 0 eq_refl
    ltac:(cbn; lia)) as Hw.
  split; [vm_compute; reflexivity|]. split; [vm_compute; reflexivity|]. exact (proj1 (proj2 Hw)).
Defined.

(** A [/stop] that ends an attempt does not end the fire: whatever attempt [i] failed
    with short of the wall clock, a stop included, the next attempt is made as long as
    [retryCount] allows one and the pause is slept through. *)
Theorem stop_during_attempt_is_retried `{Libs} b spec ov world now i :
  offline_mode b = false → (0 ≤ count (retry spec) < u32_max)%Z → (1 ≤ i ≤ count (retry spec))%Z →
  (∀ j, (1 ≤ j ≤ i)%Z → pause (world j) = Slept ∧
     attempt_result b spec ov world j =
       Some (Err (match kind spec with
                  | Http _ _ _ => from_err (Internal "aborted by /stop before response")
                  | Exec _ _ => from_shell_err (ShellFailed "aborted by /stop")
                  end))) →
  ∀ o, (dispatch b spec ov world now ([] : list HistoryEntry)).2 = Some o → (i < attempts o)%Z.
Proof.
  intros Hoff Hcount Hi Hstop. pose proof (max_attempts_small spec Hcount) as Hmax.
  destruct (dispatch_run b spec ov world now ([] : list HistoryEntry) Hoff) as (n & o & Hn & Hret & Hend & ->); [lia|].
  cbn [snd]. intros o' ->. rewrite (ends_attempts _ _ _ _ _ _ Hend).
  destruct (Z.lt_ge_cases i n); [done|]. exfalso. destruct (Hstop n ltac:(lia)) as [Hp Hr].
  assert (is_shell_timeout (match kind spec with
            | Http _ _ _ => from_err (Internal "aborted by /stop before response")
            | Exec _ _ => from_shell_err (ShellFailed "aborted by /stop") end) = false) as Hnt by (by destruct (kind spec)).
  inversion Hend; first [congruence|lia].
Qed.

Lemma stop_during_attempt_is_retried_witness :
  attempt_result sample_bundle (sample_spec 2 false) [] sample_attempts 1 =
    Some (Err (from_err (Internal "aborted by /stop before response"))) ∧
  ∃ o, (dispatch sample_bundle (sample_spec 2 false) [] sample_attempts 0 ([] : list HistoryEntry)).2 = Some o ∧ (1 < attempts o)%Z.
Proof.
  split; [vm_compute; reflexivity|]. eexists. split; [vm_compute; reflexivity|].
  refine (stop_during_attempt_is_retried sample_bundle (sample_spec 2 false) [] sample_attempts 0 1 _ _ _ _ _ _);
    [reflexivity|done|done| |vm_compute; reflexivity].
  intros j Hj. assert (j = 1%Z) as -> by lia. split; [reflexivity|vm_compute; reflexivity].
Defined.

(** At [retryCount = 4294967295], which only a cap of that size lets through, the
    attempt count wraps to zero: the fire makes no attempt, leaves no row and fails. *)
Theorem retry_count_overflow `{Libs} {R} `{HistoryRecorder R} b spec ov world now (h : R) :
  offline_mode b = false → count (retry spec) = u32_max →
  dispatch b spec ov world now h =
    (h, Some (mkOutcome (if ignore_failures (retry spec) then Skipped else Failed) 0 None)).
Proof.
  intros Hoff Hcount. unfold dispatch. rewrite Hoff.
  unfold after_loop.
  assert (max_attempts spec = 0%Z) as -> by (unfold max_attempts; rewrite Hcount; reflexivity). done.
Qed.

Lemma retry_count_overflow_witness :
  dispatch sample_bundle (sample_spec u32_max false) [] sample_attempts 0 ([] : list HistoryEntry) =
    ([], Some (mkOutcome Failed 0 None)).
Proof. exact (retry_count_overflow sample_bundle (sample_spec u32_max false) [] sample_attempts 0 [] eq_refl eq_refl). Defined.
