(* ===== verification/ExecutorTests.v ===== *)
(** * The unit tests of src/executor (http.rs, shell.rs, mod.rs)

    Each test of the source as a function to [bool]. A mock server is a world that answers
    the requests that a mock matches, and a script is a function from the environment of
    its child to what that prints. That a mock is hit so many times is a statement on the
    trace of the attempt. *)
From S2P Require Import Prelude RStr Ip Errors Dsl History Config Libs Dispatch.
From S2P Require HttpExec ShellExec.

#[local] Existing Instance Sample.libs.

Definition crlf : string := single cr +:+ single lf.

(** ** http.rs *)
Module HttpTests.
Import HttpExec.

Definition server_url : string := "http://127.0.0.1:1234".
Record Mock := mkMock
  { m_method : string; m_url : string; m_headers : list (string * string); m_status : Z; m_body : string }.
Definition mock (method path : string) (status : Z) (body : string) : Mock :=
  mkMock method (server_url +:+ path) [] status body.
Definition matches (m : Mock) (r : Request) : bool :=
  String.eqb (m_method m) (req_method r) && String.eqb (m_url m) (req_url r) &&
  forallb (λ h, bool_decide (h ∈ req_headers r)) (m_headers m).
(** A server with these mocks, which answers 501 to any other request; other ports refuse. Both
    names of the machine resolve to its loopback address. *)
Definition mockito (mocks : list Mock) : HttpWorld :=
  mkHttpWorld (λ _, Ok [V4 (V4Addr 127 0 0 1)])
    (λ r, if contains (req_url r) ":1234" then
            match List.find (λ m, matches m r) mocks with
            | Some m => Sent (Ok (mkResponse (m_status m) [Chunk (m_body m)]))
            | None => Sent (Ok (mkResponse 501 []))
            end
          else Sent (Err (OtherErr "connection refused"))).
(** How often a mock was hit. *)
Definition hits (m : Mock) (trace : list HttpIo) : nat :=
  length (List.filter (λ io, match io with Send r => matches m r | Lookup _ => false end) trace).

Abbreviation Attempt := (list HttpIo * result HttpAttempt CronManagerError)%type.
Definition open : HttpExecutor := with_ssrf_policy Limits_default false.
Definition guarded : HttpExecutor := with_ssrf_policy Limits_default true.
Definition answers (st : Z) (a : Attempt) : bool := match a.2 with Ok x => (attempt_status x =? st)%Z | Err _ => false end.
Definition fails (p : CronManagerError → bool) (a : Attempt) : bool := match a.2 with Err e => p e | Ok _ => false end.
Definition is_internal (says hides : list string) (e : CronManagerError) : bool :=
  match e with
  | Internal m => forallb (contains m) says && forallb (λ leak, negb (contains m leak)) hides
  | _ => false
  end.
Definition get (e : HttpExecutor) (mocks : list Mock) (path : string) : Attempt :=
  execute ∅ (mockito mocks) e "GET" (server_url +:+ path) [].

Definition successful_get_returns_body_and_status : bool :=
  let a := get open [mock "GET" "/ok" 200 "hello world"] "/ok" in
  answers 200 a && match a.2 with Ok x => String.eqb (body x) "hello world" | Err _ => false end.
Definition non_2xx_becomes_upstream_error : bool :=
  fails (λ e, match e with UpstreamHttpError st _ => (st =? 503)%Z | _ => false end)
    (get open [mock "GET" "/nope" 503 "service unavailable"] "/nope").
Definition body_exceeding_cap_is_rejected : bool :=
  let limits := mkLimits default_max_request_bytes 1024 default_request_timeout_secs default_shell_timeout_secs in
  fails (λ e, match e with UpstreamBodyTooLarge limit => (limit =? 1024)%Z | _ => false end)
    (get (with_ssrf_policy limits false) [mock "GET" "/big" 200 (of_bytes (replicate 2048 "x"%char))] "/big").
Definition unknown_method_errors_cleanly : bool :=
  fails (is_internal [] []) (execute ∅ (mockito []) open "FLOOP" "http://127.0.0.1:1" []).
Definition redirect_is_not_followed : bool :=
  let dst := mock "GET" "/dst" 200 "would leak" in
  let a := get open [dst; mock "GET" "/src" 302 ""] "/src" in
  fails (λ e, match e with UpstreamHttpError st _ => (st =? 302)%Z | _ => false end) a && (hits dst a.1 =? 0).
Definition refused (parts : list string) (e : HttpExecutor) : bool :=
  fails (λ err, forallb (contains (to_string err)) parts) (execute ∅ (mockito []) e "GET" "http://localhost:1/whatever" []).
Definition ssrf_pre_flight_refuses_private_hostname_dns : bool := refused ["SSRF pre-flight"; "localhost"] guarded.
Definition ssrf_pre_flight_allows_allowlisted_private_hostname : bool :=
  let m := mkMock "POST" "http://localhost:1234/cron" [] 200 "" in
  let a := execute ∅ (mockito [m]) (with_allowed_private_hosts guarded ["localhost"]) "POST" "http://localhost:1234/cron" [] in
  answers 200 a && (hits m a.1 =? 1).
Definition ssrf_pre_flight_refuses_private_hostname_not_on_allowlist : bool :=
  refused ["SSRF pre-flight"; "allowed_private_hosts"] (with_allowed_private_hosts guarded ["ruuter-internal"]).
Definition allowlist_match_is_exact_and_case_insensitive : bool :=
  let allowed := ["ruuter-internal"] in
  is_allowlisted "ruuter-internal" allowed && is_allowlisted "Ruuter-Internal." allowed &&
  negb (is_allowlisted "ruuter-internal.evil.example" allowed) && negb (is_allowlisted "xruuter-internal" allowed) &&
  negb (is_allowlisted "ruuter-internal" []).
Definition verdict (listed unlisted : bool) (s : string) : bool :=
  match parse_ip s with
  | Some a => Bool.eqb (ssrf_refuses a true) listed && Bool.eqb (ssrf_refuses a false) unlisted
  | None => false
  end.
Definition allowlisted_host_reaches_private_but_never_metadata : bool :=
  forallb (verdict false true) ["10.1.2.3"; "172.18.0.5"; "192.168.1.1"; "127.0.0.1"; "fd12::1"; "::1"] &&
  forallb (verdict true true)
    ["169.254.169.254"; "::ffff:169.254.169.254"; "fe80::1"; "fd00:ec2::254"; "0.0.0.0"; "224.0.0.1"] &&
  verdict false false "93.184.216.34".
Definition truncate_never_splits_codepoint : bool := starts_with (truncate "aä" 2) "a".

Definition literal (n v : string) : HttpHeader := mkHttpHeader n (Literal v).
Definition env_header (n var : string) : HttpHeader := mkHttpHeader n (EnvVar var).
Definition literal_and_env_headers_are_sent : bool :=
  let m := mkMock "POST" (server_url +:+ "/h") [("x-static", "one"); ("x-internal-service-token", "s3cret")] 200 "" in
  let a := execute {["CM_TEST_HDR_TOKEN_SENT" := "s3cret"]} (mockito [m]) open "POST" (server_url +:+ "/h")
    [literal "x-static" "one"; env_header "x-internal-service-token" "CM_TEST_HDR_TOKEN_SENT"] in
  is_ok a.2 && (hits m a.1 =? 1).
(** One attempt with the header [x-token] taken from [var]. *)
Definition with_token (env : Env) (var : string) (mocks : list Mock) (url : string) : Attempt :=
  execute env (mockito mocks) open "GET" url [env_header "x-token" var].
Definition missing_header_env_at_fire_time_is_internal_error : bool :=
  fails (is_internal [] ["s3cret"]) (with_token ∅ "CM_TEST_HDR_TOKEN_UNSET_AT_FIRE" [] "http://127.0.0.1:1/x").
Definition env_rotates_between_fires_new_value_sent : bool :=
  let m v := mkMock "GET" (server_url +:+ "/r") [("x-token", v)] 200 "" in
  let fire v := with_token {["CM_TEST_HDR_ROTATE" := v]} "CM_TEST_HDR_ROTATE" [m "v1"; m "v2"] (server_url +:+ "/r") in
  let trace := (fire "v1").1 ++ (fire "v2").1 in
  is_ok (fire "v1").2 && is_ok (fire "v2").2 && (hits (m "v1") trace =? 1) && (hits (m "v2") trace =? 1).
Definition env_crlf_injection_at_fire_time_rejected : bool :=
  let smuggle_sentinel := mkMock "GET" (server_url +:+ "/x") [("x-injected", "evil")] 200 "" in
  let a := with_token {["CM_TEST_HDR_INJECT_AT_FIRE" := "legit" +:+ crlf +:+ "X-Injected: evil"]} "CM_TEST_HDR_INJECT_AT_FIRE"
    [smuggle_sentinel] (server_url +:+ "/x") in
  fails (is_internal ["invalid value"] ["X-Injected"; "evil"; "legit"]) a && (hits smuggle_sentinel a.1 =? 0).
Definition env_unset_at_fire_time_does_not_hit_the_wire : bool :=
  let any_hit := mock "GET" "/y" 200 "" in
  let a := with_token ∅ "CM_TEST_HDR_UNSET_WIRE" [any_hit] (server_url +:+ "/y") in
  fails (is_internal ["not set"; "CM_TEST_HDR_UNSET_WIRE"] []) a && (hits any_hit a.1 =? 0).
Definition env_control_byte_at_fire_time_rejected : bool :=
  let value := "has" +:+ single (ascii_of_Z 127) +:+ "del" in
  fails (is_internal ["invalid value"] ["has" +:+ single (ascii_of_Z 127); "del"])
    (with_token {["CM_TEST_HDR_CTRL_AT_FIRE" := value]} "CM_TEST_HDR_CTRL_AT_FIRE" [] "http://127.0.0.1:1/x").
(** The text of the error is all it carries. *)
Definition env_value_never_in_internal_error_debug : bool :=
  let leaks := ["s3cret"; "s3cret-stuff-xyz"; "stuff-xyz"; "X-Smuggled"; "X-Smuggled: 1"] in
  let a := with_token {["CM_TEST_HDR_DEBUG_LEAK" := "s3cret-stuff-xyz" +:+ crlf +:+ "X-Smuggled: 1"]} "CM_TEST_HDR_DEBUG_LEAK" []
    "http://127.0.0.1:1/x" in
  fails (is_internal [] leaks) a && fails (λ e, forallb (λ leak, negb (contains (to_string e) leak)) leaks) a.
End HttpTests.

(** ** shell.rs *)
Module ShellTests.
Import ShellExec.

(** A script: what its child does, given its environment. *)
Abbreviation Script := (gmap string string → Child).
Definition printing (out err : string) (code : Z) (millis : Z) : Child :=
  mkChild (Some millis) (Ok (Some code)) (mkPipe [ReadBytes out] (Some millis)) (mkPipe [ReadBytes err] (Some millis)).
(** [${NAME-none}]. *)
Definition expand (env : gmap string string) (n : string) : string := default "none" (env !! n).
Definition line (s : string) : string := s +:+ single lf.

(** The configuration of the tests with another environment and wall clock. *)
Definition cfg_with (env : gmap string string) (secs : Z) : AppConfig :=
  mkAppConfig default_port default_dsl_path "/tmp" [] (<["HELLO_WORLD" := "hi"]> env)
    (mkLimits default_max_request_bytes 65536 default_request_timeout_secs secs) AdminConfig_default SecurityConfig_default None.
Definition cfg_with_root : AppConfig := cfg_with ∅ 5.
Definition exec_script (cfg : AppConfig) (argv : list string) (script : Script) (allowed : list string)
    (overrides : list (string * string)) : option (result ShellAttempt CronManagerError) :=
  let env := match io (execute (world_of (child_of None None)) (new cfg) argv allowed overrides) with
             | DoSpawn s :: _ => child_env s
             | _ => ∅
             end in
  outcome (execute (world_of (script env)) (new cfg) argv allowed overrides).
Definition argv : list string := ["/tmp/script.sh"].
Definition prints (parts : list string) (r : option (result ShellAttempt CronManagerError)) : bool :=
  match r with Some (Ok a) => (exit_code a =? 0)%Z && forallb (contains (stdout a)) parts | _ => false end.

Definition successful_script_returns_stdout : bool :=
  prints ["done"] (exec_script cfg_with_root argv (λ _, printing (line "done") "" 0 5) [] []).
Definition nonzero_exit_becomes_shell_failed : bool :=
  match exec_script cfg_with_root argv (λ _, printing "" (line "bad") 7 5) [] [] with Some (Err (ShellFailed _)) => true | _ => false end.
Definition timeout_kills_runaway_process : bool :=
  match exec_script (cfg_with ∅ 1) argv (λ _, printing "" "" 0 30000) [] [] with
  | Some (Err (ShellTimeout seconds)) => (seconds =? 1)%Z
  | _ => false
  end.
Definition env_allowlist_gates_variable_exposure : bool :=
  prints ["hello=hi"; "secret=none"] (exec_script (cfg_with {["SECRET_KEY" := "shh"]} 5) argv
    (λ env, printing (line ("hello=" +:+ expand env "HELLO_WORLD") +:+ line ("secret=" +:+ expand env "SECRET_KEY")) "" 0 5)
    ["HELLO_WORLD"] []).
Definition env_overrides_only_apply_when_allowlisted : bool :=
  prints ["a=yes"; "b=none"] (exec_script cfg_with_root argv
    (λ env, printing (line ("a=" +:+ expand env "FOO") +:+ line ("b=" +:+ expand env "BAR")) "" 0 5)
    ["FOO"] [("FOO", "yes"); ("BAR", "no")]).
Definition override_wins_over_baseline_env : bool :=
  prints ["v=override"] (exec_script cfg_with_root argv (λ env, printing (line ("v=" +:+ expand env "HELLO_WORLD")) "" 0 5)
    ["HELLO_WORLD"] [("HELLO_WORLD", "override")]).
Definition argv_list_form_runs_sh_dash_c : bool :=
  let r := exec_script cfg_with_root ["/bin/sh"; "-c"; "printf 'from-sh-dash-c'"] (λ _, printing "from-sh-dash-c" "" 0 5) [] [] in
  prints [] r && match r with Some (Ok a) => String.eqb (stdout a) "from-sh-dash-c" | _ => false end.
Definition empty_argv_returns_bad_request : bool :=
  match exec_script cfg_with_root [] (λ _, printing "" "" 0 5) [] [] with Some (Err (BadRequest _)) => true | _ => false end.
End ShellTests.

(** ** mod.rs *)
Module DispatchTests.

Definition cfg_blocking (block : bool) : AppConfig :=
  let sec := SecurityConfig_default in
  mkAppConfig default_port default_dsl_path "/tmp" [] ∅ Limits_default AdminConfig_default
    (mkSecurity block false (max_query_params sec) (max_dsl_file_bytes sec) (dsl_load_timeout_secs sec) (max_retry_count sec)
      (min_cron_interval_secs sec) (stored_response_body_max_bytes sec) (reload_min_interval_secs sec) true true ∅ [] false) None.
Definition bundle (block offline : bool) : ExecutorBundle :=
  let b := bundle_new ∅ (cfg_blocking block) in mkBundle (http b) (shell b) offline.
Definition job (n : string) (k : JobKind) : JobSpec :=
  mkJobSpec (mkJobKey "g" n) Manual TimeWindow_default RetryPolicy_default k.
Definition http_job : JobSpec := job "http" (Http "GET" "http://example.invalid/" []).
Definition shell_job : JobSpec := job "sh" (Exec ["/definitely/nonexistent/binary"] []).

(** The same surroundings for every attempt, with a binary that does not exist. *)
Definition surroundings (env : Env) (w : HttpExec.HttpWorld) : Z → AttemptWorld := λ _,
  mkAttempt 0 1 env w (ShellExec.mkShellWorld (λ _, Err (ShellExec.SpawnFailed "No such file or directory")) None 0) Slept.
Definition fire (b : ExecutorBundle) (spec : JobSpec) (env : Env) (w : HttpExec.HttpWorld) : list HistoryEntry * option DispatchOutcome :=
  dispatch b spec [] (surroundings env w) 0 [].
Definition no_network : HttpExec.HttpWorld := HttpExec.mkHttpWorld (λ _, Err "no dns") (λ _, HttpExec.Sent (Err (HttpExec.OtherErr "no network"))).
(** One row, and it is OFFLINE. *)
Definition one_offline_row (p : HistoryEntry → bool) (r : list HistoryEntry * option DispatchOutcome) : bool :=
  bool_decide (status <$> r.2 = Some Offline) && bool_decide (attempts <$> r.2 = Some 1%Z) &&
  match r.1 with [row] => bool_decide (hstatus row = Offline) && p row | _ => false end.
(** The texts that the formatting of an entry prints. *)
Definition texts (r : HistoryEntry) : list string :=
  [job_name r; job_group r; job_type r] ++ omap id [http_method r; http_url r; response_body r; error_message r].
Definition hides (leaks : list string) (r : HistoryEntry) : bool :=
  forallb (λ leak, forallb (λ t, negb (contains t leak)) (texts r)) leaks.

Definition offline_mode_short_circuits_http_dispatch : bool :=
  one_offline_row (λ row, bool_decide (error_message row = Some "CRONMANAGER_OFFLINE=true") && bool_decide (http_method row = Some "GET"))
    (fire (bundle true true) http_job ∅ no_network).
Definition offline_mode_short_circuits_shell_dispatch : bool :=
  one_offline_row (λ row, bool_decide (http_method row = None) && bool_decide (http_url row = None))
    (fire (bundle true true) shell_job ∅ no_network).
Definition offline_mode_does_not_resolve_header_envs : bool :=
  one_offline_row (λ _, true) (fire (bundle true true)
    (job "http-with-env" (Http "GET" "http://example.invalid/" [HttpTests.env_header "x-token" "CM_TEST_OFFLINE_HDR_UNSET"])) ∅ no_network).
Definition history_entry_has_no_header_env_value : bool :=
  let url := HttpTests.server_url +:+ "/leak-check" in
  let m := HttpTests.mkMock "GET" url [("x-token", "sup3r-s3cr3t-xyz")] 200 "ok" in
  let r := fire (bundle false false) (job "hist-leak-check" (Http "GET" url [HttpTests.env_header "x-token" "CM_TEST_HDR_HIST_LEAK"]))
             {["CM_TEST_HDR_HIST_LEAK" := "sup3r-s3cr3t-xyz"]} (HttpTests.mockito [m]) in
  bool_decide (status <$> r.2 = Some Success) && (length r.1 =? 1) && forallb (hides ["sup3r-s3cr3t-xyz"; "sup3r"; "s3cr3t"]) r.1.
Definition history_entry_on_fire_time_env_failure_has_no_value : bool :=
  let r := fire (bundle false false)
             (job "hist-fail" (Http "GET" "http://127.0.0.1:1/x" [HttpTests.env_header "x-token" "CM_TEST_HDR_HIST_FAIL"])) ∅
             (HttpTests.mockito []) in
  match last r.1 with
  | Some row =>
      match error_message row with Some e => contains e "CM_TEST_HDR_HIST_FAIL" | None => true end &&
      hides ["sup3r-s3cr3t"; "s3cr3t-xyz"; "v1"; "v2"] row
  | None => false
  end.
Definition offline_from_env_accepts_truthy_variants : bool :=
  let offline v := offline_from_env {["CRONMANAGER_OFFLINE" := v]} in
  forallb offline ["true"; "TRUE"; "1"; "yes"; "on"; "On"] && forallb (λ v, negb (offline v)) ["false"; "0"; "no"; "off"; ""; "banana"].
End DispatchTests.

Import HttpTests ShellTests DispatchTests.
Definition http_tests : list bool :=
  [successful_get_returns_body_and_status; non_2xx_becomes_upstream_error; body_exceeding_cap_is_rejected;
   unknown_method_errors_cleanly; redirect_is_not_followed; ssrf_pre_flight_refuses_private_hostname_dns;
   ssrf_pre_flight_allows_allowlisted_private_hostname; ssrf_pre_flight_refuses_private_hostname_not_on_allowlist;
   allowlist_match_is_exact_and_case_insensitive; allowlisted_host_reaches_private_but_never_metadata;
   truncate_never_splits_codepoint; literal_and_env_headers_are_sent; missing_header_env_at_fire_time_is_internal_error;
   env_rotates_between_fires_new_value_sent; env_crlf_injection_at_fire_time_rejected;
   env_unset_at_fire_time_does_not_hit_the_wire; env_control_byte_at_fire_time_rejected; env_value_never_in_internal_error_debug].
Definition shell_tests : list bool :=
  [successful_script_returns_stdout; nonzero_exit_becomes_shell_failed; timeout_kills_runaway_process;
   env_allowlist_gates_variable_exposure; env_overrides_only_apply_when_allowlisted; override_wins_over_baseline_env;
   argv_list_form_runs_sh_dash_c; empty_argv_returns_bad_request].
Definition dispatch_tests : list bool :=
  [offline_mode_short_circuits_http_dispatch; offline_mode_short_circuits_shell_dispatch; offline_mode_does_not_resolve_header_envs;
   history_entry_has_no_header_env_value; history_entry_on_fire_time_env_failure_has_no_value;
   offline_from_env_accepts_truthy_variants].

(** The models of [HttpExec], [ShellExec] and [Dispatch] pass them. *)
Example http_tests_pass : http_tests = replicate (length http_tests) true.
Proof. vm_compute. reflexivity. Qed.
Example shell_tests_pass : shell_tests = replicate (length shell_tests) true.
Proof. vm_compute. reflexivity. Qed.
Example dispatch_tests_pass : dispatch_tests = replicate (length dispatch_tests) true.
Proof. vm_compute. reflexivity. Qed.
