(* ===== verification/DispatchSteps.v ===== *)
(** * Dispatch, section by section (src/executor/mod.rs, http.rs, shell.rs)

    [dispatch] as the steps between its awaits, for the interleavings of [SchedulerSteps]. It
    awaits in five places: up to the [select!] of the executor (method, DNS lookup, headers;
    the backoff between spawns), in that [select!], past it (the body or the pipes to their
    end, then [history.record]), and in the [select!] of the pause; offline, only
    [history.record]. A [/stop] is [notify_waiters]: it wakes the dispatch in one of the two
    [select!]s and is lost everywhere else. What an attempt meets is an input of the step
    that ends the await; an input may only report a stop if there was one, and may say that
    the await is not over yet. An attempt that never ends stays past its [select!] for ever.
    The runs of the steps are the behaviours of [dispatch]. *)
From S2P Require Import Prelude RStr Errors Dsl History Config Libs Dispatch.
From S2P Require HttpExec ShellExec.
From Stdlib Require Import Wellfounded.

(** What a task that is given the processor finds: the time, what its attempts meet, and
    whether what it awaits is still [pending]. *)
Record Input := mkInput { now : Z; surroundings : Z → AttemptWorld; pending : bool }.

Inductive DispatchPc :=
  | DStart                                          (** about to be called; offline, recording its row *)
  | DAttempt (i : Z)                                (** in attempt [i], before its [select!] *)
  | DListen (i : Z) (w : AttemptWorld)              (** in the [select!] of the executor; [w] is what it met before *)
  | DFinish (i : Z) (w : AttemptWorld)              (** past it: reading the body or the pipes, then recording the row *)
  | DPause (i : Z) (last_error : option string).    (** in the [select!] of the pause *)

(** Whether [cancel.notified()] is being awaited. *)
Definition waits (pc : DispatchPc) : bool :=
  match pc with DListen _ _ | DPause _ _ => true | _ => false end.

Inductive DispatchNext := DGo (pc : DispatchPc) | DEnd (o : DispatchOutcome) | DStay.

(** The attempt that met [w0] up to its [select!] and [w] from there. *)
Definition meet (w0 w : AttemptWorld) : AttemptWorld :=
  mkAttempt (at_ms w0) (took_ms w) (attempt_env w0)
    (HttpExec.mkHttpWorld (HttpExec.lookup_host (net w0)) (HttpExec.send (net w)))
    (ShellExec.mkShellWorld (ShellExec.spawn (sys w0)) (ShellExec.stop_after (sys w)) (ShellExec.pick (sys w)))
    (pause w).

Section steps.
Context `{Libs} {R : Type} `{HistoryRecorder R} (b : ExecutorBundle) (spec : JobSpec)
  (env_overrides : list (string * string)).

(** Whether the attempt that meets [w] gets as far as the [select!] of its executor. *)
Definition listens (w : AttemptWorld) : bool :=
  match kind spec with
  | Http method url headers =>
      existsb (λ io, match io with HttpExec.Send _ => true | _ => false end)
        (HttpExec.execute (attempt_env w) (net w) (http b) method url headers).1
  | Exec argv allowed_envs => ShellExec.reaches_wait (sys w) (shell b) argv allowed_envs env_overrides
  end.

(** Whether the attempt that meets [w] ended because of a stop. *)
Definition attempt_stopped (w : AttemptWorld) : bool :=
  match kind spec with
  | Http method url headers =>
      existsb (λ io, match io with
                     | HttpExec.Send r =>
                         match HttpExec.send (net w) r with HttpExec.SendCancelled => true | _ => false end
                     | _ => false
                     end)
        (HttpExec.execute (attempt_env w) (net w) (http b) method url headers).1
  | Exec argv allowed_envs => ShellExec.was_stopped (sys w) (shell b) argv allowed_envs env_overrides
  end.

(** What remains when the loop is over. *)
Definition exhausted (last_error : option string) : DispatchNext :=
  DEnd (mkOutcome (if ignore_failures (retry spec) then Skipped else Failed) (max_attempts spec) last_error).

Definition dispatch_step (inp : Input) (pc : DispatchPc) (woken : bool) (h : R) : R * DispatchNext :=
  match pc with
  | DStart =>
      if offline_mode b then
        if pending inp then (h, DStay) else let (h, o) := offline_stub spec (now inp) h in (h, DEnd o)
      else (h, if (max_attempts spec <? 1)%Z then exhausted None else DGo (DAttempt 1))
  | DAttempt i =>
      let w := surroundings inp i in
      (h, if pending inp then DStay else DGo (if listens w then DListen i w else DFinish i w))
  | DListen i w0 =>
      let w := meet w0 (surroundings inp i) in
      (h, if (pending inp || attempt_stopped w) && negb woken then DStay else DGo (DFinish i w))
  | DFinish i w =>
      match if pending inp then None else attempt_result b spec env_overrides (λ _, w) i with
      | None => (h, DStay)
      | Some r =>
          (record (attempt_row spec (λ _, w) i r) h,
           match r with
           | Ok _ => DEnd (mkOutcome Success i None)
           | Err e =>
               let last_error := result_error e in
               if is_shell_timeout e then DEnd (mkOutcome Timeout i last_error)
               else if (i <? max_attempts spec)%Z then DGo (DPause i last_error)
               else exhausted last_error
           end)
      end
  | DPause i _ =>
      (h, match pause (surroundings inp i) with
          | Slept => if pending inp && negb woken then DStay else DGo (DAttempt (i + 1))
          | StopDuringDelay => if woken then DEnd (mkOutcome Failed i (Some "aborted by /stop")) else DStay
          end)
  end.
End steps.

(** The attempts that a dispatch of [spec] can be at. *)
Definition pc_ok (spec : JobSpec) (pc : DispatchPc) : Prop :=
  match pc with
  | DStart => True
  | DAttempt i | DListen i _ | DFinish i _ => (1 ≤ i ≤ max_attempts spec)%Z
  | DPause i _ => (1 ≤ i < max_attempts spec)%Z
  end.

(** The runs of the steps, with other tasks in between: the rows they record in total and
    the outcome they end with, if they end: past the [select!] of an attempt that never ends
    no input moves them. *)
Inductive runs `{Libs} (b : ExecutorBundle) (spec : JobSpec) (ov : list (string * string)) :
    DispatchPc → list HistoryEntry → option DispatchOutcome → Prop :=
  | runs_end pc inp woken rows o :
      dispatch_step b spec ov inp pc woken ([] : list HistoryEntry) = (rows, DEnd o) → runs b spec ov pc rows (Some o)
  | runs_stuck i w : attempt_result b spec ov (λ _, w) i = None → runs b spec ov (DFinish i w) [] None
  | runs_stay pc inp woken rows rows' o :
      dispatch_step b spec ov inp pc woken ([] : list HistoryEntry) = (rows, DStay) →
      runs b spec ov pc rows' o → runs b spec ov pc (rows ++ rows') o
  | runs_go pc pc' inp woken rows rows' o :
      dispatch_step b spec ov inp pc woken ([] : list HistoryEntry) = (rows, DGo pc') →
      runs b spec ov pc' rows' o → runs b spec ov pc (rows ++ rows') o.

(** ** Lemmas *)
Section facts.
Context `{Libs} (b : ExecutorBundle) (spec : JobSpec) (ov : list (string * string)).

(** A step does to any recorder what its rows do. *)
Lemma dispatch_step_natural {R} `{HistoryRecorder R} inp pc woken (h : R) :
  dispatch_step b spec ov inp pc woken h =
    let (rows, n) := dispatch_step b spec ov inp pc woken ([] : list HistoryEntry) in (record_all rows h, n).
Proof.
  destruct pc; cbn; try done; [by destruct (offline_mode b), (pending inp)|].
  destruct (pending inp); [done|]. by destruct (attempt_result _ _ _ _ _).
Qed.

Lemma attempt_result_ext w1 w2 i :
  attempt_env (w1 i) = attempt_env (w2 i) → net (w1 i) = net (w2 i) → sys (w1 i) = sys (w2 i) →
  attempt_result b spec ov w1 i = attempt_result b spec ov w2 i.
Proof. intros He Hn Hs. unfold attempt_result. by rewrite He, Hn, Hs. Qed.

Lemma attempt_row_ext w1 w2 i r :
  at_ms (w1 i) = at_ms (w2 i) → took_ms (w1 i) = took_ms (w2 i) →
  attempt_row spec w1 i r = attempt_row spec w2 i r.
Proof. intros Ha Ht. unfold attempt_row. by rewrite Ha, Ht. Qed.

Definition set_pause (p : DelayEvent) (w : AttemptWorld) : AttemptWorld :=
  mkAttempt (at_ms w) (took_ms w) (attempt_env w) (net w) (sys w) p.
(** [world] with [w] at attempt [i]. *)
Definition at_attempt (i : Z) (w : AttemptWorld) (world : Z → AttemptWorld) : Z → AttemptWorld :=
  λ j, if (j =? i)%Z then w else world j.

(** From attempt [i] on, [world] gives these rows and this outcome. *)
Definition explains (i : Z) (world : Z → AttemptWorld) (rows : list HistoryEntry) (o : option DispatchOutcome) : Prop :=
  ∃ n, (i ≤ n)%Z ∧ (∀ j, (i ≤ j < n)%Z → retried b spec ov world j) ∧ ends b spec ov world n o ∧
    rows = rows_from b spec ov world i n.

Lemma attempt_result_eq w1 w2 i :
  w1 i = w2 i → attempt_result b spec ov w1 i = attempt_result b spec ov w2 i.
Proof. intros Heq. apply attempt_result_ext; by rewrite Heq. Qed.

Lemma retried_eq w1 w2 i : w1 i = w2 i → retried b spec ov w1 i → retried b spec ov w2 i.
Proof. intros Heq. unfold retried. by rewrite (attempt_result_eq w1 w2 i Heq), Heq. Qed.

Lemma ends_eq w1 w2 i o : w1 i = w2 i → ends b spec ov w1 i o → ends b spec ov w2 i o.
Proof.
  intros Heq He. pose proof (attempt_result_eq w1 w2 i Heq) as Hres.
  destruct He as [r Hr|e Hr|e Hr ? ? Hp|e Hr|Hr]; rewrite Hres in Hr; try rewrite Heq in Hp;
    [by eapply ends_ok|by eapply ends_timeout|by eapply ends_stopped|by eapply ends_exhausted|by eapply ends_never].
Qed.

Lemma at_attempt_same i w world : at_attempt i w world i = w.
Proof. unfold at_attempt. by rewrite Z.eqb_refl. Qed.
Lemma at_attempt_other i w world j : (i < j)%Z → at_attempt i w world j = world j.
Proof. intros Hj. unfold at_attempt. by destruct (Z.eqb_spec j i); [lia|]. Qed.

Lemma row_at_eq w1 w2 j : w1 j = w2 j → row_at b spec ov w1 j = row_at b spec ov w2 j.
Proof.
  intros Heq. unfold row_at. rewrite (attempt_result_eq w1 w2 j Heq). destruct (attempt_result _ _ _ _ _); [|done].
  cbn. f_equal. by apply attempt_row_ext; rewrite Heq.
Qed.

Lemma rows_from_eq w1 w2 i n : (∀ j, (i ≤ j)%Z → w1 j = w2 j) → rows_from b spec ov w1 i n = rows_from b spec ov w2 i n.
Proof.
  intros Heq. unfold rows_from. generalize (n - i + 1)%Z as m. intros m. apply list_omap_ext, Forall_Forall2_diag, Forall_forall.
  intros j (k & [-> _]%lookup_seqZ)%list_elem_of_lookup_1. apply row_at_eq, Heq. lia.
Qed.

(** One more attempt in front. *)
Lemma explains_first i w world rows o :
  retried b spec ov (at_attempt i w world) i → explains (i + 1) world rows o →
  explains i (at_attempt i w world) (option_list (row_at b spec ov (λ _, w) i) ++ rows) o.
Proof.
  intros Hi (n & Hn & Hr & He & ->). exists n. split_and!; [lia| | |].
  - intros j Hj. destruct (decide (j = i)) as [->|]; [done|].
    apply (retried_eq world); [by rewrite at_attempt_other by lia|]. apply Hr. lia.
  - apply (ends_eq world); [by rewrite at_attempt_other by lia|done].
  - rewrite (rows_from_first b spec ov _ i n) by lia. f_equal.
    + f_equal. apply row_at_eq. by rewrite at_attempt_same.
    + apply rows_from_eq. intros j Hj. by rewrite at_attempt_other by lia.
Qed.

Lemma explains_only i w world o :
  ends b spec ov (at_attempt i w world) i o →
  explains i (at_attempt i w world) (option_list (row_at b spec ov (λ _, w) i)) o.
Proof.
  intros He. exists i. split_and!; [lia|intros; lia|done|]. rewrite rows_from_one.
  f_equal. apply row_at_eq. by rewrite at_attempt_same.
Qed.

(** What a run from each point shows. *)
Definition explained (pc : DispatchPc) (rows : list HistoryEntry) (o : option DispatchOutcome) : Prop :=
  match pc with
  | DStart => ∃ world now, dispatch b spec ov world now ([] : list HistoryEntry) = (rows, o)
  | DAttempt i | DListen i _ => (1 ≤ i ≤ max_attempts spec)%Z → ∃ world, explains i world rows o
  | DFinish i w => (1 ≤ i ≤ max_attempts spec)%Z → ∃ p world, explains i (at_attempt i (set_pause p w) world) rows o
  | DPause i _ => (1 ≤ i < max_attempts spec)%Z →
      (rows = [] ∧ o = Some (mkOutcome Failed i (Some "aborted by /stop"))) ∨ ∃ world, explains (i + 1) world rows o
  end.

Lemma dispatch_explained world now rows o :
  offline_mode b = false → (1 ≤ max_attempts spec)%Z → explains 1 world rows o →
  dispatch b spec ov world now ([] : list HistoryEntry) = (rows, o).
Proof.
  intros Hoff Hmax (n & Hn & Hr & He & ->).
  destruct (dispatch_run b spec ov world now ([] : list HistoryEntry) Hoff Hmax) as (n' & o' & Hn' & Hr' & He' & ->).
  destruct (ends_unique b spec ov world n' o' n o He' Hr' He Hr) as [-> ->]; [lia..|].
  by rewrite record_all_vec.
Qed.

Lemma row_set_pause p w i r :
  attempt_result b spec ov (λ _, w) i = Some r →
  [attempt_row spec (λ _, w) i r] = option_list (row_at b spec ov (λ _, set_pause p w) i).
Proof.
  intros Hr. unfold row_at. rewrite (attempt_result_ext (λ _, set_pause p w) (λ _, w)), Hr by done. done.
Qed.

Lemma result_at i p w world :
  attempt_result b spec ov (at_attempt i (set_pause p w) world) i = attempt_result b spec ov (λ _, w) i.
Proof. by apply attempt_result_ext; rewrite at_attempt_same. Qed.

(** The last attempt of a run. *)
Lemma finish_explained i w woken inp rows o :
  dispatch_step b spec ov inp (DFinish i w) woken ([] : list HistoryEntry) = (rows, DEnd o) →
  explained (DFinish i w) rows (Some o).
Proof.
  cbn. destruct (pending inp); [done|]. destruct (attempt_result b spec ov (λ _, w) i) as [r|] eqn:Hr; [|done].
  intros Hs Hi. exists Slept, (λ _, w). injection Hs as <- Hn. cbn. rewrite (row_set_pause Slept w i r Hr).
  apply explains_only. destruct r as [r|e].
  { injection Hn as <-. eapply ends_ok. by rewrite result_at. }
  destruct (is_shell_timeout e) eqn:Ht; [injection Hn as <-; eapply ends_timeout; by rewrite ?result_at|].
  destruct (Z.ltb_spec i (max_attempts spec)); [done|]. injection Hn as <-.
  assert (max_attempts spec = i) as Hm by lia. rewrite Hm. eapply ends_exhausted; [by rewrite result_at|done|by rewrite Hm].
Qed.

(** An attempt before the last. *)
Lemma retried_explained i w woken inp rows pc' rows' o :
  dispatch_step b spec ov inp (DFinish i w) woken ([] : list HistoryEntry) = (rows, DGo pc') →
  explained pc' rows' o → explained (DFinish i w) (rows ++ rows') o.
Proof.
  cbn. destruct (pending inp); [done|]. destruct (attempt_result b spec ov (λ _, w) i) as [[r|e]|] eqn:Hr; [done| |done].
  intros Hs IH Hi. injection Hs as <- Hn. destruct (is_shell_timeout e) eqn:Ht; [done|].
  destruct (Z.ltb_spec i (max_attempts spec)) as [Hlt|]; [|done]. injection Hn as <-.
  change ([] ++ [?x]) with [x]. destruct IH as [[-> ->]|[world He]]; [lia| |].
  - exists StopDuringDelay, (λ _, w). rewrite app_nil_r, (row_set_pause StopDuringDelay w i _ Hr). apply explains_only.
    eapply ends_stopped; [by rewrite result_at|done|done|by rewrite at_attempt_same].
  - exists Slept, world. rewrite (row_set_pause Slept w i _ Hr). apply explains_first; [|done].
    split_and!; [done|by rewrite at_attempt_same|]. exists e. by rewrite result_at.
Qed.

Lemma start_explained inp woken rows o :
  dispatch_step b spec ov inp DStart woken ([] : list HistoryEntry) = (rows, DEnd o) → explained DStart rows (Some o).
Proof.
  intros Hs. exists (surroundings inp), (now inp). cbn in Hs. unfold dispatch.
  destruct (offline_mode b); [destruct (pending inp); [done|]; by injection Hs as <- <-|].
  destruct (Z.ltb_spec (max_attempts spec) 1); [|done]. injection Hs as <- <-.
  by replace (Z.to_nat (max_attempts spec)) with 0 by lia.
Qed.

(** An attempt that never ends. *)
Lemma stuck_explained i w : attempt_result b spec ov (λ _, w) i = None → explained (DFinish i w) [] None.
Proof.
  intros Hr _. exists Slept, (λ _, w). replace [] with (option_list (row_at b spec ov (λ _, set_pause Slept w) i)).
  - apply explains_only. apply ends_never. by rewrite result_at.
  - unfold row_at. by rewrite (attempt_result_ext (λ _, set_pause Slept w) (λ _, w)), Hr by done.
Qed.

(** A step that is not the end of an attempt records nothing. *)
Lemma stay_rows inp pc woken rows :
  dispatch_step b spec ov inp pc woken ([] : list HistoryEntry) = (rows, DStay) → rows = [].
Proof.
  destruct pc as [|i|i w|i w|i le]; cbn; try (by intros [= <-]).
  - destruct (offline_mode b), (pending inp); by intros [= <-].
  - destruct (pending inp); [by intros [= <-]|]. destruct (attempt_result _ _ _ _ _) as [[|e]|]; [done| |by intros [= <-]].
    destruct (is_shell_timeout e); [done|]. by destruct (_ <? _)%Z.
Qed.

Lemma runs_explained pc rows o : runs b spec ov pc rows o → explained pc rows o.
Proof.
  induction 1 as [pc inp woken rows o Hs|i w Hr|pc inp woken rows rows' o Hs _ IH|pc pc' inp woken rows rows' o Hs _ IH].
  - destruct pc as [|i|i w|i w|i le]; [by eapply start_explained| | |by eapply finish_explained|]; cbn in Hs.
    + by destruct (pending inp).
    + by destruct (_ && _).
    + intros Hi. left. destruct (pause _), woken; cbn in Hs; try done; [by destruct (pending inp)..|]. by injection Hs as <- <-.
  - by apply stuck_explained.
  - by apply stay_rows in Hs as ->.
  - destruct pc as [|i|i w|i w|i le]; [| | |by eapply retried_explained|]; cbn in Hs.
    + destruct (offline_mode b) eqn:Hoff; [by destruct (pending inp)|]. destruct (Z.ltb_spec (max_attempts spec) 1); [done|].
      injection Hs as <- <-. destruct IH as [world He]; [lia|]. exists world, 0%Z. by apply dispatch_explained.
    + destruct (pending inp); [done|]. injection Hs as <- <-. intros Hi. clear -IH Hi.
      destruct (listens _ _ _ _); [by apply IH|]. destruct (IH Hi) as (p & world & He). by eexists.
    + destruct (_ && _); [done|]. injection Hs as <- <-. intros Hi.
      destruct (IH Hi) as (p & world & He). by eexists.
    + intros Hi. destruct (pause _); cbn in Hs; [destruct (_ && _)|destruct woken]; try done. injection Hs as <- <-. right. apply IH. lia.
Qed.
End facts.

(** ** Running the steps *)
Section drive.
Context `{Libs} (b : ExecutorBundle) (spec : JobSpec) (ov : list (string * string)).

(** The steps one after the other on the same input, up to one that stays. *)
Fixpoint drive {R} `{HistoryRecorder R} (fuel : nat) (inp : Input) (woken : bool) (pc : DispatchPc) (h : R) :
    option (R * option DispatchOutcome) :=
  match fuel with
  | 0 => None
  | S fuel' =>
      match dispatch_step b spec ov inp pc woken h with
      | (h', DGo pc') => drive fuel' inp woken pc' h'
      | (h', DEnd o) => Some (h', Some o)
      | (h', DStay) => Some (h', None)
      end
  end.
Definition drive_fuel : nat := S (4 * Z.to_nat (max_attempts spec)).

Lemma meet_same w : meet w w = w.
Proof. by destruct w as [? ? ? [? ?] [? ? ?] ?]. Qed.

Lemma drive_attempts {R} `{HistoryRecorder R} now world left i last_error (h : R) :
  (Z.of_nat left = max_attempts spec - i + 1)%Z → (1 ≤ i ≤ max_attempts spec)%Z →
  ∀ fuel, 4 * left ≤ fuel →
  drive fuel (mkInput now world false) true (DAttempt i) h =
    let (h', x) := attempts_loop b spec ov world left i last_error h in Some (h', after_loop spec x).
Proof.
  revert i last_error h. induction left as [|left IH]; intros i last_error h Hleft Hi fuel Hfuel; [lia|].
  assert (∀ fuel (h : R), 4 * left + 2 ≤ fuel → drive fuel (mkInput now world false) true (DFinish i (world i)) h =
    let (h', x) := attempts_loop b spec ov world (S left) i last_error h in Some (h', after_loop spec x)) as Hfin.
  { clear fuel Hfuel h. intros [|[|fuel]] h Hfuel; [lia..|]. cbn [drive dispatch_step surroundings pending attempts_loop].
    rewrite (attempt_result_ext b spec ov (λ _, world i) world) by done.
    destruct (attempt_result b spec ov world i) as [r|]; [|done].
    rewrite (attempt_row_ext spec (λ _, world i) world) by done.
    destruct r as [r|e]; [done|]. destruct (is_shell_timeout e); [done|].
    destruct (Z.ltb_spec i (max_attempts spec)).
    - cbn [drive dispatch_step surroundings pending]. destruct (pause (world i)); [|done]. cbn [andb]. apply IH; lia.
    - assert (left = 0) as -> by lia. done. }
  destruct fuel as [|fuel]; [lia|]. cbn [drive dispatch_step surroundings pending].
  destruct (listens b spec ov (world i)); [|apply Hfin; lia]. destruct fuel as [|fuel]; [lia|].
  cbn [drive dispatch_step surroundings pending]. rewrite andb_false_r, meet_same. apply Hfin. lia.
Qed.

Lemma drive_dispatch {R} `{HistoryRecorder R} now world (h : R) :
  drive drive_fuel (mkInput now world false) true DStart h = Some (dispatch b spec ov world now h).
Proof.
  unfold drive_fuel, dispatch. cbn [drive dispatch_step DispatchSteps.now pending].
  destruct (offline_mode b); [done|]. destruct (Z.ltb_spec (max_attempts spec) 1).
  - replace (Z.to_nat (max_attempts spec)) with 0 by lia. done.
  - rewrite (drive_attempts now world (Z.to_nat (max_attempts spec)) 1 None h) by lia.
    by destruct (attempts_loop _ _ _ _ _ _ _ _) as [h' x].
Qed.

(** A bound on the steps to come. *)
Definition dispatch_rank (pc : DispatchPc) : nat :=
  let left i := 4 * Z.to_nat (max_attempts spec - i) in
  match pc with
  | DStart => 4 * Z.to_nat (max_attempts spec) + 3
  | DAttempt i => left i + 6 | DListen i _ => left i + 5 | DFinish i _ => left i + 4 | DPause i _ => left i + 3
  end.

Lemma dispatch_step_ok {R} `{HistoryRecorder R} inp pc woken (h h' : R) pc' :
  dispatch_step b spec ov inp pc woken h = (h', DGo pc') → pc_ok spec pc →
  pc_ok spec pc' ∧ dispatch_rank pc' < dispatch_rank pc.
Proof.
  destruct pc as [|i|i w|i w|i le]; cbn.
  - destruct (offline_mode b); [by destruct (pending inp)|]. destruct (Z.ltb_spec (max_attempts spec) 1); [done|].
    intros [= _ <-] _. cbn. lia.
  - destruct (pending inp); [done|]. intros [= _ <-]. destruct (listens _ _ _ _); cbn; lia.
  - destruct (_ && _); [done|]. intros [= _ <-]. cbn. lia.
  - destruct (pending inp); [done|]. destruct (attempt_result _ _ _ _ _) as [[|e]|]; [done| |done].
    intros [= _ Hn]. destruct (is_shell_timeout e); [done|].
    destruct (Z.ltb_spec i (max_attempts spec)); [|done]. injection Hn as <-. cbn. lia.
  - destruct (pause _); [destruct (_ && _)|destruct woken]; try done. intros [= _ <-]. cbn. lia.
Qed.

(** An attempt in which no stop is seen, nor in the pause after it. *)
Record quiet (w : AttemptWorld) : Prop := mkQuiet
  { quiet_pause : pause w = Slept;
    quiet_send : ∀ r, HttpExec.send (net w) r ≠ HttpExec.SendCancelled;
    quiet_shell : ShellExec.stop_after (Dispatch.sys w) = None }.
(** An input with which a step moves on: no stop, what is awaited is over, and no child
    leaves a pipe open for ever. *)
Record prompt (inp : Input) : Prop := mkPrompt
  { prompt_quiet : ∀ i, quiet (surroundings inp i); prompt_over : pending inp = false;
    prompt_closes : ∀ i, ShellExec.pipes_close (Dispatch.sys (surroundings inp i)) }.

Lemma quiet_not_stopped w : quiet w → attempt_stopped b spec ov w = false.
Proof.
  intros [_ Hs Hsh]. unfold attempt_stopped. destruct (kind spec) as [m u hs|argv al].
  - apply not_true_iff_false. intros (io & _ & Hio)%existsb_exists. destruct io as [|r]; [done|].
    specialize (Hs r). by destruct (HttpExec.send (net w) r).
  - by apply ShellExec.not_stopped.
Qed.
Lemma quiet_meet w0 w : quiet w → quiet (meet w0 w).
Proof. intros [? ? ?]. by split. Qed.

Lemma prompt_step {R} `{HistoryRecorder R} inp pc (h : R) :
  prompt inp → dispatch_step b spec ov inp pc false h = dispatch_step b spec ov inp pc true h.
Proof.
  intros [Hq Hp _]. destruct pc; cbn; try done.
  - by rewrite quiet_not_stopped, Hp by (by apply quiet_meet).
  - by rewrite (quiet_pause _ (Hq i)), Hp.
Qed.

(** The attempts that [pc] is past the [select!] of end. *)
Definition attempt_ends (pc : DispatchPc) : Prop :=
  match pc with DFinish i w => is_Some (attempt_result b spec ov (λ _, w) i) | _ => True end.

(** What the attempt that [pc] is in has met leaves no pipe open. *)
Definition pc_closes (pc : DispatchPc) : Prop :=
  match pc with DListen _ w | DFinish _ w => ShellExec.pipes_close (Dispatch.sys w) | _ => True end.

Lemma attempt_closes w i : ShellExec.pipes_close (Dispatch.sys (w i)) → is_Some (attempt_result b spec ov w i).
Proof.
  intros Hw. unfold attempt_result, ShellExec.outcome. destruct (kind spec) as [|argv allowed]; [by eexists|].
  destruct (ShellExec.execute_ends (Dispatch.sys (w i)) (shell b) argv allowed ov Hw) as [x ->]. by eexists.
Qed.
Lemma pc_closes_ends pc : pc_closes pc → attempt_ends pc.
Proof. destruct pc; try done. apply (attempt_closes (λ _, w) i). Qed.

Lemma pc_closes_step {R} `{HistoryRecorder R} inp pc woken (h h' : R) pc' :
  dispatch_step b spec ov inp pc woken h = (h', DGo pc') → prompt inp → pc_closes pc → pc_closes pc'.
Proof.
  intros Hs [_ _ Hc] Hpc. destruct pc as [|i|i w|i w|i le]; cbn in Hs.
  - destruct (offline_mode b); [by destruct (pending inp)|]. destruct (_ <? _)%Z; [done|]. by injection Hs as _ <-.
  - destruct (pending inp); [done|]. injection Hs as _ <-. destruct (listens _ _ _ _); apply Hc.
  - destruct (_ && _); [done|]. injection Hs as _ <-. exact Hpc.
  - destruct (pending inp); [done|]. destruct (attempt_result _ _ _ _ _) as [[|e]|]; [done| |done]. injection Hs as _ Hs.
    destruct (is_shell_timeout e); [done|]. destruct (_ <? _)%Z; [|done]. by injection Hs as <-.
  - destruct (pause _); [destruct (_ && _)|destruct woken]; try done. by injection Hs as _ <-.
Qed.

Lemma prompt_moves {R} `{HistoryRecorder R} inp pc woken (h : R) :
  prompt inp → attempt_ends pc → (dispatch_step b spec ov inp pc woken h).2 ≠ DStay.
Proof.
  intros [Hq Hp _] Ha. destruct pc as [|i|i w|i w|i le]; cbn; rewrite ?Hp; try done.
  - destruct (offline_mode b); [done|]. by destruct (_ <? _)%Z.
  - by rewrite quiet_not_stopped by (by apply quiet_meet).
  - destruct Ha as [[|e] ->]; [done|]. cbn. destruct (is_shell_timeout e); [done|]. by destruct (_ <? _)%Z.
  - by rewrite (quiet_pause _ (Hq i)).
Qed.

Lemma drive_prompt {R} `{HistoryRecorder R} fuel inp pc (h : R) :
  prompt inp → drive fuel inp false pc h = drive fuel inp true pc h.
Proof.
  intros Hq. revert pc h. induction fuel as [|fuel IH]; intros pc h; [done|]. cbn [drive].
  rewrite prompt_step by done. destruct (dispatch_step _ _ _ _ _ _ _) as [h' [pc'| |]]; [apply IH|done..].
Qed.

(** Where a dispatch awaits something. *)
Definition awaits (pc : DispatchPc) : bool := match pc with DStart => offline_mode b | _ => true end.

(** A dispatch stays where it is only in an await: one that is not over yet, the end of an
    attempt that never ends, or a [select!] that a stop alone can end. *)
Lemma dispatch_stays {R} `{HistoryRecorder R} inp pc woken (h h' : R) :
  dispatch_step b spec ov inp pc woken h = (h', DStay) →
  h' = h ∧ awaits pc = true ∧ (waits pc = true → woken = false) ∧
  (pending inp = true ∨ waits pc = true ∨ ¬ attempt_ends pc).
Proof.
  destruct pc as [|i|i w|i w|i le]; cbn.
  - destruct (offline_mode b), (pending inp); try done; [intros [= <-]; split_and!; auto; done|by destruct (_ <? _)%Z..].
  - destruct (pending inp); [|done]. intros [= <-]. split_and!; auto; done.
  - destruct ((_ || _) && _) eqn:Hw; [|done]. apply andb_prop in Hw as [_ Hw%negb_true_iff]. intros [= <-]. split_and!; auto; done.
  - destruct (pending inp); [intros [= <-]; split_and!; auto; done|]. destruct (attempt_result _ _ _ _ _) as [[|e]|]; [done| |].
    + destruct (is_shell_timeout e); [done|]. by destruct (_ <? _)%Z.
    + intros [= <-]. split_and!; [done..|]. right. right. by intros [? ?].
  - destruct (pause _); [destruct (_ && _) eqn:Hw|destruct woken]; try done; intros [= <-]; [|split_and!; auto; done].
    apply andb_prop in Hw as [_ Hw%negb_true_iff]. split_and!; auto; done.
Qed.
Lemma drive_runs fuel now world pc (h h' : list HistoryEntry) o :
  drive fuel (mkInput now world false) true pc h = Some (h', o) → ∃ rows, h' = h ++ rows ∧ runs b spec ov pc rows o.
Proof.
  revert pc h. induction fuel as [|fuel IH]; intros pc h; [done|]. cbn [drive]. rewrite dispatch_step_natural.
  destruct (dispatch_step b spec ov _ pc true ([] : list HistoryEntry)) as [l n] eqn:Hs.
  rewrite record_all_vec. destruct n as [pc'|o'|].
  - intros (rows & -> & Hr)%IH. exists (l ++ rows). rewrite app_assoc. split; [done|]. by eapply runs_go.
  - intros [= <- <-]. exists l. split; [done|]. by eapply runs_end.
  - pose proof (dispatch_stays _ _ _ _ _ Hs) as (-> & _ & Hw & Hst). intros [= <- <-]. exists []. split; [done|].
    destruct Hst as [?|[?%Hw|Hne]]; [done..|]. destruct pc as [| | |i w|]; try (by destruct Hne).
    apply runs_stuck. unfold attempt_ends in Hne. destruct (attempt_result _ _ _ _ _); [by destruct Hne|done].
Qed.

(** Some section leads the dispatch from [pc] to [pc']. *)
Definition dispatch_moves {R} `{HistoryRecorder R} (pc pc' : DispatchPc) : Prop :=
  pc_ok spec pc ∧ ∃ inp woken (h h' : R), dispatch_step b spec ov inp pc woken h = (h', DGo pc').

Lemma dispatch_moves_acc {R} `{HistoryRecorder R} pc : Acc (flip (dispatch_moves (R := R))) pc.
Proof.
  revert pc. apply (well_founded_induction (wf_inverse_image _ _ lt dispatch_rank lt_wf)). intros pc IH. constructor.
  intros pc' (Hok & inp & woken & h & h' & Hs). apply IH. by eapply dispatch_step_ok.
Qed.

(** No step leads to [DStart]. *)
Lemma dispatch_step_not_start {R} `{HistoryRecorder R} inp pc woken (h h' : R) :
  dispatch_step b spec ov inp pc woken h ≠ (h', DGo DStart).
Proof.
  destruct pc as [|i|i w|i w|i le]; cbn.
  - destruct (offline_mode b); [by destruct (pending inp)|]. by destruct (_ <? _)%Z.
  - destruct (pending inp); [done|]. by destruct (listens _ _ _ _).
  - by destruct (_ && _).
  - destruct (pending inp); [done|]. destruct (attempt_result _ _ _ _ _) as [[|e]|]; [done| |done].
    destruct (is_shell_timeout e); [done|]. by destruct (_ <? _)%Z.
  - destruct (pause _); [by destruct (_ && _)|by destruct woken].
Qed.

Lemma dispatch_moves_rank {R} `{HistoryRecorder R} pc pc' :
  dispatch_moves (R := R) pc pc' → pc_ok spec pc' ∧ 4 ≤ dispatch_rank pc' < dispatch_rank pc.
Proof.
  intros (Hok & inp & woken & h & h' & Hs). destruct (dispatch_step_ok _ _ _ _ _ _ Hs Hok). split_and!; [done| |done].
  destruct pc'; cbn in *; try lia. by apply dispatch_step_not_start in Hs.
Qed.
Lemma dispatch_moves_bound {R} `{HistoryRecorder R} n pc pc' :
  nsteps (dispatch_moves (R := R)) n pc pc' → pc_ok spec pc →
  pc_ok spec pc' ∧ (n = 0 ∨ n + 4 ≤ dispatch_rank pc).
Proof.
  induction 1 as [pc|n pc pc1 pc' Hm _ IH]; intros Hpc; [by auto|].
  destruct (dispatch_moves_rank _ _ Hm) as [Hok Hr]. destruct (IH Hok) as [? [->|?]]; split; [done|lia|done|lia].
Qed.

End drive.

(** C9: the steps refine [dispatch] and add nothing to it: the rows and outcomes of the runs
    of the steps, with other tasks in between and stops at any moment, are exactly those
    of [dispatch] over some world; a run without an outcome, for ever past the [select!]
    of an attempt that never ends, is a [dispatch] without one. *)
Theorem dispatch_steps_refine `{Libs} b spec ov rows o :
  runs b spec ov DStart rows o ↔ ∃ world now, dispatch b spec ov world now ([] : list HistoryEntry) = (rows, o).
Proof.
  split; [apply (runs_explained b spec ov DStart)|]. intros (world & now & Hd).
  pose proof (drive_dispatch b spec ov now world ([] : list HistoryEntry)) as Hr. rewrite Hd in Hr.
  by apply drive_runs in Hr as (rows' & -> & Hr).
Qed.

(** C21: a dispatch does not run on: whatever the attempts meet, whenever stops come and
    whatever other tasks do in between, it moves at most 4 times per attempt that the retry
    policy allows, within those attempts, so no run of its sections is infinite. It can
    only be held up, and then records nothing, in an await of the code: one that is not
    over yet; one of the two [select!]s, until a stop wakes it; or past the [select!] of
    an attempt that never ends, which only a job that runs a command can have. Given what
    it awaits, it does what [dispatch] does, and if none of its attempts is of that kind
    it ends with an outcome. *)
Theorem dispatch_terminates `{Libs} {R} `{HistoryRecorder R} b spec ov :
  well_founded (flip (dispatch_moves b spec ov (R := R))) ∧
  (∀ n pc, nsteps (dispatch_moves b spec ov (R := R)) n DStart pc →
     n ≤ 4 * Z.to_nat (max_attempts spec) - 1 ∧ pc_ok spec pc) ∧
  (∀ inp pc woken (h h' : R), dispatch_step b spec ov inp pc woken h = (h', DStay) →
     h' = h ∧ awaits b pc = true ∧ (waits pc = true → woken = false) ∧
     (pending inp = true ∨ waits pc = true ∨
      ∃ i w argv allowed, pc = DFinish i w ∧ kind spec = Exec argv allowed ∧
        ShellExec.ended (ShellExec.execute (Dispatch.sys w) (shell b) argv allowed ov) = None)) ∧
  ∀ now world (h : R),
    drive b spec ov (drive_fuel spec) (mkInput now world false) true DStart h = Some (dispatch b spec ov world now h) ∧
    ((∀ i, is_Some (attempt_result b spec ov world i)) → is_Some (dispatch b spec ov world now h).2).
Proof.
  split_and!; [intros pc; apply dispatch_moves_acc| | |].
  - intros n pc Hn. destruct (dispatch_moves_bound b spec ov n DStart pc Hn I) as [Hok [->|Hle]]; [by split; [lia|]|].
    cbn in Hle. split; [lia|done].
  - intros inp pc woken h h' (-> & Ha & Hw & Hst)%dispatch_stays. split_and!; [done..|].
    destruct Hst as [?|[?|Hne]]; [by left|by right; left|]. right. right. destruct pc as [| | |i w|]; try (by destruct Hne).
    by destruct (attempt_never_ends b spec ov (λ _, w) i Hne) as (argv & allowed & Hk & He); eauto 8.
  - intros now world h. split; [apply drive_dispatch|]. intros Hall. by destruct (dispatch_ends b spec ov world now h Hall) as [o ->].
Qed.

#[local] Existing Instance Sample.libs.
Lemma dispatch_terminates_witness :
  nsteps (dispatch_moves sample_bundle (sample_spec 0 false) [] (R := list HistoryEntry)) 2 DStart (DListen 1 (sample_attempts 1)) ∧
  2 ≤ 4 * Z.to_nat (max_attempts (sample_spec 0 false)) - 1.
Proof.
  assert (nsteps (dispatch_moves sample_bundle (sample_spec 0 false) [] (R := list HistoryEntry)) 2 DStart (DListen 1 (sample_attempts 1))) as Hn.
  { eapply nsteps_l; [split; [exact I|]; exists (mkInput 0 sample_attempts false), false, [], []; vm_compute; reflexivity|].
    eapply nsteps_l; [split; [cbn; vm_compute; split; discriminate|]; exists (mkInput 0 sample_attempts false), false, [], []; reflexivity|]. apply nsteps_O. }
  split; [exact Hn|].
  exact (proj1 (proj1 (proj2 (dispatch_terminates sample_bundle (sample_spec 0 false) [])) 2 (DListen 1 (sample_attempts 1)) Hn)).
Defined.
