(* ===== verification/Locks.v ===== *)
(** * The locks of the process (src/scheduler.rs, src/router.rs)

    Every method as the mutexes it takes and gives back, in order, and a machine in which
    any number of calls contend for them. A guard never lives across a wait, so a call is
    one sequence of events. The registry and the table of running instances are of one tier,
    as is the throttle; the state of a job is of a second tier, taken under the registry. *)
From S2P Require Import Prelude.
From Stdlib Require Import Wellfounded.

Inductive Lock := Jobs | Running | Gate | State (cell : nat).
#[export] Instance Lock_eq_dec : EqDecision Lock.
Proof. solve_decision. Defined.
Inductive Event := Acquire (l : Lock) | Release (l : Lock).

(** [m.lock().unwrap()] around [inner]. *)
Definition under (l : Lock) (inner : list Event) : list Event := Acquire l :: inner ++ [Release l].

(** ** The methods: their arguments are what decides which locks they take *)
(** [register], [register_all]. *)
Definition register_locks : list Event := under Jobs [] ++ under Jobs [].
Definition register_all_locks (n : nat) : list Event := concat (replicate n register_locks).
Definition begin_running_locks : list Event := under Running [].
Definition remove_running_locks : list Event := under Running [].
(** [record_outcome] and [record_skip]. *)
Definition record_locks (cell : nat) : list Event := under (State cell) [].
(** [trigger_now], by whether the job is registered and whether it runs; and the task it spawns. *)
Definition trigger_now_locks (found running : bool) : list Event :=
  under Jobs [] ++
  (if found then begin_running_locks ++ (if running then [] else under Running []) else []).
Definition run_locks (cell : nat) : list Event := record_locks cell ++ remove_running_locks.
(** One round of [scheduling_loop]: outside its window, while the job runs, or a fire. *)
Inductive Fire := OutsideWindow | StillRunning | Fires.
Definition loop_locks (cell : nat) (f : Fire) : list Event :=
  match f with
  | OutsideWindow => record_locks cell
  | StillRunning => begin_running_locks
  | Fires => begin_running_locks ++ under Running [] ++ run_locks cell
  end.
Definition stop_locks (found : bool) : list Event := under Jobs [] ++ (if found then under Running [] else []).
(** [describe] takes the state of each selected job under the registry, [describe_running] that
    of each job of its snapshot that is registered. *)
Definition states_locks (cells : list nat) : list Event := cells ≫= λ c, under (State c) [].
Definition describe_locks (cells : list nat) : list Event := under Jobs (states_locks cells).
Definition describe_running_locks (cells : list nat) : list Event := under Running [] ++ under Jobs (states_locks cells).
Definition job_count_locks : list Event := under Jobs [].
Definition reload_from_locks (n : nat) : list Event := under Running [] ++ under Jobs [] ++ register_all_locks n.
(** [ReloadGate::admit]: without a throttle it takes no lock. *)
Definition admit_locks (throttled : bool) : list Event := if throttled then under Gate [] else [].

(** What can be called in a process. *)
Inductive call_locks : list Event → Prop :=
  | call_register_all n : call_locks (register_all_locks n)
  | call_trigger_now found running : call_locks (trigger_now_locks found running)
  | call_run cell : call_locks (run_locks cell)
  | call_loop cell f : call_locks (loop_locks cell f)
  | call_stop found : call_locks (stop_locks found)
  | call_describe cells : call_locks (describe_locks cells)
  | call_describe_running cells : call_locks (describe_running_locks cells)
  | call_job_count : call_locks job_count_locks
  | call_reload_from n : call_locks (reload_from_locks n)
  | call_admit throttled : call_locks (admit_locks throttled).

(** ** The machine: each task has the locks it holds, the last taken first, and its events to come *)
Definition LockTask : Type := list Lock * list Event.
Definition held_by (ts : list LockTask) (l : Lock) : Prop := ∃ t, t ∈ ts ∧ l ∈ t.1.
(** The next event of a task; a lock that is held, also by the task itself, is waited for. *)
Inductive lock_step : list LockTask → list LockTask → Prop :=
  | step_acquire ts1 ts2 held l rest : ¬ held_by (ts1 ++ (held, Acquire l :: rest) :: ts2) l →
      lock_step (ts1 ++ (held, Acquire l :: rest) :: ts2) (ts1 ++ (l :: held, rest) :: ts2)
  | step_release ts1 ts2 held l rest :
      lock_step (ts1 ++ (l :: held, Release l :: rest) :: ts2) (ts1 ++ (held, rest) :: ts2).
Inductive lock_call : list LockTask → list LockTask → Prop :=
  | step_call ts es : call_locks es → lock_call ts (ts ++ [([], es)]).
Definition locks_reachable : list LockTask → Prop := rtc (λ ts ts', lock_call ts ts' ∨ lock_step ts ts') [].
Definition done (t : LockTask) : bool := match t.2 with [] => true | _ => false end.

(** ** The discipline: locks are taken by tier, and given back in the reverse order *)
Definition tier (l : Lock) : nat := match l with State _ => 1 | _ => 0 end.
Definition above (held : list Lock) (l : Lock) : Prop := Forall (λ h, tier h < tier l) held.
Inductive disciplined : list Lock → list Event → Prop :=
  | disc_done : disciplined [] []
  | disc_acquire held l rest : above held l → disciplined (l :: held) rest → disciplined held (Acquire l :: rest)
  | disc_release held l rest : disciplined held rest → disciplined (l :: held) (Release l :: rest).

Lemma disciplined_app held es1 es2 : disciplined held es1 → disciplined [] es2 → disciplined held (es1 ++ es2).
Proof. intros H1 H2. induction H1; cbn; [done|by constructor|by constructor]. Qed.
Lemma disciplined_under held l inner rest :
  above held l → (∀ rest, disciplined (l :: held) rest → disciplined (l :: held) (inner ++ rest)) →
  disciplined held rest → disciplined held (under l inner ++ rest).
Proof.
  intros Ha Hi Hr. unfold under. cbn. apply disc_acquire; [done|]. rewrite <- app_assoc. apply Hi. by apply disc_release.
Qed.
Lemma disciplined_section l : disciplined [] (under l []).
Proof. by repeat constructor. Qed.
Lemma disciplined_states cells rest : disciplined [Jobs] rest → disciplined [Jobs] (states_locks cells ++ rest).
Proof.
  intros Hr. induction cells as [|c cells IH]; [done|]. cbn [states_locks mbind list_bind]. rewrite <- app_assoc.
  apply disciplined_under; [by repeat constructor|done|exact IH].
Qed.
Lemma disciplined_describe cells : disciplined [] (describe_locks cells).
Proof.
  rewrite <- (app_nil_r (describe_locks cells)). apply disciplined_under; [constructor| |constructor].
  intros rest. apply disciplined_states.
Qed.
Lemma disciplined_register_all n : disciplined [] (register_all_locks n).
Proof.
  induction n as [|n IH]; [constructor|]. change (register_all_locks (S n)) with (register_locks ++ register_all_locks n).
  apply disciplined_app; [|exact IH]. apply disciplined_app; apply disciplined_section.
Qed.

(** Every method keeps it. *)
Lemma calls_disciplined es : call_locks es → disciplined [] es.
Proof.
  pose proof disciplined_section as Hs. destruct 1 as [n|[] []|cell|cell []|[]|cells|cells| |n|[]]; cbn [trigger_now_locks stop_locks admit_locks];
    repeat first [apply disciplined_register_all|apply disciplined_describe|apply Hs|apply disciplined_app|apply disc_done].
Qed.

Record LockInv (ts : list LockTask) : Prop := mkLockInv
  { li_disciplined : Forall (λ t, disciplined t.1 t.2) ts;
    li_tiers : Forall (λ t, NoDup (tier <$> t.1)) ts;
    li_exclusive : NoDup (concat (fst <$> ts)) }.

Lemma held_concat ts l : held_by ts l ↔ l ∈ concat (fst <$> ts).
Proof.
  unfold held_by. rewrite list_elem_of_In, in_concat. split.
  - intros (t & Ht & Hl). exists t.1. split; [by apply list_elem_of_In, list_elem_of_fmap_2|by apply list_elem_of_In].
  - intros (h & (t & -> & Ht)%list_elem_of_In%list_elem_of_fmap & Hl%list_elem_of_In). by exists t.
Qed.

Lemma lock_inv_step ts ts' : lock_step ts ts' → LockInv ts → LockInv ts'.
Proof.
  intros Hs [Hd Ht He]. destruct Hs as [ts1 ts2 held l rest Hfree|ts1 ts2 held l rest];
    apply Forall_app in Hd as [Hd1 [Hd Hd2]%Forall_cons]; apply Forall_app in Ht as [Ht1 [Ht Ht2]%Forall_cons];
    cbn in Hd, Ht; rewrite fmap_app, concat_app in He; cbn in He.
  - inversion Hd as [|? ? ? Ha Hrest|]; subst. split.
    + apply Forall_app. split; [done|]. by constructor.
    + apply Forall_app. split; [done|]. constructor; [|done]. cbn. constructor; [|done].
      intros (h & Hh & Hin)%list_elem_of_fmap. unfold above in Ha. rewrite Forall_forall in Ha. specialize (Ha h Hin). lia.
    + rewrite held_concat, fmap_app, concat_app in Hfree. rewrite fmap_app, concat_app. cbn in *.
      rewrite <- Permutation_middle. by constructor.
  - inversion Hd; subst. apply NoDup_cons in Ht as [_ Ht]. rewrite <- Permutation_middle in He. apply NoDup_cons in He as [_ He]. split.
    + apply Forall_app. split; [done|]. by constructor.
    + apply Forall_app. split; [done|]. by constructor.
    + by rewrite fmap_app, concat_app.
Qed.

Lemma lock_inv_reachable ts : locks_reachable ts → LockInv ts.
Proof.
  unfold locks_reachable. intros Hr. pattern ts. revert ts Hr. apply rtc_ind_r.
  - by split; constructor.
  - intros ts1 ts2 _ [Hc|Hs] IH; [|by eapply lock_inv_step]. destruct Hc as [ts es Hc]. destruct IH as [Hd Ht He]. split.
    + apply Forall_app. split; [done|]. constructor; [|done]. by apply calls_disciplined.
    + apply Forall_app. split; [done|]. constructor; [|done]. constructor.
    + rewrite fmap_app, concat_app. cbn. by rewrite app_nil_r.
Qed.

(** ** Progress *)
#[export] Instance held_by_dec ts l : Decision (held_by ts l).
Proof. refine (cast_if (decide (l ∈ concat (fst <$> ts)))); by rewrite held_concat. Defined.

(** A task that waits for a lock, or holds one, leads to a task that can move: the holder of
    the lock is not done, and waits only for a lock of a higher tier. *)
Lemma waiting_progress ts l : LockInv ts → held_by ts l → ∃ ts', lock_step ts ts'.
Proof.
  intros [Hd _ _]. rewrite Forall_forall in Hd. remember (1 - tier l) as n eqn:Hn. revert l Hn.
  induction n as [n IH] using (well_founded_induction lt_wf). intros l -> (t & Hin & Hl).
  pose proof (Hd _ Hin) as Ht. apply list_elem_of_split in Hin as (ts1 & ts2 & ->). destruct t as [held todo]. cbn in Hl, Ht.
  destruct Ht as [|held l' rest Ha Hrest|held l' rest _]; [by apply not_elem_of_nil in Hl| |eexists; apply step_release].
  destruct (decide (held_by (ts1 ++ (held, Acquire l' :: rest) :: ts2) l')) as [Hh|Hh]; [|eexists; by apply step_acquire].
  apply (IH (1 - tier l')) with l'; [|done|done]. unfold above in Ha. rewrite Forall_forall in Ha. specialize (Ha l Hl).
  destruct l, l'; cbn in *; lia.
Qed.

Lemma lock_progress ts : LockInv ts → forallb done ts = false → ∃ ts', lock_step ts ts'.
Proof.
  intros Hi Hts. pose proof (li_disciplined _ Hi) as Hd. rewrite Forall_forall in Hd.
  destruct (forallb_lookup_false _ _ Hts) as (i & t & Hin%list_elem_of_lookup_2 & Ht).
  pose proof (Hd _ Hin) as Hdt. apply list_elem_of_split in Hin as (ts1 & ts2 & ->). destruct t as [held todo]. cbn in Hdt, Ht.
  destruct Hdt as [|held l rest Ha Hrest|held l rest _]; [done| |eexists; apply step_release].
  destruct (decide (held_by (ts1 ++ (held, Acquire l :: rest) :: ts2) l)) as [Hh|Hh]; [by apply (waiting_progress _ l)|].
  eexists. by apply step_acquire.
Qed.

(** Every step uses an event up. *)
Definition events_left (ts : list LockTask) : nat := sum_list_with (length ∘ snd) ts.
Lemma lock_step_decreases ts ts' : lock_step ts ts' → events_left ts' < events_left ts.
Proof. destruct 1; unfold events_left; rewrite !sum_list_with_app; cbn; lia. Qed.
Lemma lock_step_acc ts : Acc (flip lock_step) ts.
Proof.
  apply (wf_incl _ _ (ltof _ events_left)); [|apply well_founded_ltof]. intros ts' ts0. apply lock_step_decreases.
Qed.
(** Calls end when no new ones come. *)
Lemma locks_finish ts : LockInv ts → ∃ ts', rtc lock_step ts ts' ∧ forallb done ts' = true.
Proof.
  induction (lock_step_acc ts) as [ts _ IH]. intros Hi. destruct (forallb done ts) eqn:Hd; [by exists ts|].
  destruct (lock_progress ts Hi Hd) as [ts1 Hs]. destruct (IH ts1 Hs) as (ts' & Hr & Ht); [by eapply lock_inv_step|].
  exists ts'. split; [by eapply rtc_l|done].
Qed.

(** C14: no interleaving of calls deadlocks: in every state that any number of concurrent calls can
    reach, no task holds the registry and the table of running instances at once and no lock
    has two holders; as long as a call is not over some task can move; and without new
    calls all of them end, since no run of steps is infinite. *)
Theorem locks_never_deadlock ts :
  locks_reachable ts →
  (∀ t, t ∈ ts → ¬ (Jobs ∈ t.1 ∧ Running ∈ t.1)) ∧
  (∀ i j t1 t2 l, ts !! i = Some t1 → ts !! j = Some t2 → l ∈ t1.1 → l ∈ t2.1 → i = j) ∧
  (forallb done ts = false → ∃ ts', lock_step ts ts') ∧
  Acc (flip lock_step) ts ∧
  ∃ ts', rtc lock_step ts ts' ∧ forallb done ts' = true.
Proof.
  intros Hi%lock_inv_reachable. split_and!.
  - intros t Hin [Hj Hr]. pose proof (li_tiers _ Hi) as Ht. rewrite Forall_forall in Ht.
    by assert (Jobs = Running) by by apply (NoDup_fmap_once tier t.1 _ _ (Ht t Hin)).
  - intros i j t1 t2 l. apply NoDup_concat_index, (li_exclusive _ Hi).
  - by apply lock_progress.
  - apply lock_step_acc.
  - by apply locks_finish.
Qed.

(** A snapshot of the registry next to a reload: the reload waits for it, or it for the reload. *)
Lemma locks_never_deadlock_witness :
  ∃ ts ts', ts = [([Jobs], [Acquire (State 0); Release (State 0); Release Jobs]); ([Running], Release Running :: under Jobs [] ++ register_all_locks 1)] ∧
    lock_step ts ts'.
Proof.
  set (ts := [([Jobs], [Acquire (State 0); Release (State 0); Release Jobs]); ([Running], Release Running :: under Jobs [] ++ register_all_locks 1)]).
  assert (locks_reachable ts) as Hr.
  { eapply rtc_l; [left; apply (step_call [] _ (call_describe [0]))|].
    eapply rtc_l; [left; apply (step_call [_] _ (call_reload_from 1))|].
    eapply rtc_l; [right; apply (step_acquire [] [_] []); intros (t & Ht & Hl); repeat (apply elem_of_cons in Ht as [->|Ht]; [by apply not_elem_of_nil in Hl|]); by apply not_elem_of_nil in Ht|].
    eapply rtc_l; [right; apply (step_acquire [_] [] [])|apply rtc_refl].
    intros (t & Ht & Hl). repeat (apply elem_of_cons in Ht as [->|Ht]; [by repeat (apply elem_of_cons in Hl as [Hl|Hl]; [done|]); apply not_elem_of_nil in Hl|]).
    by apply not_elem_of_nil in Ht. }
  destruct (locks_never_deadlock ts Hr) as (_ & _ & Hp & _ & _). destruct (Hp eq_refl) as [ts' Hs].
  exists ts, ts'. exact (conj eq_refl Hs).
Defined.

(** ** The test of scheduler.rs that looks for a deadlock

    [describe_running_and_reload_do_not_deadlock]: one task reads the running instances, one
    reloads a tree of one job, one stops that job, each over and over. What a read finds in the
    registry and whether a stop finds the job depends on the interleaving, so all are allowed;
    so is every number of rounds. *)
Definition lanes (reads : list (list nat)) (reloads : nat) (stops : list bool) : list LockTask :=
  [([], reads ≫= describe_running_locks); ([], concat (replicate reloads (reload_from_locks 1))); ([], stops ≫= stop_locks)].

Lemma disciplined_calls ess : Forall call_locks ess → disciplined [] (concat ess).
Proof. induction 1; [constructor|]. apply disciplined_app; [by apply calls_disciplined|done]. Qed.
Lemma disciplined_rounds {A} (f : A → list Event) l : (∀ x, call_locks (f x)) → disciplined [] (l ≫= f).
Proof.
  intros Hf. induction l as [|x l IH]; [constructor|]. cbn [mbind list_bind]. apply disciplined_app; [by apply calls_disciplined|exact IH].
Qed.
Lemma lanes_inv reads reloads stops : LockInv (lanes reads reloads stops).
Proof.
  split; [|repeat constructor|constructor]. repeat constructor.
  - apply disciplined_rounds. constructor.
  - apply disciplined_calls, Forall_replicate. constructor.
  - apply disciplined_rounds. constructor.
Qed.

(** The test passes: in every interleaving of the rounds some task can move until all are over. *)
Theorem deadlock_test_passes reads reloads stops ts :
  rtc lock_step (lanes reads reloads stops) ts →
  (forallb done ts = false → ∃ ts', lock_step ts ts') ∧ ∃ ts', rtc lock_step ts ts' ∧ forallb done ts' = true.
Proof.
  intros Hr. assert (LockInv ts) as Hi.
  { revert Hr. generalize (lanes_inv reads reloads stops). intros Hi Hr. induction Hr as [|x y z Hs _ IH]; [done|].
    apply IH. by eapply lock_inv_step. }
  split; [by apply lock_progress|by apply locks_finish].
Qed.
