(* ===== verification/Scheduler.v ===== *)
(** * Scheduler (src/scheduler.rs): state and operations

    The registry, the table of running instances and the runtime state of the jobs, with
    one definition per locked section of the source and one per method of [Scheduler].
    A shared [JobRuntimeState] is a cell of a store, so that a registration and its loop
    alias it; a [Notify] is a token, and [waiters] has those that a task awaits. A spawned
    task is a [Thread]; [SchedulerSteps] gives the interleavings. *)
From S2P Require Import Prelude RStr Errors Dsl History Config Libs Dispatch DispatchSteps.

Record JobDescriptor := mkDescriptor
  { dname : string; dschedule : string; last_execution : Z; next_execution : Z; dlast_result : string }.
#[export] Instance JobDescriptor_eq_dec : EqDecision JobDescriptor.
Proof. solve_decision. Defined.

Record JobRuntimeState := mkRuntime { last_execution_ms : option Z; last_result : string }.
Definition JobRuntimeState_default : JobRuntimeState := mkRuntime None "".

(** [state] is the cell. The join handle is not kept: dropping it detaches the task. *)
Record RegisteredJob := mkRegistered { reg_spec : JobSpec; state : nat }.
Record RunningInstance := mkRunning { started_at_ms : Z; schedule : string; cancel : nat }.

(** ** Tasks *)

(** A run between [begin_running] and the removal of its entry. *)
Inductive RunPc :=
  | Begun                              (** about to fetch its token *)
  | Dispatching (token : nat) (pc : DispatchPc)
  | Finishing (o : DispatchOutcome)    (** about to [record_outcome] *)
  | Releasing.                         (** about to remove its entry *)
(** The points of [scheduling_loop] between its locked sections. *)
Inductive LoopPc :=
  | LStart | LWait | LSleep (due : Z) | LSkipped (now_ms : Z) | LBegin | LRun (pc : RunPc).
Inductive TriggerPc :=
  | TLookup | TBegin (spec : JobSpec) (cell : nat) | TRun (spec : JobSpec) (cell : nat) (pc : RunPc).
Inductive RegisterPc := RRemove | RSpawn (cell : nat) | RInsert (cell : nat).

(** A task of the runtime: a scheduling loop, or a call of a method with the task it
    spawns. A [Panicked] one failed an [expect]. *)
Inductive Thread :=
  | Loop (spec : JobSpec) (expr : string) (cell : nat) (pc : LoopPc)
  | Trigger (key : JobKey) (extras : list (string * string)) (pc : TriggerPc)
  | Stop (key : JobKey) (checked : bool)
  | Registering (todo : list JobSpec) (pc : RegisterPc)
  | ReloadNotify (loaded : list JobSpec)
  | ReloadClear (loaded : list JobSpec)
  | Done
  | Panicked.

(** [waiters] maps a token that is awaited to whether [notify_waiters] has woken it since. *)
Record Shared (R : Type) := mkShared
  { jobs : gmap JobKey RegisteredJob; running : gmap JobKey RunningInstance;
    cells : list JobRuntimeState; history : R; next_token : nat; waiters : gmap nat bool }.
Arguments mkShared {R}.
Arguments jobs {R}.
Arguments running {R}.
Arguments cells {R}.
Arguments history {R}.
Arguments next_token {R}.
Arguments waiters {R}.

Definition wake (tokens : list nat) (m : gmap nat bool) : gmap nat bool :=
  foldl (λ m c, alter (λ _, true) c m) m tokens.

Definition schedule_str (t : Dsl.Trigger) : string := match t with Cron e => e | Manual => "" end.

Section sections.
Context {R : Type}.
Implicit Types s : Shared R.

(** ** Locked sections *)
Definition set_jobs (m : gmap JobKey RegisteredJob) s : Shared R :=
  mkShared m (running s) (cells s) (history s) (next_token s) (waiters s).
Definition set_running (m : gmap JobKey RunningInstance) s : Shared R :=
  mkShared (jobs s) m (cells s) (history s) (next_token s) (waiters s).
Definition set_cells (c : list JobRuntimeState) s : Shared R :=
  mkShared (jobs s) (running s) c (history s) (next_token s) (waiters s).
Definition set_history (h : R) s : Shared R :=
  mkShared (jobs s) (running s) (cells s) h (next_token s) (waiters s).
Definition set_waiters (m : gmap nat bool) s : Shared R :=
  mkShared (jobs s) (running s) (cells s) (history s) (next_token s) m.
(** [notify_waiters] on each token: no permit is left where nothing waits. *)
Definition notify (tokens : list nat) s : Shared R := set_waiters (wake tokens (waiters s)) s.

(** [Arc::new(Mutex::new(JobRuntimeState::default()))]. *)
Definition new_cell s : nat * Shared R :=
  (length (cells s), set_cells (cells s ++ [JobRuntimeState_default]) s).

Definition begin_running (key : JobKey) (sched : string) (now : Z) s : result (Shared R) CronManagerError :=
  match running s !! key with
  | Some _ => Err (JobAlreadyRunning (group key) (name key))
  | None =>
      let inst := mkRunning now sched (next_token s) in
      Ok (mkShared (jobs s) (<[key := inst]> (running s)) (cells s) (history s) (S (next_token s)) (waiters s))
  end.
Definition remove_running (key : JobKey) s : Shared R := set_running (delete key (running s)) s.

Definition record_outcome (cell : nat) (o : DispatchOutcome) (now : Z) s : Shared R :=
  set_cells (<[cell := mkRuntime (Some now) (as_str (status o))]> (cells s)) s.
Definition record_skip (cell : nat) (now_ms : Z) s : Shared R :=
  set_cells (<[cell := mkRuntime (Some now_ms) "SKIPPED"]> (cells s)) s.

(** The row of a fire outside the job's window. *)
Definition skipped_row (spec : JobSpec) (now : Z) : HistoryEntry :=
  mkHistoryEntry now (name (key spec)) (group (key spec)) (type_label (kind spec)) (Some 0%Z) Skipped
    None None None 1 1 None (Some "outside time window").

Definition job_not_found (key : JobKey) : CronManagerError := JobNotFound (group key) (name key).
Definition lookup_job (key : JobKey) s : result RegisteredJob CronManagerError :=
  ok_or (jobs s !! key) (job_not_found key).

(** ** Methods

    Each runs its sections without interruption, on the shared state and the tasks. *)
Definition Sys : Type := Shared R * list Thread.

Definition register (spec : JobSpec) (y : Sys) : Sys :=
  let (s, threads) := y in
  let k := Dsl.key spec in
  let (cell, s) := new_cell s in
  let s := set_jobs (delete k (jobs s)) s in
  let threads := match trigger spec with
                 | Cron expr => threads ++ [Loop spec expr cell LStart]
                 | Manual => threads
                 end in
  (set_jobs (<[k := mkRegistered spec cell]> (jobs s)) s, threads).

Definition register_all (specs : list JobSpec) (y : Sys) : Sys := foldl (λ y spec, register spec y) y specs.

(** On success the run is a new task that holds its token. The second lookup of [running]
    is [expect]ed to succeed: [None] is the panic. *)
Definition trigger_now (key : JobKey) (extras : list (string * string)) (now : Z) (y : Sys) :
    option (Sys * result unit CronManagerError) :=
  let (s, threads) := y in
  match lookup_job key s with
  | Err e => Some (y, Err e)
  | Ok entry =>
      match begin_running key (schedule_str (trigger (reg_spec entry))) now s with
      | Err e => Some (y, Err e)
      | Ok s' =>
          inst ← running s' !! key;
          Some ((s', threads ++ [Trigger key extras (TRun (reg_spec entry) (state entry) (Dispatching (cancel inst) DStart))]), Ok tt)
      end
  end.

Definition stop (key : JobKey) s : Shared R * result bool CronManagerError :=
  match jobs s !! key with
  | None => (s, Err (job_not_found key))
  | Some _ =>
      match running s !! key with
      | Some inst => (notify [cancel inst] s, Ok true)
      | None => (s, Ok false)
      end
  end.

Definition notify_running s : Shared R := notify ((λ e, cancel e.2) <$> map_to_list (running s)) s.
Definition reload_from (loaded : list LoadedJob) (y : Sys) : Sys * result nat CronManagerError :=
  let (s, threads) := y in
  let s := set_jobs ∅ (notify_running s) in
  (register_all (spec <$> loaded) (s, threads), Ok (length loaded)).

Definition job_count s : nat := size (jobs s).
End sections.
Arguments Sys : clear implicits.

(** ** Snapshots *)
Section describe.
Context `{Libs} {R : Type}.
Implicit Types s : Shared R.

Definition next_fire_ms (expr : string) (now : Z) : Z :=
  match cron_from_str expr with Ok sch => default 0%Z (upcoming_next sch now) | Err _ => 0%Z end.

Abbreviation Rows := (gmap string (list JobDescriptor)).

(** [out.entry(group).or_default().push(row)]. *)
Definition push (out : Rows) (g : string) (d : JobDescriptor) : Rows :=
  <[g := default [] (out !! g) ++ [d]]> out.
(** [sort_by] on the names. *)
Definition sort_rows (l : list JobDescriptor) : list JobDescriptor :=
  (sort_by_key ((λ d, (dname d, d)) <$> l)).*2.
Definition selected (group_filter : option string) (k : JobKey) : bool :=
  match group_filter with Some g => String.eqb (group k) g | None => true end.

Definition job_row (now : Z) s (k : JobKey) (entry : RegisteredJob) : JobDescriptor :=
  let '(sched, next) := match trigger (reg_spec entry) with
                        | Cron expr => (expr, next_fire_ms expr now)
                        | Manual => (EmptyString, 0%Z)
                        end in
  let st := default JobRuntimeState_default (cells s !! state entry) in
  mkDescriptor (name k) sched (default 0%Z (last_execution_ms st)) next (last_result st).

(** [describe] on the entries in the order the hash map yields them. *)
Definition describe_entries (now : Z) s (group_filter : option string)
    (entries : list (JobKey * RegisteredJob)) : Rows :=
  sort_rows <$> foldl (λ out '(k, entry),
    if selected group_filter k then push out (group k) (job_row now s k entry) else out) ∅ entries.
Definition describe (now : Z) s (group_filter : option string) : Rows :=
  describe_entries now s group_filter (map_to_list (jobs s)).

Definition running_row s (k : JobKey) (inst : RunningInstance) : JobDescriptor :=
  let res := match jobs s !! k with
             | Some j => last_result (default JobRuntimeState_default (cells s !! state j))
             | None => EmptyString
             end in
  mkDescriptor (name k) (schedule inst) (started_at_ms inst) 0 res.
Definition describe_running_entries s (group_filter : option string)
    (entries : list (JobKey * RunningInstance)) : Rows :=
  sort_rows <$> foldl (λ out '(k, inst), push out (group k) (running_row s k inst)) ∅
    (List.filter (λ e, selected group_filter e.1) entries).
Definition describe_running s (group_filter : option string) : Rows :=
  describe_running_entries s group_filter (map_to_list (running s)).
End describe.

(** ** Snapshots do not depend on the order of the hash maps *)
Section grouping.
Context {E : Type} (row : JobKey → E → JobDescriptor).

(** The rows that [push]ing the entries one by one gives a group. *)
Definition rows_of (g : string) (entries : list (JobKey * E)) : list JobDescriptor :=
  (λ e, row e.1 e.2) <$> List.filter (λ e, String.eqb (group e.1) g) entries.
Definition push_all (out : gmap string (list JobDescriptor)) (entries : list (JobKey * E)) :=
  foldl (λ out '(k, x), push out (group k) (row k x)) out entries.

Lemma push_all_lookup out entries g :
  push_all out entries !! g =
    match rows_of g entries with [] => out !! g | l => Some (default [] (out !! g) ++ l) end.
Proof.
  unfold push_all, rows_of. revert out. induction entries as [|[k x] entries IH]; intros out; [done|].
  cbn [foldl List.filter fst]. rewrite IH. unfold push.
  destruct (String.eqb_spec (group k) g) as [<-|Hne].
  - rewrite lookup_insert_eq. cbn. destruct (_ <$> List.filter _ entries); [done|]. cbn. by rewrite <- app_assoc.
  - by rewrite lookup_insert_ne.
Qed.

Lemma rows_of_perm g l1 l2 : l1 ≡ₚ l2 → rows_of g l1 ≡ₚ rows_of g l2.
Proof.
  intros Hp. unfold rows_of. apply fmap_Permutation.
  induction Hp as [|e l1 l2 _ IH|e1 e2 l|l1 l2 l3 _ IH1 _ IH2]; cbn; [done| | |by etrans].
  - destruct (String.eqb _ _); [by constructor|done].
  - destruct (String.eqb (group e1.1) g), (String.eqb (group e2.1) g); try done. constructor.
Qed.

Context (row_name : ∀ k x, dname (row k x) = name k).

Lemma rows_of_names_NoDup g (entries : list (JobKey * E)) :
  NoDup entries.*1 → NoDup (dname <$> rows_of g entries).
Proof.
  unfold rows_of. induction entries as [|[k x] entries IH]; [constructor|]. cbn. intros [Hk Hnd]%NoDup_cons.
  destruct (String.eqb_spec (group k) g) as [Hg|]; [|by apply IH]. cbn. constructor; [|by apply IH].
  rewrite row_name. intros (d & Hd & (e & -> & He)%list_elem_of_fmap)%list_elem_of_fmap.
  apply list_elem_of_In, filter_In in He as [He Hge]. apply String.eqb_eq in Hge.
  apply Hk. apply list_elem_of_fmap. exists e. split; [|by apply list_elem_of_In].
  rewrite row_name in Hd. destruct k, (e.1); cbn in *. congruence.
Qed.

Lemma sort_rows_perm l : sort_rows l ≡ₚ l.
Proof.
  unfold sort_rows. rewrite sort_by_key_perm, <- list_fmap_compose. unfold compose. cbn.
  by rewrite list_fmap_id.
Qed.

Lemma sort_rows_unique l1 l2 : NoDup (dname <$> l1) → l1 ≡ₚ l2 → sort_rows l1 = sort_rows l2.
Proof.
  intros Hnd Hp. unfold sort_rows. f_equal. apply sort_by_key_unique; [|by rewrite Hp].
  by rewrite <- list_fmap_compose.
Qed.

Lemma sort_rows_sorted l : StronglySorted (λ d1 d2, String.le (dname d1) (dname d2)) (sort_rows l).
Proof.
  unfold sort_rows. pose proof (sort_by_key_sorted ((λ d, (dname d, d)) <$> l)) as Hs.
  assert (Forall (λ e : string * JobDescriptor, e.1 = dname e.2) (sort_by_key ((λ d, (dname d, d)) <$> l))) as Hf.
  { rewrite sort_by_key_perm. apply Forall_fmap, Forall_true. done. }
  revert Hf. induction Hs as [|e es _ IH Hle]; intros Hf; [constructor|]. apply Forall_cons_1 in Hf as [He Hf].
  cbn. constructor; [by apply IH|]. apply Forall_fmap. rewrite Forall_forall in Hle, Hf |- *.
  intros e' He'. specialize (Hle e' He'). unfold key_le in Hle. cbn. by rewrite <- He, <- (Hf e' He').
Qed.

(** Grouping and sorting, on any permutation of the entries. *)
Lemma grouped_unique l1 l2 :
  NoDup l1.*1 → l1 ≡ₚ l2 → sort_rows <$> push_all ∅ l1 = sort_rows <$> push_all ∅ l2.
Proof.
  intros Hnd Hp. apply map_eq. intros g. rewrite !lookup_fmap, !push_all_lookup, lookup_empty.
  pose proof (rows_of_perm g l1 l2 Hp) as Hr. pose proof (rows_of_names_NoDup g l1 Hnd) as Hn.
  destruct (rows_of g l1) as [|d ds], (rows_of g l2) as [|d' ds']; try done.
  - by apply Permutation_nil_cons in Hr.
  - symmetry in Hr. by apply Permutation_nil_cons in Hr.
  - change (Some (sort_rows (d :: ds)) = Some (sort_rows (d' :: ds'))). f_equal. by apply sort_rows_unique.
Qed.

Lemma grouped_elem entries g rows d :
  (sort_rows <$> push_all ∅ entries) !! g = Some rows →
  d ∈ rows ↔ ∃ k x, (k, x) ∈ entries ∧ group k = g ∧ d = row k x.
Proof.
  rewrite lookup_fmap, push_all_lookup, lookup_empty.
  assert (∀ l, rows_of g entries = l → d ∈ l ↔ ∃ k x, (k, x) ∈ entries ∧ group k = g ∧ d = row k x) as Hl.
  { intros l <-. unfold rows_of. rewrite list_elem_of_fmap. split.
    - intros ([k x] & -> & Hin). apply list_elem_of_In, filter_In in Hin as [Hin Hg%String.eqb_eq].
      exists k, x. split_and!; [by apply list_elem_of_In|done|done].
    - intros (k & x & Hin & Hg & ->). exists (k, x). split; [done|].
      apply list_elem_of_In, filter_In. split; [by apply list_elem_of_In|by apply String.eqb_eq]. }
  destruct (rows_of g entries) as [|d' ds]; [done|].
  change (sort_rows <$> Some (default [] None ++ d' :: ds)) with (Some (sort_rows (d' :: ds))).
  intros [= <-]. rewrite sort_rows_perm. by apply Hl.
Qed.
End grouping.

Section snapshots.
Context `{Libs} {R : Type} (now : Z) (s : Shared R).

Lemma job_row_name k j : dname (job_row now s k j) = name k.
Proof. unfold job_row. by destruct (trigger (reg_spec j)). Qed.

(** [describe] is grouping and sorting on the selected entries. *)
Lemma describe_entries_grouped f entries :
  describe_entries now s f entries =
    sort_rows <$> push_all (job_row now s) ∅ (List.filter (λ e, selected f e.1) entries).
Proof.
  unfold describe_entries, push_all. f_equal. generalize (∅ : gmap string (list JobDescriptor)).
  induction entries as [|[k j] entries IH]; intros out; [done|]. cbn. rewrite IH.
  by destruct (selected f k).
Qed.

Lemma filter_entries_perm {A} (p : A → bool) l1 l2 : l1 ≡ₚ l2 → List.filter p l1 ≡ₚ List.filter p l2.
Proof.
  induction 1 as [|e l1 l2 _ IH|e1 e2 l|l1 l2 l3 _ IH1 _ IH2]; cbn; [done| | |by etrans].
  - destruct (p e); [by constructor|done].
  - destruct (p e1), (p e2); try done. constructor.
Qed.

Lemma filter_keys_NoDup {A} (p : JobKey * A → bool) l : NoDup l.*1 → NoDup (List.filter p l).*1.
Proof.
  induction l as [|e l IH]; [done|]. cbn. intros [He Hnd]%NoDup_cons. destruct (p e); [|by apply IH].
  cbn. constructor; [|by apply IH]. intros (e' & Heq & Hin)%list_elem_of_fmap.
  apply He, list_elem_of_fmap. exists e'. split; [done|]. by apply list_elem_of_In, filter_In, proj1, list_elem_of_In in Hin.
Qed.
End snapshots.

(** [describe] does not depend on the order in which the hash map yields the jobs: for
    every enumeration it is the same map, whose group [g] lists exactly the selected jobs
    of [g], sorted by name, each with the outcome in its runtime cell and its next fire. *)
Theorem describe_spec `{Libs} {R} now (s : Shared R) f entries :
  entries ≡ₚ map_to_list (jobs s) →
  describe_entries now s f entries = describe now s f ∧
  ∀ g rows, describe now s f !! g = Some rows →
    StronglySorted (λ d1 d2, String.le (dname d1) (dname d2)) rows ∧
    ∀ d, d ∈ rows ↔ ∃ k j, jobs s !! k = Some j ∧ selected f k = true ∧ group k = g ∧ d = job_row now s k j.
Proof.
  intros Hp. unfold describe. rewrite !describe_entries_grouped. split.
  - apply grouped_unique; [apply job_row_name| |by apply filter_entries_perm].
    apply filter_keys_NoDup. rewrite Hp. apply NoDup_fst_map_to_list.
  - intros g rows Hrows. split.
    + rewrite lookup_fmap in Hrows. destruct (push_all _ _ _ !! g); [|done]. injection Hrows as <-. apply sort_rows_sorted.
    + intros d. rewrite (grouped_elem _ _ _ _ _ Hrows). split; intros (k & j & Hx).
      * destruct Hx as (Hin & Hg & ->). apply list_elem_of_In, filter_In in Hin as [Hin Hsel].
        apply list_elem_of_In, elem_of_map_to_list in Hin. by exists k, j.
      * destruct Hx as (Hin & Hsel & Hg & ->). exists k, j. split_and!; [|done|done].
        apply list_elem_of_In, filter_In. split; [|done]. by apply list_elem_of_In, elem_of_map_to_list.
Qed.

Definition sample_job (g n : string) : JobKey * RegisteredJob :=
  (mkJobKey g n, mkRegistered (mkJobSpec (mkJobKey g n) Manual TimeWindow_default RetryPolicy_default (Exec ["true"] [])) 0).
Definition sample_entries : list (JobKey * RegisteredJob) :=
  [sample_job "b" "y"; sample_job "a" "z"; sample_job "b" "x"].
Definition sample_shared : Shared unit :=
  mkShared (list_to_map sample_entries) ∅ [mkRuntime (Some 5%Z) "SUCCESS"] tt 0 ∅.

#[local] Existing Instance Sample.libs.
Lemma describe_spec_witness :
  describe_entries 0 sample_shared None sample_entries = describe 0 sample_shared None ∧
  describe 0 sample_shared (Some "b") !! "b" =
    Some [mkDescriptor "x" "" 5 0 "SUCCESS"; mkDescriptor "y" "" 5 0 "SUCCESS"].
Proof.
  split; [|vm_compute; reflexivity].
  refine (proj1 (describe_spec 0 sample_shared None sample_entries _)).
  symmetry. apply (map_to_list_to_map (M := gmap JobKey)). apply (bool_decide_eq_true_1 _). vm_compute. reflexivity.
Defined.

(** ** Methods *)

Lemma wake_lookup tokens m c :
  wake tokens m !! c = if decide (c ∈ tokens) then (λ _, true) <$> m !! c else m !! c.
Proof.
  revert m. induction tokens as [|c' l IH]; intros m; [by rewrite decide_False by apply not_elem_of_nil|].
  unfold wake in *. cbn [foldl]. rewrite IH. destruct (decide (c = c')) as [->|Hne].
  - rewrite lookup_alter_eq, (decide_True (P := c' ∈ c' :: l)) by by left. by destruct (m !! c'), (decide _).
  - rewrite lookup_alter_ne by done. by repeat case_decide; rewrite ?elem_of_cons in *; tauto.
Qed.

(** [trigger_now] either fails or adds the task of the run. *)
Lemma trigger_now_cases {R} key extras now (s : Shared R) threads :
  (∃ err, trigger_now key extras now (s, threads) = Some ((s, threads), Err err)) ∨
  ∃ s' spec cell token, trigger_now key extras now (s, threads) =
    Some ((s', threads ++ [Trigger key extras (TRun spec cell (Dispatching token DStart))]), Ok tt).
Proof.
  unfold trigger_now, lookup_job, begin_running. destruct (jobs s !! key) as [entry|]; cbn [ok_or]; [|left; eauto].
  destruct (running s !! key); [left; eauto|]. right. cbn [running]. rewrite lookup_insert_eq. cbn. do 4 eexists. reflexivity.
Qed.

(** [trigger_now] never panics. It fails with 404 on an unknown job and with 409 on a
    running one, leaving everything as it was; otherwise the job alone becomes running,
    and one new task holds the token that [stop] will look up. *)
Theorem trigger_now_spec {R} key extras now (s : Shared R) threads :
  match jobs s !! key, running s !! key with
  | None, _ => trigger_now key extras now (s, threads) = Some ((s, threads), Err (job_not_found key))
  | Some _, Some _ =>
      trigger_now key extras now (s, threads) =
        Some ((s, threads), Err (JobAlreadyRunning (group key) (name key)))
  | Some entry, None => ∃ s' token,
      trigger_now key extras now (s, threads) =
        Some ((s', threads ++ [Trigger key extras (TRun (reg_spec entry) (state entry) (Dispatching token DStart))]), Ok tt) ∧
      running s' = <[key := mkRunning now (schedule_str (trigger (reg_spec entry))) token]> (running s) ∧
      jobs s' = jobs s ∧ cells s' = cells s ∧ history s' = history s ∧ waiters s' = waiters s ∧
      (stop key s').2 = Ok true
  end.
Proof.
  unfold trigger_now, lookup_job, begin_running.
  destruct (jobs s !! key) as [entry|] eqn:Hj; cbn [ok_or]; [|done].
  destruct (running s !! key) as [inst|] eqn:Hr; [done|].
  eexists _, (next_token s). cbn [running]. rewrite lookup_insert_eq. cbn.
  split_and!; try done; unfold stop; cbn; by rewrite Hj, lookup_insert_eq.
Qed.

(** [stop] only signals: it answers 404 for an unknown job and otherwise whether the job
    is running, and neither the registry, nor the running entry, nor any cell changes. *)
Theorem stop_only_signals {R} key (s : Shared R) :
  (stop key s).2 = match jobs s !! key with
                   | None => Err (job_not_found key)
                   | Some _ => Ok (bool_decide (is_Some (running s !! key)))
                   end ∧
  jobs (stop key s).1 = jobs s ∧ running (stop key s).1 = running s ∧
  cells (stop key s).1 = cells s ∧ history (stop key s).1 = history s ∧
  ∀ c, waiters (stop key s).1 !! c =
    if decide (is_Some (jobs s !! key) ∧ cancel <$> running s !! key = Some c)
    then (λ _, true) <$> waiters s !! c else waiters s !! c.
Proof.
  unfold stop. destruct (jobs s !! key) as [j|].
  2: { by split_and!. }
  destruct (running s !! key) as [inst|]; cbn.
  2: { by split_and!. }
  split_and!; try done. intros c. case_decide as Hd.
  - destruct Hd as [_ [= <-]]. by rewrite lookup_alter_eq.
  - rewrite lookup_alter_ne; [done|]. intros <-. apply Hd. by split.
Qed.

(** ** Reload *)

(** The spec a key ends up with: the last one that is loaded. *)
Definition registered (specs : list JobSpec) (k : JobKey) : option JobSpec :=
  foldl (λ acc sp, if decide (Dsl.key sp = k) then Some sp else acc) None specs.
Definition is_cron (sp : JobSpec) : bool := match trigger sp with Cron _ => true | Manual => false end.
(** A scheduling loop that has just been spawned for one of [specs]. *)
Definition fresh_loop (specs : list JobSpec) (t : Thread) : Prop :=
  ∃ sp expr cell, sp ∈ specs ∧ trigger sp = Cron expr ∧ t = Loop sp expr cell LStart.

Definition job_matches {R} (s : Shared R) (k : JobKey) (sp : option JobSpec) : Prop :=
  match sp with
  | Some sp => ∃ cell, jobs s !! k = Some (mkRegistered sp cell) ∧ cells s !! cell = Some JobRuntimeState_default
  | None => jobs s !! k = None
  end.

Lemma register_all_spec {R} specs (s : Shared R) ts (seen : JobKey → option JobSpec) :
  (∀ k, job_matches s k (seen k)) →
  ∃ s' fresh, register_all specs (s, ts) = (s', ts ++ fresh) ∧ running s' = running s ∧
    history s' = history s ∧ waiters s' = waiters s ∧
    (∀ k, job_matches s' k (foldl (λ acc sp, if decide (Dsl.key sp = k) then Some sp else acc) (seen k) specs)) ∧
    Forall (fresh_loop specs) fresh ∧ length fresh = length (List.filter is_cron specs).
Proof.
  revert s ts seen. induction specs as [|sp specs IH]; intros s ts seen Hseen.
  { exists s, []. rewrite app_nil_r. by split_and!. }
  set (cell := length (cells s)).
  set (s1 := mkShared (<[Dsl.key sp := mkRegistered sp cell]> (delete (Dsl.key sp) (jobs s)))
    (running s) (cells s ++ [JobRuntimeState_default]) (history s) (next_token s) (waiters s)).
  set (new := match trigger sp with Cron expr => [Loop sp expr cell LStart] | Manual => [] end).
  assert (register sp (s, ts) = (s1, ts ++ new)) as Hreg.
  { unfold register, new. cbn. destruct (trigger sp); by rewrite ?app_nil_r. }
  destruct (IH s1 (ts ++ new) (λ k, if decide (Dsl.key sp = k) then Some sp else seen k)) as (s' & fresh & Hall & Hr & Hh & Hn & Hk & Hf & Hl).
  { intros k. destruct (decide (Dsl.key sp = k)) as [<-|Hne].
    - exists cell. cbn. rewrite lookup_insert_eq. split; [done|]. by rewrite lookup_app_r, Nat.sub_diag by done.
    - specialize (Hseen k). unfold job_matches in *. destruct (seen k) as [sp'|]; cbn.
      + destruct Hseen as (c & Hj & Hc). exists c. rewrite lookup_insert_ne, lookup_delete_ne by done. split; [done|].
        by apply lookup_app_l_Some.
      + by rewrite lookup_insert_ne, lookup_delete_ne by done. }
  exists s', (new ++ fresh). unfold register_all in *. cbn [foldl]. rewrite Hreg, Hall, app_assoc. split_and!; try done.
  - apply Forall_app. split.
    + unfold new. destruct (trigger sp) as [expr|] eqn:Ht; [|constructor]. constructor; [|constructor].
      exists sp, expr, cell. split_and!; [by left|done|done].
    + eapply Forall_impl; [exact Hf|]. intros t (sp' & e & c & Hin & ? & ?). exists sp', e, c. split_and!; [by right|done|done].
  - rewrite length_app, Hl. unfold new. cbn [List.filter]. unfold is_cron at 2. by destruct (trigger sp).
Qed.

(** A reload replaces the registry, the last definition of a key winning and every
    runtime state starting afresh, and signals every running instance that waits; but it ends
    nothing: the running entries stay, and so do all the scheduling loops of the old
    registry, next to the new ones. *)
Theorem reload_keeps_old_loops {R} loaded (s : Shared R) ts :
  ∃ s' fresh, reload_from loaded (s, ts) = ((s', ts ++ fresh), Ok (length loaded)) ∧
    (∀ k, job_matches s' k (registered (spec <$> loaded) k)) ∧
    running s' = running s ∧ history s' = history s ∧
    (∀ k inst, running s !! k = Some inst →
       waiters s' !! cancel inst = (λ _, true) <$> waiters s !! cancel inst) ∧
    Forall (fresh_loop (spec <$> loaded)) fresh ∧
    length fresh = length (List.filter is_cron (spec <$> loaded)).
Proof.
  unfold reload_from. set (s0 := set_jobs ∅ (notify_running s)).
  destruct (register_all_spec (spec <$> loaded) s0 ts (λ _, None)) as (s' & fresh & Hall & Hr & Hh & Hn & Hk & Hf & Hl).
  { intros k. apply lookup_empty. }
  exists s', fresh. rewrite Hall. split_and!; try done. intros k inst Hk'. rewrite Hn. cbn.
  rewrite wake_lookup, decide_True; [done|]. apply list_elem_of_fmap. exists (k, inst). split; [done|]. by apply elem_of_map_to_list.
Qed.
