(* ===== verification/SchedulerSteps.v ===== *)
(** * Scheduler: interleavings (src/scheduler.rs)

    The methods and loops of [Scheduler] as tasks that take one locked section at a time,
    in any order. A task that is given the processor learns the time and what its attempt
    met; a [/stop] reaches it only while it waits on its token. The invariant ties the table of running instances to the tasks that own
    its entries: an entry has exactly one owner, so a job never runs twice at once and no
    [expect] fails. *)
From S2P Require Import Prelude RStr Errors Dsl History Config Libs Dispatch DispatchSteps Scheduler.

Section steps.
Context `{Libs} {R : Type} `{HistoryRecorder R} (b : ExecutorBundle).
Implicit Types (s : Shared R) (ts : list Thread).

(** ** One section of a task *)

Inductive RunStep := RunTo (pc : RunPc) | RunDone | RunPanic.

(** A dispatch at [pc] starts to await its token, and one at [pc] ceases to. *)
Definition enter_wait (token : nat) (pc : DispatchPc) s : Shared R :=
  if waits pc then set_waiters (<[token := false]> (waiters s)) s else s.
Definition leave_wait (token : nat) (pc : DispatchPc) s : Shared R :=
  if waits pc then set_waiters (delete token (waiters s)) s else s.

(** The part of a run that the loop and [trigger_now] share. *)
Definition run_step (inp : Input) (k : JobKey) (spec : JobSpec) (extras : list (string * string))
    (cell : nat) (pc : RunPc) s : Shared R * RunStep :=
  match pc with
  | Begun =>
      match running s !! k with
      | Some inst => (s, RunTo (Dispatching (cancel inst) DStart))
      | None => (s, RunPanic)
      end
  | Dispatching token pc =>
      let woken := default false (waiters s !! token) in
      let (h, next) := dispatch_step b spec extras inp pc woken (history s) in
      let s := set_history h s in
      match next with
      | DGo pc' => (enter_wait token pc' (leave_wait token pc s), RunTo (Dispatching token pc'))
      | DEnd o => (leave_wait token pc s, RunTo (Finishing o))
      | DStay => (s, RunTo (Dispatching token pc))
      end
  | Finishing o => (record_outcome cell o (now inp) s, RunTo Releasing)
  | Releasing => (remove_running k s, RunDone)
  end.

(** [scheduling_loop]. *)
Definition loop_step (inp : Input) (spec : JobSpec) (expr : string) (cell : nat) (pc : LoopPc) s :
    Shared R * Thread :=
  let goto pc := Loop spec expr cell pc in
  match pc with
  | LStart => (s, match cron_from_str expr with Ok _ => goto LWait | Err _ => Done end)
  | LWait =>
      (s, match cron_from_str expr with
          | Ok sch => match upcoming_next sch (now inp) with Some t => goto (LSleep t) | None => Done end
          | Err _ => Done
          end)
  | LSleep due =>
      if (now inp <? due)%Z then (s, goto (LSleep due))
      else if allows (window spec) (now inp) then (s, goto LBegin)
      else (set_history (record (skipped_row spec (now inp)) (history s)) s, goto (LSkipped (now inp)))
  | LSkipped now_ms => (record_skip cell now_ms s, goto LWait)
  | LBegin =>
      match begin_running (Dsl.key spec) expr (now inp) s with
      | Ok s' => (s', goto (LRun Begun))
      | Err _ => (s, goto LWait)
      end
  | LRun pc =>
      let (s', r) := run_step inp (Dsl.key spec) spec [] cell pc s in
      (s', match r with RunTo pc' => goto (LRun pc') | RunDone => goto LWait | RunPanic => Panicked end)
  end.

(** [trigger_now] and the task it spawns. *)
Definition trigger_step (inp : Input) (k : JobKey) (extras : list (string * string)) (pc : TriggerPc) s :
    Shared R * Thread :=
  match pc with
  | TLookup =>
      (s, match lookup_job k s with
          | Ok entry => Trigger k extras (TBegin (reg_spec entry) (state entry))
          | Err _ => Done
          end)
  | TBegin spec cell =>
      match begin_running k (schedule_str (trigger spec)) (now inp) s with
      | Ok s' => (s', Trigger k extras (TRun spec cell Begun))
      | Err _ => (s, Done)
      end
  | TRun spec cell pc =>
      let (s', r) := run_step inp k spec extras cell pc s in
      (s', match r with RunTo pc' => Trigger k extras (TRun spec cell pc') | RunDone => Done | RunPanic => Panicked end)
  end.

(** [register] on the specs still to do; the second component is what it spawns. *)
Definition register_step (todo : list JobSpec) (pc : RegisterPc) s : Shared R * Thread * list Thread :=
  match todo, pc with
  | [], _ => (s, Done, [])
  | spec :: _, RRemove =>
      let (cell, s) := new_cell s in
      (set_jobs (delete (Dsl.key spec) (jobs s)) s, Registering todo (RSpawn cell), [])
  | spec :: _, RSpawn cell =>
      (s, Registering todo (RInsert cell),
       match trigger spec with Cron expr => [Loop spec expr cell LStart] | Manual => [] end)
  | spec :: todo', RInsert cell =>
      (set_jobs (<[Dsl.key spec := mkRegistered spec cell]> (jobs s)) s, Registering todo' RRemove, [])
  end.

Definition thread_step (inp : Input) (t : Thread) s : option (Shared R * Thread * list Thread) :=
  match t with
  | Loop spec expr cell pc => Some (loop_step inp spec expr cell pc s, [])
  | Trigger k extras pc => Some (trigger_step inp k extras pc s, [])
  | Stop k false => Some (s, match jobs s !! k with Some _ => Stop k true | None => Done end, [])
  | Stop k true =>
      Some (match running s !! k with Some inst => notify [cancel inst] s | None => s end, Done, [])
  | Registering todo pc => Some (register_step todo pc s)
  | ReloadNotify loaded => Some (notify_running s, ReloadClear loaded, [])
  | ReloadClear loaded => Some (set_jobs ∅ s, Registering loaded RRemove, [])
  | Done | Panicked => None
  end.

(** ** The system *)
Definition is_call (t : Thread) : bool :=
  match t with
  | Trigger _ _ TLookup | Stop _ false | Registering _ RRemove | ReloadNotify _ => true
  | _ => false
  end.

Inductive step : Sys R → Sys R → Prop :=
  | step_call s ts t : is_call t = true → step (s, ts) (s, ts ++ [t])
  | step_thread s ts i t inp s' t' spawned :
      ts !! i = Some t → thread_step inp t s = Some (s', t', spawned) →
      step (s, ts) (s', <[i := t']> ts ++ spawned).

Definition init (h : R) : Sys R := (mkShared ∅ ∅ [] h 0 ∅, []).
Definition reachable (h : R) (y : Sys R) : Prop := rtc step (init h) y.

(** Executable: the tasks named by a schedule take their sections in turn. *)
Definition advance (i : nat) (inp : Input) (y : Sys R) : option (Sys R) :=
  let (s, ts) := y in
  t ← ts !! i; '(s', t', spawned) ← thread_step inp t s; Some (s', <[i := t']> ts ++ spawned).
Fixpoint run_schedule (sched : list (nat * Input)) (y : Sys R) : option (Sys R) :=
  match sched with [] => Some y | (i, inp) :: sched' => advance i inp y ≫= run_schedule sched' end.

(** ** Ownership *)

(** The job whose [running] entry a task has inserted and not yet removed. *)
Definition owned_key (t : Thread) : option JobKey :=
  match t with
  | Loop spec _ _ (LRun _) => Some (Dsl.key spec)
  | Trigger k _ (TRun _ _ _) => Some k
  | _ => None
  end.
(** The job a task is dispatching, with the token it listens to. *)
Definition dispatching (t : Thread) : option (JobKey * nat) :=
  match t with
  | Loop spec _ _ (LRun (Dispatching c _)) => Some (Dsl.key spec, c)
  | Trigger k _ (TRun _ _ (Dispatching c _)) => Some (k, c)
  | _ => None
  end.
(** The token a task awaits. *)
Definition listening (t : Thread) : option nat :=
  match t with
  | Loop _ _ _ (LRun (Dispatching c pc)) | Trigger _ _ (TRun _ _ (Dispatching c pc)) =>
      if waits pc then Some c else None
  | _ => None
  end.
(** Only an attempt that is not the last is followed by a pause, and there are no others. *)
Definition attempt_ok (t : Thread) : Prop :=
  match t with
  | Loop spec _ _ (LRun (Dispatching _ pc)) | Trigger _ _ (TRun spec _ (Dispatching _ pc)) => pc_ok spec pc
  | _ => True
  end.
(** The cell a task writes. *)
Definition thread_cell (t : Thread) : option nat :=
  match t with
  | Loop _ _ c _ | Trigger _ _ (TBegin _ c) | Trigger _ _ (TRun _ c _)
  | Registering _ (RSpawn c) | Registering _ (RInsert c) => Some c
  | _ => None
  end.

Record Inv (y : Sys R) : Prop := mkInv
  { inv_owners : NoDup (omap owned_key y.2);
    inv_running : ∀ k, is_Some (running y.1 !! k) ↔ k ∈ omap owned_key y.2;
    inv_panic : Panicked ∉ y.2;
    inv_token : ∀ t k c, t ∈ y.2 → dispatching t = Some (k, c) → cancel <$> running y.1 !! k = Some c;
    inv_fresh : ∀ k inst, running y.1 !! k = Some inst → cancel inst < next_token y.1;
    inv_unique : ∀ k1 k2 i1 i2, running y.1 !! k1 = Some i1 → running y.1 !! k2 = Some i2 →
      cancel i1 = cancel i2 → k1 = k2;
    inv_waiters : ∀ c, is_Some (waiters y.1 !! c) ↔ ∃ t, t ∈ y.2 ∧ listening t = Some c;
    inv_attempts : ∀ t, t ∈ y.2 → attempt_ok t;
    inv_jobs : ∀ k j, jobs y.1 !! k = Some j → Dsl.key (reg_spec j) = k ∧ state j < length (cells y.1);
    inv_cells : ∀ t c, t ∈ y.2 → thread_cell t = Some c → c < length (cells y.1) }.

(** What one section does to the table of running instances. *)
Inductive effect s (t : Thread) s' (t' : Thread) : Prop :=
  | effect_keep : running s' = running s → next_token s' = next_token s → owned_key t' = owned_key t →
      (∀ k c, dispatching t' = Some (k, c) → cancel <$> running s !! k = Some c) → effect s t s' t'
  | effect_acquire k inst : running s !! k = None → running s' = <[k := inst]> (running s) →
      cancel inst = next_token s → next_token s' = S (next_token s) →
      owned_key t = None → owned_key t' = Some k → dispatching t' = None → effect s t s' t'
  | effect_release k : running s' = delete k (running s) → next_token s' = next_token s →
      owned_key t = Some k → owned_key t' = None → effect s t s' t'.
(** What it does to the waiters. *)
Definition waiters_effect s (t : Thread) s' (t' : Thread) : Prop :=
  ∀ c, is_Some (waiters s' !! c) ↔
    listening t' = Some c ∨ (is_Some (waiters s !! c) ∧ listening t ≠ Some c).
End steps.

(** ** Sections preserve the invariant *)
Section invariant.
Context `{Libs} {R : Type} `{HistoryRecorder R} (b : ExecutorBundle).
Implicit Types (s : Shared R) (ts : list Thread).

Lemma wait_fields token pc s :
  running (enter_wait token pc s) = running s ∧ running (leave_wait token pc s) = running s ∧
  next_token (enter_wait token pc s) = next_token s ∧ next_token (leave_wait token pc s) = next_token s ∧
  jobs (enter_wait token pc s) = jobs s ∧ jobs (leave_wait token pc s) = jobs s ∧
  cells (enter_wait token pc s) = cells s ∧ cells (leave_wait token pc s) = cells s ∧
  history (enter_wait token pc s) = history s ∧ history (leave_wait token pc s) = history s.
Proof. unfold enter_wait, leave_wait. by destruct (waits pc). Qed.

Lemma run_step_running inp k spec extras cell pc s s' r :
  run_step b inp k spec extras cell pc s = (s', r) → is_Some (running s !! k) →
  next_token s' = next_token s ∧
  match r with
  | RunTo pc' => running s' = running s ∧
      ∀ c dpc, pc' = Dispatching c dpc →
        cancel <$> running s !! k = Some c ∨ ∃ dpc0, pc = Dispatching c dpc0
  | RunDone => running s' = delete k (running s)
  | RunPanic => False
  end.
Proof.
  intros Hr [inst Hk]. destruct pc as [|token pc|o|]; cbn in Hr.
  - rewrite Hk in Hr. injection Hr as <- <-. rewrite Hk. split_and!; [done..|]. intros c dpc [= <- _]. by left.
  - destruct (dispatch_step _ _ _ _ _ _ _) as [h n]. pose proof (wait_fields token pc (set_history h s)) as Hl.
    destruct n as [pc'|o|].
    + pose proof (wait_fields token pc' (leave_wait token pc (set_history h s))) as He.
      injection Hr as <- <-. destruct Hl as (_ & Hl1 & _ & Hl2 & _), He as (He1 & _ & He2 & _).
      rewrite He1, He2, Hl1, Hl2. split_and!; [done..|]. intros c dpc [= <- _]. eauto.
    + injection Hr as <- <-. destruct Hl as (_ & Hl1 & _ & Hl2 & _). by rewrite Hl1, Hl2.
    + injection Hr as <- <-. split_and!; [done..|]. intros c dpc [= <- _]. eauto.
  - by injection Hr as <- <-.
  - by injection Hr as <- <-.
Qed.

Lemma begin_running_ok k sched t s s' :
  begin_running k sched t s = Ok s' →
  running s !! k = None ∧ running s' = <[k := mkRunning t sched (next_token s)]> (running s) ∧
  next_token s' = S (next_token s) ∧ waiters s' = waiters s ∧
  jobs s' = jobs s ∧ cells s' = cells s ∧ history s' = history s.
Proof. unfold begin_running. destruct (running s !! k); [done|]. by intros [= <-]. Qed.

(** A loop or a trigger, as a function of the point its run has reached. *)
Record run_frame (k : JobKey) (spec : JobSpec) (mk : RunPc → Thread) : Prop := mkFrame
  { frame_owned pc : owned_key (mk pc) = Some k;
    frame_dispatching pc : dispatching (mk pc) = match pc with Dispatching c _ => Some (k, c) | _ => None end;
    frame_listening pc : listening (mk pc) =
      match pc with Dispatching c dpc => if waits dpc then Some c else None | _ => None end;
    frame_pause pc : attempt_ok (mk pc) ↔
      match pc with Dispatching _ dpc => pc_ok spec dpc | _ => True end;
    frame_alive pc : mk pc ≠ Panicked }.
Lemma loop_frame spec expr cell : run_frame (Dsl.key spec) spec (λ pc, Loop spec expr cell (LRun pc)).
Proof. by split; intros pc; try destruct pc as [|? []| |]. Qed.
Lemma trigger_frame k extras spec cell : run_frame k spec (λ pc, Trigger k extras (TRun spec cell pc)).
Proof. by split; intros pc; try destruct pc as [|? []| |]. Qed.

(** The task after a step of its run; [fin] when the run is over. *)
Definition after_run (mk : RunPc → Thread) (fin : Thread) (r : RunStep) : Thread :=
  match r with RunTo pc => mk pc | RunDone => fin | RunPanic => Panicked end.

Lemma run_effect inp k spec extras cell pc s s' r mk fin :
  run_frame k spec mk → owned_key fin = None → fin ≠ Panicked →
  run_step b inp k spec extras cell pc s = (s', r) → is_Some (running s !! k) →
  (∀ c, dispatching (mk pc) = Some (k, c) → cancel <$> running s !! k = Some c) →
  effect s (mk pc) s' (after_run mk fin r) ∧ after_run mk fin r ≠ Panicked.
Proof.
  intros [Ho Hd _ _ Ha] Hfin Hp Hr Hk Htok. destruct (run_step_running _ _ _ _ _ _ _ _ _ Hr Hk) as [Hn Hc].
  destruct r as [pc'| |]; cbn; [|split; [by eapply effect_release; rewrite ?Ho|done]|done].
  destruct Hc as [Hrun Hc]. split; [|apply Ha]. apply effect_keep; rewrite ?Ho; [done..|].
  intros k' c. rewrite Hd. destruct pc' as [|c' dpc| |]; try done. intros [= <- <-].
  destruct (Hc c' dpc eq_refl) as [?|[dpc0 ->]]; [done|]. apply Htok. by rewrite Hd.
Qed.

Lemma loop_step_run inp spec expr cell pc s :
  loop_step b inp spec expr cell (LRun pc) s =
    let (s', r) := run_step b inp (Dsl.key spec) spec [] cell pc s in
    (s', after_run (λ pc, Loop spec expr cell (LRun pc)) (Loop spec expr cell LWait) r).
Proof. done. Qed.
Lemma trigger_step_run inp k extras spec cell pc s :
  trigger_step b inp k extras (TRun spec cell pc) s =
    let (s', r) := run_step b inp k spec extras cell pc s in
    (s', after_run (λ pc, Trigger k extras (TRun spec cell pc)) Done r).
Proof. done. Qed.

Lemma loop_step_effect inp spec expr cell pc s :
  let t := Loop spec expr cell pc in
  (∀ k, owned_key t = Some k → is_Some (running s !! k)) →
  (∀ k c, dispatching t = Some (k, c) → cancel <$> running s !! k = Some c) →
  let (s', t') := loop_step b inp spec expr cell pc s in effect s t s' t' ∧ t' ≠ Panicked.
Proof.
  intros t Hown Htok. destruct pc as [| |due|m| |pc].
  1-4: cbn; repeat case_match; simplify_eq; (split; [by apply effect_keep|done]).
  - cbn. destruct (begin_running _ _ _ _) as [s2|] eqn:Hb; [|by split; [by apply effect_keep|]].
    apply begin_running_ok in Hb as (Hn & Hr & ? & _). by split; [by eapply effect_acquire|].
  - rewrite loop_step_run. destruct (run_step _ _ _ _ _ _ _ _) as [s' r] eqn:Hr.
    by eapply (run_effect _ _ _ _ _ _ _ _ _ _ _ (loop_frame spec expr cell)); eauto.
Qed.

Lemma trigger_step_effect inp k extras pc s :
  let t := Trigger k extras pc in
  (∀ k, owned_key t = Some k → is_Some (running s !! k)) →
  (∀ k c, dispatching t = Some (k, c) → cancel <$> running s !! k = Some c) →
  let (s', t') := trigger_step b inp k extras pc s in effect s t s' t' ∧ t' ≠ Panicked.
Proof.
  intros t Hown Htok. destruct pc as [|spec cell|spec cell pc].
  - cbn. destruct (lookup_job k s); (split; [by apply effect_keep|done]).
  - cbn. destruct (begin_running _ _ _ _) as [s2|] eqn:Hb; [|by split; [by apply effect_keep|]].
    apply begin_running_ok in Hb as (Hn & Hr & ? & _). by split; [by eapply effect_acquire|].
  - rewrite trigger_step_run. destruct (run_step _ _ _ _ _ _ _ _) as [s' r] eqn:Hr.
    by eapply (run_effect _ _ _ _ _ _ _ _ _ _ _ (trigger_frame k extras spec cell)); eauto.
Qed.

Lemma thread_step_effect inp t s s' t' spawned :
  thread_step b inp t s = Some (s', t', spawned) →
  (∀ k, owned_key t = Some k → is_Some (running s !! k)) →
  (∀ k c, dispatching t = Some (k, c) → cancel <$> running s !! k = Some c) →
  effect s t s' t' ∧ t' ≠ Panicked ∧
  Forall (λ u, owned_key u = None ∧ dispatching u = None ∧ listening u = None ∧ attempt_ok u ∧ u ≠ Panicked) spawned.
Proof.
  intros Hstep Hown Htok. destruct t as [spec expr cell pc|k extras pc|k chk|todo pc|l|l| |]; cbn [thread_step] in Hstep; try done.
  - pose proof (loop_step_effect inp spec expr cell pc s Hown Htok) as He.
    destruct (loop_step _ _ _ _ _ _ _). injection Hstep as <- <- <-. destruct He. split_and!; [done..|constructor].
  - pose proof (trigger_step_effect inp k extras pc s Hown Htok) as He.
    destruct (trigger_step _ _ _ _ _ _). injection Hstep as <- <- <-. destruct He. split_and!; [done..|constructor].
  - destruct chk; injection Hstep as <- <- <-; (split; [apply effect_keep|split; [|constructor]]); by repeat case_match.
  - destruct todo as [|spec todo], pc; cbn in Hstep; injection Hstep as <- <- <-;
      (split; [by apply effect_keep|split; [done|]]); try constructor.
    destruct (trigger spec); [|constructor]. by constructor; [|constructor].
  - injection Hstep as <- <- <-. split; [by apply effect_keep|split; [done|constructor]].
  - injection Hstep as <- <- <-. split; [by apply effect_keep|split; [done|constructor]].
Qed.

Lemma run_step_cells inp k spec extras cell pc s :
  length (cells (run_step b inp k spec extras cell pc s).1) = length (cells s) ∧
  jobs (run_step b inp k spec extras cell pc s).1 = jobs s.
Proof.
  destruct pc as [|token pc|o|]; cbn; [by destruct (running s !! k)| |by rewrite length_insert|done].
  destruct (dispatch_step _ _ _ _ _ _ _) as [h [pc'|o|]]; cbn [fst]; [|by unfold leave_wait; destruct (waits pc)|done].
  unfold enter_wait, leave_wait. by destruct (waits pc), (waits pc').
Qed.

Definition cells_effect s (t : Thread) s' (t' : Thread) (spawned : list Thread) : Prop :=
  length (cells s) ≤ length (cells s') ∧
  (∀ k j, jobs s' !! k = Some j → jobs s !! k = Some j ∨
     (Dsl.key (reg_spec j) = k ∧ thread_cell t = Some (state j))) ∧
  (∀ u c, u = t' ∨ u ∈ spawned → thread_cell u = Some c →
     thread_cell t = Some c ∨ (∃ k j, jobs s !! k = Some j ∧ state j = c) ∨ c < length (cells s')).

Lemma cells_effect_same s t s' t' spawned :
  length (cells s') = length (cells s) → jobs s' = jobs s →
  (∀ u c, u = t' ∨ u ∈ spawned → thread_cell u = Some c → thread_cell t = Some c) →
  cells_effect s t s' t' spawned.
Proof. intros Hl Hj Hu. split_and!; [lia|intros k j; rewrite Hj; by left|]. intros u c Hin Hc. left. by eapply Hu. Qed.

Lemma single_spawn (t' u : Thread) : u = t' ∨ u ∈ [] → u = t'.
Proof. by intros [?|?%not_elem_of_nil]. Qed.

Lemma thread_step_cells inp t s s' t' spawned :
  thread_step b inp t s = Some (s', t', spawned) → cells_effect s t s' t' spawned.
Proof.
  intros Hstep. destruct t as [spec expr cell pc|k extras pc|k chk|todo pc|l|l| |]; cbn [thread_step] in Hstep; try done.
  - destruct (loop_step _ _ _ _ _ _ _) as [s1 t1] eqn:Hl. injection Hstep as <- <- <-.
    assert (length (cells s1) = length (cells s) ∧ jobs s1 = jobs s ∧
      (thread_cell t1 = Some cell ∨ t1 = Done ∨ t1 = Panicked)) as (Hc & Hj & Ht).
    { destruct pc as [| |due|m| |pc].
      1-4: cbn in Hl; repeat case_match; simplify_eq/=; rewrite ?length_insert; tauto.
      - cbn in Hl. destruct (begin_running _ _ _ _) as [s2|] eqn:Hb; simplify_eq/=; [|tauto].
        apply begin_running_ok in Hb as (_ & _ & _ & _ & -> & -> & _). tauto.
      - rewrite loop_step_run in Hl. pose proof (run_step_cells inp (Dsl.key spec) spec [] cell pc s) as [? ?].
        destruct (run_step _ _ _ _ _ _ _ _) as [s2 []]; simplify_eq/=; tauto. }
    apply cells_effect_same; [done..|]. intros u c ->%single_spawn Hu. destruct Ht as [Ht|[-> | ->]]; [cbn; congruence|done..].
  - destruct pc as [|spec cell|spec cell pc].
    + cbn in Hstep. injection Hstep as <- <- <-. unfold lookup_job. split_and!; [done|by left|].
      intros u c ->%single_spawn. destruct (jobs s !! k) as [j|] eqn:Hj; cbn; [|done]. intros [= <-]. right. left. eauto.
    + cbn in Hstep. destruct (begin_running _ _ _ _) as [s2|] eqn:Hb; simplify_eq.
      * apply begin_running_ok in Hb as (_ & _ & _ & _ & Hj & Hc & _). apply cells_effect_same; [by rewrite Hc|done|].
        by intros u c ->%single_spawn.
      * apply cells_effect_same; [done..|]. by intros u c ->%single_spawn.
    + rewrite trigger_step_run in Hstep. pose proof (run_step_cells inp k spec extras cell pc s) as [? ?].
      destruct (run_step _ _ _ _ _ _ _ _) as [s2 r]. simplify_eq. apply cells_effect_same; [done..|].
      intros u c ->%single_spawn. by destruct r.
  - destruct chk; cbn in Hstep; injection Hstep as <- <- <-; apply cells_effect_same; try (by repeat case_match);
      intros u c ->%single_spawn; by repeat case_match.
  - destruct todo as [|spec todo], pc as [|cell|cell]; cbn in Hstep; injection Hstep as <- <- <-;
      try (apply cells_effect_same; [done..|]; by intros u c ->%single_spawn).
    + split_and!; cbn; [rewrite length_app; cbn; lia| |].
      * intros k j. rewrite lookup_delete_Some. intros [_ ?]. by left.
      * intros u c ->%single_spawn [= <-]. right. right. rewrite length_app. cbn. lia.
    + apply cells_effect_same; [done..|]. intros u c [->|Hin]; [done|].
      destruct (trigger spec); [|by apply not_elem_of_nil in Hin]. by apply list_elem_of_singleton in Hin as ->.
    + split_and!; cbn; [done| |by intros u c ->%single_spawn].
      intros k j. rewrite lookup_insert_Some. intros [[<- <-]|[_ ?]]; [by right|by left].
  - injection Hstep as <- <- <-. apply cells_effect_same; [done..|]. by intros u c ->%single_spawn.
  - injection Hstep as <- <- <-. split_and!; cbn; [done|by intros k j|by intros u c ->%single_spawn].
Qed.

(** *** Waiters and pauses *)
Lemma waiters_same s s' t t' :
  (∀ c, is_Some (waiters s' !! c) ↔ is_Some (waiters s !! c)) → listening t = None → listening t' = None →
  waiters_effect s t s' t'.
Proof. intros Hw Ht Ht' c. rewrite Ht, Ht', Hw. intuition congruence. Qed.

Lemma wake_is_Some tokens m c : is_Some (wake tokens m !! c) ↔ is_Some (m !! c).
Proof. rewrite wake_lookup. case_decide; [|done]. apply fmap_is_Some. Qed.

Lemma waits_lookup token pc pc' s h c :
  is_Some (waiters (enter_wait token pc' (leave_wait token pc (set_history h s))) !! c) ↔
  (waits pc' = true ∧ c = token) ∨ (is_Some (waiters s !! c) ∧ ¬ (waits pc = true ∧ c = token)).
Proof.
  unfold enter_wait, leave_wait. rewrite <- !not_eq_None_Some.
  destruct (waits pc), (waits pc'); cbn; (destruct (decide (c = token)) as [->|Hne];
    [rewrite ?lookup_insert_eq, ?lookup_delete_eq|rewrite ?lookup_insert_ne, ?lookup_delete_ne by done]);
    intuition congruence.
Qed.

Lemma run_waiters inp k spec extras cell pc s s' r mk fin :
  run_frame k spec mk → listening fin = None →
  run_step b inp k spec extras cell pc s = (s', r) →
  (∀ c, listening (mk pc) = Some c → is_Some (waiters s !! c)) →
  waiters_effect s (mk pc) s' (after_run mk fin r).
Proof.
  intros [_ _ Hl _ _] Hfin Hr Hsome. destruct pc as [|token pc|o|]; cbn in Hr.
  - destruct (running s !! k); injection Hr as <- <-; by apply waiters_same; cbn; rewrite ?Hl.
  - destruct (dispatch_step _ _ _ _ _ _ _) as [h [pc'|o|]]; injection Hr as <- <-; intros c; cbn [after_run]; rewrite ?Hl.
    + rewrite waits_lookup. destruct (waits pc), (waits pc'); intuition congruence.
    + pose proof (waits_lookup token pc DStart s h c) as Hw. cbn in Hw. unfold enter_wait in Hw. cbn in Hw.
      rewrite Hw. destruct (waits pc); intuition congruence.
    + specialize (Hsome c). rewrite Hl in Hsome. cbn [after_run waiters set_history set_waiters].
      destruct (waits pc), (decide (token = c)); intuition congruence.
  - injection Hr as <- <-. by apply waiters_same; cbn; rewrite ?Hl.
  - injection Hr as <- <-. by apply waiters_same; cbn; rewrite ?Hl.
Qed.

Lemma begin_running_waiters k sched t s s' : begin_running k sched t s = Ok s' → waiters s' = waiters s.
Proof. by intros (_ & _ & _ & ? & _)%begin_running_ok. Qed.

Lemma thread_step_waiters inp t s s' t' spawned :
  thread_step b inp t s = Some (s', t', spawned) →
  (∀ c, listening t = Some c → is_Some (waiters s !! c)) → waiters_effect s t s' t'.
Proof.
  intros Hstep Hsome. destruct t as [spec expr cell pc|k extras pc|k chk|todo pc|l|l| |]; cbn [thread_step] in Hstep; try done.
  - destruct pc as [| |due|m| |pc].
    1-4: cbn in Hstep; repeat case_match; simplify_eq; by apply waiters_same.
    + cbn in Hstep. destruct (begin_running _ _ _ _) eqn:Hb; simplify_eq; apply waiters_same; try done.
      by rewrite (begin_running_waiters _ _ _ _ _ Hb).
    + rewrite loop_step_run in Hstep. destruct (run_step _ _ _ _ _ _ _ _) as [s1 r] eqn:Hr. injection Hstep as <- <- <-.
      by eapply (run_waiters _ _ _ _ _ _ _ _ _ _ _ (loop_frame spec expr cell)).
  - destruct pc as [|spec cell|spec cell pc].
    + cbn in Hstep. injection Hstep as <- <- <-. apply waiters_same; [done..|]. by destruct (lookup_job _ _).
    + cbn in Hstep. destruct (begin_running _ _ _ _) eqn:Hb; simplify_eq; apply waiters_same; try done.
      by rewrite (begin_running_waiters _ _ _ _ _ Hb).
    + rewrite trigger_step_run in Hstep. destruct (run_step _ _ _ _ _ _ _ _) as [s1 r] eqn:Hr. injection Hstep as <- <- <-.
      by eapply (run_waiters _ _ _ _ _ _ _ _ _ _ _ (trigger_frame k extras spec cell)).
  - destruct chk; injection Hstep as <- <- <-; apply waiters_same; try (by repeat case_match).
    destruct (running s !! k); [|done]. intros c. apply wake_is_Some.
  - destruct todo as [|spec todo], pc; cbn in Hstep; injection Hstep as <- <- <-; by apply waiters_same.
  - injection Hstep as <- <- <-. apply waiters_same; [|done..]. intros c. apply wake_is_Some.
  - injection Hstep as <- <- <-. by apply waiters_same.
Qed.

Lemma run_pause inp k spec extras cell pc s s' r mk fin :
  run_frame k spec mk → attempt_ok fin → run_step b inp k spec extras cell pc s = (s', r) →
  attempt_ok (mk pc) → attempt_ok (after_run mk fin r).
Proof.
  intros [_ _ _ Hp _] Hfin Hr. rewrite Hp. destruct pc as [|token pc|o|]; cbn in Hr.
  - destruct (running s !! k); injection Hr as <- <-; cbn; by rewrite ?Hp.
  - destruct (dispatch_step _ _ _ _ _ _ _) as [h n] eqn:Hd. destruct n as [pc'|o|]; injection Hr as <- <-; cbn; rewrite ?Hp; try done.
    intros Hok. by eapply dispatch_step_ok.
  - injection Hr as <- <-. cbn. by rewrite Hp.
  - by injection Hr as <- <-.
Qed.

Lemma thread_step_pause inp t s s' t' spawned :
  thread_step b inp t s = Some (s', t', spawned) → attempt_ok t → attempt_ok t'.
Proof.
  intros Hstep Hp. destruct t as [spec expr cell pc|k extras pc|k chk|todo pc|l|l| |]; cbn [thread_step] in Hstep; try done.
  - destruct pc as [| |due|m| |pc].
    1-5: cbn in Hstep; repeat case_match; by simplify_eq.
    rewrite loop_step_run in Hstep. destruct (run_step _ _ _ _ _ _ _ _) as [s1 r] eqn:Hr. injection Hstep as <- <- <-.
    by eapply (run_pause _ _ _ _ _ _ _ _ _ _ _ (loop_frame spec expr cell)).
  - destruct pc as [|spec cell|spec cell pc].
    1-2: cbn in Hstep; repeat case_match; by simplify_eq.
    rewrite trigger_step_run in Hstep. destruct (run_step _ _ _ _ _ _ _ _) as [s1 r] eqn:Hr. injection Hstep as <- <- <-.
    by eapply (run_pause _ _ _ _ _ _ _ _ _ _ _ (trigger_frame k extras spec cell)).
  - destruct chk; injection Hstep as <- <- <-; [done|]. by destruct (jobs s !! k).
  - destruct todo as [|spec todo], pc; cbn in Hstep; by injection Hstep as <- <- <-.
  - by injection Hstep as <- <- <-.
  - by injection Hstep as <- <- <-.
Qed.

(** ** Replacing one task *)
Lemma insert_middle {A} (l1 l2 : list A) x y : <[length l1 := y]> (l1 ++ x :: l2) = l1 ++ y :: l2.
Proof. induction l1 as [|z l1 IH]; [done|]. cbn. f_equal. apply IH. Qed.

Lemma omap_insert_perm (f : Thread → option JobKey) ts i t t' :
  ts !! i = Some t →
  option_list (f t) ++ omap f (<[i := t']> ts) ≡ₚ option_list (f t') ++ omap f ts.
Proof.
  intros Hi. apply list_elem_of_split_length in Hi as (l1 & l2 & -> & ->).
  rewrite insert_middle, !omap_app. cbn. destruct (f t), (f t'); cbn; solve_Permutation.
Qed.
End invariant.

Section preservation.
Context `{Libs} {R : Type} `{HistoryRecorder R} (b : ExecutorBundle).
Implicit Types (s : Shared R) (ts : list Thread).

Lemma dispatching_owned t k c : dispatching t = Some (k, c) → owned_key t = Some k.
Proof. destruct t as [? ? ? []|? ? []| | | | | |]; try done; destruct pc; try done; by intros [= <- <-]. Qed.

Lemma elem_of_owned k ts : k ∈ omap owned_key ts ↔ ∃ t, t ∈ ts ∧ owned_key t = Some k.
Proof. apply list_elem_of_omap. Qed.

Lemma owned_none_omap ts : Forall (λ u, owned_key u = None) ts → omap owned_key ts = [].
Proof. induction 1 as [|u ts Hu _ IH]; [done|]. cbn. by rewrite Hu. Qed.

Lemma elem_of_insert {A} (i : nat) (x : A) (l : list A) u : u ∈ <[i := x]> l → u = x ∨ u ∈ l.
Proof.
  intros (j & Hj)%list_elem_of_lookup_1. apply list_lookup_insert_Some in Hj as [(_ & -> & _)|[_ Hj]]; [by left|].
  right. by eapply list_elem_of_lookup_2.
Qed.

Lemma omap_NoDup_index {A B} (f : A → option B) (l : list A) i j x y k :
  NoDup (omap f l) → l !! i = Some x → l !! j = Some y → f x = Some k → f y = Some k → i = j.
Proof.
  assert (∀ (l : list A) i x, l !! i = Some x → f x = Some k → k ∈ omap f l) as Hin.
  { intros l' i' x' Hi Hx. apply list_elem_of_omap. exists x'. split; [by eapply list_elem_of_lookup_2|done]. }
  revert i j. induction l as [|z l IH]; intros i j Hnd Hi Hj Hx Hy; [done|]. cbn in Hnd.
  destruct i as [|i], j as [|j]; cbn in Hi, Hj; simplify_eq; try done.
  - rewrite Hx in Hnd. apply NoDup_cons in Hnd as [Hk _]. destruct Hk. by eapply Hin.
  - rewrite Hy in Hnd. apply NoDup_cons in Hnd as [Hk _]. destruct Hk. by eapply Hin.
  - f_equal. eapply IH; try done. destruct (f z); [by apply NoDup_cons in Hnd as [_ ?]|done].
Qed.

Lemma listening_dispatching t c : listening t = Some c → ∃ k, dispatching t = Some (k, c).
Proof.
  destruct t as [? ? ? []|? ? []| | | | | |]; try done; destruct pc as [|? dpc| |]; try done; cbn;
    destruct (waits dpc); try done; intros [= <-]; eauto.
Qed.

Lemma call_facts t : is_call t = true →
  owned_key t = None ∧ dispatching t = None ∧ listening t = None ∧ attempt_ok t ∧ t ≠ Panicked ∧ thread_cell t = None.
Proof. destruct t as [? ? ? []|? ? []|? []|? []| | | |]; by cbn. Qed.

Lemma inv_call s ts t : Inv (s, ts) → is_call t = true → Inv (s, ts ++ [t]).
Proof.
  intros [Hnd Hrun Hpan Htok Hfr Hun Hwa Hpa Hjobs Hcells] (Ho & Hd & Hl & Hpo & Hp & Hc)%call_facts. cbn [fst snd] in *.
  assert (omap owned_key (ts ++ [t]) = omap owned_key ts) as Heq.
  { rewrite omap_app. cbn. by rewrite Ho, app_nil_r. }
  assert (∀ u, u ∈ ts ++ [t] ↔ u ∈ ts ∨ u = t) as Hin by (intros u; by rewrite elem_of_app, list_elem_of_singleton).
  split; cbn [fst snd]; rewrite ?Heq; try done.
  - rewrite Hin. intros [?|?]; congruence.
  - intros u k c [Hu| ->]%Hin Hk; [by eapply Htok|congruence].
  - intros c. rewrite Hwa. split; intros (u & Hu & Hul); exists u; rewrite Hin in *; [tauto|].
    destruct Hu as [Hu| ->]; [done|congruence].
  - intros u [Hu| ->]%Hin; [by apply Hpa|done].
  - intros u c [Hu| ->]%Hin Hk; [by eapply Hcells|congruence].
Qed.

(** *** One section *)
Section one_step.
Context (s s' : Shared R) (ts spawned : list Thread) (i : nat) (inp : Input) (t t' : Thread)
  (Hinv : Inv (s, ts)) (Hi : ts !! i = Some t) (Hstep : thread_step b inp t s = Some (s', t', spawned)).
Local Abbreviation ts' := (<[i := t']> ts ++ spawned).

Lemma stepping_in : t ∈ ts.
Proof. by eapply list_elem_of_lookup_2. Qed.

Lemma step_facts :
  effect s t s' t' ∧ t' ≠ Panicked ∧
  Forall (λ u, owned_key u = None ∧ dispatching u = None ∧ listening u = None ∧ attempt_ok u ∧ u ≠ Panicked) spawned.
Proof.
  apply (thread_step_effect b inp t s s' t' spawned Hstep).
  - intros k Hk. apply (inv_running _ Hinv), elem_of_owned. exists t. split; [apply stepping_in|done].
  - intros k c. apply (inv_token _ Hinv), stepping_in.
Qed.

Lemma step_elem u : u ∈ ts' → u = t' ∨ (u ∈ ts ∧ u ∈ <[i := t']> ts) ∨ u ∈ spawned.
Proof. intros [Hin|Hin]%elem_of_app; [|tauto]. destruct (elem_of_insert _ _ _ _ Hin); tauto. Qed.

Lemma step_spawned u : u ∈ spawned →
  owned_key u = None ∧ dispatching u = None ∧ listening u = None ∧ attempt_ok u ∧ u ≠ Panicked.
Proof. destruct step_facts as (_ & _ & Hsp). rewrite Forall_forall in Hsp. apply Hsp. Qed.

(** The owned keys, up to the order of the tasks. *)
Lemma step_owned :
  omap owned_key ts' = omap owned_key (<[i := t']> ts) ∧
  option_list (owned_key t) ++ omap owned_key (<[i := t']> ts) ≡ₚ option_list (owned_key t') ++ omap owned_key ts.
Proof.
  split; [|by apply omap_insert_perm]. rewrite omap_app, (owned_none_omap spawned), app_nil_r; [done|].
  apply Forall_forall. by intros u (? & _)%step_spawned.
Qed.

Lemma step_owners : NoDup (omap owned_key ts') ∧ ∀ k, is_Some (running s' !! k) ↔ k ∈ omap owned_key ts'.
Proof.
  destruct step_owned as [-> Hperm], step_facts as [Heff _].
  pose proof (inv_owners _ Hinv) as Hnd. pose proof (inv_running _ Hinv) as Hrun. cbn [fst snd] in *.
  destruct Heff as [Hr _ Ho _|k inst Hn Hr _ _ Ho Ho' _|k Hr _ Ho Ho']; rewrite Hr.
  - rewrite Ho in Hperm. apply Permutation_app_inv_l in Hperm. split; [by rewrite Hperm|]. intros k. by rewrite Hperm.
  - rewrite Ho, Ho' in Hperm. cbn in Hperm. split.
    + rewrite Hperm. constructor; [|done]. intros Hin%Hrun. rewrite Hn in Hin. by apply is_Some_None in Hin.
    + intros k0. rewrite Hperm, elem_of_cons, <- Hrun, lookup_insert_is_Some'.
      split; [intros [->|?]; auto|intros [->|?]; auto].
  - rewrite Ho, Ho' in Hperm. cbn in Hperm. rewrite <- Hperm in Hnd. apply NoDup_cons in Hnd as [Hk Hnd].
    split; [done|]. intros k0. rewrite lookup_delete_is_Some, Hrun, <- Hperm, elem_of_cons.
    split; [intros [? [?|?]]; [congruence|done]|]. intros Hin. split; [by intros ->|by right].
Qed.

Lemma step_token u k c : u ∈ ts' → dispatching u = Some (k, c) → cancel <$> running s' !! k = Some c.
Proof.
  intros Hin Hd. destruct step_facts as [Heff _]. destruct step_owned as [_ Hperm].
  apply step_elem in Hin as [->|[[Hu Hu']|(_ & Hd' & _)%step_spawned]]; [| |congruence]; apply dispatching_owned in Hd as Hok.
  - destruct Heff as [Hr _ Ho Hdt|k1 inst Hn Hr _ _ Ho Ho' Hdt|k1 Hr _ Ho Ho']; [|congruence..].
    rewrite Hr. by apply Hdt.
  - pose proof (inv_token _ Hinv u k c Hu Hd) as Htok. cbn [fst] in Htok.
    destruct Heff as [Hr _ Ho Hdt|k1 inst Hn Hr _ _ Ho Ho' Hdt|k1 Hr _ Ho Ho']; rewrite Hr; [done| |].
    + rewrite lookup_insert_ne; [done|]. intros ->. by rewrite Hn in Htok.
    + rewrite lookup_delete_ne; [done|]. intros ->. pose proof (inv_owners _ Hinv) as Hnd. cbn [snd] in Hnd.
      rewrite Ho, Ho' in Hperm. cbn in Hperm. rewrite <- Hperm in Hnd. apply NoDup_cons in Hnd as [Hk _].
      apply Hk, elem_of_owned. eauto.
Qed.

Lemma step_tokens :
  (∀ k inst, running s' !! k = Some inst → cancel inst < next_token s') ∧
  ∀ k1 k2 i1 i2, running s' !! k1 = Some i1 → running s' !! k2 = Some i2 → cancel i1 = cancel i2 → k1 = k2.
Proof.
  destruct step_facts as [Heff _]. pose proof (inv_fresh _ Hinv) as Hf. pose proof (inv_unique _ Hinv) as Hu. cbn [fst] in *.
  destruct Heff as [Hr Hn _ _|k inst _ Hr Hc Hn _ _ _|k Hr Hn _ _]; rewrite Hr, Hn; [done| |].
  - split.
    + intros k0 i0 [[_ <-]|[_ Hk0]]%lookup_insert_Some; [lia|]. specialize (Hf _ _ Hk0). lia.
    + intros k1 k2 i1 i2 [[<- <-]|[_ H1]]%lookup_insert_Some [[<- <-]|[_ H2]]%lookup_insert_Some Heq; [done| | |by eapply Hu].
      * specialize (Hf _ _ H2). lia.
      * specialize (Hf _ _ H1). lia.
  - split.
    + intros k0 i0 [_ Hk0]%lookup_delete_Some. by eapply Hf.
    + intros k1 k2 i1 i2 [_ H1]%lookup_delete_Some [_ H2]%lookup_delete_Some. by apply Hu.
Qed.

(** A token has one listener. *)
Lemma one_listener j u c : ts !! j = Some u → listening u = Some c → listening t = Some c → i = j.
Proof.
  intros Hj (ku & Hu)%listening_dispatching (kt & Ht)%listening_dispatching.
  pose proof (inv_token _ Hinv u ku c (list_elem_of_lookup_2 _ _ _ Hj) Hu) as Hcu.
  pose proof (inv_token _ Hinv t kt c stepping_in Ht) as Hct. cbn [fst] in *.
  destruct (running s !! ku) as [iu|] eqn:Hru; [|done]. destruct (running s !! kt) as [it|] eqn:Hrt; [|done].
  cbn in Hcu, Hct. assert (kt = ku) as -> by (eapply (inv_unique _ Hinv); [done|done|congruence]).
  by eapply omap_NoDup_index; [apply (inv_owners _ Hinv)|done|done|by eapply dispatching_owned..].
Qed.

Lemma step_waiters c : is_Some (waiters s' !! c) ↔ ∃ u, u ∈ ts' ∧ listening u = Some c.
Proof.
  pose proof (inv_waiters _ Hinv) as Hw. cbn [fst snd] in Hw.
  assert (∀ c', listening t = Some c' → is_Some (waiters s !! c')) as Hpre.
  { intros c' Hc'. apply Hw. exists t. split; [apply stepping_in|done]. }
  rewrite (thread_step_waiters b inp t s s' t' spawned Hstep Hpre c), Hw. split.
  - intros [Hl|[(u & [j Hj]%list_elem_of_lookup_1 & Hu) Hne]].
    + exists t'. split; [|done]. apply elem_of_app. left. eapply list_elem_of_lookup_2. by eapply list_lookup_insert_eq, lookup_lt_Some.
    + exists u. split; [|done]. apply elem_of_app. left. apply (list_elem_of_lookup_2 _ j).
      rewrite list_lookup_insert_ne; [done|]. intros ->. congruence.
  - intros (u & [Hin|(_ & _ & Hl & _)%step_spawned]%elem_of_app & Hu); [|congruence].
    apply list_elem_of_lookup_1 in Hin as [j Hj]. apply list_lookup_insert_Some in Hj as [(-> & -> & _)|[Hne Hj]]; [by left|].
    right. split; [exists u; split; [by eapply list_elem_of_lookup_2|done]|]. intros Ht. apply Hne. by eapply one_listener.
Qed.

Lemma step_cells :
  (∀ k j, jobs s' !! k = Some j → Dsl.key (reg_spec j) = k ∧ state j < length (cells s')) ∧
  ∀ u c, u ∈ ts' → thread_cell u = Some c → c < length (cells s').
Proof.
  destruct (thread_step_cells b inp t s s' t' spawned Hstep) as (Hlen & Hj' & Hc').
  pose proof (inv_jobs _ Hinv) as Hjobs. pose proof (inv_cells _ Hinv) as Hcells. cbn [fst snd] in *. split.
  - intros k j [Hj|[Hk Hc]]%Hj'; [destruct (Hjobs k j Hj); split; [done|lia]|].
    split; [done|]. specialize (Hcells t _ stepping_in Hc). lia.
  - intros u c Hin Hu. apply step_elem in Hin.
    assert (u ∈ ts ∨ u = t' ∨ u ∈ spawned) as [Hin'|Hin'] by tauto; [specialize (Hcells u c Hin' Hu); lia|].
    destruct (Hc' u c Hin' Hu) as [Hct|[(k & j & Hj & <-)|?]]; [|destruct (Hjobs k j Hj); lia|done].
    specialize (Hcells t c stepping_in Hct). lia.
Qed.

Lemma inv_thread : Inv (s', ts').
Proof.
  destruct step_owners, step_tokens, step_cells, step_facts as (_ & Hp & _).
  split; cbn [fst snd]; [done|done| |exact step_token|done|done|exact step_waiters| |done|done].
  - intros [Hin|[[Hin _]|Hin]]%step_elem; [congruence|by apply (inv_panic _ Hinv)|by apply step_spawned in Hin as (_ & _ & _ & _ & ?)].
  - intros u [->|[[Hin _]|Hin]]%step_elem; [|by apply (inv_attempts _ Hinv)|by apply step_spawned in Hin as (_ & _ & _ & ? & _)].
    eapply (thread_step_pause b); [exact Hstep|]. apply (inv_attempts _ Hinv), stepping_in.
Qed.
End one_step.

Lemma inv_step y y' : Inv y → step b y y' → Inv y'.
Proof. intros Hi Hs. destruct Hs; [by apply inv_call|by eapply inv_thread]. Qed.

Lemma inv_init h : Inv (init (R := R) h).
Proof.
  split; cbn.
  - constructor.
  - intros k. rewrite lookup_empty. split; [by intros ?%is_Some_None|by intros ?%not_elem_of_nil].
  - apply not_elem_of_nil.
  - by intros t k c ?%not_elem_of_nil.
  - intros k inst. by rewrite lookup_empty.
  - intros k1 k2 i1 i2. by rewrite lookup_empty.
  - intros c. rewrite lookup_empty. split; [by intros ?%is_Some_None|]. by intros (t & ?%not_elem_of_nil & _).
  - by intros t ?%not_elem_of_nil.
  - intros k j. by rewrite lookup_empty.
  - by intros t c ?%not_elem_of_nil.
Qed.

Lemma inv_reachable h y : reachable b h y → Inv y.
Proof.
  revert y. refine (rtc_ind_r _ _ (inv_init h) _). intros y z _ Hs Hi. by eapply inv_step.
Qed.
End preservation.

(** ** Properties *)

(** In every reachable state of every interleaving of loops, triggers, stops, registrations
    and reloads, a job has at most one run, the table of running instances has an entry
    exactly for the jobs with a run, the token in it is the one that run listens to, and
    no [expect] has failed. *)
Theorem scheduler_safety `{Libs} {R} `{HistoryRecorder R} b (h : R) s ts :
  reachable b h (s, ts) →
  (∀ i j t1 t2 k, ts !! i = Some t1 → ts !! j = Some t2 →
     owned_key t1 = Some k → owned_key t2 = Some k → i = j) ∧
  (∀ k, is_Some (running s !! k) ↔ ∃ t, t ∈ ts ∧ owned_key t = Some k) ∧
  (∀ t k c, t ∈ ts → dispatching t = Some (k, c) → cancel <$> running s !! k = Some c) ∧
  Panicked ∉ ts.
Proof.
  intros [Hnd Hrun Hpan Htok _ _ _ _ _ _]%inv_reachable. cbn [fst snd] in *. split_and!; [| |done|done].
  - intros i j t1 t2 k Hi Hj H1 H2. by eapply omap_NoDup_index.
  - intros k. by rewrite Hrun, elem_of_owned.
Qed.

(** Runs a schedule from the initial state with one call made. *)
Lemma run_schedule_rtc `{Libs} {R} `{HistoryRecorder R} b sched (y y' : Sys R) :
  run_schedule b sched y = Some y' → rtc (step b) y y'.
Proof.
  revert y. induction sched as [|[i inp] sched IH]; intros y; cbn; [by intros [= ->]|].
  destruct (advance b i inp y) as [y1|] eqn:Ha; cbn; [|done]. intros Hs. eapply rtc_l; [|by apply IH].
  destruct y as [s ts]. unfold advance in Ha. destruct (ts !! i) as [t|] eqn:Hi; cbn in Ha; [|done].
  destruct (thread_step b inp t s) as [[[s' t'] sp]|] eqn:Ht; cbn in Ha; [|done]. injection Ha as <-.
  by eapply step_thread.
Qed.

#[local] Existing Instance Sample.libs.
Definition sample_cron : JobSpec :=
  mkJobSpec (mkJobKey "g" "tick") (Cron "0 * * * * ?") TimeWindow_default RetryPolicy_default (Exec ["true"] []).
(** Every attempt succeeds and no stop is seen. *)
Definition calm (i : Z) : AttemptWorld :=
  mkAttempt (i * 1000) 7 ∅ (HttpExec.mkHttpWorld (λ _, Err "no dns") (λ _, HttpExec.Sent (Ok (HttpExec.mkResponse 200 []))))
    (ShellExec.world_of (ShellExec.child_of (Some 5%Z) (Some 5%Z))) Slept.
Lemma calm_quiet i : quiet (calm i).
Proof. by split. Qed.
Lemma calm_closes i : ShellExec.pipes_close (Dispatch.sys (calm i)).
Proof. intros n c [= <-]. by split; eexists. Qed.
Definition at_time (t : Z) : Input := mkInput t calm false.
Lemma calm_prompt t : prompt (at_time t).
Proof. split; [apply calm_quiet|done|apply calm_closes]. Qed.
(** Register a cron job and call [trigger_now] on it; let both reach [begin_running]: the
    call wins, the loop skips its fire. *)
Definition sample_race : list (nat * Input) :=
  [(0, at_time 0); (0, at_time 0); (0, at_time 0); (2, at_time 0); (2, at_time 1); (2, at_time 60000);
   (1, at_time 60000); (1, at_time 60000); (2, at_time 60001)].
Definition sample_start : Sys (list HistoryEntry) :=
  ((init []).1, [Registering [sample_cron] RRemove; Trigger (Dsl.key sample_cron) [] TLookup]).

Lemma sample_start_reachable : reachable sample_bundle [] sample_start.
Proof.
  eapply rtc_l; [by apply (step_call _ _ [] (Registering [sample_cron] RRemove))|].
  eapply rtc_l; [by apply (step_call _ _ [_] (Trigger (Dsl.key sample_cron) [] TLookup))|]. constructor.
Qed.

Lemma scheduler_safety_witness :
  ∃ s ts, run_schedule sample_bundle sample_race sample_start = Some (s, ts) ∧
    omap owned_key ts = [Dsl.key sample_cron] ∧ Panicked ∉ ts.
Proof.
  destruct (run_schedule sample_bundle sample_race sample_start) as [[s ts]|] eqn:Hrun; [|by vm_compute in Hrun].
  exists s, ts. split; [reflexivity|]. split; [by vm_compute in Hrun; injection Hrun as <- <-|].
  refine (proj2 (proj2 (proj2 (scheduler_safety sample_bundle [] s ts _)))).
  unfold reachable. transitivity sample_start; [exact sample_start_reachable|]. eapply run_schedule_rtc. exact Hrun.
Defined.

(** ** Every run gives its entry back *)
Definition run_rank (spec : JobSpec) (pc : RunPc) : nat :=
  match pc with
  | Begun => 4 * Z.to_nat (max_attempts spec) + 4
  | Dispatching _ dpc => dispatch_rank spec dpc
  | Finishing _ => 2
  | Releasing => 1
  end.
(** The job that a task runs and the point its run is at. *)
Definition running_job (t : Thread) : option (JobSpec * RunPc) :=
  match t with
  | Loop spec _ _ (LRun pc) | Trigger _ _ (TRun spec _ pc) => Some (spec, pc)
  | _ => None
  end.

(** What the attempt that a run is in has met leaves no pipe open. *)
Definition run_closes (pc : RunPc) : Prop := match pc with Dispatching _ dpc => pc_closes dpc | _ => True end.

Lemma run_rank_decreases `{Libs} {R} `{HistoryRecorder R} b inp k spec extras cell pc (s s' : Shared R) r :
  prompt inp → run_closes pc →
  match pc with Dispatching _ dpc => pc_ok spec dpc | _ => True end →
  run_step b inp k spec extras cell pc s = (s', r) →
  match r with RunTo pc' => run_rank spec pc' < run_rank spec pc ∧ run_closes pc' | _ => True end.
Proof.
  intros Hq Hcl Hok Hr. destruct pc as [|token pc|o|]; cbn in Hr.
  - destruct (running s !! k); injection Hr as _ <-; cbn; [split; [lia|done]|done].
  - pose proof (prompt_moves b spec extras inp pc (default false (waiters s !! token)) (history s) Hq
      (pc_closes_ends b spec extras pc Hcl)) as Hm.
    destruct (dispatch_step _ _ _ _ _ _ _) as [h n] eqn:Hd. destruct n as [pc'|o|]; injection Hr as _ <-; [| |done].
    + split; [by apply dispatch_step_ok in Hd as [_ ?]|by eapply pc_closes_step].
    + split; [destruct pc; cbn; lia|done].
  - injection Hr as _ <-. cbn. split; [lia|done].
  - by injection Hr as _ <-.
Qed.

Lemma owned_running t k : owned_key t = Some k → ∃ spec pc, running_job t = Some (spec, pc).
Proof. destruct t as [? ? ? []|? ? []| | | | | |]; try done; cbn; eauto. Qed.

Lemma rank_bound t spec pc :
  running_job t = Some (spec, pc) → attempt_ok t → 1 ≤ run_rank spec pc ≤ 4 * Z.to_nat (max_attempts spec) + 4.
Proof.
  intros Hr Hok. assert (match pc with Dispatching _ dpc => pc_ok spec dpc | _ => True end) as Hpc.
  { destruct t as [? ? ? []|? ? []| | | | | |]; try done; injection Hr as -> ->; by destruct pc. }
  destruct pc as [|c [|i|i w|i w|i le]|o|]; cbn in *; lia.
Qed.

Lemma own_step `{Libs} {R} `{HistoryRecorder R} b inp t (s : Shared R) k spec pc :
  prompt inp → run_closes pc → attempt_ok t →
  owned_key t = Some k → running_job t = Some (spec, pc) → is_Some (running s !! k) →
  ∃ s' t', thread_step b inp t s = Some (s', t', []) ∧
    ((owned_key t' = Some k ∧ ∃ pc', running_job t' = Some (spec, pc') ∧ run_rank spec pc' < run_rank spec pc ∧ run_closes pc') ∨
     running s' = delete k (running s)).
Proof.
  intros Hq Hcl Hok Hk Hj Hr. destruct t as [sp expr cell []|k' extras []| | | | | |]; try done;
    injection Hk as <-; injection Hj as -> ->; cbn [thread_step].
  1: rewrite loop_step_run. 2: rewrite trigger_step_run.
  all: destruct (run_step _ _ _ _ _ _ _ _) as [s' r] eqn:Hstep; do 2 eexists; (split; [reflexivity|]).
  all: assert (match pc with Dispatching _ dpc => pc_ok spec dpc | _ => True end) as Hpc by (by destruct pc).
  all: pose proof (run_rank_decreases _ _ _ _ _ _ _ _ _ _ Hq Hcl Hpc Hstep) as Hlt.
  all: apply run_step_running in Hstep as [_ Hstep]; [|done]; destruct r as [pc'| |]; [left|by right|done].
  all: split; [done|]; exists pc'; by split.
Qed.

Section gives_back.
Context `{Libs} {R} `{HistoryRecorder R} (b : ExecutorBundle) (k : JobKey) (i : nat) (inputs : nat → Input)
  (Hq : ∀ m, prompt (inputs m)).

Lemma gives_back m0 n0 (s : Shared R) ts t spec pc :
  Inv (s, ts) → ts !! i = Some t → owned_key t = Some k → running_job t = Some (spec, pc) → run_closes pc →
  run_rank spec pc ≤ n0 →
  ∃ n y, n ≤ n0 ∧ run_schedule b ((λ m, (i, inputs m)) <$> seq m0 n) (s, ts) = Some y ∧ running y.1 !! k = None.
Proof.
  revert m0 s ts t pc. induction n0 as [|n0 IH]; intros m0 s ts t pc Hinv Hi Hk Hj Hcl Hrank;
    assert (t ∈ ts) as Hin by (by eapply list_elem_of_lookup_2).
  { pose proof (rank_bound t spec pc Hj (inv_attempts _ Hinv t Hin)). lia. }
  assert (is_Some (running s !! k)) as Hr by (apply (inv_running _ Hinv), elem_of_owned; eauto).
  destruct (own_step b (inputs m0) t s k spec pc (Hq m0) Hcl (inv_attempts _ Hinv t Hin) Hk Hj Hr) as (s' & t' & Hs & Hcase).
  assert (advance b i (inputs m0) (s, ts) = Some (s', <[i := t']> ts)) as Hadv.
  { unfold advance. rewrite Hi. cbn. rewrite Hs. cbn. by rewrite app_nil_r. }
  destruct Hcase as [(Hk' & pc' & Hj' & Hlt & Hcl')|Hdel].
  - destruct (IH (S m0) s' (<[i:=t']> ts) t' pc') as (n & y & Hn & Hy & Hfree);
      [|by eapply list_lookup_insert_eq, lookup_lt_Some|done|done|done|lia|].
    { rewrite <- (app_nil_r (<[i:=t']> ts)). by eapply inv_thread. }
    exists (S n), y. split_and!; [lia| |done]. cbn [seq fmap list_fmap run_schedule]. by rewrite Hadv.
  - exists 1, (s', <[i:=t']> ts). split_and!; [lia| |].
    + cbn [seq fmap list_fmap run_schedule]. by rewrite Hadv.
    + cbn [fst]. by rewrite Hdel, lookup_delete_eq.
Qed.
End gives_back.

(** C20: a run whose awaits end gives its entry back: from any reachable state in which a job
    runs and its current attempt has left no pipe open for ever, its own task alone
    removes the entry within four sections per attempt and four more, if no await of it
    stays pending, no later child leaves a pipe open and no stop ends it earlier. *)
Theorem run_gives_entry_back `{Libs} {R} `{HistoryRecorder R} b (h : R) s ts k :
  reachable b h (s, ts) → is_Some (running s !! k) →
  ∃ i t spec pc, ts !! i = Some t ∧ owned_key t = Some k ∧ running_job t = Some (spec, pc) ∧
    (run_closes pc → ∀ inputs : nat → Input, (∀ m, prompt (inputs m)) →
     ∃ n y, n ≤ 4 * Z.to_nat (max_attempts spec) + 4 ∧
       run_schedule b ((λ m, (i, inputs m)) <$> seq 0 n) (s, ts) = Some y ∧
       running y.1 !! k = None ∧ rtc (step b) (s, ts) y).
Proof.
  intros Hreach Hrun. apply inv_reachable in Hreach as Hinv.
  apply (inv_running _ Hinv), elem_of_owned in Hrun as (t & Hin & Hk). cbn [fst snd] in *.
  pose proof Hin as [i Hi]%list_elem_of_lookup_1. destruct (owned_running t k Hk) as (spec & pc & Hj).
  pose proof (rank_bound t spec pc Hj (inv_attempts _ Hinv t Hin)) as Hb.
  exists i, t, spec, pc. split_and!; [done..|]. intros Hcl inputs Hq.
  destruct (gives_back b k i inputs Hq 0 (4 * Z.to_nat (max_attempts spec) + 4) s ts t spec pc Hinv Hi Hk Hj Hcl)
    as (n & y & Hn & Hy & Hfree); [lia|].
  exists n, y. split_and!; [done..|by eapply run_schedule_rtc].
Qed.

Lemma run_gives_entry_back_witness :
  ∃ s ts n y, run_schedule sample_bundle sample_race sample_start = Some (s, ts) ∧
    is_Some (running s !! Dsl.key sample_cron) ∧
    run_schedule sample_bundle ((λ m, (1, at_time 60002)) <$> seq 0 n) (s, ts) = Some y ∧
    running y.1 !! Dsl.key sample_cron = None.
Proof.
  destruct (run_schedule sample_bundle sample_race sample_start) as [[s ts]|] eqn:Hrun; [|by vm_compute in Hrun].
  assert (reachable sample_bundle [] (s, ts)) as Hreach.
  { unfold reachable. transitivity sample_start; [exact sample_start_reachable|]. eapply run_schedule_rtc. exact Hrun. }
  assert (is_Some (running s !! Dsl.key sample_cron)) as Hsome.
  { vm_compute in Hrun. injection Hrun as <- _. eexists. vm_compute. reflexivity. }
  destruct (run_gives_entry_back sample_bundle [] s ts (Dsl.key sample_cron) Hreach Hsome)
    as (i & t & spec & pc & Hi & Hk & Hj & Hback).
  assert (i = 1 ∧ run_closes pc) as [-> Hcl].
  { vm_compute in Hrun. injection Hrun as _ <-. destruct i as [|[|[|i]]]; cbn in Hi; simplify_eq; cbn in Hj, Hk; simplify_eq.
    split; [reflexivity|exact I]. }
  destruct (Hback Hcl (λ _, at_time 60002) (λ _, calm_prompt 60002)) as (n & y & _ & Hy & Hfree & _).
  exists s, ts, n, y. exact (conj eq_refl (conj Hsome (conj Hy Hfree))).
Defined.

(** C32: the time window is checked on every wake-up of a loop: a fire can only begin at or
    after the scheduled time and inside the window; a wake-up outside it instead leaves
    one SKIPPED row and a SKIPPED state, starts no run and goes back to waiting. *)
Theorem window_gates_every_fire `{Libs} {R} `{HistoryRecorder R} b inp spec expr cell pc (s : Shared R) :
  let '(s', t') := loop_step b inp spec expr cell pc s in
  (t' = Loop spec expr cell LBegin →
     ∃ due, pc = LSleep due ∧ (due ≤ now inp)%Z ∧ allows (window spec) (now inp) = true) ∧
  (∀ pc', t' = Loop spec expr cell (LRun pc') → pc = LBegin ∨ ∃ pc0, pc = LRun pc0) ∧
  ∀ due, pc = LSleep due → (due ≤ now inp)%Z → allows (window spec) (now inp) = false →
    t' = Loop spec expr cell (LSkipped (now inp)) ∧ running s' = running s ∧
    history s' = record (skipped_row spec (now inp)) (history s) ∧
    ∀ inp', loop_step b inp' spec expr cell (LSkipped (now inp)) s' =
      (record_skip cell (now inp) s', Loop spec expr cell LWait).
Proof.
  destruct (loop_step b inp spec expr cell pc s) as [s' t'] eqn:Hl. split_and!.
  - intros ->. destruct pc as [| |due|m| |pc]; cbn in Hl; repeat case_match; simplify_eq.
    exists due. split_and!; [done|lia|done].
  - intros pc' ->. destruct pc as [| |due|m| |pc]; cbn in Hl; repeat case_match; simplify_eq; eauto.
  - intros due -> Hle Hw. cbn in Hl. rewrite Hw in Hl. destruct (Z.ltb_spec (now inp) due); [lia|].
    injection Hl as <- <-. done.
Qed.

Lemma window_gates_every_fire_witness :
  let spec := mkJobSpec (mkJobKey "g" "old") (Cron "0 * * * * ?") (mkTimeWindow None (Some 5)%Z) RetryPolicy_default (Exec ["true"] []) in
  (loop_step sample_bundle (at_time 60000) spec "0 * * * * ?" 0 (LSleep 60000) (init ([] : list HistoryEntry)).1).2 =
    Loop spec "0 * * * * ?" 0 (LSkipped 60000).
Proof.
  cbv zeta. set (spec := mkJobSpec _ _ _ _ _).
  pose proof (window_gates_every_fire sample_bundle (at_time 60000) spec "0 * * * * ?" 0 (LSleep 60000)
    (init ([] : list HistoryEntry)).1) as Hw.
  destruct (loop_step _ _ _ _ _ _ _) as [s' t']. cbn [snd].
  exact (proj1 (proj2 (proj2 Hw) 60000%Z eq_refl ltac:(cbn; lia) eq_refl)).
Defined.

(** ** The methods as interleavings *)
Lemma advance_step `{Libs} {R} `{HistoryRecorder R} b (s s' : Shared R) ts t t' spawned inp :
  thread_step b inp t s = Some (s', t', spawned) → step b (s, ts ++ [t]) (s', (ts ++ [t']) ++ spawned).
Proof.
  intros Ht. pose proof (step_thread b s (ts ++ [t]) (length ts) t inp s' t' spawned) as Hs.
  rewrite insert_middle in Hs. apply Hs; [|done]. by rewrite lookup_app_r, Nat.sub_diag by done.
Qed.

Lemma advance_last `{Libs} {R} `{HistoryRecorder R} b (s s' : Shared R) ts t t' inp :
  thread_step b inp t s = Some (s', t', []) → step b (s, ts ++ [t]) (s', ts ++ [t']).
Proof. intros Ht. pose proof (advance_step b s s' ts t t' [] inp Ht) as Hs. by rewrite app_nil_r in Hs. Qed.

(** [trigger_now], run without interruption, is an interleaving of the sections of the
    call: its effect on the state and its new task are those of the small steps. *)
Lemma trigger_now_steps `{Libs} {R} `{HistoryRecorder R} b k extras t (s : Shared R) ts y :
  trigger_now k extras t (s, ts) = Some (y, Ok tt) → rtc (step b) (s, ts) y.
Proof.
  unfold trigger_now, lookup_job. destruct (jobs s !! k) as [entry|] eqn:Hj; cbn [ok_or]; [|done].
  destruct (begin_running _ _ _ _) as [s'|] eqn:Hb; [|done].
  destruct (running s' !! k) as [inst|] eqn:Hr; cbn; [|done]. intros [= <-].
  set (inp := at_time t).
  eapply rtc_l; [by apply (step_call b s ts (Trigger k extras TLookup))|].
  eapply rtc_l; [apply (advance_last b s s ts _ (Trigger k extras (TBegin (reg_spec entry) (state entry))) inp)|].
  { cbn. unfold lookup_job. by rewrite Hj. }
  eapply rtc_l; [apply (advance_last b s s' ts _ (Trigger k extras (TRun (reg_spec entry) (state entry) Begun)) inp)|].
  { cbn. by rewrite Hb. }
  eapply rtc_l; [|apply rtc_refl]. apply (advance_last b s' s' ts _ _ inp). cbn. by rewrite Hr.
Qed.

(** ** A dispatch of a loop, on its own *)
Lemma drive_loop `{Libs} {R} `{HistoryRecorder R} b spec expr cell token inp ts fuel pc (s : Shared R) h' o :
  default false (waiters s !! token) = false →
  drive b spec [] fuel inp false pc (history s) = Some (h', Some o) →
  ∃ s', rtc (step b) (s, ts ++ [Loop spec expr cell (LRun (Dispatching token pc))])
      (s', ts ++ [Loop spec expr cell (LRun (Finishing o))]) ∧ history s' = h' ∧ jobs s' = jobs s.
Proof.
  revert pc s. induction fuel as [|fuel IH]; intros pc s Hw Hd; [done|]. cbn [drive] in Hd.
  destruct (dispatch_step b spec [] inp pc false (history s)) as [h n] eqn:Hs.
  assert (∀ s' t', loop_step b inp spec expr cell (LRun (Dispatching token pc)) s = (s', t') →
    step b (s, ts ++ [Loop spec expr cell (LRun (Dispatching token pc))]) (s', ts ++ [t'])) as Hstep.
  { intros s' t' Hl. apply (advance_last b s s' ts _ _ inp). cbn [thread_step]. by rewrite Hl. }
  rewrite loop_step_run in Hstep. cbn [run_step] in Hstep. rewrite Hw, Hs in Hstep.
  destruct n as [pc'|o'|]; [| |done].
  - specialize (Hstep _ _ eq_refl). pose proof (wait_fields token pc' (leave_wait token pc (set_history h s))) as He.
    pose proof (wait_fields token pc (set_history h s)) as Hl.
    destruct (IH pc' (enter_wait token pc' (leave_wait token pc (set_history h s)))) as (s' & Hr & Hh & Hj).
    { unfold enter_wait, leave_wait. destruct (waits pc), (waits pc'); cbn;
        rewrite ?lookup_insert_eq, ?lookup_delete_eq; done. }
    { destruct He as (_ & _ & _ & _ & _ & _ & _ & _ & -> & _), Hl as (_ & _ & _ & _ & _ & _ & _ & _ & _ & ->). done. }
    exists s'. split_and!; [by eapply rtc_l|done|]. rewrite Hj.
    destruct He as (_ & _ & _ & _ & -> & _), Hl as (_ & _ & _ & _ & _ & -> & _). done.
  - injection Hd as <- <-. specialize (Hstep _ _ eq_refl). pose proof (wait_fields token pc (set_history h s)) as Hl.
    exists (leave_wait token pc (set_history h s)). split_and!; [by eapply rtc_l|..].
    + by destruct Hl as (_ & _ & _ & _ & _ & _ & _ & _ & _ & ->).
    + by destruct Hl as (_ & _ & _ & _ & _ & -> & _).
Qed.

(** A job that a reload removed still fires: after registering a cron job and reloading
    an empty directory, the old loop reaches the next scheduled time, dispatches the job
    and records it, although the registry is empty. *)
Theorem removed_job_still_fires `{Libs} {R} `{HistoryRecorder R} b (h : R) spec expr sch t0 t surr :
  trigger spec = Cron expr → cron_from_str expr = Ok sch → upcoming_next sch t0 = Some t →
  allows (window spec) t = true → prompt (mkInput t surr false) →
  ∃ s ts, rtc (step b) (reload_from [] (register spec (init h))).1 (s, ts) ∧
    jobs s = ∅ ∧ history s = (dispatch b spec [] surr t h).1.
Proof.
  intros Htr Hc Hn Hw Hq. set (i0 := mkInput t0 surr false). set (i1 := mkInput t surr false).
  assert (∃ s0, run_schedule b [(0, i0); (0, i0); (0, i1); (0, i1); (0, i1)] (reload_from [] (register spec (init h))).1 =
      Some (s0, [Loop spec expr 0 (LRun (Dispatching 0 DStart))]) ∧
    jobs s0 = ∅ ∧ history s0 = h ∧ waiters s0 = ∅) as (s0 & Hy & Hj & Hh & Hwa).
  { unfold reload_from, register, init. rewrite Htr. cbn -[allows Z.ltb]. rewrite Hc. cbn -[allows Z.ltb].
    rewrite Hc, Hn. cbn -[allows Z.ltb]. rewrite Z.ltb_irrefl, Hw. cbn.
    unfold begin_running. cbn. rewrite lookup_empty. cbn. rewrite lookup_insert_eq. cbn. eexists. split; [reflexivity|]. done. }
  destruct (dispatch_ends b spec [] surr t h) as [o Ho]; [intros i; apply attempt_closes, Hq|].
  destruct (drive_loop b spec expr 0 0 i1 [] (drive_fuel spec) DStart s0 (dispatch b spec [] surr t h).1 o) as (s' & Hr & Hh' & Hj').
  { by rewrite Hwa, lookup_empty. }
  { rewrite drive_prompt by done. rewrite Hh. unfold i1. rewrite drive_dispatch.
    destruct (dispatch _ _ _ _ _ _) as [h' o']. cbn in Ho. by subst o'. }
  exists s', [Loop spec expr 0 (LRun (Finishing o))]. split_and!; [|congruence|done].
  etransitivity; [eapply run_schedule_rtc; exact Hy|exact Hr].
Qed.

Lemma removed_job_still_fires_witness :
  ∃ s ts, rtc (step sample_bundle) (reload_from [] (register sample_cron (init ([] : list HistoryEntry)))).1 (s, ts) ∧
    jobs s = ∅ ∧ history s ≠ [].
Proof.
  destruct (@removed_job_still_fires Sample.libs _ _ sample_bundle ([] : list HistoryEntry) sample_cron "0 * * * * ?" tt 0 60000
    calm eq_refl eq_refl eq_refl eq_refl (calm_prompt 60000)) as (s & ts & Hr & Hj & Hh).
  exists s, ts. split; [exact Hr|]. split; [exact Hj|]. rewrite Hh. by vm_compute.
Defined.
