(* ===== verification/SchedulerMethods.v ===== *)
(** * Scheduler: the methods as interleavings (src/scheduler.rs)

    The order of the tasks and the tasks that are over do not matter: [same_tasks] is the
    equivalence that forgets both, the steps respect it, and so does the invariant. Up to
    it every method of [Scheduler], run without interruption, is a sequence of the small
    steps. *)
From S2P Require Import Prelude RStr Errors Dsl History Config Libs Dispatch DispatchSteps Scheduler SchedulerSteps.

Definition is_live (t : Thread) : bool := match t with Done => false | _ => true end.
Definition live (ts : list Thread) : list Thread := List.filter is_live ts.

(** The same state, and the same tasks up to their order and those that are over. *)
Definition same_tasks {R} (y1 y2 : Sys R) : Prop := y1.1 = y2.1 ∧ live y1.2 ≡ₚ live y2.2.
Infix "≋" := same_tasks (at level 70) : stdpp_scope.

#[export] Instance same_tasks_equivalence {R} : Equivalence (@same_tasks R).
Proof.
  split; [by intros [s ts]|by intros y1 y2 [? ?]|].
  intros y1 y2 y3 [Hs1 Hp1] [Hs2 Hp2]. split; [by rewrite Hs1|by etrans].
Qed.

(** ** Live tasks *)
Lemma live_app ts1 ts2 : live (ts1 ++ ts2) = live ts1 ++ live ts2.
Proof. apply List.filter_app. Qed.
Lemma elem_of_live t ts : t ∈ live ts ↔ t ∈ ts ∧ t ≠ Done.
Proof.
  unfold live. rewrite list_elem_of_In, filter_In, <- list_elem_of_In. apply and_iff_compat_l. by destruct t.
Qed.
Lemma live_done ts : live (ts ++ [Done]) = live ts.
Proof. rewrite live_app. apply app_nil_r. Qed.
#[export] Instance live_perm : Proper ((≡ₚ) ==> (≡ₚ)) live.
Proof. intros l1 l2 Hp. by apply filter_entries_perm. Qed.

Lemma same_done {R} (s : Shared R) ts1 ts2 : (s, ts1 ++ Done :: ts2) ≋ (s, ts1 ++ ts2).
Proof. split; [done|]. cbn [snd]. by rewrite !live_app. Qed.
Lemma same_perm {R} (s : Shared R) ts1 ts2 : ts1 ≡ₚ ts2 → (s, ts1) ≋ (s, ts2).
Proof. intros Hp. split; [done|]. cbn. by rewrite Hp. Qed.

(** Replacing the task at an index, up to [live]. *)
Lemma live_insert ts i t t' sp :
  ts !! i = Some t → is_live t = true →
  ∃ rest, live ts ≡ₚ t :: rest ∧ live (<[i := t']> ts ++ sp) ≡ₚ rest ++ live (t' :: sp).
Proof.
  intros Hi Ht. apply list_elem_of_split_length in Hi as (l1 & l2 & -> & ->). exists (live (l1 ++ l2)).
  rewrite insert_middle, !live_app. unfold live. cbn [List.filter]. rewrite Ht. split; [solve_Permutation|].
  destruct (is_live t'); cbn; solve_Permutation.
Qed.

Section respect.
Context `{Libs} {R : Type} `{HistoryRecorder R} (b : ExecutorBundle).
Implicit Types (s : Shared R) (ts : list Thread).

Lemma step_live inp t s r : thread_step b inp t s = Some r → is_live t = true.
Proof. by destruct t. Qed.

(** The steps respect [same_tasks]. *)
Lemma same_step y1 y1' y2 : y1 ≋ y2 → step b y1 y1' → ∃ y2', step b y2 y2' ∧ y1' ≋ y2'.
Proof.
  destruct y2 as [s2 ts2]. intros [Hs Hp] Hstep. destruct Hstep as [s ts t Hc|s ts i t inp s' t' sp Hi Ht];
    cbn [fst snd] in *; subst s2.
  - exists (s, ts2 ++ [t]). split; [by apply step_call|]. split; [done|]. cbn. by rewrite !live_app, Hp.
  - pose proof (step_live _ _ _ _ Ht) as Hl. destruct (live_insert ts i t t' sp Hi Hl) as (rest & H1 & H2).
    assert (t ∈ ts2) as [j Hj]%list_elem_of_lookup_1.
    { assert (t ∈ live ts2) as [? _]%elem_of_live; [|done]. rewrite <- Hp, H1. by left. }
    destruct (live_insert ts2 j t t' sp Hj Hl) as (rest2 & H3 & H4).
    exists (s', <[j := t']> ts2 ++ sp). split; [by eapply step_thread|]. split; [done|]. cbn [snd].
    rewrite H2, H4. f_equiv. apply (Permutation_cons_inv (a := t)). by rewrite <- H1, <- H3.
Qed.

Lemma same_steps y1 y1' y2 : y1 ≋ y2 → rtc (step b) y1 y1' → ∃ y2', rtc (step b) y2 y2' ∧ y1' ≋ y2'.
Proof.
  intros Hs Hr. revert y2 Hs. induction Hr as [y1|y1 y y1' Hstep _ IH]; intros y2 Hs; [by exists y2|].
  destruct (same_step _ _ _ Hs Hstep) as (y2' & Hst & Hs2). destruct (IH _ Hs2) as (y3 & Hr & Hs3).
  exists y3. split; [by eapply rtc_l|done].
Qed.

(** Reachable, up to [same_tasks]. *)
Definition reaches (y y' : Sys R) : Prop := ∃ z, rtc (step b) y z ∧ z ≋ y'.

#[export] Instance reaches_proper : Proper (same_tasks ==> same_tasks ==> iff) reaches.
Proof.
  assert (∀ y1 y2 z1 z2, y1 ≋ y2 → z1 ≋ z2 → reaches y1 z1 → reaches y2 z2) as Himp.
  { intros y1 y2 z1 z2 Hy Hz (z & Hr & Hs). destruct (same_steps _ _ _ Hy Hr) as (z' & Hr' & Hs').
    exists z'. split; [done|]. by rewrite <- Hs', Hs. }
  intros y1 y2 Hy z1 z2 Hz. split; by apply Himp.
Qed.
#[export] Instance reaches_preorder : PreOrder reaches.
Proof.
  split; [intros y; by exists y|]. intros y1 y2 y3 (z & Hr & Hs) (z' & Hr' & Hs').
  destruct (same_steps y2 z' z) as (w & Hw & Hsw); [by symmetry|done|].
  exists w. split; [by etrans|]. by rewrite <- Hsw.
Qed.
Lemma reaches_rtc y y' : rtc (step b) y y' → reaches y y'.
Proof. intros Hr. by exists y'. Qed.

End respect.

(** ** The invariant *)
Lemma omap_live {B} (f : Thread → option B) ts : f Done = None → omap f (live ts) = omap f ts.
Proof.
  intros Hf. induction ts as [|t ts IH]; [done|]. unfold live in *. cbn [List.filter].
  destruct t; cbn; by rewrite ?Hf, IH.
Qed.

(** A property of the tasks that are not over is one of all tasks. *)
Lemma live_forall ts1 ts2 (P : Thread → Prop) :
  live ts1 ≡ₚ live ts2 → P Done → (∀ t, t ∈ ts1 → P t) → ∀ t, t ∈ ts2 → P t.
Proof.
  intros Hp Hd Hall t Hin. destruct (is_live t) eqn:Hl; [|by destruct t].
  apply Hall. assert (t ∈ live ts2) as Ht by (apply elem_of_live; split; [done|by intros ->]).
  rewrite <- Hp in Ht. by apply elem_of_live in Ht as [? _].
Qed.
Lemma live_exists ts1 ts2 t : live ts1 ≡ₚ live ts2 → t ≠ Done → t ∈ ts1 ↔ t ∈ ts2.
Proof.
  intros Hp Ht. assert (t ∈ live ts1 ↔ t ∈ live ts2) as Hl by by rewrite Hp.
  rewrite !elem_of_live in Hl. tauto.
Qed.

Lemma inv_same {R} (y1 y2 : Sys R) : y1 ≋ y2 → Inv y1 → Inv y2.
Proof.
  destruct y1 as [s ts1], y2 as [s2 ts2]. intros [Hs Hp] [Hnd Hrun Hpan Htok Hfr Hun Hwa Hpa Hjobs Hcells].
  cbn [fst snd] in *. subst s2.
  assert (omap owned_key ts1 ≡ₚ omap owned_key ts2) as Ho by (rewrite <- (omap_live _ ts1), <- (omap_live _ ts2), Hp; done).
  split; cbn [fst snd]; try done.
  - by rewrite <- Ho.
  - intros k. by rewrite Hrun, Ho.
  - by rewrite <- (live_exists ts1 ts2 Panicked Hp).
  - intros t k c Hin. revert k c. revert t Hin.
    apply (live_forall ts1 ts2 (λ t, ∀ k c, dispatching t = Some (k, c) → cancel <$> running s !! k = Some c) Hp);
      [by intros k c|intros t Ht k c; by apply Htok].
  - intros c. rewrite Hwa. split; intros (t & Hin & Hl); exists t; (split; [|done]);
      [rewrite <- (live_exists ts1 ts2 t Hp)|rewrite (live_exists ts1 ts2 t Hp)]; try done; by intros ->.
  - by apply (live_forall ts1 ts2 attempt_ok Hp).
  - intros t c Hin. revert c. revert t Hin.
    apply (live_forall ts1 ts2 (λ t, ∀ c, thread_cell t = Some c → c < length (cells s)) Hp);
      [by intros c|intros t Ht c; by apply Hcells].
Qed.
#[export] Instance inv_proper {R} : Proper (same_tasks ==> iff) (@Inv R).
Proof. intros y1 y2 Hs. split; apply inv_same; [done|by symmetry]. Qed.

(** ** The methods *)
Section methods.
Context `{Libs} {R : Type} `{HistoryRecorder R} (b : ExecutorBundle).
Implicit Types (s : Shared R) (ts : list Thread).

(** Any moment: these sections read no clock. *)
Definition any_input : Input :=
  mkInput 0 (λ i, mkAttempt 0 0 ∅ (HttpExec.mkHttpWorld (λ _, Err EmptyString) (λ _, HttpExec.SendCancelled))
    (ShellExec.world_of (ShellExec.child_of None None)) Slept) false.

Lemma step_at s ts1 ts2 t inp s' t' sp :
  thread_step b inp t s = Some (s', t', sp) → step b (s, ts1 ++ t :: ts2) (s', ts1 ++ t' :: ts2 ++ sp).
Proof.
  intros Ht. pose proof (step_thread b s (ts1 ++ t :: ts2) (length ts1) t inp s' t' sp) as Hs.
  rewrite insert_middle, <- app_assoc in Hs. apply Hs; [|done]. by rewrite lookup_app_r, Nat.sub_diag by done.
Qed.

(** A section of a task whose outcome is the same up to [live]. *)
Lemma reaches_section s ts i t inp s' t1 sp1 t2 sp2 :
  ts !! i = Some t → thread_step b inp t s = Some (s', t1, sp1) → live (t2 :: sp2) ≡ₚ live (t1 :: sp1) →
  reaches b (s, ts) (s', <[i := t2]> ts ++ sp2).
Proof.
  intros Hi Ht Hl. exists (s', <[i := t1]> ts ++ sp1). split; [by eapply rtc_once, step_thread|]. split; [done|].
  destruct (live_insert ts i t t1 sp1 Hi (step_live _ _ _ _ _ Ht)) as (r1 & H1 & H2).
  destruct (live_insert ts i t t2 sp2 Hi (step_live _ _ _ _ _ Ht)) as (r2 & H3 & H4). cbn [snd].
  rewrite H2, H4, Hl. f_equiv. apply (Permutation_cons_inv (a := t)). by rewrite <- H1.
Qed.
(** A task that is over can stand for a new call. *)
Lemma reaches_call s ts i t : ts !! i = Some Done → is_call t = true → reaches b (s, ts) (s, <[i := t]> ts).
Proof.
  intros Hi Hc. apply list_elem_of_split_length in Hi as (l1 & l2 & -> & ->). rewrite insert_middle, same_done.
  eapply reaches_proper; [reflexivity| |by apply reaches_rtc, rtc_once, (step_call b s (l1 ++ l2) t)].
  apply same_perm. solve_Permutation.
Qed.

(** The sections of one task that read no clock, with what they spawn. *)
Definition own_step (c c' : Shared R * Thread * list Thread) : Prop :=
  ∃ sp, (∀ inp, thread_step b inp c.1.2 c.1.1 = Some (c'.1, sp)) ∧ c'.2 = c.2 ++ sp.

Lemma own_step_quiet s t l s' t' :
  (∀ inp, thread_step b inp t s = Some (s', t', [])) → own_step (s, t, l) (s', t', l).
Proof. intros Ht. exists []. by rewrite app_nil_r. Qed.

Lemma own_steps c c' ts tl :
  rtc own_step c c' → rtc (step b) (c.1.1, ts ++ c.1.2 :: tl ++ c.2) (c'.1.1, ts ++ c'.1.2 :: tl ++ c'.2).
Proof.
  induction 1 as [c|[[s t] l] [[s1 t1] l1] c2 (sp & Ht & Hl) _ IH]; [done|]. cbn in *. subst l1. eapply rtc_l; [|exact IH].
  rewrite (app_assoc tl). by apply (step_at _ _ _ _ any_input).
Qed.

(** [register_all] is what the sections of a registration come to. *)
Lemma registering_own todo s l : ∃ s' fresh,
  (∀ ts0, register_all todo (s, ts0) = (s', ts0 ++ fresh)) ∧
  rtc own_step (s, Registering todo RRemove, l) (s', Done, l ++ fresh).
Proof.
  revert s l. induction todo as [|sp todo IH]; intros s l.
  { exists s, []. split; [by intros; rewrite app_nil_r|]. rewrite app_nil_r. by apply rtc_once, own_step_quiet. }
  set (cell := length (cells s)). set (new := match trigger sp with Cron expr => [Loop sp expr cell LStart] | Manual => [] end).
  set (s1 := set_jobs (delete (Dsl.key sp) (jobs s)) (set_cells (cells s ++ [JobRuntimeState_default]) s)).
  set (s2 := set_jobs (<[Dsl.key sp := mkRegistered sp cell]> (jobs s1)) s1).
  destruct (IH s2 (l ++ new)) as (s' & fresh & Hall & Hr). exists s', (new ++ fresh). split.
  - intros ts0. specialize (Hall (ts0 ++ new)). rewrite app_assoc, <- Hall. unfold register_all. cbn [foldl]. f_equal.
    unfold register, new, s2, s1, cell. cbn. by destruct (trigger sp); rewrite ?app_nil_r.
  - rewrite (app_assoc l). eapply rtc_l; [by apply (own_step_quiet s _ l s1 (Registering (sp :: todo) (RSpawn cell)))|].
    eapply (rtc_l _ _ (s1, Registering (sp :: todo) (RInsert cell), l ++ new)); [by exists new|].
    eapply rtc_l; [by apply (own_step_quiet s1 _ (l ++ new) s2 (Registering todo RRemove))|]. exact Hr.
Qed.

Lemma reload_own loaded s l : ∃ s' fresh,
  (∀ ts0, (reload_from loaded (s, ts0)).1 = (s', ts0 ++ fresh)) ∧
  rtc own_step (s, ReloadNotify (spec <$> loaded), l) (s', Done, l ++ fresh).
Proof.
  destruct (registering_own (spec <$> loaded) (set_jobs ∅ (notify_running s)) l) as (s' & fresh & Hall & Hr).
  exists s', fresh. split; [done|].
  eapply rtc_l; [by apply (own_step_quiet s _ l (notify_running s) (ReloadClear (spec <$> loaded)))|].
  eapply rtc_l; [by apply (own_step_quiet (notify_running s) _ l (set_jobs ∅ (notify_running s)) (Registering (spec <$> loaded) RRemove))|].
  exact Hr.
Qed.

Lemma own_reaches t s s' ts fresh :
  rtc own_step (s, t, []) (s', Done, fresh) → is_call t = true → reaches b (s, ts) (s', ts ++ fresh).
Proof.
  intros Hr Hc. exists (s', ts ++ Done :: fresh). split; [|apply same_done].
  eapply rtc_l; [by apply (step_call b s ts t)|]. exact (own_steps _ _ ts [] Hr).
Qed.
Lemma register_all_reaches specs s ts : reaches b (s, ts) (register_all specs (s, ts)).
Proof. destruct (registering_own specs s []) as (s' & fresh & -> & Hr). by apply (own_reaches _ _ _ ts _ Hr). Qed.
Lemma reload_from_reaches loaded s ts : reaches b (s, ts) (reload_from loaded (s, ts)).1.
Proof. destruct (reload_own loaded s []) as (s' & fresh & -> & Hr). by apply (own_reaches _ _ _ ts _ Hr). Qed.

Lemma stop_reaches k s ts : reaches b (s, ts) ((stop k s).1, ts).
Proof.
  unfold stop. destruct (jobs s !! k) as [j|] eqn:Hj; [|by exists (s, ts)].
  exists ((match running s !! k with Some inst => notify [cancel inst] s | None => s end), ts ++ [Done]). split.
  - eapply rtc_l; [by apply (step_call b s ts (Stop k false))|].
    eapply rtc_l; [apply (advance_last b s s ts _ (Stop k true) any_input); cbn; by rewrite Hj|].
    apply rtc_once, (advance_last b s _ ts _ Done any_input). done.
  - rewrite same_done, app_nil_r. by destruct (running s !! k).
Qed.

Lemma trigger_now_reaches k extras now s ts y r :
  trigger_now k extras now (s, ts) = Some (y, r) → reaches b (s, ts) y.
Proof.
  intros Ht. destruct r as [[]|e].
  - by eapply reaches_rtc, trigger_now_steps.
  - destruct (trigger_now_cases k extras now s ts) as [(err & Heq)|(s' & sp & c & tk & Heq)]; rewrite Ht in Heq;
      [|done]. injection Heq as -> _. reflexivity.
Qed.
End methods.

(** Every method of the scheduler, run without interruption, is an interleaving of its
    locked sections: what it does to the state, to the tasks and to their number is
    reached by small steps, up to the order of the tasks and the calls that are over. *)
Theorem methods_refine_steps `{Libs} {R} `{HistoryRecorder R} b (s : Shared R) ts :
  (∀ k extras now y r, trigger_now k extras now (s, ts) = Some (y, r) → reaches b (s, ts) y) ∧
  (∀ k, reaches b (s, ts) ((stop k s).1, ts)) ∧
  (∀ specs, reaches b (s, ts) (register_all specs (s, ts))) ∧
  (∀ loaded, reaches b (s, ts) (reload_from loaded (s, ts)).1).
Proof.
  split_and!; [intros; by eapply trigger_now_reaches|intros; apply stop_reaches|
    intros; apply register_all_reaches|intros; apply reload_from_reaches].
Qed.

#[local] Existing Instance Sample.libs.
Lemma methods_refine_steps_witness :
  ∃ y, trigger_now (mkJobKey "a" "z") [] 7 (sample_shared, []) = Some (y, Ok tt) ∧
    reaches sample_bundle (sample_shared, []) y.
Proof.
  destruct (trigger_now (mkJobKey "a" "z") [] 7 (sample_shared, [])) as [[y [[]|]]|] eqn:Ht;
    [|vm_compute in Ht; discriminate|vm_compute in Ht; discriminate].
  exists y. split; [reflexivity|].
  exact (proj1 (methods_refine_steps sample_bundle sample_shared []) (mkJobKey "a" "z") [] 7%Z y (Ok tt) Ht).
Defined.
