(* ===== verification/JobTypes.v ===== *)
(** * What the scheduler knows of its jobs (src/scheduler.rs)

    [typed P] says of a state that every job in it, registered, scheduled, running or on
    its way into the registry, satisfies [P], under the key and the expression it is run
    with. Every step preserves it, since jobs only enter by a registration or a reload;
    for a [P] the loader guarantees, the branches that the source takes for impossible are. *)
From S2P Require Import Prelude RStr Errors Dsl History Config Libs Dispatch DispatchSteps Scheduler SchedulerSteps SchedulerMethods.

Section typed.
Context (P : JobSpec → Prop).

Definition thread_typed (t : Thread) : Prop :=
  match t with
  | Loop spec expr _ _ => P spec ∧ trigger spec = Cron expr
  | Trigger k _ (TBegin spec _) | Trigger k _ (TRun spec _ _) => P spec ∧ Dsl.key spec = k
  | Registering todo _ => Forall P todo
  | ReloadNotify loaded | ReloadClear loaded => Forall P loaded
  | _ => True
  end.
Definition jobs_typed {R} (s : Shared R) : Prop :=
  ∀ k j, jobs s !! k = Some j → P (reg_spec j) ∧ Dsl.key (reg_spec j) = k.
Record typed {R} (y : Sys R) : Prop := mkTyped
  { typed_jobs : jobs_typed y.1; typed_tasks : ∀ t, t ∈ y.2 → thread_typed t }.

Lemma typed_same {R} (y1 y2 : Sys R) : y1 ≋ y2 → typed y1 → typed y2.
Proof.
  intros [Hs Hp] [Hj Ht]. split; [by rewrite <- Hs|]. by apply (live_forall y1.2 y2.2 thread_typed Hp).
Qed.
#[export] Instance typed_proper {R} : Proper (same_tasks ==> iff) (@typed R).
Proof. intros y1 y2 Hs. split; apply typed_same; [done|by symmetry]. Qed.

Lemma typed_init {R} (h : R) : typed (init h).
Proof. split; [intros k j; cbn; by rewrite lookup_empty|by intros t ?%not_elem_of_nil]. Qed.

Section steps.
Context `{Libs} {R : Type} `{HistoryRecorder R} (b : ExecutorBundle).
Implicit Types (s : Shared R) (ts : list Thread).

(** A run keeps its job, and the registry. *)
Lemma loop_step_typed inp spec expr cell pc s s' t' :
  loop_step b inp spec expr cell pc s = (s', t') → thread_typed (Loop spec expr cell pc) →
  thread_typed t' ∧ jobs s' = jobs s.
Proof.
  intros Hl Ht. destruct pc as [| |due|m| |pc].
  1-4: cbn in Hl; repeat case_match; by simplify_eq.
  - cbn in Hl. destruct (begin_running _ _ _ _) as [s2|] eqn:Hb; simplify_eq; [|done].
    apply begin_running_ok in Hb as (_ & _ & _ & _ & ? & _). done.
  - rewrite loop_step_run in Hl. pose proof (run_step_cells b inp (Dsl.key spec) spec [] cell pc s) as [_ Hj].
    destruct (run_step _ _ _ _ _ _ _ _) as [s2 r]. injection Hl as <- <-. split; [by destruct r|done].
Qed.

Lemma trigger_step_typed inp k extras pc s s' t' :
  trigger_step b inp k extras pc s = (s', t') → thread_typed (Trigger k extras pc) → jobs_typed s →
  thread_typed t' ∧ jobs s' = jobs s.
Proof.
  intros Hl Ht Hs. destruct pc as [|spec cell|spec cell pc].
  - cbn in Hl. unfold lookup_job in Hl. injection Hl as <- <-. split; [|done].
    destruct (jobs s !! k) as [j|] eqn:Hj; [|done]. exact (Hs k j Hj).
  - cbn in Hl. destruct (begin_running _ _ _ _) as [s2|] eqn:Hb; simplify_eq; [|done].
    apply begin_running_ok in Hb as (_ & _ & _ & _ & ? & _). done.
  - rewrite trigger_step_run in Hl. pose proof (run_step_cells b inp k spec extras cell pc s) as [_ Hj].
    destruct (run_step _ _ _ _ _ _ _ _) as [s2 r]. injection Hl as <- <-. split; [by destruct r|done].
Qed.

Lemma register_step_typed todo pc s s' t' sp :
  register_step todo pc s = (s', t', sp) → Forall P todo → jobs_typed s →
  thread_typed t' ∧ jobs_typed s' ∧ Forall thread_typed sp.
Proof.
  intros Hr Htodo Hs. destruct todo as [|spec todo]; [cbn in Hr; injection Hr as <- <- <-; by split_and!|].
  apply Forall_cons in Htodo as Hsp. destruct Hsp as [Hp Hrest].
  destruct pc as [|cell|cell]; cbn in Hr; injection Hr as <- <- <-; split_and!; try done.
  - intros k j. cbn. rewrite lookup_delete_Some. intros [_ Hj]. exact (Hs k j Hj).
  - destruct (trigger spec) eqn:Htr; [|done]. by constructor; [split|].
  - intros k j. cbn. rewrite lookup_insert_Some. intros [[<- <-]|[_ Hj]]; [done|exact (Hs k j Hj)].
Qed.

Lemma thread_step_typed inp t s s' t' sp :
  thread_step b inp t s = Some (s', t', sp) → thread_typed t → jobs_typed s →
  thread_typed t' ∧ jobs_typed s' ∧ Forall thread_typed sp.
Proof.
  intros Hstep Ht Hs. destruct t as [spec expr cell pc|k extras pc|k chk|todo pc|l|l| |]; cbn [thread_step] in Hstep; try done.
  - destruct (loop_step _ _ _ _ _ _ _) as [s1 t1] eqn:Hl. injection Hstep as <- <- <-.
    destruct (loop_step_typed _ _ _ _ _ _ _ _ Hl Ht) as [? Hj]. split_and!; [done| |done]. unfold jobs_typed. by rewrite Hj.
  - destruct (trigger_step _ _ _ _ _ _) as [s1 t1] eqn:Hl. injection Hstep as <- <- <-.
    destruct (trigger_step_typed _ _ _ _ _ _ _ Hl Ht Hs) as [? Hj]. split_and!; [done| |done]. unfold jobs_typed. by rewrite Hj.
  - destruct chk; injection Hstep as <- <- <-; [|by destruct (jobs s !! k)]. by destruct (running s !! k).
  - injection Hstep as Hr. by eapply register_step_typed.
  - by injection Hstep as <- <- <-.
  - injection Hstep as <- <- <-. split_and!; [done| |done]. intros k j. cbn. by rewrite lookup_empty.
Qed.
End steps.
End typed.

(** ** Jobs whose expression parses *)
Section parses.
Context `{Libs} {R : Type} `{HistoryRecorder R} (b : ExecutorBundle).

Definition parses (sp : JobSpec) : Prop := ∀ expr, trigger sp = Cron expr → is_ok (cron_from_str expr) = true.

(** The loop never takes the exit for an expression that does not parse again. *)
Lemma loop_parses P inp spec expr cell (s : Shared R) :
  (∀ sp, P sp → parses sp) → thread_typed P (Loop spec expr cell LStart) →
  (loop_step b inp spec expr cell LStart s).2 = Loop spec expr cell LWait.
Proof.
  intros HP [Hsp Ht]. pose proof (HP _ Hsp expr Ht) as Hok. cbn. by destruct (cron_from_str expr).
Qed.
End parses.
