(* ===== verification/JobRows.v ===== *)
(** * The rows a job leaves in the history (src/scheduler.rs, src/executor/mod.rs)

    Every section adds rows to the history and nothing else, all of them rows of the job
    that the task runs: under its name, numbered within its attempts, with an error exactly
    when they are no success. *)
From S2P Require Import Prelude RStr Errors Dsl History Config Libs Dispatch DispatchSteps Scheduler SchedulerSteps SchedulerMethods JobTypes.

(** A row of [spec]: of one of its attempts, or of a fire that made none. *)
Record row_of_job (spec : JobSpec) (r : HistoryEntry) : Prop := mkRowOfJob
  { row_job_name : job_name r = name (key spec);
    row_job_group : job_group r = group (key spec);
    row_job_type : job_type r = type_label (kind spec);
    row_number :
      (attempt_number r = 1%Z ∧ History.max_attempts r = 1%Z ∧ (hstatus r = Skipped ∨ hstatus r = Offline)) ∨
      ∃ i, (1 ≤ i ≤ max_attempts spec)%Z ∧ attempt_number r = as_i32 i ∧
        History.max_attempts r = as_i32 (max_attempts spec) ∧ (hstatus r = Retrying → (i < max_attempts spec)%Z);
    row_error : error_message r = None ↔ hstatus r = Success;
    row_no_body : hstatus r ≠ Success → response_body r = None }.

(** [h'] is [h] with some rows of [spec] added. *)
Definition adds_rows {R} `{HistoryRecorder R} (P : HistoryEntry → Prop) (h h' : R) : Prop :=
  ∃ rows, h' = record_all rows h ∧ Forall P rows.

Lemma adds_none {R} `{HistoryRecorder R} P (h : R) : adds_rows P h h.
Proof. by exists []. Qed.
Lemma adds_one {R} `{HistoryRecorder R} P (h : R) r : P r → adds_rows P h (record r h).
Proof. intros Hr. exists [r]. split; [done|by constructor]. Qed.
#[export] Instance adds_rows_trans {R} `{HistoryRecorder R} P : Transitive (adds_rows P (R := R)).
Proof.
  intros h1 h2 h3 (rows1 & -> & H1) (rows2 & -> & H2). exists (rows1 ++ rows2).
  split; [by rewrite record_all_app|by apply Forall_app].
Qed.
Lemma adds_impl {R} `{HistoryRecorder R} (P Q : HistoryEntry → Prop) (h h' : R) :
  (∀ r, P r → Q r) → adds_rows P h h' → adds_rows Q h h'.
Proof. intros Hi (rows & -> & Hp). exists rows. split; [done|by eapply Forall_impl]. Qed.

Section rows.
Context `{Libs} {R : Type} `{HistoryRecorder R} (b : ExecutorBundle).
Implicit Types (s : Shared R).

Lemma skipped_row_of_job spec now : row_of_job spec (skipped_row spec now).
Proof. split; cbn; try done; left; auto. Qed.
Lemma offline_row_of_job spec now : row_of_job spec (offline_row spec now).
Proof. unfold offline_row. destruct (method_url _). split; cbn; try done; left; auto. Qed.

Lemma result_has_error spec ov world i e : attempt_result b spec ov world i = Some (Err e) → is_Some (result_error e).
Proof.
  unfold attempt_result. destruct (kind spec).
  - destruct (HttpExec.execute _ _ _ _ _ _).2; [done|]. cbn. intros [= <-]. by eexists.
  - destruct (ShellExec.outcome _) as [[|]|]; [done| |done]. cbn. intros [= <-]. by eexists.
Qed.

Lemma attempt_row_of_job spec ov world i r :
  attempt_result b spec ov world i = Some r → (1 ≤ i ≤ max_attempts spec)%Z → row_of_job spec (attempt_row spec world i r).
Proof.
  intros Hr Hi. pose proof (result_has_error spec ov world i) as He. rewrite Hr in He. unfold attempt_row.
  destruct (method_url (kind spec)) as [m u]. destruct r as [x|e]; split; cbn; try done.
  - right. by exists i.
  - right. exists i. split_and!; [lia..|done|done|]. destruct (is_shell_timeout e); [done|].
    destruct (Z.ltb_spec i (max_attempts spec)); [done|done].
  - destruct (He e eq_refl) as [msg ->]. split; [done|]. destruct (is_shell_timeout e); [done|]. by destruct (_ <? _)%Z.
Qed.

Lemma dispatch_step_rows spec ov inp pc woken (h h' : R) n :
  dispatch_step b spec ov inp pc woken h = (h', n) → pc_ok spec pc → adds_rows (row_of_job spec) h h'.
Proof.
  destruct pc as [|i|i w|i w|i le]; cbn; try (intros [= <- _] _; apply adds_none).
  - destruct (offline_mode b), (pending inp); intros [= <- _] _; first [apply adds_none|apply adds_one, offline_row_of_job].
  - destruct (pending inp); [intros [= <- _] _; apply adds_none|].
    destruct (attempt_result _ _ _ _ _) as [r|] eqn:Hr; intros [= <- _] Hi; [|apply adds_none].
    apply adds_one. by eapply attempt_row_of_job.
Qed.

Lemma run_step_rows inp k spec extras cell pc s s' r :
  run_step b inp k spec extras cell pc s = (s', r) →
  match pc with Dispatching _ dpc => pc_ok spec dpc | _ => True end →
  adds_rows (row_of_job spec) (history s) (history s').
Proof.
  intros Hr Hok. destruct pc as [|token pc|o|]; cbn in Hr.
  - destruct (running s !! k); injection Hr as <- _; apply adds_none.
  - destruct (dispatch_step _ _ _ _ _ _ _) as [h n] eqn:Hd. apply dispatch_step_rows in Hd; [|done].
    pose proof (wait_fields token pc (set_history h s)) as Hl.
    destruct n as [pc'|o|]; injection Hr as <- _; [|by destruct Hl as (_ & _ & _ & _ & _ & _ & _ & _ & _ & ->)|done].
    pose proof (wait_fields token pc' (leave_wait token pc (set_history h s))) as He.
    destruct Hl as (_ & _ & _ & _ & _ & _ & _ & _ & _ & Hl). by destruct He as (_ & _ & _ & _ & _ & _ & _ & _ & -> & _); rewrite Hl.
  - injection Hr as <- _. apply adds_none.
  - injection Hr as <- _. apply adds_none.
Qed.

(** A section adds rows of jobs that satisfy what all jobs of its task satisfy. *)
Definition row_of_some (P : JobSpec → Prop) (r : HistoryEntry) : Prop := ∃ spec, P spec ∧ row_of_job spec r.

Lemma thread_step_rows P inp t s s' t' sp :
  thread_step b inp t s = Some (s', t', sp) → thread_typed P t → attempt_ok t →
  adds_rows (row_of_some P) (history s) (history s').
Proof.
  intros Hs Ht Ha. destruct t as [spec expr cell pc|k extras pc|k chk|todo pc|l|l| |]; cbn [thread_step] in Hs; try done.
  - destruct (loop_step _ _ _ _ _ _ _) as [s1 t1] eqn:Hl. injection Hs as <- <- <-. destruct Ht as [Hp _].
    apply (adds_impl (row_of_job spec)); [by intros r Hr; exists spec|]. destruct pc as [| |due|m| |pc]; cbn in Hl.
    + injection Hl as <- _. apply adds_none.
    + injection Hl as <- _. apply adds_none.
    + destruct (_ <? _)%Z; [injection Hl as <- _; apply adds_none|].
      destruct (allows _ _); injection Hl as <- _; [apply adds_none|]. exact (adds_one _ _ _ (skipped_row_of_job _ _)).
    + injection Hl as <- _. apply adds_none.
    + destruct (begin_running _ _ _ _) as [s2|] eqn:Hb; injection Hl as <- _; [|apply adds_none].
      apply begin_running_ok in Hb as (_ & _ & _ & _ & _ & _ & ->). apply adds_none.
    + destruct (run_step _ _ _ _ _ _ _ _) as [s2 r] eqn:Hr. injection Hl as <- _.
      apply (run_step_rows _ _ _ _ _ _ _ _ _ Hr). by destruct pc.
  - destruct (trigger_step _ _ _ _ _ _) as [s1 t1] eqn:Hl. injection Hs as <- <- <-. destruct pc as [|spec cell|spec cell pc]; cbn in Hl.
    + injection Hl as <- _. apply adds_none.
    + destruct (begin_running _ _ _ _) as [s2|] eqn:Hb; injection Hl as <- _; [|apply adds_none].
      apply begin_running_ok in Hb as (_ & _ & _ & _ & _ & _ & ->). apply adds_none.
    + destruct (run_step _ _ _ _ _ _ _ _) as [s2 r] eqn:Hr. injection Hl as <- _. destruct Ht as [Hp _].
      apply (adds_impl (row_of_job spec)); [by intros r' Hr'; exists spec|].
      apply (run_step_rows _ _ _ _ _ _ _ _ _ Hr). by destruct pc.
  - destruct chk; injection Hs as <- _ _; [destruct (running s !! k)|]; apply adds_none.
  - destruct todo as [|spec todo], pc; cbn in Hs; injection Hs as <- _ _; apply adds_none.
  - injection Hs as <- _ _. apply adds_none.
  - injection Hs as <- _ _. apply adds_none.
Qed.
End rows.
