(* ===== verification/Stopping.v ===== *)
(** * What a stop reaches (src/scheduler.rs, src/executor/mod.rs, src/executor/shell.rs)

    [stop] calls [notify_waiters] on the token of the running instance. Over the
    interleavings of [SchedulerSteps], these are the runs it ends and those it misses; and
    a run that waits for a pipe that a background process holds open, which nothing ends. *)
From S2P Require Import Prelude RStr Errors Dsl History Config Libs Dispatch DispatchSteps Scheduler SchedulerSteps.

Section stopping.
Context `{Libs} {R : Type} `{HistoryRecorder R} (b : ExecutorBundle).
Implicit Types (s : Shared R) (ts : list Thread).

Lemma stop_ok k s s' :
  stop k s = (s', Ok true) → ∃ inst, running s !! k = Some inst ∧ s' = notify [cancel inst] s.
Proof.
  unfold stop. destruct (jobs s !! k); [|done]. destruct (running s !! k) as [inst|]; [|done].
  intros [= <-]. by exists inst.
Qed.

Lemma dispatching_running_job t k c :
  dispatching t = Some (k, c) → ∃ spec pc, running_job t = Some (spec, Dispatching c pc).
Proof. destruct t as [? ? ? []|? ? []| | | | | |]; try done; destruct pc; try done; intros [= <- <-]; cbn; eauto. Qed.

(** A task that awaits its token is in one of the two [select!]s of its run. *)
Definition in_select (pc : DispatchPc) : Prop := (∃ i w, pc = DListen i w) ∨ ∃ i err, pc = DPause i err.
Lemma listening_in_select t c :
  listening t = Some c ↔ ∃ spec pc, running_job t = Some (spec, Dispatching c pc) ∧ in_select pc.
Proof.
  split.
  - intros Hl. destruct (listening_dispatching t c Hl) as [k Hd].
    destruct (dispatching_running_job t k c Hd) as (spec & pc & Hj). exists spec, pc. split; [done|].
    destruct t as [? ? ? []|? ? []| | | | | |]; try done; injection Hj as -> ->; cbn in Hl;
      destruct pc; try done; [left|right|left|right]; eauto.
  - intros (spec & pc & Hj & Hin). assert (waits pc = true) as Hw by (by destruct Hin as [(? & ? & ->)|(? & ? & ->)]).
    destruct t as [? ? ? []|? ? []| | | | | |]; try done; injection Hj as -> ->; cbn; by rewrite Hw.
Qed.

(** The token of a running instance is awaited by no other task than its owner. *)
Lemma listener_owns s ts k inst t u :
  Inv (s, ts) → running s !! k = Some inst → t ∈ ts → owned_key t = Some k →
  u ∈ ts → listening u = Some (cancel inst) → u = t.
Proof.
  intros Hinv Hk Ht Ho Hu Hl. destruct (listening_dispatching u _ Hl) as [ku Hd].
  pose proof (inv_token _ Hinv u ku _ Hu Hd) as Hc. cbn [fst] in Hc.
  destruct (running s !! ku) as [iu|] eqn:Hku; [|done]. cbn in Hc. injection Hc as Hc.
  assert (ku = k) as -> by (by eapply (inv_unique _ Hinv)).
  apply dispatching_owned in Hd. apply list_elem_of_lookup_1 in Ht as [i Hi], Hu as [j Hj].
  assert (i = j) as -> by (by eapply omap_NoDup_index; [apply (inv_owners _ Hinv)|..]). congruence.
Qed.

Lemma notify_one c s :
  waiters (notify [c] s) !! c = (λ _, true) <$> waiters s !! c ∧
  (waiters s !! c = None → notify [c] s = s) ∧
  ∀ c', c' ≠ c → waiters (notify [c] s) !! c' = waiters s !! c'.
Proof.
  unfold notify, wake. cbn [foldl set_waiters waiters]. split_and!.
  - by rewrite lookup_alter_eq.
  - intros Hn. destruct s as [j r ce h n w]. cbn in *. unfold set_waiters. cbn. f_equal.
    apply map_eq. intros c'. destruct (decide (c' = c)) as [->|]; [by rewrite lookup_alter_eq, Hn|by rewrite lookup_alter_ne].
  - intros c' Hc. by rewrite lookup_alter_ne.
Qed.
(** A stop of a run that awaits nothing it could be woken by changes nothing. *)
Lemma stop_lost s ts k t inst :
  Inv (s, ts) → t ∈ ts → owned_key t = Some k → running s !! k = Some inst → listening t = None →
  notify [cancel inst] s = s.
Proof.
  intros Hinv Ht Ho Hk Hl. apply notify_one. destruct (waiters s !! cancel inst) as [w|] eqn:Hw; [|done]. exfalso.
  assert (is_Some (waiters s !! cancel inst)) as Hs by (by exists w).
  apply (inv_waiters _ Hinv) in Hs as (u & Hu & Hlu). rewrite (listener_owns s ts k inst t u) in Hlu by done. congruence.
Qed.
End stopping.

(** C12: a [/stop] that answers [true] either finds the run of the job in one of the two
    [select!]s that listen to its token (for the answer to the request or the exit of the
    child; in the pause between two attempts), and then wakes that run and no other; or
    finds it anywhere else (resolving the host, reading the body or the pipes, recording a
    row), and then changes nothing at all: no trace of the stop is left for the next
    wait. *)
Theorem stop_wakes_only_listeners `{Libs} {R} `{HistoryRecorder R} b (h : R) s s' ts k :
  reachable b h (s, ts) → stop k s = (s', Ok true) →
  ∃ t inst spec pc, t ∈ ts ∧ owned_key t = Some k ∧ running s !! k = Some inst ∧ running_job t = Some (spec, pc) ∧
    ((∃ dpc, pc = Dispatching (cancel inst) dpc ∧ in_select dpc ∧ waiters s' !! cancel inst = Some true ∧
      ∀ c, c ≠ cancel inst → waiters s' !! c = waiters s !! c) ∨
     ((∀ c dpc, pc = Dispatching c dpc → ¬ in_select dpc) ∧ s' = s)).
Proof.
  intros Hinv%inv_reachable (inst & Hk & ->)%stop_ok.
  pose proof (proj1 (inv_running _ Hinv k) (mk_is_Some _ _ Hk)) as (t & Ht & Ho)%elem_of_owned. cbn [fst snd] in *.
  destruct (notify_one (cancel inst) s) as (Hc & _ & Hother). destruct (owned_running t k Ho) as (spec & pc & Hj).
  exists t, inst, spec, pc. split_and!; [done..|]. destruct (listening t) as [c|] eqn:Hl; [left|right].
  - destruct (listening_dispatching t c Hl) as [k' Hd]. pose proof (inv_token _ Hinv t k' c Ht Hd) as Htok.
    apply dispatching_owned in Hd. assert (k' = k) as -> by congruence. cbn [fst] in Htok. rewrite Hk in Htok.
    injection Htok as <-. pose proof (proj1 (listening_in_select t _) Hl) as (sp & dpc & Hj' & Hin). exists dpc.
    split_and!; [congruence|done| |done].
    assert (is_Some (waiters s !! cancel inst)) as [w Hw] by (apply (inv_waiters _ Hinv); eauto). by rewrite Hc, Hw.
  - split; [|by eapply stop_lost]. intros c dpc -> Hin.
    assert (listening t = Some c) as Hl' by (apply listening_in_select; eauto). congruence.
Qed.

(** A stop that finds its run in the pause between two attempts ends it: the task can
    leave the pause by the stop, and the outcome is then FAILED, "aborted by /stop". *)
Theorem stop_ends_pause `{Libs} {R} `{HistoryRecorder R} b (h : R) s s' ts k i t spec c n err inp :
  reachable b h (s, ts) → stop k s = (s', Ok true) →
  ts !! i = Some t → owned_key t = Some k → running_job t = Some (spec, Dispatching c (DPause n err)) →
  pause (surroundings inp n) = StopDuringDelay →
  ∃ s'' t', advance b i inp (s', ts) = Some (s'', <[i := t']> ts) ∧
    running_job t' = Some (spec, Finishing (mkOutcome Failed n (Some "aborted by /stop"))) ∧
    history s'' = history s.
Proof.
  intros Hinv%inv_reachable (inst & Hk & ->)%stop_ok Hi Ho Hj Hp.
  assert (dispatching t = Some (k, c) ∧ listening t = Some c) as [Hd Hl].
  { destruct t as [? ? ? []|? ? []| | | | | |]; try done; injection Hj as -> ->; by injection Ho as <-. }
  assert (t ∈ ts) as Ht by (by eapply list_elem_of_lookup_2).
  pose proof (inv_token _ Hinv t k c Ht Hd) as Htok. cbn [fst] in Htok. rewrite Hk in Htok. injection Htok as <-.
  assert (is_Some (waiters s !! cancel inst)) as [w Hw] by (apply (inv_waiters _ Hinv); eauto).
  destruct (notify_one (cancel inst) s) as (Hc & _ & _). rewrite Hw in Hc. cbn [fmap option_fmap option_map] in Hc.
  assert (∀ k' ex cell, run_step b inp k' spec ex cell (Dispatching (cancel inst) (DPause n err)) (notify [cancel inst] s) =
    (leave_wait (cancel inst) (DPause n err) (set_history (history s) (notify [cancel inst] s)),
     RunTo (Finishing (mkOutcome Failed n (Some "aborted by /stop"))))) as Hrun.
  { intros k' ex cell. cbn [run_step]. rewrite Hc. cbn [default from_option id dispatch_step]. by rewrite Hp. }
  unfold advance. rewrite Hi. cbn [mbind option_bind].
  destruct t as [sp expr cell []|k' extras []| | | | | |]; try done; injection Hj as -> ->; cbn [thread_step].
  1: rewrite loop_step_run, Hrun. 2: rewrite trigger_step_run, Hrun.
  all: cbn [mbind option_bind after_run]; do 2 eexists; rewrite app_nil_r; (split_and!; [reflexivity..|done]).
Qed.

(** *** A run that nothing ends *)

(** The overrides that a run passes to its child. *)
Definition run_overrides (t : Thread) : list (string * string) :=
  match t with Trigger _ extras _ => extras | _ => [] end.

Section stuck.
Context `{Libs} {R : Type} `{HistoryRecorder R} (b : ExecutorBundle).
Implicit Types (s : Shared R) (ts : list Thread).

Lemma stuck_step inp t s spec c n w :
  running_job t = Some (spec, Dispatching c (DFinish n w)) →
  attempt_result b spec (run_overrides t) (λ _, w) n = None → thread_step b inp t s = Some (s, t, []).
Proof.
  intros Hj Hr. assert (∀ k cell, run_step b inp k spec (run_overrides t) cell (Dispatching c (DFinish n w)) s =
    (s, RunTo (Dispatching c (DFinish n w)))) as Hs.
  { intros k cell. cbn [run_step dispatch_step]. rewrite Hr.
    destruct (pending inp); by destruct s. }
  destruct t as [sp expr cell []|k' extras []| | | | | |]; try done; injection Hj as -> ->; cbn [thread_step run_overrides] in *.
  - by rewrite loop_step_run, Hs.
  - by rewrite trigger_step_run, Hs.
Qed.

Lemma stuck_for_ever y y' i t spec c n w :
  y.2 !! i = Some t → running_job t = Some (spec, Dispatching c (DFinish n w)) →
  attempt_result b spec (run_overrides t) (λ _, w) n = None →
  rtc (step b) y y' → y'.2 !! i = Some t.
Proof.
  intros Hi Hj Hr Hst. induction Hst as [y|y y1 y' Hs _ IH]; [done|]. apply IH. clear IH.
  destruct Hs as [s ts u Hu|s ts j u inp s' u' spawned Hu Hs]; cbn [snd] in *.
  - rewrite lookup_app_l; [done|]. by eapply lookup_lt_Some.
  - rewrite lookup_app_l by (rewrite length_insert; by eapply lookup_lt_Some). destruct (decide (j = i)) as [->|Hne].
    + assert (u = t) as -> by congruence. rewrite (stuck_step inp t s spec c n w Hj Hr) in Hs. injection Hs as _ <- _.
      by eapply list_lookup_insert_eq, lookup_lt_Some.
    + by rewrite list_lookup_insert_ne.
Qed.
End stuck.

(** C6: a run whose child exited in time, but left its output pipe open for ever in a process
    of its own, keeps its job busy for ever: in every state from then on, whatever is
    called and whatever stops come, the run is where it was, the job is in the table of
    running instances, a fire of it is refused as already running, and a stop of it
    changes nothing. *)
Theorem open_pipe_keeps_entry `{Libs} {R} `{HistoryRecorder R} b (h : R) s ts i t k spec c n w prog rest allowed child at_ code :
  reachable b h (s, ts) → ts !! i = Some t → owned_key t = Some k →
  running_job t = Some (spec, Dispatching c (DFinish n w)) → kind spec = Exec (prog :: rest) allowed →
  (ShellExec.spawn_child (Dispatch.sys w) (ShellExec.mkSpawn prog rest (ShellExec.app_root (shell b))
     (ShellExec.build_env (shell b) allowed (run_overrides t)))).2 = Ok child →
  ShellExec.race (Dispatch.sys w) (ShellExec.timeout (shell b)) child = (at_, ShellExec.Exited (Ok code)) →
  ShellExec.eof_after (ShellExec.stdout_pipe child) = None →
  ∀ s' ts', rtc (step b) (s, ts) (s', ts') →
    ts' !! i = Some t ∧ cancel <$> running s' !! k = Some c ∧
    (∀ sched now, begin_running k sched now s' = Err (JobAlreadyRunning (group k) (name k))) ∧
    (stop k s').1 = s'.
Proof.
  intros Hreach Hi Ho Hj Hk Hc Hrace Heof s' ts' Hst.
  assert (attempt_result b spec (run_overrides t) (λ _, w) n = None) as Hres.
  { unfold attempt_result, ShellExec.outcome. rewrite Hk.
    by rewrite (proj2 (ShellExec.run_never_ends _ _ _ _ _ _)) by eauto 10. }
  pose proof (stuck_for_ever b (s, ts) (s', ts') i t spec c n w Hi Hj Hres Hst) as Hi'. cbn [snd] in Hi'.
  assert (Inv (s', ts')) as Hinv by (apply (inv_reachable b h); unfold reachable in *; by etransitivity).
  assert (dispatching t = Some (k, c) ∧ listening t = None) as [Hd Hl].
  { destruct t as [? ? ? []|? ? []| | | | | |]; try done; injection Hj as -> ->; by injection Ho as <-. }
  assert (t ∈ ts') as Ht by (by eapply list_elem_of_lookup_2).
  pose proof (inv_token _ Hinv t k c Ht Hd) as Htok. cbn [fst] in Htok.
  destruct (running s' !! k) as [inst|] eqn:Hr; [|done]. split_and!; [done|done| |].
  - intros sched now. unfold begin_running. by rewrite Hr.
  - unfold stop. destruct (jobs s' !! k); [|done]. rewrite Hr. by apply (stop_lost s' ts' k t inst).
Qed.

(** ** Samples *)
#[local] Existing Instance Sample.libs.
(** A job that fails and retries: the upstream answers 503. *)
Definition flaky : JobSpec :=
  mkJobSpec (mkJobKey "g" "flaky") Manual TimeWindow_default (mkRetryPolicy 2 1000 false)
    (Http "get" "https://example.org/ping" []).
Definition failing (p : DelayEvent) (i : Z) : AttemptWorld :=
  mkAttempt (i * 1000) 7 ∅
    (HttpExec.mkHttpWorld (λ _, Err "no dns") (λ _, HttpExec.Sent (Ok (HttpExec.mkResponse 503 [HttpExec.Chunk "no"]))))
    (ShellExec.world_of (ShellExec.child_of None None)) p.
Definition flaky_start : Sys (list HistoryEntry) :=
  ((init []).1, [Registering [flaky] RRemove; Trigger (Dsl.key flaky) [] TLookup]).
(** Register, trigger, and the first attempt up to its pause. *)
Definition to_pause : list (nat * Input) :=
  (λ i, (i, mkInput 0 (failing Slept) false)) <$> [0; 0; 0; 1; 1; 1; 1; 1; 1; 1].

Lemma flaky_reachable sched y :
  run_schedule sample_bundle sched flaky_start = Some y → reachable sample_bundle [] y.
Proof.
  intros Hr. eapply rtc_l; [by apply (step_call _ _ [] (Registering [flaky] RRemove))|].
  eapply rtc_l; [by apply (step_call _ _ [_] (Trigger (Dsl.key flaky) [] TLookup))|]. by eapply run_schedule_rtc.
Qed.

(** Past the [select!] of an attempt a stop is lost. *)
Lemma stop_wakes_only_listeners_witness :
  ∃ s ts, run_schedule sample_bundle (take 9 to_pause) flaky_start = Some (s, ts) ∧
    stop (Dsl.key flaky) s = (s, Ok true) ∧
    ∃ t inst, t ∈ ts ∧ owned_key t = Some (Dsl.key flaky) ∧ running s !! Dsl.key flaky = Some inst.
Proof.
  destruct (run_schedule sample_bundle (take 9 to_pause) flaky_start) as [[s ts]|] eqn:Hrun; [|by vm_compute in Hrun].
  assert (stop (Dsl.key flaky) s = (s, Ok true)) as Hstop.
  { vm_compute in Hrun. injection Hrun as <- _. vm_compute. reflexivity. }
  destruct (stop_wakes_only_listeners sample_bundle [] s s ts (Dsl.key flaky) (flaky_reachable _ _ Hrun) Hstop)
    as (t & inst & spec & pc & Ht & Ho & Hr & _).
  exists s, ts. split; [reflexivity|]. split; [exact Hstop|]. exists t, inst. exact (conj Ht (conj Ho Hr)).
Defined.

Lemma stop_ends_pause_witness :
  ∃ s ts s'' t', run_schedule sample_bundle to_pause flaky_start = Some (s, ts) ∧
    advance sample_bundle 1 (mkInput 0 (failing StopDuringDelay) false) ((stop (Dsl.key flaky) s).1, ts) =
      Some (s'', <[1 := t']> ts) ∧
    running_job t' = Some (flaky, Finishing (mkOutcome Failed 1 (Some "aborted by /stop"))).
Proof.
  destruct (run_schedule sample_bundle to_pause flaky_start) as [[s ts]|] eqn:Hrun; [|by vm_compute in Hrun].
  pose proof (flaky_reachable _ _ Hrun) as Hreach.
  destruct (stop (Dsl.key flaky) s) as [s' r] eqn:Hstop.
  assert (r = Ok true) as ->.
  { vm_compute in Hrun. injection Hrun as <- _. vm_compute in Hstop. by injection Hstop as _ <-. }
  assert (∃ t, ts !! 1 = Some t ∧ owned_key t = Some (Dsl.key flaky) ∧
    running_job t = Some (flaky, Dispatching 0 (DPause 1 (Some "upstream HTTP error 503: no")))) as (t & Hi & Ho & Hj).
  { vm_compute in Hrun. injection Hrun as _ <-. eexists. split; [reflexivity|]. split; reflexivity. }
  destruct (stop_ends_pause sample_bundle [] s s' ts (Dsl.key flaky) 1 t flaky 0 1 _
    (mkInput 0 (failing StopDuringDelay) false) Hreach Hstop Hi Ho Hj eq_refl) as (s'' & t' & Ha & Hj' & _).
  exists s, ts, s'', t'. rewrite Hstop. exact (conj eq_refl (conj Ha Hj')).
Defined.

(** A script that starts a daemon and exits. *)
Definition daemon : JobSpec :=
  mkJobSpec (mkJobKey "g" "daemon") Manual TimeWindow_default (mkRetryPolicy 2 1000 false) (Exec ["start.sh"] []).
Definition leaving (i : Z) : AttemptWorld :=
  mkAttempt (i * 1000) 7 ∅ (HttpExec.mkHttpWorld (λ _, Err "no dns") (λ _, HttpExec.SendCancelled))
    (ShellExec.world_of (ShellExec.child_of (Some 5%Z) None)) Slept.
Definition daemon_start : Sys (list HistoryEntry) :=
  ((init []).1, [Registering [daemon] RRemove; Trigger (Dsl.key daemon) [] TLookup]).
(** Register, trigger, and the first attempt past its [select!]. *)
Definition to_daemon : list (nat * Input) :=
  (λ i, (i, mkInput 0 leaving false)) <$> [0; 0; 0; 1; 1; 1; 1; 1; 1].

(** A stop sent to it and its answer are one continuation. *)
Lemma open_pipe_keeps_entry_witness :
  ∃ s ts s' ts', run_schedule sample_bundle to_daemon daemon_start = Some (s, ts) ∧
    rtc (step sample_bundle) (s, ts) (s', ts') ∧ Stop (Dsl.key daemon) true ∈ ts' ∧
    begin_running (Dsl.key daemon) "" 1000000 s' = Err (JobAlreadyRunning "g" "daemon") ∧ (stop (Dsl.key daemon) s').1 = s'.
Proof.
  destruct (run_schedule sample_bundle to_daemon daemon_start) as [[s ts]|] eqn:Hrun; [|by vm_compute in Hrun].
  assert (reachable sample_bundle [] (s, ts)) as Hreach.
  { eapply rtc_l; [by apply (step_call _ _ [] (Registering [daemon] RRemove))|].
    eapply rtc_l; [by apply (step_call _ _ [_] (Trigger (Dsl.key daemon) [] TLookup))|]. by eapply run_schedule_rtc. }
  assert (∃ t, ts !! 1 = Some t ∧ owned_key t = Some (Dsl.key daemon) ∧ run_overrides t = [] ∧
    running_job t = Some (daemon, Dispatching 0 (DFinish 1 (leaving 1)))) as (t & Hi & Ho & Hov & Hj).
  { vm_compute in Hrun. injection Hrun as _ <-. eexists. split; [reflexivity|]. split; [reflexivity|]. split; reflexivity. }
  assert (is_Some (jobs s !! Dsl.key daemon)) as [j Hjob].
  { vm_compute in Hrun. injection Hrun as <- _. eexists. vm_compute. reflexivity. }
  assert (rtc (step sample_bundle) (s, ts) (s, ts ++ [Stop (Dsl.key daemon) true])) as Hst.
  { eapply rtc_l; [by apply (step_call _ s ts (Stop (Dsl.key daemon) false))|]. apply rtc_once.
    apply (advance_last _ s s ts (Stop (Dsl.key daemon) false) (Stop (Dsl.key daemon) true) (mkInput 0 leaving false)).
    unfold thread_step. by rewrite Hjob. }
  destruct (open_pipe_keeps_entry sample_bundle [] s ts 1 t (Dsl.key daemon) daemon 0 1 (leaving 1) "start.sh" [] []
    (ShellExec.child_of (Some 5%Z) None) 5 (Some 0%Z) Hreach Hi Ho Hj eq_refl ltac:(rewrite Hov; vm_compute; reflexivity)
    ltac:(vm_compute; reflexivity) eq_refl s _ Hst) as (_ & _ & Hb & Hstop).
  exists s, ts, s, (ts ++ [Stop (Dsl.key daemon) true]). split; [reflexivity|]. split; [exact Hst|].
  split; [apply elem_of_app; right; by left|]. split; [apply Hb|exact Hstop].
Defined.
