(* ===== verification/Middleware.v ===== *)
(** * HTTP messages and response middleware
    (src/traceparent.rs, src/access_log.rs, src/security_headers.rs)

    A message's headers are a list of lower-case names and values, as the bytes on the
    wire. A middleware is a function on handlers. Fresh UUIDs are arguments, each the 32
    hexadecimal digits of [Uuid::simple]. *)
From S2P Require Import Prelude RStr Errors Libs.

Abbreviation Headers := (list (string * string)).
Inductive Body := JsonBody (j : Json) | TextBody (s : string).
Record HttpRequest := mkRequest
  { rq_method : string; rq_path : string; rq_query : option string; rq_headers : Headers }.
Record HttpResponse := mkResponse { rs_status : Z; rs_headers : Headers; rs_body : Body }.
Definition Handler : Type := HttpRequest → HttpResponse.

(** [HeaderMap]: [get] is the first value, [insert] replaces all of them. *)
Definition get_header (k : string) (h : Headers) : option string := assoc k h.
Definition contains_header (k : string) (h : Headers) : bool := existsb (λ e, String.eqb e.1 k) h.
Definition remove_header (k : string) (h : Headers) : Headers := List.filter (λ e, negb (String.eqb e.1 k)) h.
Definition insert_header (k v : string) (h : Headers) : Headers := remove_header k h ++ [(k, v)].
(** [h.entry(k).or_insert(v)]. *)
Definition or_insert (k v : string) (h : Headers) : Headers :=
  if contains_header k h then h else h ++ [(k, v)].
Definition with_headers (h : Headers) (r : HttpResponse) : HttpResponse :=
  mkResponse (rs_status r) h (rs_body r).

(** ** traceparent *)
Section traceparent.
Context `{Libs}.

Definition zero_trace_id : string := "00000000000000000000000000000000".
Definition header_str (k : string) (h : Headers) : option string := get_header k h ≫= header_value_to_str.

Definition inbound_trace_id (h : Headers) : option string :=
  tp ← header_str "traceparent" h;
  match split_on "-" tp with
  | [version; trace; _; _] =>
      if String.eqb version "00" && (slen trace =? 32) && str_all is_ascii_hexdigit trace
         && negb (String.eqb trace zero_trace_id)
      then Some trace else None
  | _ => None
  end.
Definition extract_or_generate_trace_id (uuid : string) (h : Headers) : string :=
  default uuid (inbound_trace_id h).
Definition generate_span_id (uuid : string) : string := stake 16 uuid.

Definition traceparent_value (trace_id span_id : string) : string :=
  "00-" +:+ trace_id +:+ "-" +:+ span_id +:+ "-01".

Definition traceparent_middleware (uuid1 uuid2 : string) (next : Handler) : Handler := λ req,
  let trace_id := extract_or_generate_trace_id uuid1 (rq_headers req) in
  let span_id := generate_span_id uuid2 in
  let response := next req in
  let h := rs_headers response in
  let h := if negb (contains_header "traceparent" h) then
             let value := traceparent_value trace_id span_id in
             if header_value_from_str value then insert_header "traceparent" value h else h
           else h in
  let h := if negb (contains_header "x-trace-id" h) then
             if header_value_from_str trace_id then insert_header "x-trace-id" trace_id h else h
           else h in
  with_headers h response.

(** ** Access log *)
Record AccessLogLine := mkAccessLog
  { log_method : string; log_route : string; log_status : Z; log_duration_us : Z; log_trace_id : string }.

Definition access_log_trace_id (uuid : string) (h : Headers) : string :=
  default (stake 16 uuid)
    (tp ← header_str "traceparent" h;
     match split_on "-" tp with
     | [_; trace; _; _] =>
         if (slen trace =? 32) && str_all is_ascii_hexdigit trace then Some trace else None
     | _ => None
     end).

(** The response of the inner handler and the line logged for it. *)
Definition access_log_middleware (uuid : string) (matched_path : option string) (duration_us : Z)
    (next : Handler) (req : HttpRequest) : HttpResponse * AccessLogLine :=
  let response := next req in
  (response, mkAccessLog (rq_method req) (default "<unmatched>" matched_path) (rs_status response)
     duration_us (access_log_trace_id uuid (rq_headers req))).
End traceparent.

(** ** Security headers *)
Definition security_headers_middleware (next : Handler) : Handler := λ req,
  let response := next req in
  let h := rs_headers response in
  let h := or_insert "content-security-policy" "default-src 'none'; frame-ancestors 'none'" h in
  let h := or_insert "strict-transport-security" "max-age=63072000; includeSubDomains; preload" h in
  let h := or_insert "x-frame-options" "DENY" h in
  let h := or_insert "x-content-type-options" "nosniff" h in
  let h := or_insert "referrer-policy" "no-referrer" h in
  with_headers h response.

(** ** Header lemmas *)
Lemma contains_get k h : contains_header k h = true ↔ is_Some (get_header k h).
Proof.
  unfold contains_header, get_header. induction h as [|[k' v] h IH]; cbn.
  - split; [done|by intros ?%is_Some_None].
  - rewrite (String.eqb_sym k' k). destruct (String.eqb k k'); cbn; [by split|done].
Qed.

Lemma get_header_app k h1 h2 :
  get_header k (h1 ++ h2) = match get_header k h1 with Some v => Some v | None => get_header k h2 end.
Proof. unfold get_header. induction h1 as [|[k' v] h1 IH]; cbn; [done|]. by destruct (String.eqb k k'). Qed.

Lemma get_remove k k' h : get_header k (remove_header k' h) = if String.eqb k k' then None else get_header k h.
Proof.
  unfold get_header, remove_header. induction h as [|[k2 v] h IH]; cbn; [by destruct (String.eqb k k')|].
  destruct (String.eqb_spec k2 k') as [->|Hne]; cbn; rewrite IH.
  - by destruct (String.eqb k k').
  - destruct (String.eqb_spec k k') as [e1|], (String.eqb_spec k k2) as [e2|]; try done. congruence.
Qed.

Lemma get_insert k k' v h :
  get_header k (insert_header k' v h) = if String.eqb k k' then Some v else get_header k h.
Proof.
  unfold insert_header. rewrite get_header_app, get_remove. cbn.
  destruct (String.eqb k k'); [done|]. by destruct (get_header k h).
Qed.

Lemma get_or_insert k k' v h :
  get_header k (or_insert k' v h) =
    if String.eqb k k' then Some (default v (get_header k h)) else get_header k h.
Proof.
  unfold or_insert. destruct (contains_header k' h) eqn:Hc.
  - apply contains_get in Hc as [v' Hv]. destruct (String.eqb_spec k k') as [->|]; [by rewrite Hv|done].
  - assert (get_header k' h = None) as Hn.
    { destruct (get_header k' h) eqn:Hg; [|done].
      assert (contains_header k' h = true) by (apply contains_get; by rewrite Hg). congruence. }
    rewrite get_header_app. cbn. destruct (String.eqb_spec k k') as [->|]; [by rewrite Hn|].
    by destruct (get_header k h).
Qed.
#[export] Hint Rewrite get_or_insert get_insert : cron.

(** ** Trace ids *)
Lemma split_on_app c a b :
  str_all (λ d, negb (Ascii.eqb c d)) a = true → split_on c (a +:+ String c b) = a :: split_on c b.
Proof.
  induction a as [|x a IH]; intros Ha.
  - rewrite sapp_nil_l. cbn. by rewrite Ascii.eqb_refl.
  - cbn in Ha. apply andb_true_iff in Ha as [Hx Ha]. apply negb_true_iff in Hx. rewrite sapp_cons. cbn [split_on].
    by rewrite Hx, IH.
Qed.

Lemma split_on_none c a : str_all (λ d, negb (Ascii.eqb c d)) a = true → split_on c a = [a].
Proof.
  induction a as [|x a IH]; intros Ha; [done|]. cbn in Ha. apply andb_true_iff in Ha as [Hx Ha].
  apply negb_true_iff in Hx. cbn [split_on]. by rewrite Hx, IH.
Qed.

Lemma hex_no_dash s : str_all is_ascii_hexdigit s = true → str_all (λ d, negb (Ascii.eqb "-" d)) s = true.
Proof. apply str_all_impl. byte_cases. Qed.
Lemma hex_visible s : str_all is_ascii_hexdigit s = true → str_all visible_ascii s = true.
Proof. apply str_all_impl. byte_cases. Qed.

(** What [Uuid::simple] prints of a version 4 UUID. *)
Definition is_uuid (u : string) : Prop :=
  slen u = 32 ∧ str_all is_ascii_hexdigit u = true ∧ u ≠ zero_trace_id.

Lemma inbound_trace_id_uuid `{Libs} h id : inbound_trace_id h = Some id → is_uuid id.
Proof.
  unfold inbound_trace_id. destruct (header_str _ h) as [tp|]; cbn; [|done].
  destruct (split_on "-" tp) as [|v [|t [|? [|? [|]]]]]; try done.
  destruct (_ && _) eqn:Hb; [|done]. intros [= <-]. bool_prop.
  split_and!; [by apply Nat.eqb_eq|done|done].
Qed.

Lemma traceparent_value_parts id span :
  str_all is_ascii_hexdigit id = true → str_all is_ascii_hexdigit span = true →
  split_on "-" (traceparent_value id span) = ["00"; id; span; "01"] ∧
  str_all visible_ascii (traceparent_value id span) = true.
Proof.
  intros Hid Hspan. unfold traceparent_value. split.
  - change ("00-" +:+ id +:+ "-" +:+ span +:+ "-01") with ("00" +:+ String "-" (id +:+ String "-" (span +:+ String "-" "01"))).
    rewrite !split_on_app by (done || by apply hex_no_dash). done.
  - by rewrite !str_all_app, (hex_visible id), (hex_visible span).
Qed.

Lemma trace_id_uuid `{Libs} uuid h : is_uuid uuid → is_uuid (extract_or_generate_trace_id uuid h).
Proof.
  intros Hu. unfold extract_or_generate_trace_id.
  destruct (inbound_trace_id h) eqn:Hi; [by eapply inbound_trace_id_uuid|done].
Qed.

Lemma set_once k k' v h :
  get_header k (if negb (contains_header k' h) then insert_header k' v h else h) =
    if String.eqb k k' then Some (default v (get_header k h)) else get_header k h.
Proof.
  destruct (contains_header k' h) eqn:Hc; cbn [negb].
  - apply contains_get in Hc as [v' Hv]. destruct (String.eqb_spec k k') as [->|]; [by rewrite Hv|done].
  - rewrite get_insert. destruct (String.eqb_spec k k') as [->|]; [|done].
    destruct (get_header k' h) eqn:Hg; [|done].
    assert (contains_header k' h = true) by (apply contains_get; by rewrite Hg). congruence.
Qed.

(** The headers of the response, when both values are valid. *)
Lemma traceparent_headers `{LibLaws} uuid1 uuid2 next req k :
  is_uuid uuid1 → is_uuid uuid2 →
  let id := extract_or_generate_trace_id uuid1 (rq_headers req) in
  let inner := get_header k (rs_headers (next req)) in
  get_header k (rs_headers (traceparent_middleware uuid1 uuid2 next req)) =
    if String.eqb k "x-trace-id" then Some (default id inner)
    else if String.eqb k "traceparent" then Some (default (traceparent_value id (stake 16 uuid2)) inner)
    else inner.
Proof.
  intros Hu1 (Hl2 & Hh2 & _). cbv zeta.
  assert (is_uuid (extract_or_generate_trace_id uuid1 (rq_headers req))) as (Hl & Hh & Hz) by by apply trace_id_uuid.
  unfold traceparent_middleware, generate_span_id. set (id := extract_or_generate_trace_id _ _) in *.
  destruct (traceparent_value_parts id (stake 16 uuid2) Hh) as [_ Hvis]; [by apply str_all_stake|].
  destruct (header_value_visible _ Hvis) as [-> _].
  destruct (header_value_visible id (hex_visible id Hh)) as [-> _]. cbn [rs_headers with_headers].
  rewrite !set_once. destruct (String.eqb_spec k "x-trace-id") as [->|]; done.
Qed.

Lemma traceparent_keeps `{LibLaws} uuid1 uuid2 next req k v :
  get_header k (rs_headers (next req)) = Some v →
  get_header k (rs_headers (traceparent_middleware uuid1 uuid2 next req)) = Some v.
Proof.
  intros Hv. unfold traceparent_middleware. cbn [rs_headers with_headers].
  assert (∀ (b : bool) k' v' h, get_header k h = Some v →
    get_header k (if negb (contains_header k' h) then if b then insert_header k' v' h else h else h) = Some v) as Hs.
  { intros b k' v' h Hh. destruct b; [|by destruct (negb _)]. rewrite set_once, Hh. by destruct (String.eqb k k'). }
  by apply Hs, Hs.
Qed.

Lemma traceparent_sets `{LibLaws} uuid1 uuid2 next req :
  is_uuid uuid1 → is_uuid uuid2 →
  is_Some (get_header "traceparent" (rs_headers (traceparent_middleware uuid1 uuid2 next req))) ∧
  is_Some (get_header "x-trace-id" (rs_headers (traceparent_middleware uuid1 uuid2 next req))).
Proof. intros Hu1 Hu2. rewrite !traceparent_headers by done. cbn. eauto. Qed.

(** C39: a response to which the handler added neither header gets both: the trace id is the
    inbound one if the request carries a well-formed [traceparent] and the fresh UUID
    otherwise; and the next hop reads the same id back from the emitted [traceparent].
    What a handler did set is kept. *)
Theorem traceparent_propagates `{LibLaws} uuid1 uuid2 next req :
  is_uuid uuid1 → is_uuid uuid2 →
  let id := extract_or_generate_trace_id uuid1 (rq_headers req) in
  let response := traceparent_middleware uuid1 uuid2 next req in
  get_header "x-trace-id" (rs_headers response) =
    Some (default id (get_header "x-trace-id" (rs_headers (next req)))) ∧
  get_header "traceparent" (rs_headers response) =
    Some (default (traceparent_value id (stake 16 uuid2)) (get_header "traceparent" (rs_headers (next req)))) ∧
  inbound_trace_id [("traceparent", traceparent_value id (stake 16 uuid2))] = Some id ∧
  rs_status response = rs_status (next req) ∧ rs_body response = rs_body (next req).
Proof.
  intros Hu1 Hu2. cbv zeta. rewrite !traceparent_headers by done. split_and!; [done|done| |done|done].
  assert (is_uuid (extract_or_generate_trace_id uuid1 (rq_headers req))) as (Hl & Hh & Hz) by by apply trace_id_uuid.
  set (id := extract_or_generate_trace_id _ _) in *. destruct Hu2 as (_ & Hh2 & _).
  destruct (traceparent_value_parts id (stake 16 uuid2) Hh) as [Hsplit Hvis]; [by apply str_all_stake|].
  destruct (header_value_visible _ Hvis) as [_ Hstr]. unfold inbound_trace_id.
  change (header_str "traceparent" [("traceparent", traceparent_value id (stake 16 uuid2))])
    with (header_value_to_str (traceparent_value id (stake 16 uuid2))).
  rewrite Hstr. cbn [mbind option_bind]. rewrite Hsplit, Hl, Hh. cbn.
  by destruct (String.eqb_spec id zero_trace_id).
Qed.

(** Every response carries the five security headers, one a handler set keeps its value,
    no other header changes, and applying the middleware twice is applying it once. *)
Theorem security_headers_spec next req :
  let response := security_headers_middleware next req in
  let inner := rs_headers (next req) in
  (∀ k, get_header k (rs_headers response) =
     match get_header k inner with
     | Some v => Some v
     | None =>
         assoc k [("content-security-policy", "default-src 'none'; frame-ancestors 'none'");
                  ("strict-transport-security", "max-age=63072000; includeSubDomains; preload");
                  ("x-frame-options", "DENY"); ("x-content-type-options", "nosniff");
                  ("referrer-policy", "no-referrer")]
     end) ∧
  rs_status response = rs_status (next req) ∧ rs_body response = rs_body (next req) ∧
  security_headers_middleware (security_headers_middleware next) req = response.
Proof.
  cbv zeta. split_and!; [|done|done|].
  - intros k. unfold security_headers_middleware. cbn [rs_headers with_headers].
    rewrite !get_or_insert. cbn [assoc]. repeat case_match; simplify_eq/=; done.
  - unfold security_headers_middleware, with_headers. cbn [rs_headers rs_status rs_body]. f_equal.
    set (h := rs_headers (next req)).
    set (r := or_insert "referrer-policy" _ (or_insert _ _ (or_insert _ _ (or_insert _ _ (or_insert _ _ h))))).
    assert (∀ k v, is_Some (get_header k r) → or_insert k v r = r) as Hid.
    { intros k v Hk%contains_get. unfold or_insert. by rewrite Hk. }
    assert (∀ k, k ∈ ["content-security-policy"; "strict-transport-security"; "x-frame-options";
      "x-content-type-options"; "referrer-policy"] → is_Some (get_header k r)) as Hk.
    { intros k Hin. unfold r. rewrite !get_or_insert.
      repeat (apply elem_of_cons in Hin as [->|Hin]; [cbn; eauto|]). by apply not_elem_of_nil in Hin. }
    do 5 (rewrite Hid; [|apply Hk; repeat first [by left|right]]). done.
Qed.

(** The logged trace id is the one of the response for every well-formed version 00
    header; but the log also takes other versions, for which the response gets a fresh id. *)
Theorem logged_trace_id_spec `{LibLaws} uuid1 uuid2 h :
  (∀ id, inbound_trace_id h = Some id →
     access_log_trace_id uuid1 h = id ∧ extract_or_generate_trace_id uuid2 h = id) ∧
  let other := [("traceparent", "01-0af7651916cd43dd8448eb211c80319c-b7ad6b7169203331-01")] in
  access_log_trace_id uuid1 other = "0af7651916cd43dd8448eb211c80319c" ∧
  extract_or_generate_trace_id uuid2 other = uuid2.
Proof.
  split.
  - intros id Hid. split; [|unfold extract_or_generate_trace_id; by rewrite Hid].
    unfold inbound_trace_id, access_log_trace_id in *. destruct (header_str _ h) as [tp|]; cbn in *; [|done].
    destruct (split_on "-" tp) as [|v [|t [|? [|? [|]]]]]; try done.
    destruct (_ && _) eqn:Hb; [|done]. injection Hid as <-. bool_prop.
    by match goal with H1 : (slen t =? 32) = true, H2 : str_all _ t = true |- _ => rewrite H1, H2 end.
  - cbv zeta. unfold access_log_trace_id, extract_or_generate_trace_id, inbound_trace_id.
    destruct (header_value_visible "01-0af7651916cd43dd8448eb211c80319c-b7ad6b7169203331-01" eq_refl) as [_ Hv].
    set (tp := "01-0af7651916cd43dd8448eb211c80319c-b7ad6b7169203331-01") in *.
    change (header_str "traceparent" [("traceparent", tp)]) with (header_value_to_str tp). by rewrite Hv.
Qed.

#[local] Existing Instance Sample.libs.
#[local] Existing Instance Sample.libs_laws.
Definition sample_uuid : string := "4bf92f3577b34da6a3ce929d0e0e4736".
Definition ok_handler : Handler := λ _, mkResponse 200 [] (TextBody "ok").

Lemma traceparent_propagates_witness :
  let req := mkRequest "GET" "/" None [("traceparent", "00-0af7651916cd43dd8448eb211c80319c-b7ad6b7169203331-01")] in
  is_uuid sample_uuid ∧
  get_header "x-trace-id" (rs_headers (traceparent_middleware sample_uuid sample_uuid ok_handler req)) =
    Some "0af7651916cd43dd8448eb211c80319c".
Proof.
  cbv zeta. assert (is_uuid sample_uuid) as Hu by (split_and!; [reflexivity|reflexivity|discriminate]).
  split; [exact Hu|]. exact (proj1 (traceparent_propagates sample_uuid sample_uuid ok_handler _ Hu Hu)).
Defined.

Lemma logged_trace_id_spec_witness :
  access_log_trace_id sample_uuid [("traceparent", "01-0af7651916cd43dd8448eb211c80319c-b7ad6b7169203331-01")] =
    "0af7651916cd43dd8448eb211c80319c".
Proof. exact (proj1 (proj2 (logged_trace_id_spec sample_uuid sample_uuid []))). Defined.
