(* ===== verification/Router.v ===== *)
(** * HTTP surface (src/router.rs)

    The reload throttle, the admin gate, the route table, the handlers and the response
    layers. A request is served against an [App]: the scheduler with its tasks, and the
    throttle. The matching of a path against a pattern and the layers of [tower_http] are
    third-party code and an interface ([Axum]). Log lines are left out. *)
From S2P Require Import Prelude RStr Ip Errors Security Dsl History Config EnvSafety Libs Loader Dispatch Scheduler Middleware.

(** ** [ReloadGate] *)

(** The instant, in milliseconds, of the last admitted reload of each group. *)
Abbreviation ReloadGate := (gmap string Z).
Definition EVICT_STALE_MULTIPLIER : Z := 10.
Definition MAX_ENTRIES : nat := 1024.

(** [now.duration_since(t).as_secs()]. *)
Definition elapsed_secs (now t : Z) : Z := Z.max 0 (now - t) / 1000.

(** [iter().min_by_key(..)]: the first of the oldest entries, in the order of the map. *)
Definition oldest_key (g : ReloadGate) : option string :=
  fst <$> foldl (λ best e, match best with
                           | Some (k, t) => if (e.2 <? t)%Z then Some e else best
                           | None => Some e
                           end) None (map_to_list g).

Definition evict_stale (stale_after now : Z) (g : ReloadGate) : ReloadGate :=
  if (0 <? stale_after)%Z then filter (λ e, (elapsed_secs now e.2 < stale_after)%Z) g else g.
Definition evict_oldest (group : string) (g : ReloadGate) : ReloadGate :=
  if (MAX_ENTRIES <=? size g) && negb (bool_decide (is_Some (g !! group))) then
    match oldest_key g with Some k => delete k g | None => g end
  else g.

Definition gate_admit (group : string) (min_interval_secs now : Z) (g : ReloadGate) : ReloadGate * result unit Z :=
  if (min_interval_secs =? 0)%Z then (g, Ok tt)
  else
    let refused := match g !! group with
                   | Some last =>
                       let elapsed := elapsed_secs now last in
                       if (elapsed <? min_interval_secs)%Z then Some (min_interval_secs - elapsed)%Z else None
                   | None => None
                   end in
    match refused with
    | Some wait => (g, Err wait)
    | None =>
        let stale_after := sat_mul_u64 min_interval_secs EVICT_STALE_MULTIPLIER in
        let g := evict_oldest group (evict_stale stale_after now g) in
        (<[group := now]> g, Ok tt)
    end.

(** ** State *)
Record AppState := mkAppState
  { cfg : AppConfig; admin_token : option string; per_group_tokens : gmap string string }.
(** What a request may change. *)
Record App (R : Type) := mkApp { sys : Sys R; reload_gate : ReloadGate }.
Arguments mkApp {R}.
Arguments sys {R}.
Arguments reload_gate {R}.

Definition ReloadGate_new : ReloadGate := ∅.
Definition entry_count (g : ReloadGate) : nat := size g.
(** [AppState::new]: the state without credentials, and the scheduler with a new throttle. *)
Definition AppState_new {R} (cfg : AppConfig) (scheduler : Sys R) : AppState * App R :=
  (mkAppState cfg None ∅, mkApp scheduler ReloadGate_new).
Definition with_admin_token (token : string) (st : AppState) : AppState :=
  mkAppState (cfg st) (Some token) (per_group_tokens st).
Definition with_per_group_tokens (tokens : gmap string string) (st : AppState) : AppState :=
  mkAppState (cfg st) (admin_token st) tokens.

Definition refuse_to_start_without_token (cfg : AppConfig) (bind : string) (token_present : bool) : result unit string :=
  if token_present then Ok tt
  else if trust_network (admin cfg) then Ok tt
  else if bind_is_loopback bind then Ok tt
  else Err ("refusing to start on non-loopback bind " +:+ bind +:+ " without an admin token: set env var " +:+ bearer_token_env (admin cfg) +:+ " to enable the /execute + /stop + /reload gate, or set admin.trust_network=true if a reverse proxy / service mesh authenticates every request before it reaches this process").

(** ** Authentication *)
Section auth.
Context `{Libs}.

(** [BoundedQuery::from_request_parts]. *)
Definition bounded_query (cap : Z) (query : option string) : result (list (string * string)) CronManagerError :=
  let pairs := form_urlencoded_parse (default "" query) in
  if (cap <? Z.of_nat (length pairs))%Z then Err (TooManyQueryParams (Z.of_nat (length pairs)) cap)
  else Ok pairs.

Definition ct_token_matches (presented expected : string) : bool :=
  if negb (slen presented =? slen expected) then false else ct_eq presented expected.

Definition extract_group_from_path (path : string) : option string :=
  rest ← strip_prefix path "/";
  match splitn 3 "/" rest with
  | verb :: group :: _ =>
      if existsb (String.eqb verb) ["execute"; "stop"; "reload"] then
        if String.eqb group "" then None else Some group
      else None
  | _ => None
  end.

(** The position of the first whitespace character. *)
Fixpoint find_whitespace (cs : list string) : option nat :=
  match cs with
  | [] => None
  | c :: cs' => if is_whitespace c then Some 0 else (λ i, slen c + i) <$> find_whitespace cs'
  end.
Definition bearer_token_bytes (header : string) : option string :=
  let trimmed := trim header in
  i ← find_whitespace (chars trimmed);
  let scheme := stake i trimmed in
  let rest := trim (sdrop i trimmed) in
  if negb (eq_ignore_ascii_case scheme "Bearer") then None
  else if String.eqb rest "" then None
  else Some rest.

(** The verdict of [admin_gate]: [Ok] runs the next handler. *)
Definition admin_gate (st : AppState) (req : HttpRequest) : result unit CronManagerError :=
  match admin_token st with
  | None => Ok tt
  | Some master =>
      match header_str "authorization" (rq_headers req) ≫= bearer_token_bytes with
      | None => Err Unauthorized
      | Some presented =>
          let master_ok := ct_token_matches presented master in
          let group_ok := default false
            (g ← extract_group_from_path (rq_path req);
             ct_token_matches presented <$> per_group_tokens st !! g) in
          if negb (master_ok || group_ok) then Err Unauthorized else Ok tt
      end
  end.
End auth.

(** ** Routes *)
Inductive Endpoint :=
  | Index | Health | Info | JobsAll | JobsGroup | RunningAll | RunningGroup
  | ExecuteJob | StopJob | ReloadJobs.
#[export] Instance Endpoint_eq_dec : EqDecision Endpoint.
Proof. solve_decision. Defined.
Record Route := mkRoute { pattern : string; post : bool; endpoint : Endpoint; gated : bool }.

Definition jobs_routes (gated : bool) : list Route :=
  [mkRoute "/jobs" false JobsAll gated; mkRoute "/jobs/" false JobsAll gated;
   mkRoute "/jobs/:group" false JobsGroup gated].
Definition running_routes (gated : bool) : list Route :=
  [mkRoute "/running" false RunningAll gated; mkRoute "/running/" false RunningAll gated;
   mkRoute "/running/:group" false RunningGroup gated].

(** The table [build] assembles: the public routes merged with the gated ones. *)
Definition routes (cfg : AppConfig) : list Route :=
  let jobs_public := expose_jobs_publicly (security cfg) in
  let running_public := expose_running_publicly (security cfg) in
  let admin_routes :=
    [mkRoute "/execute/:group/:job" true ExecuteJob true; mkRoute "/stop/:group/:job" true StopJob true;
     mkRoute "/reload/:group" true ReloadJobs true]
    ++ (if negb jobs_public then jobs_routes true else [])
    ++ (if negb running_public then running_routes true else []) in
  let public :=
    [mkRoute "/" false Index false; mkRoute "/health" false Health false; mkRoute "/healthz" false Health false;
     mkRoute "/actuator/health" false Health false; mkRoute "/actuator/info" false Info false]
    ++ (if jobs_public then jobs_routes false else [])
    ++ (if running_public then running_routes false else []) in
  public ++ admin_routes.

(** ** Third-party parts of the server *)

(** [path_params pattern path]: the decoded parameters when the router of [axum] matches;
    and the layers of [tower_http]. *)
Class Axum := {
  path_params : string → string → option (list string);
  body_limit_layer : Z → Handler → Handler;
  timeout_layer : Z → Handler → Handler;
  cors_layer : list string → Handler → Handler
}.
(** The parameters are the decoded segments of the path, none of them empty. *)
Class AxumLaws `(Axum) : Prop := {
  params_group_job path verb ps : verb ∈ ["execute"; "stop"] →
    path_params ("/" +:+ verb +:+ "/:group/:job") path = Some ps →
    ∃ g j, path = "/" +:+ verb +:+ "/" +:+ g +:+ "/" +:+ j ∧ lacks "/" g ∧ g ≠ "" ∧
      ps = [percent_decode g; percent_decode j];
  params_group path ps : path_params "/reload/:group" path = Some ps →
    ∃ g, path = "/reload/" +:+ g ∧ lacks "/" g ∧ g ≠ "" ∧ ps = [percent_decode g]
}.

(** ** Handlers *)

(** What a request reads outside of the state: the clocks (wall and monotonic, in ms), the
    environment of the process, and for a reload the DSL tree and how loading it ended. *)
Record ReqEnv := mkReqEnv
  { wall_ms : Z; mono_ms : Z; process_env : Env; dsl_tree : option Node; load_event : JoinEvent;
    dsl_root : PathBuf }.

Definition descriptor_json (d : JobDescriptor) : Json :=
  JObj [("name", JStr (dname d)); ("schedule", JStr (dschedule d)); ("lastExecution", JNum (last_execution d));
        ("nextExecution", JNum (next_execution d)); ("lastResult", JStr (dlast_result d))].
(** [serde_json::to_value] on the map of a snapshot, whose keys are in order. *)
Definition rows_json (rows : gmap string (list JobDescriptor)) : Json :=
  JObj ((λ e, (e.1, JArr (descriptor_json <$> e.2))) <$> btree_iter rows).

Section handlers.
Context `{Libs} `{Axum} {R : Type} (st : AppState) (e : ReqEnv).
Implicit Types a : App R.

Definition Outcome : Type := App R * result Body CronManagerError.
Definition json (a : App R) (j : Json) : Outcome := (a, Ok (JsonBody j)).

Definition shared a : Shared R := (sys a).1.
Definition group_filter (group : string) : option string := if String.eqb group "" then None else Some group.

Definition dangerous_override (group job k : string) : CronManagerError :=
  Forbidden ("env override '" +:+ k +:+ "' matches the dangerous-env blacklist (PATH, LD_*, DYLD_*, PYTHONPATH, NODE_OPTIONS, …); refusing to fire " +:+ group +:+ "/" +:+ job).

(** The first override that the blacklist refuses. *)
Definition refused_override (params : list (string * string)) : option (string * string) :=
  if negb (allow_dangerous_env_overrides (security (cfg st)))
  then List.find (λ kv, is_dangerous_env kv.1) params else None.

(** [execute_job]; [None] is the panic of [trigger_now]. *)
Definition execute_job (group job : string) (params : list (string * string)) (a : App R) : option Outcome :=
  let key := mkJobKey group job in
  match refused_override params with
  | Some (k, _) => Some (a, Err (dangerous_override group job k))
  | None =>
      '(y, r) ← trigger_now key params (wall_ms e) (sys a);
      let a := mkApp y (reload_gate a) in
      Some match r with
           | Err err => (a, Err err)
           | Ok _ => json a (rows_json (describe_running (shared a) (Some group)))
           end
  end.

(** The reply of [stop_job], and of [reload_jobs]. *)
Definition stopped_json (aborted : bool) (rows : Json) : Json := JObj [("stopped", JBool aborted); ("running", rows)].
Definition reloaded_json (count : nat) : Json := JObj [("reloaded", JNum (Z.of_nat count))].

Definition stop_job (group job : string) (a : App R) : Outcome :=
  let key := mkJobKey group job in
  let (s, r) := stop key (shared a) in
  let a := mkApp (s, (sys a).2) (reload_gate a) in
  match r with
  | Err err => (a, Err err)
  | Ok aborted => json a (stopped_json aborted (rows_json (describe_running s (Some group))))
  end.

(** The load of a reload, under the policy of the configuration. *)
Definition load_dsl : result (list LoadedJob) CronManagerError :=
  let sec := security (cfg st) in
  let action := action_from_env (from_env (process_env e)) (allow_dev_fixture_dsls sec) in
  load_all_bounded (process_env e) (dsl_root e) (dsl_tree e) (load_event e)
    (max_dsl_file_bytes sec) (dsl_load_timeout_secs sec) (max_retry_count sec)
    (min_cron_interval_secs sec) (block_private_networks sec) action.

Definition reload_jobs (group : string) (a : App R) : Outcome :=
  let (gate, admitted) := gate_admit group (reload_min_interval_secs (security (cfg st))) (mono_ms e) (reload_gate a) in
  let a := mkApp (sys a) gate in
  match admitted with
  | Err wait => (a, Err (TooManyRequests wait))
  | Ok _ =>
      match load_dsl with
      | Err err => (a, Err err)
      | Ok jobs =>
          let (y, r) := reload_from jobs (sys a) in
          let a := mkApp y gate in
          match r with
          | Err err => (a, Err err)
          | Ok count => json a (reloaded_json count)
          end
      end
  end.

Definition index : Body := TextBody "CronManager started".
Definition health : Body := JsonBody (JObj [("status", JStr "ok")]).
Definition info : Body := JsonBody (JObj [("name", JStr "cronmanager"); ("version", JStr "0.3.0-alpha")]).

(** The handler of an endpoint on the parameters of its pattern. *)
Definition run_endpoint (ep : Endpoint) (params : list string) (req : HttpRequest) (a : App R) : option Outcome :=
  match ep, params with
  | Index, _ => Some (a, Ok index)
  | Health, _ => Some (a, Ok health)
  | Info, _ => Some (a, Ok info)
  | JobsAll, _ => Some (json a (rows_json (describe (wall_ms e) (shared a) None)))
  | JobsGroup, group :: _ => Some (json a (rows_json (describe (wall_ms e) (shared a) (group_filter group))))
  | RunningAll, _ => Some (json a (rows_json (describe_running (shared a) None)))
  | RunningGroup, group :: _ => Some (json a (rows_json (describe_running (shared a) (group_filter group))))
  | ExecuteJob, group :: job :: _ =>
      match bounded_query (max_query_params (security (cfg st))) (rq_query req) with
      | Err err => Some (a, Err err)
      | Ok params => execute_job group job params a
      end
  | StopJob, group :: job :: _ => Some (stop_job group job a)
  | ReloadJobs, group :: _ => Some (reload_jobs group a)
  | _, _ => None
  end.

(** ** Serving a request *)
Definition error_response (err : CronManagerError) : HttpResponse :=
  let (code, body) := into_response err in
  mkResponse code [("content-type", "application/json")] (JsonBody body).
Definition to_response (r : result Body CronManagerError) : HttpResponse :=
  match r with
  | Ok (JsonBody j) => mkResponse 200 [("content-type", "application/json")] (JsonBody j)
  | Ok (TextBody s) => mkResponse 200 [("content-type", "text/plain; charset=utf-8")] (TextBody s)
  | Err err => error_response err
  end.
Definition bare (code : Z) : HttpResponse := mkResponse code [] (TextBody "").
(** What the [MethodRouter] of a route answers to a method that it does not have. *)
Definition method_not_allowed (r : Route) : HttpResponse :=
  mkResponse 405 [("allow", if post r then "POST" else "GET,HEAD")] (TextBody "").

Definition method_allowed (r : Route) (m : string) : bool :=
  if post r then String.eqb m "POST" else String.eqb m "GET" || String.eqb m "HEAD".
Definition find_route (path : string) : option (Route * list string) :=
  head (omap (λ r, (λ ps, (r, ps)) <$> path_params (pattern r) path) (routes (cfg st))).

(** A path that no route matches: [merge] keeps the fallback of the gated routes, and [layer] has
    put it behind the gate. *)
Definition not_found (req : HttpRequest) : HttpResponse :=
  match admin_gate st req with Err err => error_response err | Ok _ => bare 404 end.

(** The routing of [build]: the gate runs before the method and the handler of a gated
    route. *)
Definition serve (req : HttpRequest) (a : App R) : option (App R * HttpResponse) :=
  match find_route (rq_path req) with
  | None => Some (a, not_found req)
  | Some (r, params) =>
      match (if gated r then admin_gate st req else Ok tt) with
      | Err err => Some (a, error_response err)
      | Ok _ =>
          if negb (method_allowed r (rq_method req)) then Some (a, method_not_allowed r)
          else '(a', res) ← run_endpoint (endpoint r) params req a; Some (a', to_response res)
      end
  end.
End handlers.

(** ** Response layers *)
Section layers.
Context `{Libs} `{Axum}.

(** [structured_error_body_middleware]. *)
Definition structured_error_body_middleware (max_request_bytes : Z) (next : Handler) : Handler := λ req,
  let resp := next req in
  if negb (rs_status resp =? 413)%Z then resp
  else if match header_str "content-type" (rs_headers resp) with
          | Some s => starts_with s "application/json" | None => false end then resp
  else
    let body := JObj [("error", JStr "request_too_large");
                      ("message", JStr ("request body exceeds " +:+ pretty max_request_bytes +:+ " bytes"));
                      ("limit", JNum max_request_bytes)] in
    mkResponse 413
      (remove_header "content-length" (insert_header "content-type" "application/json" (rs_headers resp)))
      (JsonBody body).

Definition build_cors (origins : list string) : option (list string) :=
  match origins with
  | [] => None
  | _ => match List.filter header_value_from_str origins with [] => None | l => Some l end
  end.

(** The layers of [build] around its routing, from the inside out, without the access log,
    which returns the response as it is. *)
Definition inner_layers (cfg : AppConfig) (uuid1 uuid2 : string) (next : Handler) : Handler :=
  let max := max_request_bytes (limits cfg) in
  traceparent_middleware uuid1 uuid2 (security_headers_middleware
    (structured_error_body_middleware max (body_limit_layer max next))).
Definition build (cfg : AppConfig) (uuid1 uuid2 : string) (next : Handler) : Handler :=
  let router := inner_layers cfg uuid1 uuid2 next in
  let secs := request_timeout_secs (limits cfg) in
  let router := if (0 <? secs)%Z then timeout_layer secs router else router in
  match build_cors (allowed_origins cfg) with Some l => cors_layer l router | None => router end.
End layers.

(** ** The throttle *)
Lemma oldest_key_spec g : g ≠ ∅ → ∃ k t, oldest_key g = Some k ∧ g !! k = Some t.
Proof.
  intros Hg. unfold oldest_key.
  assert (∀ l best, (∀ e, e ∈ l → g !! e.1 = Some e.2) →
    match best with Some e => g !! e.1 = Some e.2 | None => l ≠ [] end →
    ∃ e, foldl (λ best e, match best with
                          | Some (k, t) => if (e.2 <? t)%Z then Some e else best
                          | None => Some e end) best l = Some e ∧ g !! e.1 = Some e.2) as Hgen.
  { induction l as [|e l IH]; intros best Hl Hb; [destruct best; [by eauto|done]|]. cbn [foldl]. apply IH.
    - intros e' He'. apply Hl. by right.
    - destruct best as [[k t]|]; [|apply Hl; by left]. destruct (e.2 <? t)%Z; [apply Hl; by left|done]. }
  destruct (Hgen (map_to_list g) None) as ([k t] & -> & Hk).
  - intros [k t] Hin. by apply elem_of_map_to_list.
  - by intros ?%map_to_list_empty_iff.
  - by exists k, t.
Qed.

Lemma evict_stale_subseteq stale now g : evict_stale stale now g ⊆ g.
Proof. unfold evict_stale. destruct (0 <? stale)%Z; [apply map_filter_subseteq|done]. Qed.

Lemma evict_oldest_subseteq group g : evict_oldest group g ⊆ g.
Proof.
  unfold evict_oldest. destruct (_ && _); [|done]. destruct (oldest_key g); [apply delete_subseteq|done].
Qed.

Lemma evict_oldest_room group g :
  size g ≤ MAX_ENTRIES → size (<[group := 0%Z]> (evict_oldest group g)) ≤ MAX_ENTRIES.
Proof.
  intros Hs. assert (0 < MAX_ENTRIES) as Hpos by (unfold MAX_ENTRIES; lia).
  unfold evict_oldest. destruct (Nat.leb_spec MAX_ENTRIES (size g)) as [Hge|Hlt]; cbn [andb].
  - case_bool_decide as Hin; cbn [negb].
    + destruct Hin as [t Ht]. rewrite map_size_insert_Some by eauto. done.
    + destruct (oldest_key_spec g) as (k & t & -> & Hk).
      { intros ->. rewrite map_size_empty in Hge. lia. }
      rewrite map_size_insert, map_size_delete, Hk. destruct (delete k g !! group); cbn [id]; unfold id; lia.
  - rewrite map_size_insert. destruct (g !! group); unfold id; lia.
Qed.

Lemma map_size_insert_any (g : ReloadGate) k v w : size (<[k := v]> g) = size (<[k := w]> g).
Proof. by rewrite !map_size_insert. Qed.

(** A reload of a group is refused exactly while fewer than the minimum number of
    seconds have passed since the last admitted one the map remembers, with the number of
    seconds left to wait and nothing changed; an admission records the instant. The map
    never exceeds its 1024 entries. *)
Theorem admit_spec group min now g :
  (0 < min)%Z →
  match (gate_admit group min now g).2 with
  | Err wait => ∃ last, g !! group = Some last ∧ (elapsed_secs now last < min)%Z ∧
      wait = (min - elapsed_secs now last)%Z ∧ (1 ≤ wait ≤ min)%Z ∧ (gate_admit group min now g).1 = g
  | Ok _ => (∀ last, g !! group = Some last → min ≤ elapsed_secs now last)%Z ∧
      (gate_admit group min now g).1 !! group = Some now ∧
      (∀ k t, k ≠ group → (gate_admit group min now g).1 !! k = Some t → g !! k = Some t)
  end ∧
  (size g ≤ MAX_ENTRIES → size (gate_admit group min now g).1 ≤ MAX_ENTRIES).
Proof.
  intros Hmin. unfold gate_admit. destruct (Z.eqb_spec min 0) as [|_]; [lia|].
  set (refused := match g !! group with Some _ => _ | None => _ end).
  destruct refused as [wait|] eqn:Hr; cbn [fst snd].
  - split; [|done]. unfold refused in Hr. destruct (g !! group) as [last|]; [|done].
    destruct (Z.ltb_spec (elapsed_secs now last) min); [|done]. injection Hr as <-.
    assert (0 ≤ elapsed_secs now last)%Z by (unfold elapsed_secs; apply Z.div_pos; lia).
    exists last. split_and!; try done; lia.
  - set (g1 := evict_stale _ now g). set (g2 := evict_oldest group g1).
    assert (g2 ⊆ g) as Hsub by (etrans; [apply evict_oldest_subseteq|apply evict_stale_subseteq]).
    split; [split_and!|].
    + intros last Hl. unfold refused in Hr. rewrite Hl in Hr. destruct (Z.ltb_spec (elapsed_secs now last) min); [done|lia].
    + by rewrite lookup_insert_eq.
    + intros k t Hk. rewrite lookup_insert_ne by done. intros Ht. by eapply lookup_weaken.
    + intros Hs. rewrite (map_size_insert_any _ _ _ 0%Z). apply evict_oldest_room.
      etrans; [apply map_subseteq_size, evict_stale_subseteq|done].
Qed.

Definition sample_gate : ReloadGate := {["g" := 5000%Z]}.
Lemma admit_spec_witness :
  (gate_admit "g" 30 12000 sample_gate).2 = Err 23%Z ∧ (gate_admit "g" 30 12000 sample_gate).1 = sample_gate.
Proof.
  assert ((gate_admit "g" 30 12000 sample_gate).2 = Err 23%Z) as Hr by (vm_compute; reflexivity).
  split; [exact Hr|]. pose proof (proj1 (admit_spec "g" 30 12000 sample_gate ltac:(done))) as Hs.
  destruct Hs as (last & _ & _ & _ & _ & Heq). exact Heq.
Defined.

(** Admissions one after the other, each with its result. *)
Fixpoint admit_all (min : Z) (reqs : list (string * Z)) (g : ReloadGate) : ReloadGate * list (result unit Z) :=
  match reqs with
  | [] => (g, [])
  | (group, now) :: reqs' =>
      let (g1, r) := gate_admit group min now g in
      let (g2, rs) := admit_all min reqs' g1 in (g2, r :: rs)
  end.

Lemma elapsed_mono now1 now2 t : (now1 ≤ now2)%Z → (elapsed_secs now1 t ≤ elapsed_secs now2 t)%Z.
Proof. intros. unfold elapsed_secs. apply Z.div_le_mono; lia. Qed.

(** An entry younger than the interval survives an admission while there is room. *)
Lemma admit_keeps k min now g group t :
  (0 < min ≤ u64_max)%Z → g !! group = Some t → (elapsed_secs now t < min)%Z → size g < MAX_ENTRIES →
  (gate_admit k min now g).1 !! group = Some t ∧ size (gate_admit k min now g).1 ≤ S (size g).
Proof.
  intros Hmin Hg He Hs. unfold gate_admit. destruct (Z.eqb_spec min 0); [lia|].
  destruct (match g !! k with Some _ => _ | None => _ end) as [wait|] eqn:Hr; cbn [fst]; [split; [done|lia]|].
  assert (k ≠ group) as Hne.
  { intros ->. rewrite Hg in Hr. destruct (Z.ltb_spec (elapsed_secs now t) min); [done|lia]. }
  set (g1 := evict_stale _ now g).
  assert (size g1 ≤ size g) as Hsize by apply map_subseteq_size, evict_stale_subseteq.
  assert (evict_oldest k g1 = g1) as ->.
  { unfold evict_oldest. destruct (Nat.leb_spec MAX_ENTRIES (size g1)); [lia|done]. }
  split; [|rewrite map_size_insert; destruct (g1 !! k); unfold id; lia].
  rewrite lookup_insert_ne by done. unfold g1, evict_stale.
  destruct (0 <? _)%Z; [|done]. apply map_lookup_filter_Some. split; [done|]. cbn.
  unfold sat_mul_u64, EVICT_STALE_MULTIPLIER. unfold u64_max in *. lia.
Qed.

(** C28: a group is admitted at most once per interval, as long as the groups that the gate
    knows after an admission and the reloads asked for since are together fewer than 1024:
    then, whatever these are, a request for the group within the interval after its
    admission at [t1] is refused. With more groups the gate drops its oldest entry and the
    spacing can be lost. *)
Theorem reload_spacing group min t1 reqs t2 g :
  (0 < min ≤ u64_max)%Z → (gate_admit group min t1 g).2 = Ok tt →
  (∀ k t, (k, t) ∈ reqs → t ≤ t2)%Z → (elapsed_secs t2 t1 < min)%Z →
  size (gate_admit group min t1 g).1 + length reqs < MAX_ENTRIES →
  (gate_admit group min t2 (admit_all min reqs (gate_admit group min t1 g).1).1).2 = Err (min - elapsed_secs t2 t1)%Z.
Proof.
  intros Hmin Hok Htimes Hel Hroom.
  assert ((gate_admit group min t1 g).1 !! group = Some t1) as Hg.
  { unfold gate_admit in *. destruct (Z.eqb_spec min 0); [lia|]. destruct (match g !! group with Some _ => _ | None => _ end); [done|].
    by apply lookup_insert_eq. }
  revert Hg Hroom. generalize (gate_admit group min t1 g).1. clear Hok g. induction reqs as [|[k t] reqs IH]; intros g Hg Hroom.
  - cbn. unfold gate_admit. destruct (Z.eqb_spec min 0); [lia|]. rewrite Hg.
    destruct (Z.ltb_spec (elapsed_secs t2 t1) min); [done|lia].
  - cbn [admit_all length] in *. destruct (admit_keeps k min t g group t1) as [Hg' Hs']; [done|done| |lia|].
    { pose proof (elapsed_mono t t2 t1). specialize (Htimes k t ltac:(by left)). lia. }
    destruct (gate_admit k min t g) as [g1 r]. cbn [fst] in *. destruct (admit_all min reqs g1) as [g2 rs] eqn:Hall.
    assert (g2 = (admit_all min reqs g1).1) as -> by by rewrite Hall. cbn [fst]. apply IH; [|done|lia].
    intros k' t' Hin. apply (Htimes k' t'). by right.
Qed.

Lemma reload_spacing_witness :
  (gate_admit "g" 30 9999 (admit_all 30 [("h", 2000); ("g", 3000); ("i", 4000)]%Z (gate_admit "g" 30 1000 ∅).1).1).2 = Err 22%Z.
Proof.
  refine (reload_spacing "g" 30 1000 [("h", 2000); ("g", 3000); ("i", 4000)]%Z 9999 ∅ _ _ _ _ _).
  - done.
  - vm_compute. reflexivity.
  - intros k t Hin. repeat (apply elem_of_cons in Hin as [[= -> ->]|Hin]; [lia|]). by apply not_elem_of_nil in Hin.
  - done.
  - apply Nat.ltb_lt. vm_compute. reflexivity.
Defined.

(** The throttle does not bound the number of reloads, although each of them reloads the
    whole tree: requests for any number of distinct group names are all admitted, even at
    the same instant. *)
Theorem distinct_groups_are_not_throttled min (reqs : list (string * Z)) :
  NoDup reqs.*1 → Forall (λ r, r = Ok tt) (admit_all min reqs ∅).2.
Proof.
  assert (∀ g, (∀ k t, (k, t) ∈ reqs → g !! k = None) → NoDup reqs.*1 →
    Forall (λ r, r = Ok tt) (admit_all min reqs g).2) as Hgen.
  2: { intros Hnd. apply Hgen; [|done]. intros. apply lookup_empty. }
  induction reqs as [|[k now] reqs IH]; intros g Hg Hnd; [constructor|]. cbn [admit_all].
  apply NoDup_cons in Hnd as [Hk Hnd].
  destruct (gate_admit k min now g) as [g1 r] eqn:Ha. destruct (admit_all min reqs g1) as [g2 rs] eqn:Hall.
  assert (rs = (admit_all min reqs g1).2) as -> by by rewrite Hall. unfold gate_admit in Ha.
  destruct (Z.eqb_spec min 0) as [|_].
  { injection Ha as <- <-. cbn. constructor; [done|]. apply IH; [|done]. intros k' t' Hin. apply (Hg k' t'). by right. }
  rewrite (Hg k now) in Ha by by left. injection Ha as <- <-. cbn. constructor; [done|]. apply IH; [|done].
  intros k' t' Hin. rewrite lookup_insert_ne.
  - assert (g !! k' = None) as Hn by (apply (Hg k' t'); by right).
    destruct (evict_oldest _ _ !! k') eqn:Hev; [|done].
    assert (g !! k' = Some z); [|congruence]. eapply lookup_weaken; [exact Hev|].
    etrans; [apply evict_oldest_subseteq|apply evict_stale_subseteq].
  - intros ->. apply Hk, list_elem_of_fmap. by exists (k', t').
Qed.

Lemma distinct_groups_are_not_throttled_witness :
  Forall (λ r, r = Ok tt) (admit_all 30 [("a", 5); ("b", 5); ("c", 5)]%Z ∅).2.
Proof.
  apply (distinct_groups_are_not_throttled 30 [("a", 5); ("b", 5); ("c", 5)]%Z).
  apply (bool_decide_eq_true_1 _). vm_compute. reflexivity.
Defined.

(** ** The gate *)
Lemma ct_token_matches_eq `{LibLaws} presented expected :
  ct_token_matches presented expected = String.eqb presented expected.
Proof.
  unfold ct_token_matches. destruct (Nat.eqb_spec (slen presented) (slen expected)) as [Hl|Hl]; cbn [negb].
  - by apply ct_eq_spec.
  - destruct (String.eqb_spec presented expected) as [->|]; done.
Qed.

(** The credential a request presents. *)
Definition presented_token `{Libs} (req : HttpRequest) : option string :=
  header_str "authorization" (rq_headers req) ≫= bearer_token_bytes.

(** C35: with an admin token set, the gate lets a request through exactly when its bearer
    credential is that token, or the token of the group its path names; every other
    request gets 401, whatever else it carries. Without an admin token everything passes,
    even if group tokens are configured. *)
Theorem admin_gate_spec `{LibLaws} st req :
  (admin_gate st req = Ok tt ∨ admin_gate st req = Err Unauthorized) ∧
  (admin_gate st req = Ok tt ↔
     admin_token st = None ∨
     ∃ master t, admin_token st = Some master ∧ presented_token req = Some t ∧
       (t = master ∨ ∃ g, extract_group_from_path (rq_path req) = Some g ∧ per_group_tokens st !! g = Some t)).
Proof.
  unfold admin_gate, presented_token. destruct (admin_token st) as [master|].
  2: { split; [by left|]. split; [by left|done]. }
  destruct (header_str _ _ ≫= bearer_token_bytes) as [t|].
  2: { split; [by right|]. split; [done|]. intros [?|(? & ? & _ & ? & _)]; done. }
  rewrite ct_token_matches_eq.
  destruct (String.eqb_spec t master) as [->|Hne]; cbn [orb negb].
  { split; [by left|]. split; [|done]. intros _. right. exists master, master. split_and!; [done|done|by left]. }
  destruct (extract_group_from_path (rq_path req)) as [g|] eqn:Hg; cbn.
  2: { split; [by right|]. split; [done|]. intros [?|(? & ? & [= <-] & [= <-] & [?|(? & ? & _)])]; done. }
  destruct (per_group_tokens st !! g) as [gt|] eqn:Ht; cbn.
  2: { split; [by right|]. split; [done|]. intros [?|(? & ? & [= <-] & [= <-] & [?|(? & [= <-] & ?)])]; try done; congruence. }
  rewrite ct_token_matches_eq. destruct (String.eqb_spec t gt) as [->|Hne2]; cbn.
  - split; [by left|]. split; [|done]. intros _. right. exists master, gt. split_and!; [done|done|]. right. by exists g.
  - split; [by right|]. split; [done|]. intros [?|(? & ? & [= <-] & [= <-] & [?|(? & [= <-] & ?)])]; try done; congruence.
Qed.

(** The method and the tier the code gives an endpoint. *)
Definition expected_gate (cfg : AppConfig) (ep : Endpoint) : bool :=
  match ep with
  | ExecuteJob | StopJob | ReloadJobs => true
  | JobsAll | JobsGroup => negb (expose_jobs_publicly (security cfg))
  | RunningAll | RunningGroup => negb (expose_running_publicly (security cfg))
  | Index | Health | Info => false
  end.
Definition changes_state (ep : Endpoint) : bool :=
  match ep with ExecuteJob | StopJob | ReloadJobs => true | _ => false end.

Lemma route_facts cfg :
  Forall (λ r, post r = changes_state (endpoint r) ∧ gated r = expected_gate cfg (endpoint r)) (routes cfg).
Proof.
  unfold routes, expected_gate.
  destruct (expose_jobs_publicly (security cfg)), (expose_running_publicly (security cfg));
    repeat (constructor; [split; reflexivity|]); constructor.
Qed.

Lemma routes_gated cfg r :
  r ∈ routes cfg → changes_state (endpoint r) = true → gated r = true ∧ post r = true.
Proof.
  intros Hin Hep. pose proof (route_facts cfg) as Hf. rewrite Forall_forall in Hf.
  destruct (Hf r Hin) as [-> ->]. by destruct (endpoint r).
Qed.

(** For every configuration the route table has one entry per pattern; exactly the three
    state-changing endpoints are POST, and each is behind the gate; the snapshots are
    behind it exactly when the operator hides them; nothing else is. *)
Theorem route_table_spec cfg :
  NoDup (pattern <$> routes cfg) ∧
  Forall (λ r, post r = changes_state (endpoint r) ∧ gated r = expected_gate cfg (endpoint r)) (routes cfg) ∧
  ∀ ep, ep ∈ endpoint <$> routes cfg.
Proof.
  split_and!; [|apply route_facts|]; unfold routes;
    destruct (expose_jobs_publicly (security cfg)), (expose_running_publicly (security cfg)).
  1-4: by apply (bool_decide_eq_true_1 _); vm_compute.
  all: intros []; by apply (bool_decide_eq_true_1 _); vm_compute.
Qed.

(** The entry of a matched route. *)
Lemma find_route_in `{Axum} st path r ps :
  find_route st path = Some (r, ps) → r ∈ routes (cfg st) ∧ path_params (pattern r) path = Some ps.
Proof.
  unfold find_route. intros Hh. apply head_Some_elem_of in Hh. apply list_elem_of_omap in Hh as (r' & Hin & Hr).
  destruct (path_params (pattern r') path) eqn:Hp; cbn in Hr; [|done]. injection Hr as <- <-. done.
Qed.

Lemma run_endpoint_get `{Libs} {R} st e ep ps req (a a' : App R) res :
  run_endpoint st e ep ps req a = Some (a', res) → a' = a ∨ changes_state ep = true.
Proof.
  destruct ep; cbn; try (by right); try (intros [= <- _]; by left); destruct ps; try done; intros [= <- _]; by left.
Qed.

(** C15: a request changes nothing unless it is a POST to a gated route that passed the gate:
    neither the registry, nor a running instance, nor a task, nor the throttle. *)
Theorem unauthorised_request_changes_nothing `{LibLaws} `{Axum} {R} st e req (a a' : App R) resp :
  serve st e req a = Some (a', resp) →
  a' = a ∨
  (rq_method req = "POST" ∧ admin_gate st req = Ok tt ∧
   ∃ r ps, find_route st (rq_path req) = Some (r, ps) ∧ gated r = true ∧
     changes_state (endpoint r) = true).
Proof.
  unfold serve. destruct (find_route st (rq_path req)) as [[r ps]|] eqn:Hf; [|intros [= <- _]; by left].
  pose proof (find_route_in _ _ _ _ Hf) as [Hin _]. pose proof (routes_gated (cfg st) r Hin) as Hgate.
  destruct (if gated r then admin_gate st req else Ok tt) as [[]|err] eqn:Hg; [|intros [= <- _]; by left].
  destruct (method_allowed r (rq_method req)) eqn:Hm; cbn [negb]; [|intros [= <- _]; by left].
  destruct (run_endpoint st e (endpoint r) ps req a) as [[a1 res]|] eqn:Hrun; cbn; [|done]. intros [= <- _].
  destruct (run_endpoint_get _ _ _ _ _ _ _ _ Hrun) as [->|Hep]; [by left|]. right.
  destruct (Hgate Hep) as [Hgt Hp]. rewrite Hgt in Hg. unfold method_allowed in Hm. rewrite Hp in Hm.
  apply String.eqb_eq in Hm. split_and!; [done|done|]. by exists r, ps.
Qed.

(** Without [allow_dangerous_env_overrides] no request starts a run with an override that
    the blacklist names: such a request is refused with 403 and changes nothing, and the
    one task that any other request adds carries only harmless overrides. *)
Theorem dangerous_overrides_never_start {R} st e g j params (a : App R) :
  allow_dangerous_env_overrides (security (cfg st)) = false →
  ∃ a' r, execute_job st e g j params a = Some (a', r) ∧
    ((∃ k v, (k, v) ∈ params ∧ is_dangerous_env k = true) →
       a' = a ∧ ∃ k, is_dangerous_env k = true ∧ r = Err (dangerous_override g j k) ∧
         Errors.status (dangerous_override g j k) = 403%Z) ∧
    ∃ started, (sys a').2 = (sys a).2 ++ started ∧
      Forall (λ t, ∃ pc, t = Trigger (mkJobKey g j) params pc ∧
        Forall (λ kv, is_dangerous_env kv.1 = false) params) started.
Proof.
  intros Hallow. unfold execute_job, refused_override. rewrite Hallow. cbn [negb].
  destruct (List.find (λ kv, is_dangerous_env kv.1) params) as [[k v]|] eqn:Hfind.
  - exists a, (Err (dangerous_override g j k)). split; [done|]. split.
    + intros _. split; [done|]. apply find_some in Hfind as [_ Hd]. exists k. by split_and!.
    + exists []. split; [by rewrite app_nil_r|constructor].
  - pose proof (find_none _ _ Hfind) as Hnone.
    assert (Forall (λ kv, is_dangerous_env kv.1 = false) params) as Hsafe.
    { apply Forall_forall. intros kv Hin. apply Hnone. by apply list_elem_of_In. }
    destruct (sys a) as [s ts] eqn:Hsys. pose proof (trigger_now_cases (mkJobKey g j) params (wall_ms e) s ts) as Ht.
    assert ((∃ k v, (k, v) ∈ params ∧ is_dangerous_env k = true) → False) as Habs.
    { intros (k & v & Hin & Hd). rewrite Forall_forall in Hsafe. specialize (Hsafe _ Hin). cbn in Hsafe. congruence. }
    destruct Ht as [(err & ->)|(s' & spec & cell & token & ->)]; cbn.
    + do 2 eexists. split; [done|]. split; [intros Hx; by destruct (Habs Hx)|].
      exists []. split; [by rewrite app_nil_r|constructor].
    + do 2 eexists. split; [done|]. split; [intros Hx; by destruct (Habs Hx)|].
      eexists [_]. split; [done|]. constructor; [|constructor]. by eexists.
Qed.

(** ** The group of the gate and the group of the handler *)
Lemma splitn_3_segments verb g rest :
  lacks "/" verb → lacks "/" g →
  splitn 3 "/" (verb +:+ String "/" (g +:+ String "/" rest)) = [verb; g; rest].
Proof.
  intros Hv Hg. cbn [splitn]. rewrite sfind_by_app by done. rewrite stake_app, sdrop_S_app.
  rewrite sfind_by_app by done. by rewrite stake_app, sdrop_S_app.
Qed.

Lemma splitn_3_two verb g :
  lacks "/" verb → lacks "/" g → splitn 3 "/" (verb +:+ String "/" g) = [verb; g].
Proof.
  intros Hv Hg. cbn [splitn]. rewrite sfind_by_app by done. rewrite stake_app, sdrop_S_app.
  destruct (sfind_by (Ascii.eqb "/") g) as [i|] eqn:Hi; [|done]. exfalso.
  destruct (sfind_by_spec _ _ _ Hi) as (c & Hs & Hc & _). apply Ascii.eqb_eq in Hc as <-.
  unfold lacks in Hg. rewrite Hs, str_all_app in Hg. apply andb_true_iff in Hg as [_ Hg]. cbn in Hg. done.
Qed.

(** A group token only opens its own group: on the three group-scoped routes the group
    the gate reads from the raw path decodes to the group the handler is given. *)
Theorem gate_and_handler_agree_on_group `{AxumLaws} path pat ps :
  pat ∈ ["/execute/:group/:job"; "/stop/:group/:job"; "/reload/:group"] →
  path_params pat path = Some ps →
  ∃ g, extract_group_from_path path = Some g ∧ head ps = Some (percent_decode g).
Proof.
  intros Hpat Hps.
  assert (∀ verb g rest, verb ∈ ["execute"; "stop"; "reload"] → lacks "/" g → g ≠ "" →
    rest = "" ∨ (∃ j, rest = "/" +:+ j) →
    extract_group_from_path ("/" +:+ verb +:+ "/" +:+ g +:+ rest) = Some g) as Hex.
  { intros verb g rest Hverb Hg Hne Hrest. unfold extract_group_from_path.
    assert (strip_prefix ("/" +:+ verb +:+ "/" +:+ g +:+ rest) "/" = Some (verb +:+ "/" +:+ g +:+ rest)) as ->.
    { unfold strip_prefix. change ("/" +:+ verb +:+ "/" +:+ g +:+ rest) with (String "/" (verb +:+ "/" +:+ g +:+ rest)).
      rewrite starts_with_cons, starts_with_nil. done. }
    cbn [mbind option_bind]. assert (lacks "/" verb) as Hv.
    { repeat (apply elem_of_cons in Hverb as [->|Hverb]; [done|]). by apply not_elem_of_nil in Hverb. }
    assert (existsb (String.eqb verb) ["execute"; "stop"; "reload"] = true) as Hverb'.
    { repeat (apply elem_of_cons in Hverb as [->|Hverb]; [done|]). by apply not_elem_of_nil in Hverb. }
    assert (String.eqb g "" = false) as Hg' by by apply String.eqb_neq.
    destruct Hrest as [->|[j ->]].
    - rewrite sapp_nil_r. change (verb +:+ "/" +:+ g) with (verb +:+ String "/" g).
      rewrite splitn_3_two by done. by rewrite Hverb', Hg'.
    - change (verb +:+ "/" +:+ g +:+ "/" +:+ j) with (verb +:+ String "/" (g +:+ String "/" j)).
      rewrite splitn_3_segments by done. by rewrite Hverb', Hg'. }
  apply elem_of_cons in Hpat as [->|[->|Hpat%list_elem_of_singleton]%elem_of_cons].
  - destruct (params_group_job path "execute" ps) as (g & j & -> & Hg & Hne & ->); [by left|done|].
    exists g. split; [|done]. apply (Hex "execute" g ("/" +:+ j)); [by left|done|done|]. right. by exists j.
  - destruct (params_group_job path "stop" ps) as (g & j & -> & Hg & Hne & ->); [right; by left|done|].
    exists g. split; [|done]. apply (Hex "stop" g ("/" +:+ j)); [right; by left|done|done|]. right. by exists j.
  - subst pat. destruct (params_group path ps Hps) as (g & -> & Hg & Hne & ->).
    exists g. split; [|done]. rewrite <- (sapp_nil_r g) at 1. apply (Hex "reload" g ""); [right; right; by left|done|done|by left].
Qed.

(** ** Response layers *)

(** An oversize response always reaches the client as structured JSON: a 413 that is
    not JSON yet is rewritten to the body of [RequestTooLarge] with the configured limit,
    every other response passes unchanged. *)
Theorem oversize_is_structured `{LibLaws} limit next req :
  let response := structured_error_body_middleware limit next req in
  let is_json h := match header_str "content-type" h with Some s => starts_with s "application/json" | None => false end in
  rs_status response = rs_status (next req) ∧
  (rs_status response = 413%Z → is_json (rs_headers response) = true) ∧
  (rs_status response = 413%Z → is_json (rs_headers (next req)) = false →
     rs_body response = JsonBody (into_response (RequestTooLarge limit)).2 ∧
     get_header "content-length" (rs_headers response) = None) ∧
  (rs_status response ≠ 413%Z ∨ is_json (rs_headers (next req)) = true → response = next req).
Proof.
  cbv zeta. unfold structured_error_body_middleware. destruct (Z.eqb_spec (rs_status (next req)) 413) as [Hs|Hs]; cbn [negb].
  2: { split_and!; [done|done|done|done]. }
  destruct (match header_str "content-type" (rs_headers (next req)) with Some _ => _ | None => _ end) eqn:Hj.
  - split_and!; [done|done|done|done].
  - cbn [rs_status rs_headers rs_body]. split_and!; [done| | |].
    + intros _. unfold header_str. rewrite get_remove, get_insert. cbn.
      by destruct (header_value_visible "application/json" eq_refl) as [_ ->].
    + intros _ _. split; [done|]. by rewrite get_remove.
    + by intros [?|?].
Qed.

Definition default_headers : list string :=
  ["content-security-policy"; "strict-transport-security"; "x-frame-options"; "x-content-type-options";
   "referrer-policy"; "traceparent"; "x-trace-id"].

(** C38: whatever the routing answers, 200, 401, 404 or 413, the response that leaves the inner
    layers carries the five security headers and both trace headers. *)
Theorem every_response_has_default_headers `{LibLaws} `{Axum} cfg uuid1 uuid2 next req :
  is_uuid uuid1 → is_uuid uuid2 →
  Forall (λ k, is_Some (get_header k (rs_headers (inner_layers cfg uuid1 uuid2 next req)))) default_headers.
Proof.
  intros Hu1 Hu2. unfold inner_layers. set (inner := structured_error_body_middleware _ _).
  assert (∀ k, is_Some (get_header k (rs_headers (security_headers_middleware inner req))) →
    is_Some (get_header k (rs_headers (traceparent_middleware uuid1 uuid2 (security_headers_middleware inner) req)))) as Hkeep.
  { intros k [v Hv]. exists v. by apply traceparent_keeps. }
  destruct (traceparent_sets uuid1 uuid2 (security_headers_middleware inner) req Hu1 Hu2) as [Ht Hx].
  repeat (apply Forall_cons; split; [try done|]); [..|constructor].
  all: apply Hkeep; unfold security_headers_middleware; cbn [rs_headers with_headers]; rewrite !get_or_insert; cbn; eauto.
Qed.

(** A process whose bind address is the wildcard, as that of [main] is, starts exactly
    when a token is present or the network is trusted. *)
Theorem wildcard_bind_needs_token cfg port token_present :
  (0 ≤ port)%Z →
  is_ok (refuse_to_start_without_token cfg ("0.0.0.0:" +:+ pretty port) token_present) =
    token_present || trust_network (admin cfg).
Proof.
  intros Hp. unfold refuse_to_start_without_token. rewrite wildcard_bind_not_loopback by done.
  by destruct token_present, (trust_network (admin cfg)).
Qed.

(** ** Samples *)
Module SampleAxum.

(** Matches segment by segment. *)
Fixpoint match_segments (pat path : list string) : option (list string) :=
  match pat, path with
  | [], [] => Some []
  | p :: pat', s :: path' =>
      if starts_with p ":" then
        if String.eqb s "" then None else (λ ps, percent_decode s :: ps) <$> match_segments pat' path'
      else if String.eqb p s then match_segments pat' path' else None
  | _, _ => None
  end.

#[export] Instance axum : Axum := {|
  path_params pat path := match_segments (split_on "/" pat) (split_on "/" path);
  body_limit_layer _ next := next;
  timeout_layer _ next := next;
  cors_layer _ next := next
|}.

Lemma split_on_join c s : ∃ x l, split_on c s = x :: l ∧ lacks c x ∧ Forall (lacks c) l ∧
  s = x +:+ foldr (λ y acc, String c (y +:+ acc)) "" l.
Proof.
  induction s as [|d s (x & l & Hs & Hx & Hl & ->)]; [exists "", []; by split_and!|]. cbn [split_on]. rewrite Hs.
  destruct (Ascii.eqb_spec c d) as [->|Hne].
  - exists "", (x :: l). split_and!; [done|done|by constructor|done].
  - exists (String d x), l. split_and!; [done| |done|done]. unfold lacks in *. cbn. rewrite Hx.
    by destruct (Ascii.eqb_spec c d).
Qed.

#[export] Instance axum_laws : AxumLaws axum.
Proof.
  split.
  - intros path verb ps Hverb Hps. cbn in Hps. destruct (split_on_join "/" path) as (x & l & Hs & _ & Hl & ->).
    rewrite Hs in Hps. clear Hs.
    assert (∃ g j, x = "" ∧ l = [verb; g; j] ∧ g ≠ "" ∧ ps = [percent_decode g; percent_decode j]) as (g & j & -> & -> & Hg & ->).
    { assert (∀ v0, match_segments [""; v0; ":group"; ":job"] (x :: l) = Some ps → starts_with v0 ":" = false →
        ∃ g j, x = "" ∧ l = [v0; g; j] ∧ g ≠ "" ∧ ps = [percent_decode g; percent_decode j]) as Hgen.
      { intros v0 Hm Hv0. cbn in Hm. destruct x; [|done]. destruct l as [|v l]; [done|]. rewrite Hv0 in Hm.
        destruct (String.eqb_spec v0 v) as [<-|]; [|done]. destruct l as [|g l]; [done|].
        destruct (String.eqb_spec g "") as [|Hg]; [done|]. destruct l as [|j l]; [done|].
        destruct (String.eqb_spec j ""); [done|]. destruct l; [|done]. injection Hm as <-. by exists g, j. }
      apply elem_of_cons in Hverb as [->|Hverb%list_elem_of_singleton]; [|subst verb]; by apply Hgen. }
    exists g, j. split_and!; [|by inversion Hl as [|? ? ? Hl2]; inversion Hl2|done|done].
    cbn [foldr]. by rewrite sapp_nil_r.
  - intros path ps Hps. cbn in Hps. destruct (split_on_join "/" path) as (x & l & Hs & _ & Hl & ->).
    rewrite Hs in Hps. clear Hs.
    assert (∀ v0, match_segments [""; v0; ":group"] (x :: l) = Some ps → starts_with v0 ":" = false →
      ∃ g, x = "" ∧ l = [v0; g] ∧ g ≠ "" ∧ ps = [percent_decode g]) as Hgen.
    { intros v0 Hm Hv0. cbn in Hm. destruct x; [|done]. destruct l as [|v l]; [done|]. rewrite Hv0 in Hm.
      destruct (String.eqb_spec v0 v) as [<-|]; [|done]. destruct l as [|g l]; [done|].
      destruct (String.eqb_spec g "") as [|Hg]; [done|]. destruct l; [|done]. injection Hm as <-. by exists g. }
    destruct (Hgen "reload" Hps eq_refl) as (g & -> & -> & Hg & ->). exists g.
    split_and!; [|by inversion Hl as [|? ? ? Hl2]; inversion Hl2|done|done].
    cbn [foldr]. by rewrite sapp_nil_r.
Qed.
End SampleAxum.

#[local] Existing Instance Sample.libs.
#[local] Existing Instance Sample.libs_laws.
#[local] Existing Instance SampleAxum.axum.
#[local] Existing Instance SampleAxum.axum_laws.
Definition sample_state : AppState :=
  mkAppState AppConfig_default (Some "master-token") {["b" := "token-of-b"]}.
Definition sample_env : ReqEnv := mkReqEnv 7 7 ∅ None Joined ["jobs"].
Definition sample_app : App unit := mkApp (sample_shared, []) ∅.
Definition bearer (path token : string) : HttpRequest :=
  Middleware.mkRequest "POST" path None [("authorization", "bearer  " +:+ token)].

Lemma admin_gate_spec_witness :
  admin_gate sample_state (bearer "/execute/b/x" "token-of-b") = Ok tt ∧
  (admin_gate sample_state (bearer "/execute/a/z" "token-of-b") = Ok tt ∨
   admin_gate sample_state (bearer "/execute/a/z" "token-of-b") = Err Unauthorized).
Proof.
  split; [|exact (proj1 (admin_gate_spec sample_state (bearer "/execute/a/z" "token-of-b")))].
  apply (proj2 (admin_gate_spec sample_state (bearer "/execute/b/x" "token-of-b"))). right.
  exists "master-token", "token-of-b". split; [reflexivity|]. split; [vm_compute; reflexivity|].
  right. exists "b". split; vm_compute; reflexivity.
Defined.

Lemma unauthorised_request_changes_nothing_witness :
  ∃ a' resp, serve sample_state sample_env (bearer "/execute/b/x" "wrong") sample_app = Some (a', resp) ∧
    rs_status resp = 401%Z ∧ a' = sample_app.
Proof.
  destruct (serve sample_state sample_env (bearer "/execute/b/x" "wrong") sample_app) as [[a' resp]|] eqn:Hs;
    [|vm_compute in Hs; discriminate].
  exists a', resp. split; [reflexivity|]. split; [vm_compute in Hs; injection Hs as _ <-; reflexivity|].
  destruct (unauthorised_request_changes_nothing sample_state sample_env (bearer "/execute/b/x" "wrong")
    sample_app a' resp Hs) as [Heq|(_ & Hg & _)]; [exact Heq|vm_compute in Hg; discriminate].
Defined.

Lemma dangerous_overrides_never_start_witness :
  ∃ a' r, execute_job sample_state sample_env "b" "x" [("LD_PRELOAD", "x.so")] sample_app = Some (a', r) ∧ a' = sample_app.
Proof.
  destruct (dangerous_overrides_never_start sample_state sample_env "b" "x" [("LD_PRELOAD", "x.so")] sample_app eq_refl)
    as (a' & r & He & Hd & _).
  exists a', r. split; [exact He|]. apply Hd. exists "LD_PRELOAD", "x.so". split; [left|vm_compute; reflexivity].
Defined.

Lemma gate_and_handler_agree_on_group_witness :
  path_params "/execute/:group/:job" "/execute/a%20b/x" = Some ["a b"; "x"] ∧
  ∃ g, extract_group_from_path "/execute/a%20b/x" = Some g ∧ head ["a b"; "x"] = Some (percent_decode g).
Proof.
  assert (path_params "/execute/:group/:job" "/execute/a%20b/x" = Some ["a b"; "x"]) as Hp by (vm_compute; reflexivity).
  split; [exact Hp|]. refine (gate_and_handler_agree_on_group _ _ _ _ Hp). left.
Defined.

Lemma oversize_is_structured_witness :
  let next := λ _, Middleware.mkResponse 413 [("content-type", "text/plain"); ("content-length", "21")] (TextBody "length limit exceeded") in
  rs_body (structured_error_body_middleware 1024 next (bearer "/" "t")) = JsonBody (into_response (RequestTooLarge 1024)).2.
Proof.
  cbv zeta.
  refine (proj1 (proj1 (proj2 (proj2 (oversize_is_structured 1024
    (λ _, Middleware.mkResponse 413 [("content-type", "text/plain"); ("content-length", "21")] (TextBody "length limit exceeded"))
    (bearer "/" "t")))) _ _)); vm_compute; reflexivity.
Defined.

Lemma every_response_has_default_headers_witness :
  Forall (λ k, is_Some (get_header k (rs_headers
    (inner_layers AppConfig_default sample_uuid sample_uuid ok_handler (bearer "/" "t"))))) default_headers.
Proof.
  apply (every_response_has_default_headers AppConfig_default sample_uuid sample_uuid ok_handler (bearer "/" "t"));
    (split_and!; [reflexivity|reflexivity|discriminate]).
Defined.

Lemma wildcard_bind_needs_token_witness :
  is_ok (refuse_to_start_without_token AppConfig_default ("0.0.0.0:" +:+ pretty 8080%Z) false) = false.
Proof. exact (wildcard_bind_needs_token AppConfig_default 8080 false ltac:(done)). Defined.
