(* ===== verification/RouterTests.v ===== *)
(** * The unit tests of src/router.rs, src/traceparent.rs, src/access_log.rs, src/history/mod.rs

    Each test of the source as a function to [bool]; the names of the access log are changed,
    as its tests share theirs with those of the trace context. The tests of the bound on the
    entries of the throttle are proved rather than run, and for any list of calls. *)
From S2P Require Import Prelude RStr Errors Config History Libs Middleware Router.

#[local] Existing Instance Sample.libs.

(** ** router.rs *)
Definition token_is (header : string) (token : option string) : bool := bool_decide (bearer_token_bytes header = token).
Definition bearer_token_bytes_accepts_case_insensitive_scheme : bool :=
  forallb (λ h, token_is h (Some "abc")) ["Bearer abc"; "bearer abc"; "BEARER abc"].
Definition bearer_token_bytes_trims_padding : bool :=
  token_is "  Bearer   abc  " (Some "abc") && token_is ("Bearer" +:+ single (ascii_of_Z 9) +:+ "abc") (Some "abc").
Definition bearer_token_bytes_rejects_other_schemes : bool :=
  forallb (λ h, token_is h None) ["Basic abc"; "Token abc"; "Bearer"; ""].

(** The throttle after a list of calls, a millisecond apart, with their answers. *)
Definition admits (interval : Z) (groups : list string) : ReloadGate * list (result unit Z) :=
  let '(g, _, rs) := foldl (λ '(g, now, rs) group,
    let (g, r) := gate_admit group interval now g in (g, (now + 1)%Z, r :: rs)) (ReloadGate_new, 0%Z, []) groups in
  (g, rev rs).
Definition reload_gate_admits_first_call : bool := forallb is_ok (admits 60 ["samples"]).2.
Definition reload_gate_rejects_second_call_within_window : bool :=
  match (admits 60 ["samples"; "samples"]).2 with [Ok _; Err e] => (0 <? e)%Z && (e <=? 60)%Z | _ => false end.
Definition reload_gate_isolates_groups : bool := forallb is_ok (admits 60 ["a"; "b"]).2.
Definition reload_gate_disabled_when_interval_zero : bool := forallb is_ok (admits 0 ["x"; "x"]).2.

Definition numbered (prefix : string) (n : nat) : list string := (λ i, prefix +:+ pretty i) <$> seq 0 n.
Definition reload_gate_hard_caps_entry_count : bool :=
  entry_count (admits 3600 (numbered "tenant-" (MAX_ENTRIES + 200))).1 <=? MAX_ENTRIES.

Definition knows (group : string) (g : ReloadGate) : bool := bool_decide (is_Some (g !! group)).
Definition reload_gate_hard_cap_evicts_oldest_first : bool :=
  let g := (admits 3600 (numbered "g" MAX_ENTRIES)).1 in
  let g' := (gate_admit "newcomer" 3600 (Z.of_nat MAX_ENTRIES) g).1 in
  knows "g0" g && negb (knows "g0" g') && knows "newcomer" g' && (size g' =? MAX_ENTRIES).

Definition refuse_to_start_allows_loopback_without_token : bool :=
  forallb (λ bind, is_ok (refuse_to_start_without_token AppConfig_default bind false)) ["127.0.0.1:8080"; "[::1]:8080"; "localhost:8080"].
Definition refuse_to_start_allows_any_bind_with_token : bool :=
  is_ok (refuse_to_start_without_token AppConfig_default "0.0.0.0:8080" true).
Definition refuse_to_start_allows_trust_network_opt_out : bool :=
  let cfg := mkAppConfig default_port default_dsl_path default_app_root_path [] ∅ Limits_default
    (mkAdmin default_admin_token_env true) SecurityConfig_default None in
  is_ok (refuse_to_start_without_token cfg "0.0.0.0:8080" false).
Definition refuse_to_start_blocks_wildcard_bind_without_token : bool :=
  match refuse_to_start_without_token AppConfig_default "0.0.0.0:8080" false with
  | Err e => contains e "0.0.0.0" && contains e (bearer_token_env (admin AppConfig_default))
  | Ok _ => false
  end.

Definition group_is (path : string) (group : option string) : bool := bool_decide (extract_group_from_path path = group).
Definition extract_group_from_execute_path : bool :=
  group_is "/execute/samples/hello" (Some "samples") && group_is "/execute/group-a/nested/job" (Some "group-a").
Definition extract_group_from_stop_path : bool := group_is "/stop/samples/hello" (Some "samples").
Definition extract_group_from_reload_path : bool := group_is "/reload/samples" (Some "samples").
Definition extract_group_returns_none_for_non_admin_paths : bool :=
  forallb (λ p, group_is p None) ["/health"; "/jobs/samples"; "/running/samples"; "/"; ""].
Definition extract_group_returns_none_for_empty_group_segment : bool :=
  group_is "/execute//job" None && group_is "/reload/" None.
Definition ct_token_matches_length_mismatch_returns_false : bool :=
  negb (ct_token_matches "short" "longer-token") && negb (ct_token_matches "" "nonempty").
Definition ct_token_matches_equal_bytes_returns_true : bool := ct_token_matches "exact" "exact".
Definition ct_token_matches_different_same_length_returns_false : bool := negb (ct_token_matches "AAAA" "BBBB").

(** ** traceparent.rs, with a fixed UUID where the source draws one *)
Definition fresh : string := Middleware.sample_uuid.
Definition trace_of (value : string) : string := extract_or_generate_trace_id fresh [("traceparent", value)].
Definition inherits_trace_id_from_valid_traceparent : bool :=
  String.eqb (trace_of "00-0af7651916cd43dd8448eb211c80319c-b7ad6b7169203331-01") "0af7651916cd43dd8448eb211c80319c".
Definition generates_fresh_id_when_traceparent_absent : bool :=
  let tp := extract_or_generate_trace_id fresh [] in (slen tp =? 32) && str_all is_ascii_hexdigit tp.
Definition rejects_all_zeros_trace_id_and_generates_fresh : bool :=
  let tp := trace_of "00-00000000000000000000000000000000-b7ad6b7169203331-01" in
  negb (String.eqb tp "00000000000000000000000000000000") && (slen tp =? 32).
Definition rejects_malformed_traceparent_and_generates_fresh : bool :=
  forallb (λ value, let tp := trace_of value in (slen tp =? 32) && negb (String.eqb tp "0af7651916cd43dd8448eb211c80319c"))
    ["not-a-traceparent"; "01-0af7651916cd43dd8448eb211c80319c-b7ad6b7169203331-01"; "00-shortid-b7ad6b7169203331-01";
     "00-0af7651916cd43dd8448eb211c80319c-b7ad6b7169203331"].
Definition span_id_is_16_hex_chars : bool :=
  let s := generate_span_id fresh in (slen s =? 16) && str_all is_ascii_hexdigit s.

(** ** access_log.rs *)
Definition access_log_inherits_trace_id : bool :=
  String.eqb (access_log_trace_id fresh [("traceparent", "00-0af7651916cd43dd8448eb211c80319c-b7ad6b7169203331-01")])
    "0af7651916cd43dd8448eb211c80319c".
Definition access_log_generates_fresh_id : bool :=
  let tp := access_log_trace_id fresh [] in (slen tp =? 16) && str_all is_ascii_hexdigit tp.

(** ** history/mod.rs *)
Definition status_labels_match_jvm_enum : bool :=
  bool_decide (as_str <$> [Success; Failed; Retrying; Skipped; Timeout; Offline] =
               ["SUCCESS"; "FAILED"; "RETRYING"; "SKIPPED"; "TIMEOUT"; "OFFLINE"]).
Definition noop_recorder_is_infallible : bool :=
  bool_decide (record (mkHistoryEntry 0 "n" "g" "http" (Some 10%Z) Success (Some "GET") (Some "https://example.com") (Some 200%Z)
    1 1 None None) (() : NoopRecorder) = ()).

Definition router_tests : list bool :=
  [bearer_token_bytes_accepts_case_insensitive_scheme; bearer_token_bytes_trims_padding; bearer_token_bytes_rejects_other_schemes;
   reload_gate_admits_first_call; reload_gate_rejects_second_call_within_window; reload_gate_isolates_groups;
   reload_gate_disabled_when_interval_zero;
   refuse_to_start_allows_loopback_without_token; refuse_to_start_allows_any_bind_with_token;
   refuse_to_start_allows_trust_network_opt_out; refuse_to_start_blocks_wildcard_bind_without_token;
   extract_group_from_execute_path; extract_group_from_stop_path; extract_group_from_reload_path;
   extract_group_returns_none_for_non_admin_paths; extract_group_returns_none_for_empty_group_segment;
   ct_token_matches_length_mismatch_returns_false; ct_token_matches_equal_bytes_returns_true;
   ct_token_matches_different_same_length_returns_false].
Definition middleware_tests : list bool :=
  [inherits_trace_id_from_valid_traceparent; generates_fresh_id_when_traceparent_absent; rejects_all_zeros_trace_id_and_generates_fresh;
   rejects_malformed_traceparent_and_generates_fresh; span_id_is_16_hex_chars; access_log_inherits_trace_id;
   access_log_generates_fresh_id; status_labels_match_jvm_enum; noop_recorder_is_infallible].

(** The models of [Router], [Middleware] and [History] pass them. *)
Example router_tests_pass : router_tests = replicate (length router_tests) true.
Proof. vm_compute. reflexivity. Qed.
Example middleware_tests_pass : middleware_tests = replicate (length middleware_tests) true.
Proof. vm_compute. reflexivity. Qed.

(** No list of calls leads the throttle past its cap. *)
Lemma admits_bounded interval groups : (0 < interval)%Z → size (admits interval groups).1 ≤ MAX_ENTRIES.
Proof.
  intros Hi. unfold admits. set (step := λ '(g, now, rs) group, _).
  assert (∀ acc, size acc.1.1 ≤ MAX_ENTRIES → size (foldl step acc groups).1.1 ≤ MAX_ENTRIES) as Hb.
  { induction groups as [|k groups IH]; intros [[g now] rs] Hs; [done|]. cbn [foldl]. apply IH. cbn [step fst snd] in *.
    pose proof (admit_spec k interval now g Hi) as [_ Hsz]. destruct (gate_admit _ _ _ _) as [g' r]. by apply Hsz. }
  specialize (Hb (ReloadGate_new, 0%Z, []) ltac:(apply Nat.le_0_l)). by destruct (foldl _ _ _) as [[g now] rs].
Qed.
Example reload_gate_hard_caps_entry_count_passes : reload_gate_hard_caps_entry_count = true.
Proof. apply Nat.leb_le, admits_bounded. done. Qed.

(** The entry that makes room is one of the oldest. *)
Lemma oldest_key_least (g : ReloadGate) k : oldest_key g = Some k → ∃ t, g !! k = Some t ∧ ∀ k' t', g !! k' = Some t' → (t ≤ t')%Z.
Proof.
  unfold oldest_key. set (f := λ best e, _).
  assert (∀ l best, match foldl f best l with
    | Some e => (e ∈ l ∨ best = Some e) ∧ (∀ e', e' ∈ l → (e.2 ≤ e'.2)%Z) ∧ ∀ e', best = Some e' → (e.2 ≤ e'.2)%Z
    | None => l = [] ∧ best = None end) as Hf.
  { induction l as [|x l IH]; intros best; cbn [foldl].
    - destruct best as [e|]; [|done]. split_and!; [by right|by intros e' ?%not_elem_of_nil|by intros e' [= ->]].
    - specialize (IH (f best x)). destruct (foldl f (f best x) l) as [e|].
      + destruct IH as (Hin & Hl & Hb). split_and!.
        * destruct Hin as [Hin|Hin]; [left; by right|]. unfold f in Hin. destruct best as [[k0 t0]|]; [|injection Hin as <-; left; left].
          destruct (x.2 <? t0)%Z; [injection Hin as <-; left; left|by right].
        * intros e' [->|He']%elem_of_cons; [|by apply Hl]. unfold f in Hb. destruct best as [[k0 t0]|]; [|by apply Hb].
          destruct (Z.ltb_spec x.2 t0); [by apply Hb|]. specialize (Hb _ eq_refl). cbn in Hb. lia.
        * intros e' ->. unfold f in Hb. destruct e' as [k0 t0]. cbn.
          destruct (Z.ltb_spec x.2 t0); [specialize (Hb _ eq_refl); lia|by specialize (Hb _ eq_refl)].
      + exfalso. destruct IH as [_ Hb]. unfold f in Hb. destruct best as [[k0 t0]|]; [|done]. by destruct (x.2 <? t0)%Z. }
  specialize (Hf (map_to_list g) None). destruct (foldl f None (map_to_list g)) as [[k0 t]|]; [|done]. intros [= <-].
  destruct Hf as ([Hin|Hno] & Hl & _); [|done]. apply elem_of_map_to_list in Hin. exists t. split; [done|].
  intros k' t' Hk'. apply (Hl (k', t')). by apply elem_of_map_to_list.
Qed.

(** New groups below the cap: each is remembered with the time of its call. *)
Definition settled (n : Z) (g : ReloadGate) : Prop := map_Forall (λ _ t, 0 ≤ t < n)%Z g.
Lemma admit_new k n (g : ReloadGate) :
  (0 ≤ n ≤ 1024)%Z → settled n g → g !! k = None → size g < MAX_ENTRIES → gate_admit k 3600 n g = (<[k := n]> g, Ok tt).
Proof.
  intros Hn Hs Hk Hsz. unfold gate_admit. rewrite Hk. cbn [Z.eqb]. unfold evict_stale.
  change (0 <? sat_mul_u64 3600 EVICT_STALE_MULTIPLIER)%Z with true. cbn beta iota. rewrite map_filter_id.
  - unfold evict_oldest. by rewrite (proj2 (Nat.leb_gt _ _) Hsz).
  - intros k' t Ht. specialize (Hs k' t Ht). cbn in Hs. change (sat_mul_u64 3600 EVICT_STALE_MULTIPLIER) with 36000%Z.
    unfold elapsed_secs. cbn. apply Z.div_lt_upper_bound; lia.
Qed.
Lemma settled_insert k n (g : ReloadGate) : (0 ≤ n)%Z → settled n g → settled (n + 1) (<[k := n]> g).
Proof. intros Hn Hs. apply map_Forall_insert_2; [lia|]. eapply map_Forall_impl; [exact Hs|]. cbn. lia. Qed.

Lemma admits_new prefix n : n ≤ MAX_ENTRIES →
  let '(g, now, _) := foldl (λ '(g, now, rs) group,
    let (g, r) := gate_admit group 3600 now g in (g, (now + 1)%Z, r :: rs)) (ReloadGate_new, 0%Z, []) (numbered prefix n) in
  now = Z.of_nat n ∧ settled now g ∧ size g = n ∧ ∀ k t, g !! k = Some t ↔ ∃ i, i < n ∧ k = prefix +:+ pretty i ∧ t = Z.of_nat i.
Proof.
  induction n as [|n IH]; intros Hn.
  { cbn. split_and!; [done|by apply map_Forall_empty|done|]. intros k t. unfold ReloadGate_new. rewrite lookup_empty. split; [done|intros (i & Hi & _); lia]. }
  unfold numbered in *. rewrite seq_S, fmap_app, foldl_app. specialize (IH ltac:(lia)).
  destruct (foldl _ _ _) as [[g now] rs]. destruct IH as (-> & Hs & Hsz & Hg). cbn [fmap list_fmap foldl Nat.add].
  assert (g !! (prefix +:+ pretty n) = None) as Hk.
  { destruct (g !! _) as [t|] eqn:Ht; [|done]. apply Hg in Ht as (i & Hi & Heq & _). apply (inj (String.append prefix)), (inj pretty) in Heq. lia. }
  assert (Z.of_nat MAX_ENTRIES = 1024%Z) as Hcap by reflexivity.
  rewrite admit_new by (try done; lia). split_and!; [lia| |by rewrite map_size_insert_None, Hsz|].
  - apply settled_insert; [lia|done].
  - intros k t. rewrite lookup_insert_Some, Hg. split.
    + intros [[<- <-]|[_ (i & Hi & -> & ->)]]; [exists n|exists i]; split_and!; try done; lia.
    + intros (i & Hi & -> & ->). destruct (decide (i = n)) as [->|]; [by left|right]. split.
      * intros Heq%(inj (String.append prefix))%(inj pretty). lia.
      * exists i. split_and!; try done; lia.
Qed.

Example reload_gate_hard_cap_evicts_oldest_first_passes : reload_gate_hard_cap_evicts_oldest_first = true.
Proof.
  unfold reload_gate_hard_cap_evicts_oldest_first, admits. pose proof (admits_new "g" MAX_ENTRIES ltac:(done)) as Hnew.
  destruct (foldl _ _ _) as [[g now] rs]. destruct Hnew as (-> & Hs & Hsz & Hg). cbn [fst].
  assert (g !! "g0" = Some 0%Z) as H0 by (apply Hg; exists 0; split_and!; [by apply Nat.ltb_lt|done|done]).
  assert (g !! "newcomer" = None) as Hn.
  { destruct (g !! "newcomer") as [t|] eqn:Ht; [|done]. apply Hg in Ht as (i & _ & Heq & _). done. }
  assert (oldest_key g = Some "g0") as Ho.
  { destruct (oldest_key_spec g) as (k & t & Hk & _); [by intros ->|]. rewrite Hk.
    destruct (oldest_key_least g k Hk) as (t' & Ht' & Hl). specialize (Hl _ _ H0). pose proof (proj1 (Hg _ _) Ht') as (i & _ & -> & ->).
    by assert (i = 0) as -> by lia. }
  unfold gate_admit. rewrite Hn. cbn [Z.eqb]. unfold evict_stale.
  change (0 <? sat_mul_u64 3600 EVICT_STALE_MULTIPLIER)%Z with true. cbn beta iota. rewrite map_filter_id.
  2: { intros k t Ht. specialize (Hs k t Ht). cbn [fst snd] in *. change (sat_mul_u64 3600 EVICT_STALE_MULTIPLIER) with 36000%Z.
    unfold elapsed_secs. apply Z.div_lt_upper_bound; [lia|]. change (Z.of_nat MAX_ENTRIES) with 1024%Z. lia. }
  unfold evict_oldest. rewrite Hsz, Nat.leb_refl, Hn, Ho. cbn [andb negb bool_decide fst]. unfold knows.
  change (bool_decide (is_Some (@None Z))) with false. cbn [negb].
  rewrite lookup_insert_ne, lookup_delete_eq, lookup_insert_eq, H0 by done. cbn -[MAX_ENTRIES]. apply Nat.eqb_eq.
  rewrite map_size_insert_None by by rewrite lookup_delete_ne. rewrite map_size_delete_Some by done. rewrite Hsz. reflexivity.
Qed.
