(* ===== verification/Signal.v ===== *)
(** * Shutdown signal (src/signal.rs)

    A future is the instant at which it resolves, in milliseconds; [None] is one that is
    pending for ever. *)
From S2P Require Import Prelude RStr.

(** What the runtime answers: whether a handler can be installed, and the first delivery of
    its signal afterwards, if there ever is one. *)
Record Signals := mkSignals
  { unix : bool; install_sigterm : result unit string; sigterm_at : option Z;
    install_ctrl_c : result unit string; ctrl_c_at : option Z }.
Inductive Cause := Sigterm | CtrlC.

Section signal.
Context (w : Signals).

(** The two futures: a handler that cannot be installed leaves its branch pending. *)
Definition terminate : option Z :=
  if unix w then match install_sigterm w with Ok _ => sigterm_at w | Err _ => None end else None.
Definition ctrl_c : option Z :=
  match install_ctrl_c w with Ok _ => ctrl_c_at w | Err _ => None end.

(** [select!] polls its branches in a random order, which decides when both are ready. *)
Definition shutdown_signal (terminate_first : bool) : option (Z * Cause) :=
  match terminate, ctrl_c with
  | Some t, Some c =>
      Some (if (t <? c)%Z || ((t =? c)%Z && terminate_first) then (t, Sigterm) else (c, CtrlC))
  | Some t, None => Some (t, Sigterm)
  | None, Some c => Some (c, CtrlC)
  | None, None => None
  end.
End signal.

(** The future resolves exactly when one of the two signals has a handler and is delivered,
    at the first such delivery; the failure of one handler never hides the other signal,
    and with neither the server never drains. *)
Theorem shutdown_signal_spec w first :
  (shutdown_signal w first = None ↔ terminate w = None ∧ ctrl_c w = None) ∧
  ∀ t cause, shutdown_signal w first = Some (t, cause) →
    (match cause with Sigterm => terminate w | CtrlC => ctrl_c w end) = Some t ∧
    (∀ t', terminate w = Some t' → t ≤ t')%Z ∧ (∀ t', ctrl_c w = Some t' → t ≤ t')%Z.
Proof.
  unfold shutdown_signal. destruct (terminate w) as [t|], (ctrl_c w) as [c|]; split; try (by split); try (by split; [|intros []]).
  - intros t' cause. destruct (Z.ltb_spec t c), (Z.eqb_spec t c), first; cbn; intros [= <- <-];
      (split_and!; [done|..]); intros ? [= <-]; lia.
  - intros t' cause [= <- <-]. split_and!; [done| |done]. intros ? [= <-]. lia.
  - intros t' cause [= <- <-]. split_and!; [done|done|]. intros ? [= <-]. lia.
Qed.

Lemma shutdown_signal_spec_witness :
  let w := mkSignals true (Err "EPERM") (Some 5%Z) (Ok tt) (Some 9%Z) in
  shutdown_signal w true = Some (9%Z, CtrlC) ∧ ctrl_c w = Some 9%Z.
Proof.
  cbv zeta. split; [reflexivity|].
  exact (proj1 (proj2 (shutdown_signal_spec (mkSignals true (Err "EPERM") (Some 5%Z) (Ok tt) (Some 9%Z)) true) 9%Z CtrlC eq_refl)).
Defined.
