(* ===== verification/Doctor.v ===== *)
(** * The offline audit (src/doctor.rs)

    [run] replays the checks of boot over a configuration and the environment and lists
    findings; [exit_code] is what the [doctor] command returns. [None] is a panic. *)
From S2P Require Import Prelude RStr Config EnvSafety Libs Loader Dispatch Router Boot.

Inductive Severity := Info | Weak | Break | Fatal.
#[export] Instance severity_eq_dec : EqDecision Severity.
Proof. solve_decision. Defined.
Definition label (s : Severity) : string :=
  match s with Fatal => "FATAL" | Break => "BREAK" | Weak => "WEAK " | Info => "INFO " end.

Record Finding := mkFinding { severity : Severity; name : string; message : string }.
Definition info : string → string → Finding := mkFinding Info.
Definition weak : string → string → Finding := mkFinding Weak.
Definition brk : string → string → Finding := mkFinding Break.
Definition fatal : string → string → Finding := mkFinding Fatal.

Record DoctorReport := mkReport { renv : Environment; findings : list Finding }.

Definition count (sev : Severity) (r : DoctorReport) : nat :=
  length (List.filter (λ f, bool_decide (severity f = sev)) (findings r)).
Definition fatal_count : DoctorReport → nat := count Fatal.
Definition exit_code (r : DoctorReport) : Z := if 0 <? fatal_count r then 1%Z else 0%Z.

Definition render_finding (f : Finding) : string :=
  "[" +:+ label (severity f) +:+ "] " +:+ name f +:+ ": " +:+ message f +:+ newline.
Definition render (r : DoctorReport) : string :=
  "cronmanager doctor — " +:+ to_ascii_lowercase (debug_env (renv r)) +:+ " environment" +:+ newline +:+
  concat_str (render_finding <$> findings r) +:+
  "summary: " +:+ pretty (fatal_count r) +:+ " fatal, " +:+ pretty (count Break r) +:+ " break, " +:+
  pretty (count Weak r) +:+ " weak, " +:+ pretty (count Info r) +:+ " info" +:+ newline.

(** What the audit asks of the file system about [dsl_path]. *)
Record DslDir := mkDslDir { exists_ : bool; is_dir : bool }.

Definition push_if (b : bool) (f : Finding) : list Finding := if b then [f] else [].

Section run.
(** The Debug rendering of a character outside ASCII (the Unicode tables of [core]). *)
Context (debug_unicode : string → string).

Definition debug_char (ch : string) : string :=
  match ch with
  | String c EmptyString =>
      let b := byte_of c in
      if (b =? 34)%Z || (b =? 92)%Z then String "\" ch
      else if (b =? 0)%Z then "\0" else if (b =? 9)%Z then "\t"
      else if (b =? 10)%Z then "\n" else if (b =? 13)%Z then "\r"
      else if (b <? 16)%Z then "\u{" +:+ single (hex_digit false b) +:+ "}"
      else if (b <? 32)%Z || (b =? 127)%Z then "\u{" +:+ hex2 false b +:+ "}"
      else ch
  | _ => debug_unicode ch
  end.
Definition quote : string := single (ascii_of_Z 34).
Definition debug_str (s : string) : string := quote +:+ concat_str (debug_char <$> chars s) +:+ quote.

Definition info_block (cfg : AppConfig) (vars : Env) : list Finding :=
  [info "port" ("bind port " +:+ pretty (port cfg))] ++
  push_if (offline_from_env vars)
    (info "offline_mode" "CRONMANAGER_OFFLINE=true — every dispatch will be stubbed to status=OFFLINE") ++
  [info "dsl_path" ("DSL directory: " +:+ dsl_path cfg);
   info "history" (match database cfg with
                   | Some _ => "database persistence configured"
                   | None => "history persistence disabled (NoopRecorder)"
                   end);
   info "admin.token" ("admin bearer token " +:+
     (if bool_decide (is_Some (resolve_admin_token cfg vars)) then "resolved from env" else "NOT set"))].

Definition break_block (cfg : AppConfig) (vars : Env) (dir : DslDir) : list Finding :=
  (if negb (exists_ dir) then
     [brk "dsl_path" ("DSL directory does not exist: " +:+ dsl_path cfg +:+ " — scheduler will boot with 0 jobs")]
   else if negb (is_dir dir) then [brk "dsl_path" ("DSL path is not a directory: " +:+ dsl_path cfg)]
   else []) ++
  match database cfg with
  | None => []
  | Some db =>
      match env_var vars (password_env db) with
      | Some v => push_if (String.eqb v "") (brk "database.password_env"
          ("env var `" +:+ password_env db +:+ "` is empty; database.url is configured"))
      | None => [brk "database.password_env"
          ("env var `" +:+ password_env db +:+ "` is not set; database.url is configured")]
      end
  end.

(** The replay of the refusal to start. *)
Definition refuse_block (cfg : AppConfig) (vars : Env) : list Finding :=
  let bind := "0.0.0.0:" +:+ pretty (port cfg) in
  match refuse_to_start_without_token cfg bind (bool_decide (is_Some (resolve_admin_token cfg vars))) with
  | Err _ => [fatal "refuse_to_start" ("process would REFUSE to boot: non-loopback bind " +:+ bind +:+
                " without an admin token and admin.trust_network=false")]
  | Ok _ => []
  end.

Definition weak_block (cfg : AppConfig) (vars : Env) : list Finding :=
  let sec := security cfg in
  let token := bool_decide (is_Some (resolve_admin_token cfg vars)) in
  push_if (request_timeout_secs (limits cfg) =? 0)%Z (weak "limits.request_timeout_secs"
    "request timeout disabled (0) — slow upstream can pin the executor") ++
  push_if (shell_timeout_secs (limits cfg) =? 0)%Z (weak "limits.shell_timeout_secs"
    "shell timeout disabled (0) — runaway process will not be SIGKILLed") ++
  push_if (existsb (String.eqb "*") (allowed_origins cfg)) (weak "allowed_origins"
    "`*` is treated as an exact origin string, not a wildcard — CORS will not match browsers") ++
  push_if (negb token) (weak "admin.token"
    ("admin bearer token not configured — set env " +:+ bearer_token_env (admin cfg) +:+
     " for the token, or admin.trust_network=true if a proxy authenticates every request")) ++
  push_if (trust_network (admin cfg)) (weak "admin.trust_network"
    "trust_network=true — the loopback-only boot refusal is DISABLED; only safe behind an authenticating proxy") ++
  push_if (negb (block_private_networks sec)) (weak "security.block_private_networks"
    "block_private_networks=false — HTTP jobs can reach cloud metadata endpoints") ++
  (let (valid, invalid) := split_allowed_private_hosts sec in
   push_if (negb (bool_decide (valid = []))) (info "security.allowed_private_hosts"
     ("private-address access allowed for: " +:+ join ", " valid +:+ " (link-local / metadata still refused)")) ++
   ((λ entry, weak "security.allowed_private_hosts"
      ("entry " +:+ debug_str entry +:+ " is not a plain hostname and is ignored")) <$> invalid)) ++
  push_if (allow_dangerous_env_overrides sec) (weak "security.allow_dangerous_env_overrides"
    "allow_dangerous_env_overrides=true — PATH / LD_* / PYTHONPATH may be set from /execute query params") ++
  push_if (allow_dev_fixture_dsls sec) (weak "security.allow_dev_fixture_dsls"
    "allow_dev_fixture_dsls=true — FLEET §11.3 dev-fixture DSL gate is DISABLED; files matching dev-login / mock- / -mock / /test/ / example- / -example / /dev/ / /mocks/ load with only a WARN") ++
  push_if (expose_jobs_publicly sec && token) (weak "security.expose_jobs_publicly"
    "GET /jobs is anonymous even though an admin token is configured") ++
  push_if (expose_running_publicly sec && token) (weak "security.expose_running_publicly"
    "GET /running is anonymous even though an admin token is configured") ++
  concat ((λ '(group, var), push_if (bool_decide (env_var vars var ≫= nonempty = None))
    (weak "security.per_group_token_envs"
      ("group " +:+ group +:+ ": env var " +:+ var +:+ " is unset or empty — falls back to master-only"))) <$>
    btree_iter (per_group_token_envs sec)).

Definition fatal_block (cfg : AppConfig) (env : Environment) (creds : result unit string) : list Finding :=
  match creds with Err msg => [fatal "env_safety.creds" msg] | Ok _ => [] end ++
  match enforce_posture env (posture_checks_for cfg) with
  | Err msg => [fatal "env_safety.posture" msg]
  | Ok _ => []
  end ++
  push_if (allow_dangerous_env_overrides (security cfg) && requires_prod_creds env)
    (fatal "security.allow_dangerous_env_overrides"
      "allow_dangerous_env_overrides=true in a non-dev environment").

Definition run (cfg : AppConfig) (env : Environment) (vars : Env) (dir : DslDir) : option DoctorReport :=
  creds ← enforce_creds env (cred_checks_for cfg vars);
  Some (mkReport env (info_block cfg vars ++ break_block cfg vars dir ++ refuse_block cfg vars ++
                      weak_block cfg vars ++ fatal_block cfg env creds)).
End run.

(** ** Lemmas *)
Definition is_fatal (f : Finding) : bool := bool_decide (severity f = Fatal).

Lemma existsb_push_if p b f : existsb p (push_if b f) = b && p f.
Proof. destruct b; cbn; [by rewrite orb_false_r|done]. Qed.
Lemma existsb_fmap {A} p (f : A → Finding) l : (∀ x, p (f x) = false) → existsb p (f <$> l) = false.
Proof. intros Hf. induction l as [|x l IH]; [done|]. cbn. by rewrite Hf, IH. Qed.
Lemma existsb_concat p (ll : list (list Finding)) :
  (∀ l, l ∈ ll → existsb p l = false) → existsb p (concat ll) = false.
Proof.
  induction ll as [|l ll IH]; intros Hl; [done|]. cbn. rewrite existsb_app, (Hl l) by by left.
  apply IH. intros l' Hin. apply Hl. by right.
Qed.

Lemma exit_code_spec r : exit_code r = if existsb is_fatal (findings r) then 1%Z else 0%Z.
Proof.
  unfold exit_code, fatal_count, count. change (λ f, bool_decide (severity f = Fatal)) with is_fatal.
  induction (findings r) as [|f l IH]; [done|]. cbn. by destruct (is_fatal f).
Qed.

Lemma info_block_no_fatal cfg vars : existsb is_fatal (info_block cfg vars) = false.
Proof. unfold info_block. by rewrite !existsb_app, existsb_push_if, andb_false_r. Qed.

Lemma break_block_no_fatal cfg vars dir : existsb is_fatal (break_block cfg vars dir) = false.
Proof.
  unfold break_block. rewrite existsb_app. apply orb_false_iff. split.
  - by destruct (exists_ dir), (is_dir dir).
  - destruct (database cfg) as [db|]; [|done]. destruct (env_var vars _) as [v|]; [|done].
    by rewrite existsb_push_if, andb_false_r.
Qed.

Lemma weak_block_no_fatal du cfg vars : existsb is_fatal (weak_block du cfg vars) = false.
Proof.
  unfold weak_block. rewrite !existsb_app, !existsb_push_if.
  destruct (split_allowed_private_hosts _) as [valid invalid].
  rewrite existsb_app, existsb_push_if, existsb_fmap by done. cbn [weak info is_fatal severity].
  rewrite existsb_concat; [by rewrite !andb_false_r|].
  intros l ([g v] & -> & _)%list_elem_of_fmap. by rewrite existsb_push_if, andb_false_r.
Qed.

Lemma refuse_block_fatal cfg vars :
  existsb is_fatal (refuse_block cfg vars) =
    negb (is_ok (refuse_to_start_without_token cfg (bind_address cfg)
      (bool_decide (is_Some (resolve_admin_token cfg vars))))).
Proof. unfold refuse_block, bind_address. by destruct (refuse_to_start_without_token _ _ _). Qed.

(** The third fatal finding adds nothing: the posture check already has it. *)
Lemma fatal_block_fatal cfg env creds :
  existsb is_fatal (fatal_block cfg env creds) =
    negb (is_ok creds && is_ok (enforce_posture env (posture_checks_for cfg))).
Proof.
  unfold fatal_block. rewrite !existsb_app, existsb_push_if, andb_true_r.
  pose proof (enforce_posture_ok env (posture_checks_for cfg)) as Hp.
  destruct (enforce_posture _ _) as [|], creds; cbn in *; try done.
  rewrite ?orb_false_r.
  destruct (requires_prod_creds env); [|by rewrite andb_false_r]. cbn in Hp.
  destruct (allow_dangerous_env_overrides (security cfg)); [|done].
  by destruct (trust_network _), (block_private_networks _).
Qed.

Lemma run_exit_code du cfg env vars dir :
  match enforce_creds env (cred_checks_for cfg vars) with
  | None => run du cfg env vars dir = None
  | Some creds => ∃ r, run du cfg env vars dir = Some r ∧
      (exit_code r = if is_ok creds && is_ok (enforce_posture env (posture_checks_for cfg)) &&
         is_ok (refuse_to_start_without_token cfg (bind_address cfg)
           (bool_decide (is_Some (resolve_admin_token cfg vars)))) then 0%Z else 1%Z) ∧
      ∀ f, f ∈ break_block cfg vars dir → f ∈ findings r
  end.
Proof.
  unfold run. destruct (enforce_creds _ _) as [creds|]; cbn [mbind option_bind]; [|done].
  eexists. split; [done|]. cbn [findings]. split.
  - rewrite exit_code_spec. cbn [findings].
    rewrite !existsb_app, info_block_no_fatal, break_block_no_fatal, weak_block_no_fatal,
      refuse_block_fatal, fatal_block_fatal. cbn [orb].
    by destruct (is_ok creds), (is_ok (enforce_posture _ _)), (is_ok (refuse_to_start_without_token _ _ _)).
  - intros f Hf. rewrite !elem_of_app. auto.
Qed.

(** The audit and boot agree on the gates: the audit panics when boot panics, and its exit
    code is 1 exactly when one of the gates refuses to start. *)
Lemma exit_code_agrees_with_gates du cfg vars dir :
  match boot_gates cfg vars with
  | None => run du cfg (from_env vars) vars dir = None
  | Some gates => ∃ r, run du cfg (from_env vars) vars dir = Some r ∧
      exit_code r = if is_ok gates then 0%Z else 1%Z
  end.
Proof.
  pose proof (run_exit_code du cfg (from_env vars) vars dir) as Hr. unfold boot_gates.
  destruct (enforce_creds _ _) as [creds|]; cbn [mbind option_bind] in *; [|done].
  destruct Hr as (r & Hrun & Hx & _). exists r. split; [done|]. rewrite Hx.
  destruct creds as [[]|]; [|done]. by destruct (enforce_posture _ _) as [[]|].
Qed.

(** The audit passes a configuration that boot refuses: in dev a database without its
    password variable is no more than a [BREAK], and boot ends with an error whatever the
    disk, the database and the HTTP client do. *)
Theorem audit_passes_what_boot_refuses `{Libs} du cfg vars dir w db :
  boot_gates cfg vars = Some (Ok tt) → database cfg = Some db → env_var vars (password_env db) = None →
  (∃ r, run du cfg (from_env vars) vars dir = Some r ∧ exit_code r = 0%Z ∧
     ∃ f, f ∈ findings r ∧ severity f = Break ∧ name f = "database.password_env") ∧
  ∃ e, boot cfg vars w = Some (Err e).
Proof.
  intros Hg Hdb Hpw. split.
  - apply boot_gates_ok in Hg as (Hc & Hp & Ht).
    pose proof (run_exit_code du cfg (from_env vars) vars dir) as Hr. rewrite Hc in Hr.
    destruct Hr as (r & Hrun & Hx & Hb). rewrite Hp, Ht in Hx. exists r. split_and!; [done..|].
    eexists. split; [|shelve]. apply Hb. unfold break_block. rewrite Hdb, Hpw. apply elem_of_app. right.
    by apply list_elem_of_singleton. Unshelve. done.
  - unfold boot. rewrite Hg. cbn [mbind option_bind]. eexists. unfold choose_recorder, database_dsn. rewrite Hdb, Hpw. done.
Qed.

#[local] Existing Instance Sample.libs.
Definition sample_db_cfg : AppConfig :=
  mkAppConfig 8080 "./DSL" "/app" [] ∅ Limits_default (mkAdmin "CRONMANAGER_ADMIN_TOKEN" true)
    SecurityConfig_default (Some (mkDatabase "postgres://cron@db/x" "PGPASSWORD")).

Lemma audit_passes_what_boot_refuses_witness :
  (∃ r, run id sample_db_cfg (from_env ∅) ∅ (mkDslDir true true) = Some r ∧ exit_code r = 0%Z ∧
     ∃ f, f ∈ findings r ∧ severity f = Break ∧ name f = "database.password_env") ∧
  ∃ e, boot sample_db_cfg ∅ sample_boot = Some (Err e).
Proof.
  exact (audit_passes_what_boot_refuses id sample_db_cfg ∅ (mkDslDir true true) sample_boot
    (mkDatabase "postgres://cron@db/x" "PGPASSWORD") eq_refl eq_refl eq_refl).
Defined.

(** ** Secrets *)

(** What the audit reads of the environment. *)
Record same_view (cfg : AppConfig) (env : Environment) (v1 v2 : Env) : Prop := mkSameView
  { sv_token : bool_decide (is_Some (resolve_admin_token cfg v1)) = bool_decide (is_Some (resolve_admin_token cfg v2));
    sv_offline : offline_from_env v1 = offline_from_env v2;
    sv_db : ∀ db, database cfg = Some db → env_var v1 (password_env db) = env_var v2 (password_env db);
    sv_set : ∀ k, bool_decide (env_var v1 k ≫= nonempty = None) = bool_decide (env_var v2 k ≫= nonempty = None);
    sv_creds : enforce_creds env (cred_checks_for cfg v1) = enforce_creds env (cred_checks_for cfg v2) }.

Lemma run_same_view du cfg env v1 v2 dir :
  same_view cfg env v1 v2 → run du cfg env v1 dir = run du cfg env v2 dir.
Proof.
  intros [Ht Ho Hd Hs Hc]. unfold run. rewrite Hc. clear Hc. destruct (enforce_creds _ _) as [creds|]; cbn [mbind option_bind]; [|reflexivity].
  assert (info_block cfg v1 = info_block cfg v2) as -> by (unfold info_block; by rewrite Ht, Ho).
  assert (refuse_block cfg v1 = refuse_block cfg v2) as -> by (unfold refuse_block; by rewrite Ht).
  assert (break_block cfg v1 dir = break_block cfg v2 dir) as ->.
  { unfold break_block. destruct (database cfg) as [db|]; [|done]. by rewrite (Hd db). }
  assert (weak_block du cfg v1 = weak_block du cfg v2) as ->; [|done].
  unfold weak_block. rewrite Ht. do 11 f_equal. f_equal. apply list_fmap_ext. intros ? [g k] ?. by rewrite (Hs k).
Qed.

Lemma enforce_creds_skip env c checks :
  strong c = true → enforce_creds env (c :: checks) = enforce_creds env checks.
Proof. unfold enforce_creds, strong. cbn [cred_failures]. by destruct (is_weak c). Qed.

Lemma strong_nonempty ctx fld t n : (0 < n)%Z → strong (mkCred ctx fld t n) = true → nonempty t = Some t.
Proof.
  intros Hn [Hl _]%strong_length. cbn [value min_len] in Hl. unfold nonempty. destruct (String.eqb_spec t "") as [->|]; [|done].
  change (zlen (trim "")) with 0%Z in Hl. lia.
Qed.

(** C40: the report does not depend on the admin token once it is strong: two environments that
    differ in it only give the same report. *)
Theorem report_hides_admin_token du cfg env vars dir t1 t2 :
  let var := bearer_token_env (admin cfg) in
  strong (mkCred "admin" "token" t1 32) = true → strong (mkCred "admin" "token" t2 32) = true →
  var ≠ "CRONMANAGER_OFFLINE" → (∀ db, database cfg = Some db → password_env db ≠ var) →
  run du cfg env (<[var := t1]> vars) dir = run du cfg env (<[var := t2]> vars) dir.
Proof.
  intros var H1 H2 Hoff Hdb. apply run_same_view.
  assert (∀ t, strong (mkCred "admin" "token" t 32) = true → resolve_admin_token cfg (<[var:=t]> vars) = Some t) as Hres.
  { intros t Ht. unfold resolve_admin_token, env_var. fold var. rewrite lookup_insert_eq.
    by eapply strong_nonempty; [|exact Ht]. }
  assert (∀ k, k ≠ var → env_var (<[var:=t1]> vars) k = env_var (<[var:=t2]> vars) k) as Hk.
  { intros k Hk. unfold env_var. by rewrite !lookup_insert_ne. }
  split.
  - by rewrite !Hres.
  - unfold offline_from_env. by rewrite Hk.
  - intros db Hd. apply Hk. by apply Hdb.
  - intros k. destruct (decide (k = var)) as [->|]; [|by rewrite Hk].
    unfold env_var. rewrite !lookup_insert_eq. cbn.
    by rewrite (strong_nonempty _ _ t1 32 eq_refl H1), (strong_nonempty _ _ t2 32 eq_refl H2).
  - unfold cred_checks_for. rewrite !Hres by done. cbn [default from_option id].
    rewrite !enforce_creds_skip by done. destruct (database cfg) as [db|]; [|done]. by rewrite Hk; [|apply Hdb].
Qed.

Lemma report_hides_admin_token_witness :
  run id AppConfig_default Production (<["CRONMANAGER_ADMIN_TOKEN" := "k7Qp2vXz9LmN4rTb8WcY6hJd3FgS5aUe"]> ∅) (mkDslDir true true) =
  run id AppConfig_default Production (<["CRONMANAGER_ADMIN_TOKEN" := "Zt5Bv8Kq3Wn6Xj1Rf9Hd4Mc7Lg2Ys0Pu"]> ∅) (mkDslDir true true).
Proof.
  exact (report_hides_admin_token id AppConfig_default Production ∅ (mkDslDir true true)
    "k7Qp2vXz9LmN4rTb8WcY6hJd3FgS5aUe" "Zt5Bv8Kq3Wn6Xj1Rf9Hd4Mc7Lg2Ys0Pu"
    eq_refl eq_refl ltac:(done) ltac:(done)).
Defined.
