(* ===== verification/DoctorTests.v ===== *)
(** * The unit tests of src/doctor.rs, src/scheduler.rs and src/signal.rs

    Each test of the source as a function to [bool], with an empty environment where the
    source removes the variables it reads. The test that looks for a deadlock is subsumed by
    [Locks.locks_never_deadlock]. *)
From S2P Require Import Prelude RStr Errors Dsl History Config EnvSafety Libs Dispatch DispatchSteps Scheduler Router Boot Signal Doctor.

#[local] Existing Instance Sample.libs.

(** ** doctor.rs *)
(** The default configuration with another [admin] and some fields of [security]. *)
Definition cfg_with (admin : AdminConfig) (groups : gmap string string) (hosts : list string) : AppConfig :=
  let sec := SecurityConfig_default in
  mkAppConfig default_port default_dsl_path default_app_root_path [] ∅ Limits_default admin
    (mkSecurity true false (max_query_params sec) (max_dsl_file_bytes sec) (dsl_load_timeout_secs sec) (max_retry_count sec)
      (min_cron_interval_secs sec) (stored_response_body_max_bytes sec) (reload_min_interval_secs sec) true true groups hosts false) None.
Definition audit (cfg : AppConfig) (env : Environment) (dir : DslDir) : DoctorReport :=
  default (mkReport env []) (run id cfg env ∅ dir).
Definition here : DslDir := mkDslDir true true.
Definition has_finding (r : DoctorReport) (sev : Severity) (name_ part : string) : bool :=
  existsb (λ f, bool_decide (severity f = sev) && String.eqb (Doctor.name f) name_ && contains (message f) part) (findings r).
Definition mentions (r : DoctorReport) (name_ : string) : bool := existsb (λ f, String.eqb (Doctor.name f) name_) (findings r).

Definition dev_env_default_bind_without_token_reports_refuse_to_start_fatal : bool :=
  let r := audit AppConfig_default Dev here in has_finding r Fatal "refuse_to_start" "" && (exit_code r =? 1)%Z.
Definition dev_env_with_trust_network_true_clears_refuse_to_start_fatal : bool :=
  let r := audit (cfg_with (mkAdmin default_admin_token_env true) ∅ []) Dev here in
  negb (mentions r "refuse_to_start") && (fatal_count r =? 0) && has_finding r Weak "admin.trust_network" "".
Definition missing_dsl_directory_reports_break : bool :=
  has_finding (audit AppConfig_default Dev (mkDslDir false false)) Break "dsl_path" "".
Definition prod_env_without_admin_token_reports_fatal : bool :=
  let r := audit (cfg_with (mkAdmin "CRONMANAGER_DOCTOR_UNSET_1" false) ∅ []) Production here in
  (1 <=? fatal_count r) && (exit_code r =? 1)%Z.
Definition per_group_token_env_missing_is_weak : bool :=
  has_finding (audit (cfg_with AdminConfig_default {["payroll" := "CRONMANAGER_DOCTOR_MISSING_GROUP_1"]} []) Dev here)
    Weak "security.per_group_token_envs" "payroll".
Definition allowed_private_hosts_keep_production_posture_clean : bool :=
  let cfg := cfg_with AdminConfig_default ∅ ["ruuter-internal"] in
  let r := audit cfg Production here in
  block_private_networks (security cfg) && negb (mentions r "env_safety.posture") && negb (mentions r "security.block_private_networks") &&
  has_finding r Info "security.allowed_private_hosts" "ruuter-internal" && forallb is_safe (posture_checks_for cfg).
Definition allowed_private_hosts_ip_literal_is_weak : bool :=
  has_finding (audit (cfg_with AdminConfig_default ∅ ["10.0.0.1"]) Dev here) Weak "security.allowed_private_hosts" "10.0.0.1".
Definition render_starts_with_environment_line_and_ends_with_summary : bool :=
  let out := render (audit AppConfig_default Dev here) in
  starts_with out "cronmanager doctor — dev environment" && String.eqb (sdrop (slen (trim out) - 4) (trim out)) "info" && contains out "summary:".

(** ** scheduler.rs *)
Definition empty_scheduler : Sys NoopRecorder := (mkShared ∅ ∅ [] (() : NoopRecorder) 0 ∅, []).
Definition manual_http_job : JobSpec :=
  mkJobSpec (mkJobKey "g" "n") Manual TimeWindow_default RetryPolicy_default (Http "GET" "http://127.0.0.1:1/nowhere" []).
Definition slow_shell_job : JobSpec :=
  mkJobSpec (mkJobKey "g" "slow") Manual TimeWindow_default RetryPolicy_default (Exec ["/bin/sleep"; "3"] []).

Definition describe_lists_registered_jobs : bool :=
  match describe 0 (register manual_http_job empty_scheduler).1 None !! "g" with
  | Some (row :: _) => String.eqb (dname row) "n" && String.eqb (dschedule row) ""
  | _ => false
  end.
Definition trigger_now_unknown_returns_not_found : bool :=
  match trigger_now (mkJobKey "g" "n") [] 0 empty_scheduler with Some (_, Err (JobNotFound _ _)) => true | _ => false end.
Definition stop_of_unknown_returns_not_found : bool :=
  match (stop (mkJobKey "g" "n") empty_scheduler.1).2 with Err (JobNotFound _ _) => true | _ => false end.
Definition stop_of_not_running_returns_false : bool :=
  match (stop (mkJobKey "g" "n") (register manual_http_job empty_scheduler).1).2 with Ok aborted => negb aborted | Err _ => false end.
(** The second call finds the first one's run. *)
Definition double_trigger_returns_already_running : bool :=
  match trigger_now (mkJobKey "g" "slow") [] 0 (register slow_shell_job empty_scheduler) with
  | Some (y, Ok _) => match trigger_now (mkJobKey "g" "slow") [] 300 y with Some (_, Err (JobAlreadyRunning _ _)) => true | _ => false end
  | _ => false
  end.

(** The order that [Severity] derives from the order of its constructors. *)
Definition severity_rank (s : Severity) : nat := match s with Info => 0 | Weak => 1 | Break => 2 | Fatal => 3 end.
Definition severity_ordering_puts_fatal_highest : bool :=
  forallb (λ '(a, b), severity_rank b <? severity_rank a) [(Fatal, Break); (Break, Weak); (Weak, Info)].

(** ** signal.rs: a SIGTERM after 50 ms, and no Ctrl-C *)
Definition shutdown_signal_resolves_on_sigterm : bool :=
  forallb (λ first, match shutdown_signal (mkSignals true (Ok tt) (Some 50%Z) (Ok tt) None) first with
                    | Some (t, Sigterm) => (t <=? 3000)%Z
                    | _ => false
                    end) [true; false].

Definition doctor_tests : list bool :=
  [dev_env_default_bind_without_token_reports_refuse_to_start_fatal; dev_env_with_trust_network_true_clears_refuse_to_start_fatal;
   missing_dsl_directory_reports_break; prod_env_without_admin_token_reports_fatal; per_group_token_env_missing_is_weak;
   allowed_private_hosts_keep_production_posture_clean; allowed_private_hosts_ip_literal_is_weak;
   render_starts_with_environment_line_and_ends_with_summary; severity_ordering_puts_fatal_highest].
Definition scheduler_tests : list bool :=
  [describe_lists_registered_jobs; trigger_now_unknown_returns_not_found; stop_of_unknown_returns_not_found;
   stop_of_not_running_returns_false; double_trigger_returns_already_running].
Definition signal_tests : list bool := [shutdown_signal_resolves_on_sigterm].

(** The models of [Doctor], [Scheduler] and [Signal] pass them. *)
Example doctor_tests_pass : doctor_tests = replicate (length doctor_tests) true.
Proof. vm_compute. reflexivity. Qed.
Example scheduler_tests_pass : scheduler_tests = replicate (length scheduler_tests) true.
Proof. vm_compute. reflexivity. Qed.
Example signal_tests_pass : signal_tests = replicate (length signal_tests) true.
Proof. vm_compute. reflexivity. Qed.
