(* ===== verification/Main.v ===== *)
(** * The program (src/main.rs, src/doctor.rs)

    The two commands of the binary: [doctor] audits the configuration and exits, without it
    the process boots, binds its port and serves ([Server]). *)
From S2P Require Import Prelude RStr Errors History Config EnvSafety Libs Loader Dispatch Router Boot Doctor.

(** What the program meets: the files of the configuration, the DSL directory, what boot meets
    with a configuration, and the port. *)
Record MainWorld := mkMainWorld
  { exists_path : string → bool; read_to_string : string → result string string;
    from_str : string → result AppConfig string;
    dsl_dir : string → DslDir; boot_world : AppConfig → BootWorld; bind_port : string → result unit string;
    debug_unicode : string → string }.

(** How [main] goes on: it exits after printing to stdout, returns an error, panics, or serves. *)
Inductive Program :=
  | Exits (code : Z) (stdout : string)
  | Fails (message : string)
  | Panics
  | Serves (srv : Serving).
(** The exit status, as the Rust runtime gives it to errors and panics of [main]. *)
Definition exit_status (p : Program) : option Z :=
  match p with Exits code _ => Some code | Fails _ => Some 1%Z | Panics => Some 101%Z | Serves _ => None end.

Definition load_config (w : MainWorld) (args : list string) (vars : Env) : result (AppConfig * option string) CronManagerError :=
  load_or_default (exists_path w) (read_to_string w) (from_str w) args vars.

Definition config_line (source : option string) : string :=
  match source with
  | Some p => "loaded config from " +:+ p +:+ newline
  | None => "using built-in defaults (no cronmanager.yaml found)" +:+ newline
  end.

(** [cli_entry]: what it prints and the code it returns. *)
Definition cli_entry (w : MainWorld) (args : list string) (vars : Env) : option (result (string * Z) CronManagerError) :=
  match load_config w args vars with
  | Err e => Some (Err e)
  | Ok (cfg, source) =>
      report ← run (debug_unicode w) cfg (from_env vars) vars (dsl_dir w (dsl_path cfg));
      Some (Ok (config_line source +:+ render report, exit_code report))
  end.

Definition main `{Libs} (w : MainWorld) (args : list string) (vars : Env) : Program :=
  if existsb (String.eqb "doctor") args then
    match cli_entry w args vars with
    | None => Panics
    | Some (Err e) => Fails (to_string e)
    | Some (Ok (out, code)) => Exits code out
    end
  else
    match load_config w args vars with
    | Err e => Fails (to_string e)
    | Ok (cfg, _) =>
        match boot cfg vars (boot_world w cfg) with
        | None => Panics
        | Some (Err e) => Fails e
        | Some (Ok srv) => match bind_port w (bind srv) with Err e => Fails e | Ok _ => Serves srv end
        end
    end.

(** ** Lemmas *)
Lemma main_serves `{Libs} w args vars srv :
  main w args vars = Serves srv →
  ∃ cfg source, load_config w args vars = Ok (cfg, source) ∧ boot cfg vars (boot_world w cfg) = Some (Ok srv).
Proof.
  unfold main. destruct (existsb _ args); [by destruct (cli_entry _ _ _) as [[[]|]|]|].
  destruct (load_config w args vars) as [[cfg source]|]; [|done].
  destruct (boot cfg vars (boot_world w cfg)) as [[srv'|]|] eqn:Hb; [|done..].
  destruct (bind_port w (bind srv')); [|done]. intros [= <-]. by exists cfg, source.
Qed.

(** The subcommand is no flag: the configuration is looked for in the same places. *)
Lemma doctor_same_config w prog rest vars :
  load_config w (prog :: "doctor" :: rest) vars = load_config w (prog :: rest) vars.
Proof. reflexivity. Qed.

Lemma boot_refused `{Libs} cfg vars bw :
  match boot_gates cfg vars with
  | None => boot cfg vars bw = None
  | Some (Err e) => boot cfg vars bw = Some (Err e)
  | Some (Ok _) => True
  end.
Proof. unfold boot. by destruct (boot_gates cfg vars) as [[|]|]. Qed.

(** C23: the audit predicts the start: with the same arguments and variables, [doctor] exits with 0
    exactly when the configuration loads and passes the gates of boot, and whenever it exits
    with another status the process would not have served: it would have ended with that same
    status. *)
Theorem doctor_predicts_start `{Libs} w prog rest vars :
  prog ≠ "doctor" → "doctor" ∉ rest →
  match exit_status (main w (prog :: "doctor" :: rest) vars) with
  | None => False
  | Some code =>
      (code = 0%Z ↔ ∃ cfg source, load_config w (prog :: rest) vars = Ok (cfg, source) ∧ boot_gates cfg vars = Some (Ok tt)) ∧
      (code ≠ 0%Z → exit_status (main w (prog :: rest) vars) = Some code)
  end.
Proof.
  intros Hp Hrest. assert (existsb (String.eqb "doctor") (prog :: "doctor" :: rest) = true) as Hd.
  { apply existsb_exists. exists "doctor". split; [right; by left|by apply String.eqb_refl]. }
  assert (existsb (String.eqb "doctor") (prog :: rest) = false) as Hn.
  { apply not_true_iff_false. intros (x & Hx & <-%String.eqb_eq)%existsb_exists. destruct Hx as [->|Hx]; [done|].
    by apply Hrest, list_elem_of_In. }
  unfold main. rewrite Hd, Hn. unfold cli_entry. rewrite doctor_same_config.
  destruct (load_config w (prog :: rest) vars) as [[cfg source]|e]; cbn [exit_status].
  2: { split; [|done]. split; [done|]. by intros (? & ? & ? & _). }
  pose proof (exit_code_agrees_with_gates (debug_unicode w) cfg vars (dsl_dir w (dsl_path cfg))) as Hx.
  pose proof (boot_refused cfg vars (boot_world w cfg)) as Hb.
  destruct (boot_gates cfg vars) as [gates|] eqn:Hg.
  - destruct Hx as (r & -> & Hc). cbn [mbind option_bind exit_status]. rewrite Hc. destruct gates as [[]|e]; cbn [is_ok].
    + split; [|done]. split; [|done]. intros _. by exists cfg, source.
    + rewrite Hb. split; [|done]. split; [done|]. intros (cfg' & source' & Hl & Hg'). simplify_eq.
  - rewrite Hx, Hb. cbn [mbind option_bind exit_status]. split; [|done]. split; [done|]. intros (cfg' & source' & Hl & Hg'). simplify_eq.
Qed.

(** ** A program without a configuration file *)
#[local] Existing Instance Sample.libs.
Definition sample_main : MainWorld :=
  mkMainWorld (λ _, false) (λ _, Err "not found") (λ _, Err "no yaml") (λ _, mkDslDir true true) (λ _, sample_boot) (λ _, Ok tt) id.

(** Without an admin token both refuse; with one the audit passes and the process serves. *)
Lemma doctor_predicts_start_witness :
  exit_status (main sample_main ["cronmanager"; "doctor"] ∅) = Some 1%Z ∧
  exit_status (main sample_main ["cronmanager"] ∅) = Some 1%Z ∧
  exit_status (main sample_main ["cronmanager"; "doctor"] sample_vars) = Some 0%Z ∧
  ∃ srv, main sample_main ["cronmanager"] sample_vars = Serves srv.
Proof.
  assert (exit_status (main sample_main ["cronmanager"; "doctor"] ∅) = Some 1%Z) as Hd by (vm_compute; reflexivity).
  split; [exact Hd|]. split; [|split; [vm_compute; reflexivity|eexists; vm_compute; reflexivity]].
  pose proof (doctor_predicts_start sample_main "cronmanager" [] ∅ ltac:(done) ltac:(by apply not_elem_of_nil)) as Ht.
  rewrite Hd in Ht. exact (proj2 Ht ltac:(done)).
Defined.
