(* ===== verification/Configured.v ===== *)
(** * Misspelt keys (src/config.rs, src/dsl/loader.rs, src/main.rs)

    The decoders of [Decode] composed with the search for the configuration, the start of the
    program and the loading of a DSL file: a key that no field has stops the start, or keeps
    the file from loading, instead of leaving a field at its default. *)
From S2P Require Import Prelude RStr Errors Config Libs Serde Decode Loader Boot Doctor Main.

Section misspelt.
Context `{YamlLaws}.

(** [k] is a key of the mapping [n] that names no field of the structure. *)
Definition unknown_in {T} (sch : list (Slot Serde.Node T)) (n : Serde.Node) (k : string) : Prop :=
  ∃ es v, map_of n = Some es ∧ (k, v) ∈ es ∧ find_slot sch k = None.
(** A structure that a section of the configuration holds. *)
Definition section_has {T} (name : string) (sch : list (Slot Serde.Node T)) (n : Serde.Node) (k : string) : Prop :=
  ∃ es v, map_of n = Some es ∧ (name, v) ∈ es ∧ unknown_in sch v k.
(** A key of the configuration, at its top or in a section, that names nothing. *)
Definition misspelt (n : Serde.Node) (k : string) : Prop :=
  unknown_in app_schema n k ∨ section_has "limits" limits_schema n k ∨ section_has "admin" admin_schema n k ∨
  section_has "security" security_schema n k ∨ section_has "database" database_schema n k.
(** A key of a job of a DSL file that names nothing. *)
Definition misspelt_job (n : Serde.Node) (k : string) : Prop := ∃ es job v, map_of n = Some es ∧ (job, v) ∈ es ∧ unknown_in job_schema v k.

Lemma unknown_in_refused {T} (sch : list (Slot Serde.Node T)) build n k :
  schema_wf sch → builds sch build → unknown_in sch n k → is_ok (de_struct true sch build n) = false.
Proof. intros Hwf Hb (es & v & Hn & Hin & Hk). exact (unknown_is_refused sch Hwf build Hb n es k v Hn Hin Hk). Qed.
Lemma section_refused {T} name (sch : list (Slot Serde.Node T)) s n k :
  find_slot app_schema name = Some s → (∀ v, unknown_in sch v k → is_ok (slot_decode s v) = false) →
  section_has name sch n k → is_ok (decode_config n) = false.
Proof. intros Hs Hd (es & v & Hn & Hin & Hk). exact (bad_value_is_refused app_schema app_wf build_app build_app_ok n es name v s Hn Hin Hs (Hd v Hk)). Qed.

Lemma misspelt_refused n k : misspelt n k → is_ok (decode_config n) = false.
Proof.
  intros [Hk|[Hk|[Hk|[Hk|Hk]]]]; [exact (unknown_in_refused _ _ _ _ app_wf build_app_ok Hk)| | | |]; revert Hk.
  - apply section_refused with app_limits; [reflexivity|]. intros v. apply unknown_in_refused; [apply limits_wf|apply build_limits_ok].
  - apply section_refused with app_admin; [reflexivity|]. intros v. apply unknown_in_refused; [apply admin_wf|apply build_admin_ok].
  - apply section_refused with app_security; [reflexivity|]. intros v. apply unknown_in_refused; [apply security_wf|apply build_security_ok].
  - apply section_refused with app_database; [reflexivity|]. intros v Hk. cbn.
    destruct (de_option decode_database v) as [o|] eqn:Ho; [|done]. apply de_option_ok in Ho.
    pose proof (unknown_in_refused _ build_database _ _ database_wf build_database_ok Hk) as Hd. fold decode_database in Hd.
    destruct Hk as ([|e es] & w & Hv & Hin & _); [by apply not_elem_of_nil in Hin|]. destruct o as [x|].
    + destruct Ho as [_ Ho]. by rewrite Ho in Hd.
    + by rewrite (null_has_no_entries _ _ _ Hv) in Ho.
Qed.
Lemma misspelt_job_refused n k : misspelt_job n k → is_ok (decode_jobs n) = false.
Proof.
  intros (es & job & v & Hn & Hin & Hk). unfold decode_jobs. destruct (de_btree decode_job n) as [m|] eqn:Hm; [|done].
  apply de_btree_ok in Hm as (es' & l & Hn' & Hl & _). rewrite Hn in Hn'. injection Hn' as <-. apply list_elem_of_lookup in Hin as [i Hi].
  destruct (Forall2_lookup_l _ _ _ _ _ Hl Hi) as (y & _ & _ & Hy). pose proof (unknown_in_refused _ build_job _ _ job_wf build_job_ok Hk) as Hd.
  fold decode_job in Hd. cbn in Hy. by rewrite Hy in Hd.
Qed.

Lemma from_str_refused {A} (d : Serde.Node → result A DecodeError) body n :
  parse_doc body = Ok n → is_ok (d n) = false → ∃ e, from_str_with d body = Err e.
Proof. intros Hp Hd. unfold from_str_with. rewrite Hp. cbn. destruct (d n); [done|]. cbn. eauto. Qed.
End misspelt.

(** The first file of the search decides. *)
Lemma load_first_find exists_path read from_str paths p body :
  List.find exists_path paths = Some p → read p = Ok body →
  load_first exists_path read from_str paths =
    (let? _ := reject_jvm_wrappers body p in let? cfg := map_err (YamlParse p) (from_str body) in Ok (cfg, Some p)).
Proof.
  induction paths as [|q paths IH]; cbn; [done|]. destruct (exists_path q); [|exact IH]. intros [= ->] ->. reflexivity.
Qed.
Lemma main_fails `{Libs} w args vars e :
  load_config w args vars = Err e → main w args vars = Fails (to_string e).
Proof. intros He. unfold main, cli_entry. rewrite He. by destruct (existsb _ args). Qed.

(** What a program that serves has loaded is in range. *)
Lemma served_config_ok `{Libs} `{HY : YamlLaws} w args vars srv :
  from_str w = config_from_str → main w args vars = Serves srv →
  ∃ cfg source, load_config w args vars = Ok (cfg, source) ∧ config_ok cfg ∧ boot cfg vars (boot_world w cfg) = Some (Ok srv).
Proof.
  intros Hf (cfg & source & Hl & Hb)%main_serves. exists cfg, source. split; [done|]. split; [|done].
  unfold load_config, load_or_default in Hl. rewrite Hf in Hl. clear -Hl HY.
  induction (config_search_paths args vars) as [|p paths IH]; cbn in Hl; [injection Hl as <- _; apply config_default_ok|].
  destruct (exists_path w p); [|by apply IH]. destruct (read_to_string w p) as [body|]; [|done]. cbn [map_err] in Hl.
  destruct (reject_jvm_wrappers body p); [|done]. destruct (config_from_str body) as [c|] eqn:Hc; [|done]. injection Hl as <- _.
  apply from_str_ok in Hc as (n & _ & Hn). exact (decode_config_ok _ _ Hn).
Qed.

(** C25: a misspelt key is never ignored. A configuration file with a key, at its top or in a
    section, that names nothing ends the program with status 1, audit or start, whatever else
    the file says; if it is at the top and the first defect of the file, the message names it. A
    DSL file with a job that has such a key does not load and adds no job. *)
Theorem typos_are_refused `{L : Libs} `{YamlLaws} :
  (∀ w args vars p body n k,
     from_str w = config_from_str → List.find (exists_path w) (config_search_paths args vars) = Some p →
     read_to_string w p = Ok body → parse_doc body = Ok n → misspelt n k → exit_status (main w args vars) = Some 1%Z) ∧
  (∀ w args vars p body n es1 k v es2,
     from_str w = config_from_str → List.find (exists_path w) (config_search_paths args vars) = Some p →
     read_to_string w p = Ok body → parse_doc body = Ok n → reject_jvm_wrappers body p = Ok tt →
     map_of n = Some (es1 ++ (k, v) :: es2) → clean app_schema es1 → find_slot app_schema k = None →
     ∃ message, main w args vars = Fails message ∧ contains message k = true) ∧
  (∀ env root file policy f body n k,
     contents f = Ok body → parse_doc body = Ok n → misspelt_job n k →
     is_ok (@load_file_with_policy (with_yaml L) env root file policy f) = false).
Proof.
  split; [|split].
  - intros w args vars p body n k Hf Hp Hr Hn [e He]%misspelt_refused%(from_str_refused _ _ _ Hn).
    assert (∃ e', load_config w args vars = Err e') as [e' ->%main_fails]; [|done].
    unfold load_config, load_or_default. rewrite (load_first_find _ _ _ _ _ _ Hp Hr), Hf. destruct (reject_jvm_wrappers body p); [|by eexists].
    unfold config_from_str. rewrite He. by eexists.
  - intros w args vars p body n es1 k v es2 Hf Hp Hr Hn Hj Hm Hok Hk.
    assert (load_config w args vars = Err (YamlParse p (show_error body (UnknownField k)))) as ->%main_fails.
    { unfold load_config, load_or_default. rewrite (load_first_find _ _ _ _ _ _ Hp Hr), Hf, Hj. unfold config_from_str, from_str_with. rewrite Hn.
      cbn [map_err]. unfold decode_config. by rewrite (de_struct_unknown _ _ _ _ _ _ _ Hm Hok Hk). }
    eexists. split; [done|]. pose proof (show_unknown body k) as (a & b & Hs)%contains_iff. apply contains_iff. cbn [to_string]. rewrite Hs.
    eexists (_ +:+ a), b. by rewrite <- !sapp_assoc.
  - intros env root file policy f body n k Hb Hn [e He]%misspelt_job_refused%(from_str_refused _ _ _ Hn).
    unfold load_file_with_policy. destruct (file_len f); [|done]. cbn [map_err]. destruct (_ <? _)%Z; [done|]. rewrite Hb. cbn [map_err].
    cbn [yaml_jobs with_yaml]. unfold jobs_from_str. by rewrite He.
Qed.

(** ** A port under another name, and a misspelt section and job field *)
Module Misspelt.
Import SampleYaml.
#[local] Existing Instance Sample.libs.
#[local] Instance documents : Yaml := yaml (λ body,
  if String.eqb body "top" then Ok (NMap [("dsl_path", NStr "./DSL"); ("prot", NInt 9000)])
  else if String.eqb body "section" then Ok (NMap [("limits", NMap [("max_request_byte", NInt 1)])])
  else if String.eqb body "job" then
    Ok (NMap [("ping", NMap [("trigger", NBool false); ("type", NStr "http"); ("retries", NInt 3)])])
  else Err "unknown document").
Definition started_with (body : string) : MainWorld :=
  mkMainWorld (String.eqb "./cronmanager.yaml") (λ _, Ok body) config_from_str (λ _, mkDslDir true true) (λ _, sample_boot) (λ _, Ok tt) id.
End Misspelt.

Lemma typos_are_refused_witness :
  exit_status (@main Sample.libs (Misspelt.started_with "section") ["cronmanager"] ∅) = Some 1%Z ∧
  (∃ message, @main Sample.libs (Misspelt.started_with "top") ["cronmanager"] ∅ = Fails message ∧ contains message "prot" = true) ∧
  is_ok (@load_file_with_policy (@with_yaml Sample.libs Misspelt.documents) ∅ ["dsl"] ["dsl"; "ping.yaml"] permissive
    (mkFile (Ok 3%Z) (Ok "job"))) = false.
Proof.
  destruct (@typos_are_refused Sample.libs Misspelt.documents (SampleYaml.yaml_laws _)) as (Hstart & Hname & Hjob). split; [|split].
  - apply (Hstart (Misspelt.started_with "section") ["cronmanager"] ∅ "./cronmanager.yaml" "section"
      (SampleYaml.NMap [("limits", SampleYaml.NMap [("max_request_byte", SampleYaml.NInt 1)])]) "max_request_byte"); [reflexivity..|].
    right. left. do 2 eexists. split; [reflexivity|]. split; [left|]. do 2 eexists. split; [reflexivity|]. split; [left|reflexivity].
  - apply (Hname (Misspelt.started_with "top") ["cronmanager"] ∅ "./cronmanager.yaml" "top"
      (SampleYaml.NMap [("dsl_path", SampleYaml.NStr "./DSL"); ("prot", SampleYaml.NInt 9000)])
      [("dsl_path", SampleYaml.NStr "./DSL")] "prot" (SampleYaml.NInt 9000) []); [reflexivity..| |reflexivity].
    split; [|apply NoDup_singleton]. constructor; [eexists; split; reflexivity|constructor].
  - apply (Hjob ∅ ["dsl"] ["dsl"; "ping.yaml"] permissive (mkFile (Ok 3%Z) (Ok "job")) "job"
      (SampleYaml.NMap [("ping", SampleYaml.NMap [("trigger", SampleYaml.NBool false); ("type", SampleYaml.NStr "http"); ("retries", SampleYaml.NInt 3)])])
      "retries"); [reflexivity..|].
    do 3 eexists. split; [reflexivity|]. split; [left|]. do 2 eexists. split; [reflexivity|]. split; [right; right; left|reflexivity].
Defined.
