(* ===== verification/IntegrationTests.v ===== *)
(** * The integration tests of src/tests/

    [security_hardening.rs], [router_integration.rs] and [deny_unknown.rs]: each test as a
    function to [bool] that sends its requests through the routing and the layers of [Router],
    or decodes the values that its text reads as. The framework is the sample of [Router], with
    the body limit of [tower_http] for announced lengths. Two tests of sockets and of the
    shutdown future are left out: [Server] has those as steps. *)
From S2P Require Import Prelude RStr Ip Errors Dsl History Config EnvSafety Libs Serde Decode Loader Scheduler Middleware Router.
Import SampleYaml.

#[local] Existing Instance Sample.libs.
(** [RequestBodyLimitLayer] on a request with a [Content-Length]. *)
Definition announced (req : HttpRequest) : Z :=
  default 0%Z (get_header "content-length" (rq_headers req) ≫= complete (read_number 10 u64_max 20 true)).
#[local] Instance framework : Axum := {|
  path_params := @path_params SampleAxum.axum;
  body_limit_layer max next req :=
    if (max <? announced req)%Z then mkResponse 413 [("content-type", "text/plain")] (TextBody "length limit exceeded") else next req;
  timeout_layer _ next := next;
  cors_layer _ next := next
|}.

(** ** A server and its clients *)
Definition server : Type := AppState * App NoopRecorder.
Definition with_temp_dir (sec : SecurityConfig) (l : Limits) (a : AdminConfig) : AppConfig :=
  mkAppConfig default_port default_dsl_path "/tmp" [] ∅ l a sec None.
Definition default_cfg : AppConfig := with_temp_dir SecurityConfig_default Limits_default AdminConfig_default.
Definition spawn_app (cfg : AppConfig) : server := AppState_new cfg (mkShared ∅ ∅ [] (() : NoopRecorder) 0 ∅, []).
Definition TOKEN : string := "s3cret-token-for-tests".
Definition spawn_gated_app (cfg : AppConfig) : server := let (st, a) := spawn_app cfg in (with_admin_token TOKEN st, a).
Definition spawn_gated_with_per_group_tokens (cfg : AppConfig) (tokens : gmap string string) : server :=
  let (st, a) := spawn_gated_app cfg in (with_per_group_tokens tokens st, a).
Definition registered (specs : list JobSpec) (s : server) : server := (s.1, mkApp (register_all specs (sys s.2)) (reload_gate s.2)).

(** The routing on the state, the layers of [build] around it; at a time, on an empty DSL tree.
    A limit on the body answers before the routing. *)
Definition send_at (now : Z) (req : HttpRequest) (s : server) : server * HttpResponse :=
  let (st, a) := s in
  let env := mkReqEnv now now ∅ (Some (DirNode (Ok []))) Joined ["tmp"] in
  let layers := build (cfg st) Middleware.sample_uuid Middleware.sample_uuid in
  if (max_request_bytes (limits (cfg st)) <? announced req)%Z then (s, layers (λ _, bare 200) req)
  else match serve st env req a with
       | Some (a', resp) => ((st, a'), layers (λ _, resp) req)
       | None => (s, layers (λ _, bare 500) req)
       end.
Fixpoint send_all (now : Z) (reqs : list HttpRequest) (s : server) : list HttpResponse :=
  match reqs with
  | [] => []
  | req :: reqs => let (s, resp) := send_at now req s in resp :: send_all (now + 1) reqs s
  end.
Definition authorization (token : string) : Headers := [("authorization", "Bearer " +:+ token)].
Definition get (path : string) (h : Headers) : HttpRequest := mkRequest "GET" path None h.
Definition post (path : string) (h : Headers) : HttpRequest := mkRequest "POST" path None h.
Definition post_query (path query : string) (h : Headers) : HttpRequest := mkRequest "POST" path (Some query) h.

Definition statuses (s : server) (reqs : list HttpRequest) : list Z := rs_status <$> send_all 0 reqs s.
Definition statuses_are (s : server) (reqs : list HttpRequest) (codes : list Z) : bool := bool_decide (statuses s reqs = codes).
Definition admitted (s : server) (req : HttpRequest) : bool := forallb (λ code, negb (code =? 401)%Z) (statuses s [req]).
Definition last_response (s : server) (reqs : list HttpRequest) : HttpResponse := default (bare 0) (last (send_all 0 reqs s)).
(** [body["key"]]. *)
Definition json_of (resp : HttpResponse) : list (string * Json) := match rs_body resp with JsonBody j => json_fields j | TextBody _ => [] end.
Definition str_field (resp : HttpResponse) (k : string) : string := match assoc k (json_of resp) with Some (JStr s) => s | _ => EmptyString end.
Definition num_field (resp : HttpResponse) (k : string) : option Z := match assoc k (json_of resp) with Some (JNum n) => Some n | _ => None end.
Definition header_of (resp : HttpResponse) (k : string) : string := default EmptyString (get_header k (rs_headers resp)).

(** ** tests/security_hardening.rs *)
Definition nope (h : Headers) : HttpRequest := post "/execute/nosuch/nope" h.
Definition c1_execute_without_bearer_returns_401 : bool :=
  let s := spawn_gated_app default_cfg in statuses_are s [nope []] [401%Z] && String.eqb (str_field (last_response s [nope []]) "error") "unauthorized".
Definition c1_execute_with_wrong_bearer_returns_401 : bool :=
  statuses_are (spawn_gated_app default_cfg) [nope (authorization "nope-not-this")] [401%Z].
Definition c1_execute_with_right_bearer_passes_gate : bool := statuses_are (spawn_gated_app default_cfg) [nope (authorization TOKEN)] [404%Z].
Definition c1_stop_gate_requires_bearer : bool :=
  let s := spawn_gated_app default_cfg in
  statuses_are s [post "/stop/nosuch/nope" []] [401%Z] && admitted s (post "/stop/nosuch/nope" (authorization TOKEN)).
Definition c1_reload_gate_requires_bearer : bool := statuses_are (spawn_gated_app default_cfg) [post "/reload/samples" []] [401%Z].
Definition c1_read_only_routes_stay_open : bool :=
  statuses_are (spawn_gated_app default_cfg) ((λ p, get p []) <$> ["/health"; "/jobs"; "/running"; "/actuator/info"]) [200; 200; 200; 200]%Z.
Definition c1_case_insensitive_bearer_scheme : bool :=
  admitted (spawn_gated_app default_cfg) (nope [("authorization", "bearer " +:+ TOKEN)]).

Definition query_of (n : nat) : string := join "&" ((λ i, "k" +:+ pretty i +:+ "=v" +:+ pretty i) <$> seq 0 n).
Definition execute_with (query : string) : HttpRequest := post_query "/execute/nosuch/nope" query (authorization TOKEN).
Definition c2_query_params_above_cap_return_413 : bool :=
  let resp := last_response (spawn_gated_app default_cfg) [execute_with (query_of 65)] in
  (rs_status resp =? 413)%Z && String.eqb (str_field resp "error") "too_many_query_params" &&
  bool_decide (num_field resp "limit" = Some 64%Z) && bool_decide (num_field resp "count" = Some 65%Z).
Definition c2_query_params_at_cap_pass_extractor : bool := statuses_are (spawn_gated_app default_cfg) [execute_with (query_of 64)] [404%Z].

Definition h3_path_override_is_rejected_403 : bool :=
  let resp := last_response (spawn_gated_app default_cfg) [execute_with "PATH=/tmp"] in
  (rs_status resp =? 403)%Z && String.eqb (str_field resp "error") "forbidden" && contains (str_field resp "message") "PATH".
Definition h3_ld_preload_override_is_rejected_403 : bool :=
  statuses_are (spawn_gated_app default_cfg) [execute_with "LD_PRELOAD=/tmp/x.so"] [403%Z].
Definition h3_lowercase_path_still_rejected : bool := statuses_are (spawn_gated_app default_cfg) [execute_with "path=/tmp"] [403%Z].
(** The configuration with three of its flags, and an interval between reloads. *)
Definition flags (dangerous jobs running : bool) (reload : Z) : AppConfig :=
  let sec := SecurityConfig_default in
  with_temp_dir
    (mkSecurity (block_private_networks sec) dangerous (max_query_params sec) (max_dsl_file_bytes sec) (dsl_load_timeout_secs sec)
      (max_retry_count sec) (min_cron_interval_secs sec) (stored_response_body_max_bytes sec) reload jobs running ∅ [] false)
    Limits_default AdminConfig_default.
Definition h3_dangerous_env_bypass_when_opted_out : bool :=
  statuses_are (spawn_gated_app (flags true true true 60)) [execute_with "PATH=/tmp"] [404%Z].
Definition h3_non_dangerous_env_still_allowed : bool := statuses_are (spawn_gated_app default_cfg) [execute_with "FOO=bar"] [404%Z].

Definition h4_reload_throttle_returns_429_within_window : bool :=
  let s := spawn_gated_app (flags false true true 60) in
  let reqs := replicate 2 (post "/reload/samples" (authorization TOKEN)) in
  let resp := last_response s reqs in
  statuses_are s reqs [200; 429]%Z && String.eqb (str_field resp "error") "too_many_requests" &&
  match num_field resp "retry_after_secs" with Some n => (0 <? n)%Z | None => false end.
Definition h4_reload_throttle_per_group : bool :=
  statuses_are (spawn_gated_app (flags false true true 60))
    [post "/reload/group-a" (authorization TOKEN); post "/reload/group-b" (authorization TOKEN)] [200; 200]%Z.

Definition no_token_bind_loopback_still_serves_state_changes : bool := statuses_are (spawn_app default_cfg) [nope []] [404%Z].
Definition refuse_to_start_nonloopback_no_token_is_hard_error : bool :=
  match refuse_to_start_without_token AppConfig_default "0.0.0.0:8080" false with
  | Err e => contains e "0.0.0.0" && contains e (bearer_token_env (admin AppConfig_default))
  | Ok _ => false
  end.
Definition refuse_to_start_nonloopback_with_token_ok : bool :=
  is_ok (refuse_to_start_without_token (with_temp_dir SecurityConfig_default Limits_default (mkAdmin "IGNORED_HERE" false)) "0.0.0.0:8080" true).
Definition trusting : AppConfig := with_temp_dir SecurityConfig_default Limits_default (mkAdmin default_admin_token_env true).
Definition trust_network_true_with_token_set_still_enforces_gate : bool :=
  statuses_are (spawn_gated_app trusting) [nope []; nope (authorization TOKEN)] [401; 404]%Z.
Definition refuse_to_start_trust_network_true_still_needs_token_field_off : bool :=
  is_ok (refuse_to_start_without_token trusting "0.0.0.0:8080" false) && is_ok (refuse_to_start_without_token trusting "0.0.0.0:8080" true) &&
  is_ok (refuse_to_start_without_token trusting "127.0.0.1:8080" true).

Definition fn3_jobs_public_by_default_returns_200 : bool := statuses_are (spawn_gated_app default_cfg) [get "/jobs" []] [200%Z].
Definition fn3_jobs_gated_when_expose_jobs_publicly_false : bool :=
  statuses_are (spawn_gated_app (flags false false true 60)) [get "/jobs" []; get "/jobs" (authorization TOKEN)] [401; 200]%Z.
Definition fn3_jobs_group_variant_gated_too : bool :=
  statuses_are (spawn_gated_app (flags false false true 60)) [get "/jobs/samples" []] [401%Z].
Definition fn3_running_gated_when_expose_running_publicly_false : bool :=
  statuses_are (spawn_gated_app (flags false true false 60)) [get "/running" []; get "/running" (authorization TOKEN)] [401; 200]%Z.
Definition fn3_health_stays_public_even_when_recon_is_gated : bool :=
  statuses_are (spawn_gated_app (flags false false false 60)) ((λ p, get p []) <$> ["/health"; "/actuator/health"; "/actuator/info"; "/"])
    [200; 200; 200; 200]%Z.

Definition GROUP_TOKEN : string := "group-scoped-token-abcdef1234567890".
Definition payroll : server := spawn_gated_with_per_group_tokens default_cfg {["payroll" := GROUP_TOKEN]}.
Definition fcm2_group_specific_token_accepted_for_own_group : bool :=
  statuses_are payroll [post "/execute/payroll/nightly" (authorization GROUP_TOKEN)] [404%Z].
Definition fcm2_group_specific_token_rejected_for_other_group : bool :=
  statuses_are payroll [post "/execute/logistics/nightly" (authorization GROUP_TOKEN)] [401%Z].
Definition fcm2_master_token_still_works_on_every_group : bool :=
  forallb (λ g, admitted payroll (post ("/execute/" +:+ g +:+ "/nope") (authorization TOKEN))) ["payroll"; "logistics"; "any-other"].
Definition fcm2_stop_endpoint_honors_per_group_token : bool := admitted payroll (post "/stop/payroll/nightly" (authorization GROUP_TOKEN)).
Definition fcm2_reload_endpoint_honors_per_group_token : bool :=
  statuses_are payroll [post "/reload/payroll" (authorization GROUP_TOKEN)] [200%Z].
Definition fcm2_group_without_per_group_entry_only_accepts_master : bool :=
  statuses_are payroll [post "/execute/logistics/nope" (authorization GROUP_TOKEN)] [401%Z] &&
  admitted payroll (post "/execute/logistics/nope" (authorization TOKEN)).
Definition fcm2_wrong_token_still_401_when_per_group_configured : bool :=
  statuses_are payroll [post "/execute/payroll/nightly" (authorization "random-attacker-token")] [401%Z].

(** ** tests/router_integration.rs *)
Definition manual_http_job (name : string) : JobSpec :=
  mkJobSpec (mkJobKey "test" name) Manual TimeWindow_default RetryPolicy_default (Http "GET" "http://127.0.0.1:1/nowhere" []).
Definition sleeping (name secs : string) : JobSpec :=
  mkJobSpec (mkJobKey "test" name) Manual TimeWindow_default RetryPolicy_default (Exec ["/bin/sleep"; secs] []).
Definition answer (path : string) (specs : list JobSpec) : HttpResponse := last_response (registered specs (spawn_app default_cfg)) [get path []].
Fixpoint json_eqb (x y : Json) : bool :=
  let fix arr l1 l2 :=
    match l1, l2 with [], [] => true | x :: l1, y :: l2 => json_eqb x y && arr l1 l2 | _, _ => false end in
  let fix obj l1 l2 :=
    match l1, l2 with [], [] => true | (k1, x) :: l1, (k2, y) :: l2 => String.eqb k1 k2 && json_eqb x y && obj l1 l2 | _, _ => false end in
  match x, y with
  | JStr a, JStr b => String.eqb a b
  | JNum a, JNum b => (a =? b)%Z
  | JBool a, JBool b => eqb a b
  | JArr a, JArr b => arr a b
  | JObj a, JObj b => obj a b
  | _, _ => false
  end.
Definition same_body (r1 r2 : HttpResponse) : bool :=
  match rs_body r1, rs_body r2 with JsonBody a, JsonBody b => json_eqb a b | _, _ => false end.
(** The rows of a group in a snapshot. *)
Definition rows_of (resp : HttpResponse) (group : string) : option (list Json) :=
  match assoc group (json_of resp) with Some (JArr l) => Some l | _ => None end.

Definition every_response_carries_traceparent_headers : bool :=
  let resp := answer "/health" [] in
  match split_on "-" (header_of resp "traceparent") with
  | [version; trace; span; _] =>
      String.eqb version "00" && (slen trace =? 32) && (slen span =? 16) && String.eqb (header_of resp "x-trace-id") trace
  | _ => false
  end.
Definition traceparent_inherits_inbound_trace_id : bool :=
  let resp := last_response (spawn_app default_cfg)
    [get "/health" [("traceparent", "00-0af7651916cd43dd8448eb211c80319c-b7ad6b7169203331-01")]] in
  String.eqb (header_of resp "x-trace-id") "0af7651916cd43dd8448eb211c80319c" &&
  bool_decide (split_on "-" (header_of resp "traceparent") !! 1 = Some "0af7651916cd43dd8448eb211c80319c").
Definition healthy (resp : HttpResponse) : bool := (rs_status resp =? 200)%Z && String.eqb (str_field resp "status") "ok".
Definition health_endpoint_returns_ok : bool := healthy (answer "/health" []).
Definition healthz_alias_returns_ok_unauthenticated : bool := healthy (answer "/healthz" []).
Definition actuator_health_alias_returns_ok_unauthenticated : bool := healthy (answer "/actuator/health" []).
Definition every_response_carries_security_headers : bool :=
  forallb (λ path,
    let h := header_of (answer path []) in
    forallb (λ k, negb (String.eqb (h k) "")) ["content-security-policy"; "strict-transport-security"; "x-frame-options"; "x-content-type-options"; "referrer-policy"] &&
    String.eqb (h "x-frame-options") "DENY" && String.eqb (h "x-content-type-options") "nosniff" && String.eqb (h "referrer-policy") "no-referrer")
    ["/health"; "/"; "/jobs"; "/actuator/info"].
Definition index_returns_jvm_sentinel_string : bool :=
  match rs_body (answer "/" []) with TextBody s => String.eqb s "CronManager started" | JsonBody _ => false end.
Definition jobs_endpoint_lists_registered_jobs : bool :=
  match rows_of (answer "/jobs" [manual_http_job "first"]) "test" with
  | Some [JObj row] =>
      match assoc "name" row, assoc "schedule" row with
      | Some (JStr name), Some (JStr schedule) => String.eqb name "first" && String.eqb schedule ""
      | _, _ => false
      end
  | _ => false
  end.
Definition jobs_by_group_filters : bool :=
  let other := mkJobSpec (mkJobKey "other" "b") Manual TimeWindow_default RetryPolicy_default (kind (manual_http_job "b")) in
  let resp := answer "/jobs/test" [manual_http_job "a"; other] in
  negb (bool_decide (rows_of resp "test" = None)) && bool_decide (rows_of resp "other" = None).
Definition execute_unknown_returns_404_with_structured_body : bool :=
  let resp := last_response (spawn_app default_cfg) [nope []] in
  (rs_status resp =? 404)%Z && String.eqb (str_field resp "error") "job_not_found".
Definition stop_unknown_returns_404 : bool := statuses_are (spawn_app default_cfg) [post "/stop/nosuch/nope" []] [404%Z].
Definition stop_of_not_running_returns_200_with_stopped_false : bool :=
  let resp := last_response (registered [manual_http_job "idle"] (spawn_app default_cfg)) [post "/stop/test/idle" []] in
  (rs_status resp =? 200)%Z && match assoc "stopped" (json_of resp) with Some (JBool b) => negb b | _ => false end.
Definition running_endpoint_returns_empty_when_nothing_running : bool :=
  match rs_body (answer "/running" []) with JsonBody (JObj []) => true | _ => false end.
Definition execute_slow_shell_job_appears_in_running_snapshot : bool :=
  let s := registered [sleeping "slow" "2"] (spawn_app default_cfg) in
  let reqs := [post "/execute/test/slow" []; get "/running" []] in
  statuses_are s reqs [200; 200]%Z && match rows_of (last_response s reqs) "test" with Some (_ :: _) => true | _ => false end.
Definition actuator_health_alias_matches_health : bool :=
  same_body (answer "/health" []) (answer "/actuator/health" []) && healthy (answer "/health" []).
Definition actuator_info_returns_name_and_version : bool :=
  let resp := answer "/actuator/info" [] in String.eqb (str_field resp "name") "cronmanager" && starts_with (str_field resp "version") "0.".
Definition trailing_slash_jobs_route_matches_no_slash : bool :=
  same_body (answer "/jobs" [manual_http_job "ts"]) (answer "/jobs/" [manual_http_job "ts"]).
Definition trailing_slash_running_route_matches_no_slash : bool := same_body (answer "/running" []) (answer "/running/" []).
Definition request_body_exceeding_limit_returns_413 : bool :=
  let cfg := with_temp_dir SecurityConfig_default (mkLimits 128 default_max_response_bytes default_request_timeout_secs default_shell_timeout_secs)
    AdminConfig_default in
  let resp := last_response (spawn_app cfg) [nope [("content-length", "1024")]] in
  (rs_status resp =? 413)%Z && starts_with (header_of resp "content-type") "application/json" &&
  String.eqb (str_field resp "error") "request_too_large" && bool_decide (num_field resp "limit" = Some 128%Z) &&
  contains (str_field resp "message") "128".
Definition allows_method (resp : HttpResponse) (m : string) : bool :=
  (rs_status resp =? 405)%Z && existsb (λ x, String.eqb (trim x) m) (split_on "," (header_of resp "allow")).
Definition wrong_method_on_health_returns_405_with_allow_header : bool := allows_method (last_response (spawn_app default_cfg) [post "/health" []]) "GET".
Definition wrong_method_on_execute_returns_405 : bool := allows_method (answer "/execute/g/j" []) "POST".
Definition unknown_path_still_returns_404 : bool := (rs_status (answer "/does-not-exist" []) =? 404)%Z.
Definition double_execute_returns_409 : bool :=
  let s := registered [sleeping "slow2" "3"] (spawn_app default_cfg) in
  let reqs := replicate 2 (post "/execute/test/slow2" []) in
  statuses_are s reqs [200; 409]%Z && String.eqb (str_field (last_response s reqs) "error") "job_already_running".

(** ** tests/deny_unknown.rs, with what each text reads as *)
#[local] Instance unread : Yaml := yaml (λ _, Err "unused").
Definition app_config (entries : list (string * SNode)) : result AppConfig string := map_err show (decode_config (NMap entries : Serde.Node)).
Definition refuses {A} (r : result A string) (key : string) : bool := match r with Err e => contains e key | Ok _ => false end.
Definition reads_as (r : result AppConfig string) (P : AppConfig → bool) : bool := match r with Ok cfg => P cfg | Err _ => false end.
Definition security_block (entries : list (string * SNode)) : result AppConfig string := app_config [("security", NMap entries)].

Definition config_top_level_unknown_field_rejected : bool := refuses (app_config [("dslpath", NStr "DSL")]) "dslpath".
Definition config_limits_unknown_field_rejected : bool := refuses (app_config [("limits", NMap [("banana", NInt 1)])]) "banana".
Definition config_database_password_field_rejected : bool :=
  refuses (app_config [("database", NMap [("url", NStr "postgres://u@h/d"); ("password", NStr "nope")])]) "password".
Definition config_jvm_wrapper_rejected_with_helpful_hint : bool := contains ("application:" +:+ single lf +:+ "  configPath: DSL/samples" +:+ single lf) "application:".
Definition config_jvm_camelcase_aliases_bind_cleanly : bool :=
  reads_as (app_config [("configPath", NStr "/var/lib/cron"); ("appRootPath", NStr "/app");
                        ("shellEnvironment", NMap [("A", NStr "1"); ("B", NStr "2")]); ("allowedOrigins", NSeq [NStr "x"; NStr "y"])])
    (λ cfg, String.eqb (dsl_path cfg) "/var/lib/cron" && String.eqb (app_root_path cfg) "/app" && (size (shell_environment cfg) =? 2) &&
            bool_decide (allowed_origins cfg = ["x"; "y"])).
Definition config_allowed_origins_accepts_jvm_comma_string : bool :=
  reads_as (app_config [("allowed_origins", NStr "localhost,192.168.10.1,127.0.0.1")])
    (λ cfg, bool_decide (allowed_origins cfg = ["localhost"; "192.168.10.1"; "127.0.0.1"])).
Definition private_hosts_are (hosts : list string) (cfg : AppConfig) : bool := bool_decide (allowed_private_hosts (security cfg) = hosts).
Definition config_allowed_private_hosts_snake_case_parses : bool :=
  reads_as (security_block [("allowed_private_hosts", NSeq [NStr "ruuter-internal"; NStr "svc.ns.svc.cluster.local"])])
    (private_hosts_are ["ruuter-internal"; "svc.ns.svc.cluster.local"]).
Definition config_allowed_private_hosts_camel_case_alias_parses : bool :=
  reads_as (security_block [("allowedPrivateHosts", NSeq [NStr "ruuter-internal"])]) (private_hosts_are ["ruuter-internal"]).
Definition config_allowed_private_hosts_default_is_empty : bool := reads_as (app_config [("port", NInt 8080)]) (private_hosts_are []).
Definition config_allowed_private_hosts_singular_typo_rejected : bool :=
  refuses (security_block [("allowed_private_host", NSeq [NStr "ruuter-internal"])]) "allowed_private_host".
Definition fixtures_allowed (cfg : AppConfig) : bool := allow_dev_fixture_dsls (security cfg).
Definition config_allow_dev_fixture_dsls_snake_case_parses : bool :=
  reads_as (security_block [("allow_dev_fixture_dsls", NBool true)]) fixtures_allowed.
Definition config_allow_dev_fixture_dsls_camel_case_alias_parses : bool :=
  reads_as (security_block [("allowDevFixtureDsls", NBool true)]) fixtures_allowed.
Definition config_allow_dev_fixture_dsls_default_is_false : bool :=
  reads_as (app_config [("port", NInt 8080)]) (λ cfg, negb (fixtures_allowed cfg)).
Definition config_allow_dev_fixture_dsls_typo_rejected : bool :=
  forallb (λ bad, refuses (security_block [(bad, NBool true)]) bad) ["allow_dev_fixture_dsl"; "allow_dev_fixtures_dsls"; "allow_dev_fixture"].

(** [loader::load_file] on a file that reads as one job. *)
Definition load_job (fields : list (string * SNode)) : result (list LoadedJob) CronManagerError :=
  let documents := yaml (λ body, if String.eqb body "j" then Ok (NMap [("hc", NMap fields)]) else Err "unknown document") in
  @load_file (@with_yaml Sample.libs documents) ∅ ["tmp"] ["tmp"; "j.yaml"] (mkFile (Ok 80%Z) (Ok "j")).
Definition invalid_definition (r : result (list LoadedJob) CronManagerError) : bool :=
  match r with Err (InvalidJobDefinition _ _) => true | _ => false end.
Definition every_minute : SNode := NStr "0 * * * * ?".
Definition dsl_unknown_field_rejected : bool :=
  refuses (map_err to_string (load_job
    [("trigger", every_minute); ("type", NStr "http"); ("method", NStr "GET"); ("url", NStr "https://x"); ("retryCoun", NInt 3)])) "retryCoun".
Definition dsl_http_method_typo_rejected_at_load : bool :=
  invalid_definition (load_job [("trigger", every_minute); ("type", NStr "http"); ("method", NStr "GETT"); ("url", NStr "https://x")]).
Definition dsl_missing_http_method_rejected : bool :=
  invalid_definition (load_job [("trigger", every_minute); ("type", NStr "http"); ("url", NStr "https://x")]).
Definition dsl_bool_true_trigger_rejected : bool :=
  invalid_definition (load_job [("trigger", NBool true); ("type", NStr "http"); ("method", NStr "GET"); ("url", NStr "https://x")]).

Definition security_hardening : list bool :=
  [c1_execute_without_bearer_returns_401; c1_execute_with_wrong_bearer_returns_401; c1_execute_with_right_bearer_passes_gate;
   c1_stop_gate_requires_bearer; c1_reload_gate_requires_bearer; c1_read_only_routes_stay_open; c1_case_insensitive_bearer_scheme;
   c2_query_params_above_cap_return_413; c2_query_params_at_cap_pass_extractor; h3_path_override_is_rejected_403;
   h3_ld_preload_override_is_rejected_403; h3_lowercase_path_still_rejected; h3_dangerous_env_bypass_when_opted_out;
   h3_non_dangerous_env_still_allowed; h4_reload_throttle_returns_429_within_window; h4_reload_throttle_per_group;
   no_token_bind_loopback_still_serves_state_changes; refuse_to_start_nonloopback_no_token_is_hard_error;
   refuse_to_start_nonloopback_with_token_ok; trust_network_true_with_token_set_still_enforces_gate;
   refuse_to_start_trust_network_true_still_needs_token_field_off; fn3_jobs_public_by_default_returns_200;
   fn3_jobs_gated_when_expose_jobs_publicly_false; fn3_jobs_group_variant_gated_too;
   fn3_running_gated_when_expose_running_publicly_false; fn3_health_stays_public_even_when_recon_is_gated;
   fcm2_group_specific_token_accepted_for_own_group; fcm2_group_specific_token_rejected_for_other_group;
   fcm2_master_token_still_works_on_every_group; fcm2_stop_endpoint_honors_per_group_token;
   fcm2_reload_endpoint_honors_per_group_token; fcm2_group_without_per_group_entry_only_accepts_master;
   fcm2_wrong_token_still_401_when_per_group_configured].
Definition router_integration : list bool :=
  [every_response_carries_traceparent_headers; traceparent_inherits_inbound_trace_id; health_endpoint_returns_ok;
   healthz_alias_returns_ok_unauthenticated; actuator_health_alias_returns_ok_unauthenticated;
   every_response_carries_security_headers; index_returns_jvm_sentinel_string; jobs_endpoint_lists_registered_jobs;
   jobs_by_group_filters; execute_unknown_returns_404_with_structured_body; stop_unknown_returns_404;
   stop_of_not_running_returns_200_with_stopped_false; running_endpoint_returns_empty_when_nothing_running;
   execute_slow_shell_job_appears_in_running_snapshot; actuator_health_alias_matches_health; actuator_info_returns_name_and_version;
   trailing_slash_jobs_route_matches_no_slash; trailing_slash_running_route_matches_no_slash;
   request_body_exceeding_limit_returns_413; wrong_method_on_health_returns_405_with_allow_header;
   wrong_method_on_execute_returns_405; unknown_path_still_returns_404; double_execute_returns_409].
Definition deny_unknown : list bool :=
  [config_top_level_unknown_field_rejected; config_limits_unknown_field_rejected; config_database_password_field_rejected;
   config_jvm_wrapper_rejected_with_helpful_hint; config_jvm_camelcase_aliases_bind_cleanly;
   config_allowed_origins_accepts_jvm_comma_string; config_allowed_private_hosts_snake_case_parses;
   config_allowed_private_hosts_camel_case_alias_parses; config_allowed_private_hosts_default_is_empty;
   config_allowed_private_hosts_singular_typo_rejected; config_allow_dev_fixture_dsls_snake_case_parses;
   config_allow_dev_fixture_dsls_camel_case_alias_parses; config_allow_dev_fixture_dsls_default_is_false;
   config_allow_dev_fixture_dsls_typo_rejected; dsl_unknown_field_rejected; dsl_http_method_typo_rejected_at_load;
   dsl_missing_http_method_rejected; dsl_bool_true_trigger_rejected].

(** The model passes them. *)
Example security_hardening_passes : security_hardening = replicate (length security_hardening) true.
Proof. vm_compute. reflexivity. Qed.
Example router_integration_passes : router_integration = replicate (length router_integration) true.
Proof. vm_compute. reflexivity. Qed.
Example deny_unknown_passes : deny_unknown = replicate (length deny_unknown) true.
Proof. vm_compute. reflexivity. Qed.

(** What [unknown_path_still_returns_404] sees without a token is not what a client sees with one:
    the fallback is behind the gate. *)
Example unknown_path_is_gated :
  statuses_are (spawn_gated_app default_cfg) [get "/does-not-exist" []; get "/does-not-exist" (authorization TOKEN)] [401; 404]%Z = true.
Proof. vm_compute. reflexivity. Qed.
