(* ===== verification/EndToEndTests.v ===== *)
(** * The end-to-end tests of src/tests/

    [loader_integration.rs], [compat_parse.rs], [claude_md_examples.rs],
    [allowed_private_hosts_integration.rs] and [http_headers_integration.rs]: from the values
    that the texts read as, through [Decode] and [Loader], to a dispatch against a mock server
    ([ExecutorTests]). The trees of src/DSL and src/compat are given file by file. *)
From S2P Require Import Prelude RStr Ip Errors Dsl History Config EnvSafety Libs Serde Decode Loader Dispatch.
From S2P Require HttpExec ExecutorTests.
Import SampleYaml.

(** ** Trees of documents *)

(** The files of each directory, with what their texts read as; a text stands for itself by its path. *)
Abbreviation corpus := (list (string * list (string * SNode))).
Definition text_of (dir name : string) : string := dir +:+ "/" +:+ name.
Definition texts (c : corpus) : list (string * SNode) := c ≫= λ '(dir, files), (λ '(name, n), (text_of dir name, n)) <$> files.
Definition reader (c : corpus) : Yaml :=
  yaml (λ body, match assoc body (texts c) with Some n => Ok n | None => Err "unknown document" end).
Definition tree (c : corpus) : Loader.Node :=
  DirNode (Ok ((λ '(dir, files), (dir, DirNode (Ok ((λ '(name, _), (name, FileNode (mkFile (Ok 400%Z) (Ok (text_of dir name))))) <$> files)))) <$> c)).
Abbreviation Loaded := (result (list LoadedJob) CronManagerError).
Definition load_with_policy (env : Env) (policy : LoadPolicy) (c : corpus) : Loaded :=
  @load_all_with_policy (@with_yaml Sample.libs (reader c)) env ["/"; "app"; "dsl"] policy (Some (tree c)).
Definition load (env : Env) (c : corpus) : Loaded := load_with_policy env permissive c.

Definition http_job (trigger method url : string) (rest : list (string * SNode)) : SNode :=
  NMap ([("trigger", NStr trigger); ("type", NStr "http"); ("method", NStr method); ("url", NStr url)] ++ rest).
Definition exec_job (trigger command : string) (rest : list (string * SNode)) : SNode :=
  NMap ([("trigger", NStr trigger); ("type", NStr "exec"); ("command", NStr command)] ++ rest).

(** compat/dsl. *)
Definition compat_dsl : corpus :=
  [("http",
    [("api-status.yaml", NMap [("api_status_check", http_job "0 */10 * * * ?" "GET" "https://jsonplaceholder.typicode.com/posts/1" [("retryCount", NInt 2); ("ignoreFailures", NBool true)])]);
     ("delete-cleanup.yaml", NMap [("cleanup_old_data", http_job "0 0 2 * * ?" "DELETE" "https://httpbin.org/delete" [("retryCount", NInt 3); ("retryDelay", NInt 5000); ("ignoreFailures", NBool false)])]);
     ("external-service.yaml", NMap [("external_service_check", http_job "0 */15 * * * ?" "GET" "https://httpbin.org/delay/1" [("retryCount", NInt 2); ("retryDelay", NInt 5000); ("ignoreFailures", NBool true)])]);
     ("health-check.yaml", NMap [("health_check", http_job "0 */5 * * * ?" "GET" "https://httpbin.org/status/200" [("retryCount", NInt 3); ("retryDelay", NInt 1000); ("ignoreFailures", NBool true)])]);
     ("manual-trigger.yaml", NMap [("manual_api_call", http_job "off" "GET" "https://httpbin.org/uuid" [])]);
     ("post-webhook.yaml", NMap [("trigger_webhook", http_job "0 0 * * * ?" "POST" "https://httpbin.org/post" [("retryCount", NInt 3); ("retryDelay", NInt 2000); ("ignoreFailures", NBool true)])]);
     ("put-update.yaml", NMap [("update_resource", http_job "0 30 */6 * * ?" "PUT" "https://httpbin.org/put" [("retryCount", NInt 5); ("retryDelay", NInt 3000); ("ignoreFailures", NBool true)])]);
     ("time-bounded.yaml", NMap [("seasonal_check", http_job "0 0 9 * * ?" "GET" "https://httpbin.org/get" [("startDate", NInt 1704067200000); ("endDate", NInt 1735689600000)])])]);
   ("schedules",
    [("examples.yaml", NMap [("every_minute", http_job "0 * * * * ?" "GET" "https://httpbin.org/get" [("retryCount", NInt 3); ("retryDelay", NInt 2000); ("ignoreFailures", NBool true)]);
        ("every_30_seconds", http_job "*/30 * * * * ?" "GET" "https://httpbin.org/get" [("retryCount", NInt 2); ("ignoreFailures", NBool true)]);
        ("hourly", http_job "0 0 * * * ?" "GET" "https://httpbin.org/get" []);
        ("daily_at_230am", http_job "0 30 2 * * ?" "GET" "https://httpbin.org/get" []);
        ("weekday_morning", http_job "0 0 9 ? * MON-FRI" "GET" "https://httpbin.org/get" []);
        ("monday_morning", http_job "0 0 8 ? * MON" "GET" "https://httpbin.org/get" []);
        ("first_of_month", http_job "0 0 0 1 * ?" "GET" "https://httpbin.org/get" []);
        ("sunday_maintenance", http_job "0 0 3 ? * SUN" "GET" "https://httpbin.org/get" []);
        ("twice_daily", http_job "0 0 6,18 * * ?" "GET" "https://httpbin.org/get" [])])]);
   ("shell",
    [("backup.yaml", NMap [("daily_backup", exec_job "0 0 2 * * ?" "./scripts/samples/backup.sh" [("allowedEnvs", NSeq [NStr "BACKUP_DIR"; NStr "RETENTION_DAYS"])])]);
     ("cleanup-temp.yaml", NMap [("cleanup_temp", exec_job "0 0 */12 * * ?" "./scripts/samples/cleanup.sh" [("allowedEnvs", NSeq [NStr "TEMP_DIR"; NStr "MAX_AGE_DAYS"])])]);
     ("generate-report.yaml", NMap [("generate_report", exec_job "0 0 9 ? * MON" "./scripts/samples/generate_report.sh" [("allowedEnvs", NSeq [NStr "REPORT_TYPE"; NStr "EMAIL_RECIPIENTS"])])]);
     ("hello-world.yaml", NMap [("hello_world", exec_job "0 */10 * * * ?" "./scripts/samples/hello_world.sh" [])]);
     ("list-files.yaml", NMap [("list_files", exec_job "0 0 8 * * ?" "./scripts/samples/list_files.sh" [])]);
     ("manual-script.yaml", NMap [("manual_script", exec_job "off" "./scripts/samples/manual_task.sh" [])]);
     ("process-data.yaml", NMap [("process_data", exec_job "0 30 3 * * ?" "./scripts/samples/process_data.sh" [("allowedEnvs", NSeq [NStr "DATA_SOURCE"; NStr "OUTPUT_DIR"])])]);
     ("seasonal-maintenance.yaml", NMap [("seasonal_maintenance", exec_job "0 0 1 * * ?" "./scripts/samples/maintenance.sh" [("startDate", NInt 1704067200000); ("endDate", NInt 1735689600000); ("allowedEnvs", NSeq [NStr "MAINTENANCE_MODE"])])]);
     ("system-info.yaml", NMap [("system_info", exec_job "0 0 */6 * * ?" "./scripts/samples/system_info.sh" [])])])].

(** DSL/samples. *)
Definition dsl_samples : corpus :=
  [("http",
    [("health-check.yaml", NMap [("health_check", http_job "0 */5 * * * ?" "GET" "https://httpbin.org/status/200" [("retryCount", NInt 3); ("retryDelay", NInt 1000); ("ignoreFailures", NBool true)])]);
     ("manual-trigger.yaml", NMap [("manual_api_call", http_job "off" "GET" "https://httpbin.org/uuid" [])]);
     ("post-webhook.yaml", NMap [("trigger_webhook", http_job "0 0 * * * ?" "POST" "https://httpbin.org/post" [("retryCount", NInt 3); ("retryDelay", NInt 2000); ("ignoreFailures", NBool true)])]);
     ("time-bounded.yaml", NMap [("seasonal_check", http_job "0 0 9 * * ?" "GET" "https://httpbin.org/get" [("startDate", NInt 1704067200000); ("endDate", NInt 1735689600000)])])]);
   ("schedules",
    [("examples.yaml", NMap [("every_30_seconds", http_job "*/30 * * * * ?" "GET" "https://httpbin.org/get" [("retryCount", NInt 2); ("ignoreFailures", NBool true)]);
        ("hourly", http_job "0 0 * * * ?" "GET" "https://httpbin.org/get" []);
        ("weekday_morning", http_job "0 0 9 ? * MON-FRI" "GET" "https://httpbin.org/get" []);
        ("twice_daily", http_job "0 0 6,18 * * ?" "GET" "https://httpbin.org/get" [])])]);
   ("shell",
    [("backup.yaml", NMap [("daily_backup", exec_job "0 0 2 * * ?" "./scripts/samples/backup.sh" [("allowedEnvs", NSeq [NStr "BACKUP_DIR"; NStr "RETENTION_DAYS"])])]);
     ("hello-world.yaml", NMap [("hello_world", exec_job "0 */10 * * * ?" "./scripts/samples/hello.sh" [])]);
     ("manual-script.yaml", NMap [("manual_script", exec_job "off" "./scripts/samples/hello.sh" [])])])].

(** What the tests look at. *)
Definition on_jobs (r : Loaded) (p : list JobSpec → bool) : bool := match r with Ok jobs => p (spec <$> jobs) | Err _ => false end.
Definition is_manual (s : JobSpec) : bool := match trigger s with Manual => true | Cron _ => false end.
Definition is_http (s : JobSpec) : bool := match kind s with Http _ _ _ => true | Exec _ _ => false end.
Definition windowed (s : JobSpec) : bool := bool_decide (is_Some (start_ms (window s))) || bool_decide (is_Some (end_ms (window s))).
Definition number (p : JobSpec → bool) (l : list JobSpec) : nat := length (List.filter p l).
Definition schedule_parses (s : JobSpec) : bool :=
  match trigger s with Cron expr => is_ok (@cron_from_str Sample.libs expr) | Manual => true end.

(** ** tests/loader_integration.rs *)
Definition shipped_samples_all_load : bool := on_jobs (load ∅ dsl_samples) (λ l, 5 <=? length l).
Definition shipped_samples_have_valid_group_prefix : bool :=
  on_jobs (load ∅ dsl_samples) (forallb (λ s, negb (String.eqb (group (key s)) "") && negb (String.eqb (name (key s)) ""))).
Definition manual_trigger_off_parses_to_manual : bool := on_jobs (load ∅ dsl_samples) (λ l, 0 <? number is_manual l).
Definition every_http_sample_has_supported_method : bool :=
  on_jobs (load ∅ dsl_samples) (forallb (λ s, match kind s with
    | Http method _ _ => existsb (String.eqb (to_ascii_uppercase method)) ["GET"; "POST"; "PUT"; "DELETE"; "PATCH"; "HEAD"; "OPTIONS"]
    | Exec _ _ => true
    end)).
Definition every_cron_sample_parses_as_a_schedule : bool := on_jobs (load ∅ dsl_samples) (forallb schedule_parses).
Definition policy_with (action : DevFixtureAction) : LoadPolicy := mkLoadPolicy 1048576 10 0 false action.
Definition u18_shipped_samples_tree_loads_under_refuse_action : bool :=
  on_jobs (load_with_policy ∅ (policy_with Refuse) dsl_samples) (λ l, 0 <? length l).
Definition health (dir : string) : string * list (string * SNode) :=
  (dir, [("health.yaml", NMap [("hc", http_job "off" "GET" "https://example.com/" [])])]).
Definition refused_with (parts : list string) (r : Loaded) : bool :=
  match r with Err e => forallb (contains (to_string e)) parts | Ok _ => false end.
Definition u18_dev_fixture_file_refused_in_prod : bool :=
  refused_with ["REFUSING TO LOAD"; "mock-"]
    (load_with_policy ∅ (policy_with (action_from_env Production false)) [health "prod"; health "mock-platform"]).
Definition u18_dev_fixture_file_permitted_in_dev_with_warn : bool :=
  on_jobs (load_with_policy ∅ (policy_with (action_from_env Dev false)) [health "mock-platform"]) (λ l, length l =? 1).
Definition u18_dev_fixture_file_permitted_in_prod_when_opted_out : bool :=
  on_jobs (load_with_policy ∅ (policy_with (action_from_env Production true)) [health "mock-platform"]) (λ l, length l =? 1).
Definition u18_first_dev_fixture_match_is_fatal_even_after_good_files : bool :=
  refused_with ["REFUSING TO LOAD"] (load_with_policy ∅ (policy_with (action_from_env Production false))
    [health "aa-prod"; ("zz-mock-late", [("probe.yaml", NMap [("p", http_job "off" "GET" "https://example.com/" [])])])]).

(** ** tests/compat_parse.rs *)
Definition every_compat_dsl_file_parses : bool := on_jobs (load ∅ compat_dsl) (λ l, 25 <=? length l).
Definition compat_http_jobs_land_on_http_executor : bool :=
  on_jobs (load ∅ compat_dsl) (λ l,
    15 <=? number (λ s, is_http s && (starts_with (group (key s)) "http" || starts_with (group (key s)) "schedules")) l).
Definition compat_shell_jobs_land_on_shell_executor : bool := on_jobs (load ∅ compat_dsl) (λ l, number (λ s, negb (is_http s)) l =? 9).
Definition compat_manual_triggers_land_on_manual_mode : bool := on_jobs (load ∅ compat_dsl) (λ l, number is_manual l =? 2).
Definition every_compat_cron_expression_is_parseable_by_cron_crate : bool := on_jobs (load ∅ compat_dsl) (forallb schedule_parses).
Definition compat_time_windows_survive_round_trip : bool :=
  on_jobs (load ∅ compat_dsl) (λ l,
    (2 <=? number windowed l) &&
    forallb (λ s, forallb (λ t, (1000000000000 <? t)%Z) (option_list (start_ms (window s)) ++ option_list (end_ms (window s)))) l).
Definition compat_retry_defaults_match_jvm : bool :=
  on_jobs (load ∅ compat_dsl) (λ l,
    (5 <=? number (λ s, (count (retry s) =? 0)%Z) l) && (3 <=? number (λ s, (0 <? count (retry s))%Z) l)).

(** ** tests/claude_md_examples.rs *)
#[local] Instance unread : Yaml := yaml (λ _, Err "unused").
Definition reads_as (entries : list (string * SNode)) (p : AppConfig → bool) : bool :=
  match decode_config (NMap entries : Serde.Node) with Ok cfg => p cfg | Err _ => false end.
Definition limits_block : string * SNode :=
  ("limits", NMap [("max_request_bytes", NInt 1048576); ("max_response_bytes", NInt 16777216); ("request_timeout_secs", NInt 30);
                   ("shell_timeout_secs", NInt 300)]).
Definition claude_md_loopback_baseline_parses : bool :=
  reads_as [("port", NInt 8080); ("dsl_path", NStr "/app/DSL/samples"); ("allowed_origins", NSeq []); limits_block]
    (λ cfg, (port cfg =? 8080)%Z && bool_decide (allowed_origins cfg = []) && (request_timeout_secs (limits cfg) =? 30)%Z).
Definition claude_md_public_baseline_parses : bool :=
  reads_as
    [("port", NInt 8080); ("dsl_path", NStr "/app/DSL"); ("app_root_path", NStr "/app"); ("allowed_origins", NSeq [NStr "https://ops.example.com"]);
     ("shell_environment", NMap [("BACKUP_DIR", NStr "/var/lib/cronmanager/backups"); ("RETENTION_DAYS", NStr "7")]); limits_block;
     ("admin", NMap [("bearer_token_env", NStr "CRONMANAGER_ADMIN_TOKEN"); ("trust_network", NBool false)]);
     ("security", NMap [("block_private_networks", NBool true); ("allow_dangerous_env_overrides", NBool false); ("max_query_params", NInt 64);
        ("max_dsl_file_bytes", NInt 1048576); ("dsl_load_timeout_secs", NInt 15); ("max_retry_count", NInt 10); ("min_cron_interval_secs", NInt 10);
        ("stored_response_body_max_bytes", NInt 65536); ("reload_min_interval_secs", NInt 60)]);
     ("database", NMap [("url", NStr "postgres://cronmanager@timescaledb:5432/cronmanager"); ("password_env", NStr "CRONMANAGER_DB_PASSWORD")])]
    (λ cfg, bool_decide (allowed_origins cfg = ["https://ops.example.com"]) && String.eqb (bearer_token_env (admin cfg)) "CRONMANAGER_ADMIN_TOKEN" &&
            negb (trust_network (admin cfg)) && block_private_networks (security cfg) && (max_query_params (security cfg) =? 64)%Z &&
            (reload_min_interval_secs (security cfg) =? 60)%Z && bool_decide (is_Some (url <$> database cfg))).
Definition claude_md_jvm_compat_baseline_parses : bool :=
  reads_as
    [("configPath", NStr "/app/DSL"); ("appRootPath", NStr "/app"); ("allowedOrigins", NStr "https://ops.example.com,https://ops.example.net");
     ("shellEnvironment", NMap [("BACKUP_DIR", NStr "/var/lib/cronmanager/backups")])]
    (λ cfg, String.eqb (dsl_path cfg) "/app/DSL" && bool_decide (allowed_origins cfg = ["https://ops.example.com"; "https://ops.example.net"])).

(** ** tests/allowed_private_hosts_integration.rs *)
Module T := ExecutorTests.HttpTests.
Module D := ExecutorTests.DispatchTests.
#[local] Existing Instance Sample.libs.
Definition hosts_config (hosts : list string) (p : AppConfig → bool) : bool :=
  reads_as [("port", NInt 8080); ("security", NMap [("block_private_networks", NBool true); ("allowed_private_hosts", NSeq (NStr <$> hosts))])] p.
Definition http_job_against (url : string) : JobSpec :=
  mkJobSpec (mkJobKey "integ" "allowlist") Manual TimeWindow_default RetryPolicy_default (Http "GET" url []).
Definition status_is (st : ExecutionStatus) (r : list HistoryEntry * option DispatchOutcome) : bool := bool_decide (status <$> r.2 = Some st).
(** A fire at a path of the server by its other name, which answers it. *)
Definition reaches_localhost (path : string) (cfg : AppConfig) : bool :=
  let url := "http://localhost:1234" +:+ path in
  status_is Success (D.fire (bundle_new ∅ cfg) (http_job_against url) ∅ (T.mockito [T.mkMock "GET" url [] 200 "ok"])).
Definition allowlisted_host_fires_end_to_end_from_yaml : bool :=
  hosts_config ["localhost"] (λ cfg,
    block_private_networks (security cfg) && bool_decide (allowed_private_hosts (security cfg) = ["localhost"]) && reaches_localhost "/svc" cfg).
Definition unlisted_private_host_is_still_refused_end_to_end : bool :=
  hosts_config ["ruuter-internal"] (λ cfg,
    let r := D.fire (bundle_new ∅ cfg) (http_job_against "http://localhost:1/x") ∅ (T.mockito []) in
    negb (status_is Success r) &&
    match r.1 with
    | row :: _ => let e := default "" (error_message row) in contains e "SSRF pre-flight" && contains e "allowed_private_hosts"
    | [] => false
    end).
Definition allowlist_does_not_regress_production_env_safety : bool :=
  hosts_config ["ruuter-internal"; "svc.ns.svc.cluster.local"] (λ cfg, forallb is_safe (posture_checks_for cfg)).
(** The link-local service: on a machine without one nothing answers. *)
Definition metadata_service (answer : HttpExec.SendEvent) : HttpExec.HttpWorld :=
  HttpExec.mkHttpWorld (λ _, Ok [V4 (V4Addr 169 254 169 254)]) (λ _, answer).
Definition metadata_job : JobSpec := http_job_against "http://169.254.169.254/latest/meta-data".
Definition ip_literal_in_allowlist_is_dropped_imds_stays_blocked : bool :=
  hosts_config ["169.254.169.254"; "[fd00:ec2::254]"] (λ cfg,
    let (valid, invalid) := split_allowed_private_hosts (security cfg) in
    (length (allowed_private_hosts (security cfg)) =? 2) && (length valid =? 0) && (length invalid =? 2) &&
    negb (status_is Success (D.fire (bundle_new ∅ cfg) metadata_job ∅
      (metadata_service (HttpExec.Sent (Err (HttpExec.OtherErr "unreachable"))))))).
Definition allowlist_case_and_trailing_dot_fold_end_to_end : bool := hosts_config ["LocalHost."] (reaches_localhost "/").

(** ** tests/http_headers_integration.rs *)
Definition with_block (name : string) (entries : list (string * string)) : string * SNode := (name, NMap ((λ '(k, v), (k, NStr v)) <$> entries)).
Definition one_file (dir file job : string) (n : SNode) : string * list (string * SNode) := (dir, [(file, NMap [(job, n)])]).
Definition crlf_taint : string := "legit" +:+ ExecutorTests.crlf +:+ "Authorization: Bearer stolen" +:+ ExecutorTests.crlf +:+ "X-Smuggled: y".
Definition dsl_with_headers_dispatches_both_header_sources_to_wire : bool :=
  let env : Env := {["CM_IT_HDR_SERVICE_TOKEN" := "integr8t3d-s3cret"]} in
  let target := T.server_url +:+ "/svc" in
  let m := T.mkMock "POST" target [("x-source", "cronmanager"); ("x-internal-service-token", "integr8t3d-s3cret")] 200 "ok" in
  on_jobs (load env [one_file "svc" "call.yaml" "callSvc" (http_job "off" "POST" target
      [with_block "headers" [("X-Source", "cronmanager")]; with_block "headerEnvs" [("X-Internal-Service-Token", "CM_IT_HDR_SERVICE_TOKEN")]])])
    (λ l, match l with
          | [s] =>
              let r := D.fire (D.bundle false false) s env (T.mockito [m]) in
              match kind s with
              | Http _ _ headers =>
                  bool_decide (source <$> headers = [Literal "cronmanager"; EnvVar "CM_IT_HDR_SERVICE_TOKEN"])
              | Exec _ _ => false
              end &&
              status_is Success r && (length r.1 =? 1) && forallb (D.hides ["integr8t3d-s3cret"; "integr8t3d"; "s3cret"]) r.1
          | _ => false
          end).
Definition dsl_setting_forbidden_header_is_refused_at_load : bool :=
  on_jobs (load ∅ [one_file "evil" "call.yaml" "spoofHost" (http_job "off" "GET" "https://example.com/"
      [with_block "headers" [("Host", "internal.metadata.service")]])]) (λ l, length l =? 0).
Definition dsl_with_crlf_tainted_env_refuses_at_load : bool :=
  on_jobs (load {["CM_IT_HDR_CRLF_TAINT" := crlf_taint]} [one_file "evil" "call.yaml" "smuggle" (http_job "off" "GET" "https://example.com/"
      [with_block "headerEnvs" [("X-Token", "CM_IT_HDR_CRLF_TAINT")]])]) (λ l, length l =? 0).
Definition one_bad_header_file_does_not_abort_sibling_loads : bool :=
  on_jobs (load {["CM_IT_HDR_SIBLING_TOKEN" := "sibling-ok"]}
      [one_file "ok" "good.yaml" "good" (http_job "off" "GET" "https://example.com/"
         [with_block "headers" [("X-Static", "ok")]; with_block "headerEnvs" [("X-Token", "CM_IT_HDR_SIBLING_TOKEN")]]);
       one_file "bad" "evil.yaml" "evil" (http_job "off" "GET" "https://example.com/" [with_block "headers" [("Connection", "close")]])])
    (λ l, match l with [s] => String.eqb (name (key s)) "good" | _ => false end).

Definition loader_integration : list bool :=
  [shipped_samples_all_load; shipped_samples_have_valid_group_prefix; manual_trigger_off_parses_to_manual;
   every_http_sample_has_supported_method; every_cron_sample_parses_as_a_schedule; u18_shipped_samples_tree_loads_under_refuse_action;
   u18_dev_fixture_file_refused_in_prod; u18_dev_fixture_file_permitted_in_dev_with_warn;
   u18_dev_fixture_file_permitted_in_prod_when_opted_out; u18_first_dev_fixture_match_is_fatal_even_after_good_files].
Definition compat_parse : list bool :=
  [every_compat_dsl_file_parses; compat_http_jobs_land_on_http_executor; compat_shell_jobs_land_on_shell_executor;
   compat_manual_triggers_land_on_manual_mode; every_compat_cron_expression_is_parseable_by_cron_crate;
   compat_time_windows_survive_round_trip; compat_retry_defaults_match_jvm].
Definition claude_md_examples : list bool :=
  [claude_md_loopback_baseline_parses; claude_md_public_baseline_parses; claude_md_jvm_compat_baseline_parses].
Definition allowed_private_hosts_integration : list bool :=
  [allowlisted_host_fires_end_to_end_from_yaml; unlisted_private_host_is_still_refused_end_to_end;
   allowlist_does_not_regress_production_env_safety; ip_literal_in_allowlist_is_dropped_imds_stays_blocked;
   allowlist_case_and_trailing_dot_fold_end_to_end].
Definition http_headers_integration : list bool :=
  [dsl_with_headers_dispatches_both_header_sources_to_wire; dsl_setting_forbidden_header_is_refused_at_load;
   dsl_with_crlf_tainted_env_refuses_at_load; one_bad_header_file_does_not_abort_sibling_loads].

(** The model passes them. *)
Example loader_integration_passes : loader_integration = replicate (length loader_integration) true.
Proof. vm_compute. reflexivity. Qed.
Example compat_parse_passes : compat_parse = replicate (length compat_parse) true.
Proof. vm_compute. reflexivity. Qed.
Example claude_md_examples_passes : claude_md_examples = replicate (length claude_md_examples) true.
Proof. vm_compute. reflexivity. Qed.
Example allowed_private_hosts_integration_passes : allowed_private_hosts_integration = replicate (length allowed_private_hosts_integration) true.
Proof. vm_compute. reflexivity. Qed.
Example http_headers_integration_passes : http_headers_integration = replicate (length http_headers_integration) true.
Proof. vm_compute. reflexivity. Qed.

(** The test above is not evidence that the pre-flight refuses a literal address, as its comment
    says: [reject_private_dns] lets literals pass. Where the service answers, the same fire under
    the same configuration reaches it; only the loader refuses such a job. *)
Example literal_address_skips_the_preflight :
  hosts_config ["169.254.169.254"; "[fd00:ec2::254]"] (λ cfg,
    status_is Success (D.fire (bundle_new ∅ cfg) metadata_job ∅ (metadata_service (HttpExec.Sent (Ok (HttpExec.mkResponse 200 []))))) &&
    on_jobs (load_with_policy ∅ (mkLoadPolicy 1048576 10 0 (block_private_networks (security cfg)) Ignore)
      [one_file "evil" "call.yaml" "imds" (http_job "off" "GET" "http://169.254.169.254/latest/meta-data" [])]) (λ l, length l =? 0)) = true.
Proof. vm_compute. reflexivity. Qed.
