(* ===== verification/Server.v ===== *)
(** * The serving process (src/main.rs, src/router.rs, src/scheduler.rs)

    Requests as tasks next to the loops and runs of the scheduler. A request takes one
    locked section at a time: while it is in a method of the scheduler its point is the
    [Thread] of [SchedulerSteps] for that method. A request can be dropped where it awaits:
    before it is routed, and while the tree loads. After the shutdown signal nothing more
    is accepted; when the requests in flight are over the process exits, whatever else
    runs. A snapshot of [describe] is one section: the cells it reads are locked one by one. *)
From S2P Require Import Prelude RStr Errors Dsl History Config Libs Loader Dispatch DispatchSteps Scheduler SchedulerSteps SchedulerMethods JobTypes Middleware Router Signal.

(** ** Requests *)

(** The points of a request between its sections. *)
Inductive ReqPc :=
  | QArrived                                     (** accepted, about to be routed *)
  | QGate (group : string)                       (** in [reload_jobs], about to take the throttle *)
  | QLoad                                        (** awaiting the load of the tree *)
  | QCall (t : Thread)                           (** in [trigger_now] or [stop] *)
  | QReload (count : nat) (t : Thread)           (** in [reload_from] *)
  | QJobs (f : option string)                    (** about to [describe] *)
  | QRunning (f : option string) (stopped : option bool)
      (** in [describe_running]; after a [stop], with its answer *)
  | QRows (snapshot : list (JobKey * RunningInstance)) (stopped : option bool)
  | QReplied (resp : HttpResponse)
  | QDropped                                     (** the client left, or the deadline passed *)
  | QPanicked.

Definition finished (pc : ReqPc) : bool :=
  match pc with QReplied _ | QDropped | QPanicked => true | _ => false end.
Definition droppable (pc : ReqPc) : bool := match pc with QArrived | QLoad => true | _ => false end.

(** What a section of a request meets: the clocks, and for the end of a load the tree and
    how the load ended. *)
Record Moment := mkMoment { wall : Z; mono : Z; found_tree : option Node; load_ended : JoinEvent }.

Definition reply (r : result Body CronManagerError) : ReqPc := QReplied (to_response r).
Definition request_input (m : Moment) : Input := mkInput (wall m) (surroundings any_input) false.

(** ** The process *)
Inductive Task := TThread (t : Thread) | TRequest (req : HttpRequest) (pc : ReqPc).
Inductive Phase := Accepting | Draining | Exited.
#[export] Instance Phase_eq_dec : EqDecision Phase.
Proof. solve_decision. Defined.
Record Server (R : Type) := mkServer
  { sv_shared : Shared R; sv_gate : ReloadGate; sv_tasks : list Task; sv_phase : Phase }.
Arguments mkServer {R}.
Arguments sv_shared {R}.
Arguments sv_gate {R}.
Arguments sv_tasks {R}.
Arguments sv_phase {R}.

Definition answered (x : Task) : bool := match x with TRequest _ pc => finished pc | TThread _ => true end.

Section server.
Context `{Libs} `{Axum} {R : Type} `{HistoryRecorder R}.
(** What does not change while the process serves. *)
Context (st : AppState) (b : ExecutorBundle) (vars : Env) (root : PathBuf) (signals : Signals).
Implicit Types (s : Shared R) (g : ReloadGate).

Definition req_env (m : Moment) : ReqEnv := mkReqEnv (wall m) (mono m) vars (found_tree m) (load_ended m) root.

(** [serve] and [run_endpoint] up to the first lock or wait. A handler whose path lacks a
    parameter is a rejection of the extractor. *)
Definition start_endpoint (ep : Endpoint) (params : list string) (req : HttpRequest) : ReqPc :=
  match ep, params with
  | Index, _ => reply (Ok index)
  | Health, _ => reply (Ok health)
  | Info, _ => reply (Ok info)
  | JobsAll, _ => QJobs None
  | JobsGroup, group :: _ => QJobs (group_filter group)
  | RunningAll, _ => QRunning None None
  | RunningGroup, group :: _ => QRunning (group_filter group) None
  | ExecuteJob, group :: job :: _ =>
      match bounded_query (max_query_params (security (cfg st))) (rq_query req) with
      | Err err => reply (Err err)
      | Ok params =>
          match refused_override st params with
          | Some (k, _) => reply (Err (dangerous_override group job k))
          | None => QCall (Trigger (mkJobKey group job) params TLookup)
          end
      end
  | StopJob, group :: job :: _ => QCall (Stop (mkJobKey group job) false)
  | ReloadJobs, group :: _ => QGate group
  | _, _ => QReplied (bare 500)
  end.
Definition route (req : HttpRequest) : ReqPc :=
  match find_route st (rq_path req) with
  | None => QReplied (not_found st req)
  | Some (r, params) =>
      match (if gated r then admin_gate st req else Ok tt) with
      | Err err => QReplied (error_response err)
      | Ok _ =>
          if negb (method_allowed r (rq_method req)) then QReplied (method_not_allowed r)
          else start_endpoint (endpoint r) params req
      end
  end.

(** After a section of [trigger_now] or [stop] that led from [t] to [t']; the second
    component is what it spawns. [s] is the state the section found. *)
Definition after_call s (t t' : Thread) : ReqPc * list Thread :=
  match t', t with
  | Panicked, _ => (QPanicked, [])
  | Trigger k _ (TRun _ _ (Dispatching _ _)), _ => (QRunning (Some (group k)) None, [t'])
  | Done, Trigger k _ TLookup => (reply (Err (job_not_found k)), [])
  | Done, Trigger k _ _ => (reply (Err (JobAlreadyRunning (group k) (name k))), [])
  | Done, Stop k false => (reply (Err (job_not_found k)), [])
  | Done, Stop k true =>
      (QRunning (Some (group k)) (Some (bool_decide (is_Some (running s !! k)))), [])
  | _, _ => (QCall t', [])
  end.

Definition running_json (rows : Json) (stopped : option bool) : Json :=
  match stopped with Some aborted => stopped_json aborted rows | None => rows end.

(** One section of a request. *)
Definition request_step (m : Moment) (req : HttpRequest) (pc : ReqPc) s g :
    option (Shared R * ReloadGate * ReqPc * list Thread) :=
  match pc with
  | QArrived => Some (s, g, route req, [])
  | QGate group =>
      let (g', admitted) := gate_admit group (reload_min_interval_secs (security (cfg st))) (mono m) g in
      Some (s, g', match admitted with Err wait => reply (Err (TooManyRequests wait)) | Ok _ => QLoad end, [])
  | QLoad =>
      Some (s, g, match load_dsl st (req_env m) with
                  | Err err => reply (Err err)
                  | Ok jobs => QReload (length jobs) (ReloadNotify (spec <$> jobs))
                  end, [])
  | QCall t =>
      '(s', t', sp) ← thread_step b (request_input m) t s;
      let (pc', sp') := after_call s t t' in Some (s', g, pc', sp ++ sp')
  | QReload n t =>
      '(s', t', sp) ← thread_step b (request_input m) t s;
      Some (s', g, match t' with Done => reply (Ok (JsonBody (reloaded_json n))) | _ => QReload n t' end, sp)
  | QJobs f => Some (s, g, reply (Ok (JsonBody (rows_json (describe (wall m) s f)))), [])
  | QRunning f stopped =>
      Some (s, g, QRows (List.filter (λ e, selected f e.1) (map_to_list (running s))) stopped, [])
  | QRows snapshot stopped =>
      Some (s, g, reply (Ok (JsonBody (running_json (rows_json (describe_running_entries s None snapshot)) stopped))), [])
  | QReplied _ | QDropped | QPanicked => None
  end.

(** ** Steps *)
Inductive server_step : Server R → Server R → Prop :=
  | sv_accept s g ts req :
      server_step (mkServer s g ts Accepting) (mkServer s g (ts ++ [TRequest req QArrived]) Accepting)
  | sv_thread s g ts ph i t inp s' t' sp :
      ph ≠ Exited → ts !! i = Some (TThread t) → thread_step b inp t s = Some (s', t', sp) →
      server_step (mkServer s g ts ph) (mkServer s' g (<[i := TThread t']> ts ++ (TThread <$> sp)) ph)
  | sv_request s g ts ph i req pc m s' g' pc' sp :
      ph ≠ Exited → ts !! i = Some (TRequest req pc) → request_step m req pc s g = Some (s', g', pc', sp) →
      server_step (mkServer s g ts ph) (mkServer s' g' (<[i := TRequest req pc']> ts ++ (TThread <$> sp)) ph)
  | sv_drop s g ts ph i req pc :
      ph ≠ Exited → ts !! i = Some (TRequest req pc) → droppable pc = true →
      server_step (mkServer s g ts ph) (mkServer s g (<[i := TRequest req QDropped]> ts) ph)
  | sv_signal s g ts first :
      is_Some (shutdown_signal signals first) →
      server_step (mkServer s g ts Accepting) (mkServer s g ts Draining)
  | sv_exit s g ts :
      forallb answered ts = true → server_step (mkServer s g ts Draining) (mkServer s g ts Exited).

(** [axum::serve] on the state that boot leaves. *)
Definition serving (a : App R) : Server R :=
  mkServer (sys a).1 (reload_gate a) (TThread <$> (sys a).2) Accepting.
Definition server_reachable (a : App R) (sv : Server R) : Prop := rtc server_step (serving a) sv.

(** ** The tasks of the scheduler in a server *)
Definition pc_thread (pc : ReqPc) : Thread :=
  match pc with QCall t | QReload _ t => t | QPanicked => Panicked | _ => Done end.
Definition task_thread (x : Task) : Thread :=
  match x with TThread t => t | TRequest _ pc => pc_thread pc end.
Definition server_sys (sv : Server R) : Sys R := (sv_shared sv, task_thread <$> sv_tasks sv).
End server.
