(* ===== verification/ServerExec.v ===== *)
(** * The serving process as a function of its moves (src/main.rs)

    The steps of [Server] are nondeterministic in who moves and in what is met. Given both, a
    step is a function: [exec] runs one move and [exec_all] a sequence of them, and the
    states that some moves lead to are those that the steps reach. *)
From S2P Require Import Prelude RStr Errors Dsl History Config Libs Loader Dispatch DispatchSteps Scheduler SchedulerSteps Middleware Router Signal Server.

(** What the world does next: a client connects, a task or a request is given the processor
    and meets something, a client leaves, a signal comes, or the process ends. *)
Inductive Move :=
  | MAccept (req : HttpRequest)
  | MThread (i : nat) (inp : Input)
  | MRequest (i : nat) (m : Moment)
  | MDrop (i : nat)
  | MSignal (first : bool)
  | MExit.

Section exec.
Context `{Libs} `{Axum} {R : Type} `{HistoryRecorder R}.
Context (st : AppState) (b : ExecutorBundle) (vars : Env) (root : PathBuf) (signals : Signals).
Local Abbreviation sstep := (server_step st b vars root signals).

Definition exec (mv : Move) (sv : Server R) : option (Server R) :=
  let '(mkServer s g ts ph) := sv in
  match mv with
  | MAccept req => if decide (ph = Accepting) then Some (mkServer s g (ts ++ [TRequest req QArrived]) ph) else None
  | MThread i inp =>
      match ph, ts !! i with
      | Exited, _ => None
      | _, Some (TThread t) =>
          '(s', t', sp) ← thread_step b inp t s; Some (mkServer s' g (<[i := TThread t']> ts ++ (TThread <$> sp)) ph)
      | _, _ => None
      end
  | MRequest i m =>
      match ph, ts !! i with
      | Exited, _ => None
      | _, Some (TRequest req pc) =>
          '(s', g', pc', sp) ← request_step st b vars root m req pc s g;
          Some (mkServer s' g' (<[i := TRequest req pc']> ts ++ (TThread <$> sp)) ph)
      | _, _ => None
      end
  | MDrop i =>
      match ph, ts !! i with
      | Exited, _ => None
      | _, Some (TRequest req pc) => if droppable pc then Some (mkServer s g (<[i := TRequest req QDropped]> ts) ph) else None
      | _, _ => None
      end
  | MSignal first =>
      if decide (ph = Accepting) then _ ← shutdown_signal signals first; Some (mkServer s g ts Draining) else None
  | MExit => if decide (ph = Draining) then if forallb answered ts then Some (mkServer s g ts Exited) else None else None
  end.
Fixpoint exec_all (mvs : list Move) (sv : Server R) : option (Server R) :=
  match mvs with [] => Some sv | mv :: mvs' => exec mv sv ≫= exec_all mvs' end.

Lemma exec_sound mv sv sv' : exec mv sv = Some sv' → sstep sv sv'.
Proof.
  destruct sv as [s g ts ph], mv as [req|i inp|i m|i|first|]; cbn [exec].
  - case_decide as Hp; [|done]. intros [= <-]. rewrite Hp. constructor.
  - assert (ph ≠ Exited → match ts !! i with
      | Some (TThread t) => '(s', t', sp) ← thread_step b inp t s; Some (mkServer s' g (<[i := TThread t']> ts ++ (TThread <$> sp)) ph)
      | _ => None end = Some sv' → sstep (mkServer s g ts ph) sv') as Hgo; [|destruct ph; [by apply Hgo|by apply Hgo|done]].
    intros Hp. destruct (ts !! i) as [[t|]|] eqn:Hi; [|done..].
    destruct (thread_step b inp t s) as [[[s' t'] sp]|] eqn:Ht; cbn [mbind option_bind]; [|done]. intros [= <-]. by eapply sv_thread.
  - assert (ph ≠ Exited → match ts !! i with
      | Some (TRequest req pc) => '(s', g', pc', sp) ← request_step st b vars root m req pc s g;
          Some (mkServer s' g' (<[i := TRequest req pc']> ts ++ (TThread <$> sp)) ph)
      | _ => None end = Some sv' → sstep (mkServer s g ts ph) sv') as Hgo; [|destruct ph; [by apply Hgo|by apply Hgo|done]].
    intros Hp. destruct (ts !! i) as [[|req pc]|] eqn:Hi; [done| |done].
    destruct (request_step _ _ _ _ _ _ _ _ _) as [[[[s' g'] pc'] sp]|] eqn:Hr; cbn [mbind option_bind]; [|done].
    intros [= <-]. by eapply sv_request.
  - assert (ph ≠ Exited → match ts !! i with
      | Some (TRequest req pc) => if droppable pc then Some (mkServer s g (<[i := TRequest req QDropped]> ts) ph) else None
      | _ => None end = Some sv' → sstep (mkServer s g ts ph) sv') as Hgo; [|destruct ph; [by apply Hgo|by apply Hgo|done]].
    intros Hp. destruct (ts !! i) as [[|req pc]|] eqn:Hi; [done| |done]. destruct (droppable pc) eqn:Hd; [|done].
    intros [= <-]. by eapply sv_drop.
  - case_decide as Hp; [|done]. destruct (shutdown_signal signals first) eqn:Hs; cbn [mbind option_bind]; [|done].
    intros [= <-]. rewrite Hp. by apply (sv_signal _ _ _ _ _ _ _ _ first).
  - case_decide as Hp; [|done]. destruct (forallb answered ts) eqn:Ha; [|done]. intros [= <-]. rewrite Hp. by constructor.
Qed.

Lemma exec_complete sv sv' : sstep sv sv' → ∃ mv, exec mv sv = Some sv'.
Proof.
  intros Hstep. destruct Hstep as [s g ts req|s g ts ph i t inp s' t' sp Hp Hi Ht|s g ts ph i req pc m s' g' pc' sp Hp Hi Hr
    |s g ts ph i req pc Hp Hi Hd|s g ts first [x Hs]|s g ts Ha].
  - by exists (MAccept req).
  - exists (MThread i inp). cbn. rewrite Hi, Ht. by destruct ph.
  - exists (MRequest i m). cbn. rewrite Hi, Hr. by destruct ph.
  - exists (MDrop i). cbn. rewrite Hi, Hd. by destruct ph.
  - exists (MSignal first). cbn. by rewrite Hs.
  - exists MExit. cbn. by rewrite Ha.
Qed.

Lemma exec_all_app mvs1 mvs2 sv : exec_all (mvs1 ++ mvs2) sv = exec_all mvs1 sv ≫= exec_all mvs2.
Proof.
  revert sv. induction mvs1 as [|mv mvs1 IH]; intros sv; [done|]. cbn. destruct (exec mv sv); cbn; [apply IH|done].
Qed.

(** The states that some moves lead to are the reachable ones. *)
Lemma exec_all_reaches sv sv' : rtc sstep sv sv' ↔ ∃ mvs, exec_all mvs sv = Some sv'.
Proof.
  split.
  - induction 1 as [sv|sv sv1 sv2 Hs _ [mvs IH]]; [by exists []|]. apply exec_complete in Hs as [mv Hm].
    exists (mv :: mvs). cbn. by rewrite Hm.
  - intros [mvs Hm]. revert sv Hm. induction mvs as [|mv mvs IH]; intros sv; cbn; [by intros [= ->]|].
    destruct (exec mv sv) as [sv1|] eqn:He; cbn; [|done]. intros Hm. eapply rtc_l; [by eapply exec_sound|by apply IH].
Qed.
End exec.
