(* ===== verification/ServerSteps.v ===== *)
(** * The serving process refines the scheduler (src/main.rs, src/router.rs)

    Forgetting the requests that are not in a method of the scheduler, every step of the
    process is a sequence of steps of [SchedulerSteps], so that the invariant and all that
    follows from it hold of the process. *)
From S2P Require Import Prelude RStr Errors Dsl History Config Libs Loader Dispatch DispatchSteps Scheduler SchedulerSteps SchedulerMethods JobTypes Middleware Router Signal Server.
From Stdlib Require Import Wellfounded.

(** ** Shapes *)

(** The points of [trigger_now] and [stop], and of [reload_from], that a request can be at. *)
Definition in_call (t : Thread) : bool :=
  match t with
  | Trigger _ _ TLookup | Trigger _ _ (TBegin _ _) | Trigger _ _ (TRun _ _ Begun) | Stop _ _ => true
  | _ => false
  end.
Definition in_reload (t : Thread) : bool :=
  match t with ReloadNotify _ | ReloadClear _ | Registering _ _ => true | _ => false end.
Definition pc_wf (pc : ReqPc) : bool :=
  match pc with QCall t => in_call t | QReload _ t => in_reload t | _ => true end.
(** The tasks that nothing but the scheduler moves: its loops and its runs. *)
Definition thread_wf (t : Thread) : bool :=
  match t with
  | Loop _ _ _ _ | Trigger _ _ (TRun _ _ _) | Done | Panicked => true
  | _ => false
  end.
Definition task_wf (x : Task) : bool :=
  match x with TThread t => thread_wf t | TRequest _ pc => pc_wf pc end.

Section sections.
Context `{Libs} `{Axum} {R : Type} `{HistoryRecorder R}.
Context (st : AppState) (b : ExecutorBundle) (vars : Env) (root : PathBuf).
Implicit Types (s : Shared R) (g : ReloadGate).
Local Abbreviation step_of := (request_step st b vars root).

(** What a request may be at after it is routed. *)
Lemma route_cases req :
  (∃ resp, route st req = QReplied resp) ∨ (∃ f, route st req = QJobs f) ∨
  (∃ f, route st req = QRunning f None) ∨ (∃ gr, route st req = QGate gr) ∨
  (∃ k ps, route st req = QCall (Trigger k ps TLookup)) ∨ ∃ k, route st req = QCall (Stop k false).
Proof.
  unfold route. destruct (find_route st (rq_path req)) as [[r ps]|]; [|by eauto].
  destruct (if gated r then _ else _); [|by eauto]. destruct (negb _); [by eauto|].
  destruct (endpoint r), ps as [|p [|p2 ps]]; cbn [start_endpoint]; unfold reply; try (by eauto 9).
  all: destruct (bounded_query _ _); [|by eauto]; destruct (refused_override _ _) as [[]|]; by eauto 9.
Qed.

(** A section of a call, with the task of the scheduler beside it. *)
Lemma call_section inp t s s' t' sp :
  thread_step b inp t s = Some (s', t', sp) → in_call t = true →
  let (pc, sp') := after_call s t t' in
  sp = [] ∧ pc_wf pc = true ∧ Forall (λ u, thread_wf u = true) sp' ∧
  live (pc_thread pc :: sp') ≡ₚ live [t'] ∧
  ((∃ resp, pc = QReplied resp) ∨ pc = QPanicked ∨ (∃ f a, pc = QRunning (Some f) a) ∨ pc = QCall t' ∧ in_call t' = true).
Proof.
  intros Hs Hc. destruct t as [|k extras [|spec cell|spec cell [| | |]]|k [|]| | | | |]; try done; cbn in Hs.
  - destruct (lookup_job k s); injection Hs as <- <- <-; cbn; split_and!; try done; eauto 9.
  - destruct (begin_running _ _ _ _); injection Hs as <- <- <-; cbn; split_and!; try done; eauto 9.
  - destruct (running s !! k); injection Hs as <- <- <-; cbn; split_and!; try done; eauto 9.
  - injection Hs as <- <- <-. cbn. split_and!; try done. eauto 9.
  - destruct (jobs s !! k); injection Hs as <- <- <-; cbn; split_and!; try done; eauto 9.
Qed.

Lemma reload_section inp t s s' t' sp :
  thread_step b inp t s = Some (s', t', sp) → in_reload t = true →
  (t' = Done ∨ in_reload t' = true) ∧ Forall (λ u, thread_wf u = true) sp ∧ t' ≠ Panicked.
Proof.
  intros Hs Hr. destruct t as [| | |todo pc|l|l| |]; try done; cbn in Hs.
  - destruct todo as [|spec todo], pc; cbn in Hs; injection Hs as <- <- <-; split_and!; try done; try by left.
    all: try by right. destruct (trigger spec); by repeat constructor.
  - injection Hs as <- <- <-. split_and!; [by right|done|done].
  - injection Hs as <- <- <-. split_and!; [by right|done|done].
Qed.

(** A section of a request either leaves the scheduler alone, perhaps entering one of its
    methods, or is one section of the method it is in. *)
Inductive section_kind s g (pc : ReqPc) s' g' (pc' : ReqPc) (sp : list Thread) : Prop :=
  | section_outside : s' = s → sp = [] → pc_thread pc = Done → pc_thread pc' = Done ∨ is_call (pc_thread pc') = true →
      section_kind s g pc s' g' pc' sp
  | section_inside inp t' sp0 : g' = g → thread_step b inp (pc_thread pc) s = Some (s', t', sp0) →
      live (pc_thread pc' :: sp) ≡ₚ live (t' :: sp0) → section_kind s g pc s' g' pc' sp.

Lemma request_section m req pc s g s' g' pc' sp :
  step_of m req pc s g = Some (s', g', pc', sp) → pc_wf pc = true →
  section_kind s g pc s' g' pc' sp ∧ pc_wf pc' = true ∧ Forall (λ u, thread_wf u = true) sp.
Proof.
  intros Hstep Hwf. destruct pc as [|group| |t|n t|f|f a|rows a| | |]; cbn [request_step] in Hstep; try done.
  - injection Hstep as <- <- <- <-. split_and!; [apply section_outside; try done| |done].
    all: destruct (route_cases req) as [[? ->]|[[? ->]|[[? ->]|[[? ->]|[(? & ? & ->)|[? ->]]]]]]; cbn; tauto.
  - destruct (gate_admit _ _ _ _) as [g2 r]. injection Hstep as <- <- <- <-.
    destruct r; (split_and!; [apply section_outside; try done; by left|done|done]).
  - destruct (load_dsl _ _) as [jobs|]; injection Hstep as <- <- <- <-; (split_and!; [apply section_outside; try done|done|done]).
    + by right.
    + by left.
  - destruct (thread_step b _ t s) as [[[s1 t1] sp1]|] eqn:Ht; cbn [mbind option_bind] in Hstep; [|done].
    pose proof (call_section _ _ _ _ _ _ Ht Hwf) as Hc. destruct (after_call s t t1) as [pc1 sp2].
    destruct Hc as (-> & Hpc & Hsp & Hl & _). injection Hstep as <- <- <- <-. split_and!; [|done|done].
    by eapply section_inside.
  - destruct (thread_step b _ t s) as [[[s1 t1] sp1]|] eqn:Ht; cbn [mbind option_bind] in Hstep; [|done].
    injection Hstep as <- <- <- <-. destruct (reload_section _ _ _ _ _ _ Ht Hwf) as (Hc & Hsp & _).
    split_and!; [|by destruct Hc as [->|Hc]; [|destruct t1]|done]. eapply section_inside; [done|exact Ht|].
    by destruct Hc as [->|Hc]; [|destruct t1].
  - injection Hstep as <- <- <- <-. split_and!; [apply section_outside; try done; by left|done|done].
  - injection Hstep as <- <- <- <-. split_and!; [apply section_outside; try done; by left|done|done].
  - injection Hstep as <- <- <- <-. split_and!; [apply section_outside; try done; by left|done|done].
Qed.
End sections.

Section simulation.
Context `{Libs} `{Axum} {R : Type} `{HistoryRecorder R}.
Context (st : AppState) (b : ExecutorBundle) (vars : Env) (root : PathBuf) (signals : Signals).
Implicit Types (s : Shared R) (g : ReloadGate) (ts : list Task).
Local Abbreviation sstep := (server_step st b vars root signals).

Definition tasks_wf ts : Prop := Forall (λ x, task_wf x = true) ts.

Lemma thread_step_wf inp t s s' t' sp :
  thread_step b inp t s = Some (s', t', sp) → thread_wf t = true → thread_wf t' = true ∧ sp = [].
Proof.
  intros Hs Ht. destruct t as [spec expr cell pc|k extras [| |spec cell pc]| | | | | |]; try done; cbn [thread_step] in Hs.
  - destruct (loop_step _ _ _ _ _ _ _) as [s1 t1] eqn:Hl. injection Hs as <- <- <-. split; [|done].
    destruct pc; cbn in Hl; repeat case_match; by simplify_eq.
  - rewrite trigger_step_run in Hs. destruct (run_step _ _ _ _ _ _ _ _) as [s1 []]; by injection Hs as <- <- <-.
Qed.

Lemma task_thread_insert ts i x sp :
  task_thread <$> (<[i := x]> ts ++ (TThread <$> sp)) = <[i := task_thread x]> (task_thread <$> ts) ++ sp.
Proof.
  rewrite fmap_app, list_fmap_insert, <- list_fmap_compose. f_equal. unfold compose. cbn. by rewrite list_fmap_id.
Qed.

Lemma tasks_wf_insert ts i x sp :
  tasks_wf ts → task_wf x = true → Forall (λ u, thread_wf u = true) sp → tasks_wf (<[i := x]> ts ++ (TThread <$> sp)).
Proof. intros Hts Hx Hsp. apply Forall_app. split; [by apply Forall_insert|]. by apply Forall_fmap. Qed.

(** One step of the process: the scheduler in it makes a sequence of steps. *)
Lemma server_step_reaches (sv sv' : Server R) :
  sstep sv sv' → tasks_wf (sv_tasks sv) →
  reaches b (server_sys sv) (server_sys sv') ∧ tasks_wf (sv_tasks sv').
Proof.
  intros Hstep Hwf. destruct Hstep as [s g ts req|s g ts ph i t inp s' t' sp _ Hi Ht|s g ts ph i req pc m s' g' pc' sp _ Hi Hr
    |s g ts ph i req pc _ Hi Hd|s g ts first _|s g ts _]; unfold server_sys in *; cbn [sv_shared sv_tasks] in *; try done.
  - split; [|apply Forall_app; split; [done|by constructor]]. rewrite fmap_app. cbn. by rewrite same_done, app_nil_r.
  - pose proof (Forall_lookup_1 _ _ _ _ Hwf Hi) as Hx. destruct (thread_step_wf _ _ _ _ _ _ Ht Hx) as [Hx' ->].
    split; [|by apply tasks_wf_insert]. rewrite task_thread_insert.
    eapply reaches_section; [by rewrite list_lookup_fmap, Hi|exact Ht|done].
  - pose proof (Forall_lookup_1 _ _ _ _ Hwf Hi) as Hx.
    destruct (request_section _ _ _ _ _ _ _ _ _ _ _ _ _ Hr Hx) as (Hk & Hpc & Hsp). split; [|by apply tasks_wf_insert].
    rewrite task_thread_insert. assert ((task_thread <$> ts) !! i = Some (pc_thread pc)) as Hti by by rewrite list_lookup_fmap, Hi.
    destruct Hk as [-> -> Hdone [Hpc'|Hpc']|inp t' sp0 _ Ht Hl]; cbn [task_thread].
    + rewrite Hpc', app_nil_r, list_insert_id; [done|by rewrite Hti, Hdone].
    + rewrite app_nil_r. apply reaches_call; [by rewrite Hti, Hdone|done].
    + by eapply reaches_section.
  - rewrite list_fmap_insert, list_insert_id; [|rewrite list_lookup_fmap, Hi; by destruct pc].
    split; [done|]. by apply Forall_insert.
Qed.

Lemma server_steps_reaches (sv sv' : Server R) :
  rtc sstep sv sv' → tasks_wf (sv_tasks sv) → reaches b (server_sys sv) (server_sys sv') ∧ tasks_wf (sv_tasks sv').
Proof.
  induction 1 as [sv|sv sv1 sv2 Hs _ IH]; [done|]. intros Hwf.
  destruct (server_step_reaches _ _ Hs Hwf) as [Hr Hwf1]. destruct (IH Hwf1) as [Hr' Hwf2]. split; [by etrans|done].
Qed.

(** *** From a booted state *)
Definition app_wf (a : App R) : Prop := Forall (λ t, thread_wf t = true) (sys a).2.

Lemma serving_wf (a : App R) : app_wf a → tasks_wf (sv_tasks (serving a)).
Proof. intros Ha. by apply Forall_fmap. Qed.
Lemma serving_sys (a : App R) : server_sys (serving a) = sys a.
Proof.
  unfold server_sys, serving. cbn. rewrite <- list_fmap_compose. unfold compose. cbn. rewrite list_fmap_id. by destruct (sys a).
Qed.
Lemma server_reaches (a : App R) sv :
  app_wf a → server_reachable st b vars root signals a sv → reaches b (sys a) (server_sys sv) ∧ tasks_wf (sv_tasks sv).
Proof.
  intros Ha Hr. destruct (server_steps_reaches _ _ Hr (serving_wf a Ha)) as [Hy Hwf]. by rewrite serving_sys in Hy.
Qed.
End simulation.
