(* ===== verification/ServerCauses.v ===== *)
(** * What a serving process runs, and why (src/router.rs, src/scheduler.rs)

    Every job in the process passed the load, and every run is the fire of a loop or was
    asked for by a request that passed the gate. *)
From S2P Require Import Prelude RStr Errors Security Dsl History Config EnvSafety Libs Loader Dispatch DispatchSteps Scheduler SchedulerSteps SchedulerMethods JobTypes Middleware Router Signal Server ServerSteps.

Section causes.
Context `{Libs} `{Axum} {R : Type} `{HistoryRecorder R}.
Context (st : AppState) (b : ExecutorBundle) (vars : Env) (root : PathBuf) (signals : Signals).
Implicit Types (s : Shared R) (g : ReloadGate) (ts : list Task).
Local Abbreviation sstep := (server_step st b vars root signals).

Definition authorised (req : HttpRequest) : Prop := rq_method req = "POST" ∧ admin_gate st req = Ok tt.
(** [req] asks for a run of [k] with the overrides [extras]. *)
Definition asks_to_run (req : HttpRequest) (k : JobKey) (extras : list (string * string)) : Prop :=
  ∃ r rest, find_route st (rq_path req) = Some (r, group k :: name k :: rest) ∧ endpoint r = ExecuteJob ∧
    bounded_query (max_query_params (security (cfg st))) (rq_query req) = Ok extras ∧
    refused_override st extras = None.

Definition pc_caused (req : HttpRequest) (pc : ReqPc) : Prop :=
  match pc with
  | QGate _ | QLoad | QReload _ _ => authorised req
  | QCall (Trigger k extras _) => authorised req ∧ asks_to_run req k extras
  | QCall _ => authorised req
  | _ => True
  end.
Definition task_caused ts (x : Task) : Prop :=
  match x with
  | TRequest req pc => pc_caused req pc
  | TThread (Trigger k extras _) =>
      ∃ req pc, TRequest req pc ∈ ts ∧ authorised req ∧ asks_to_run req k extras
  | TThread _ => True
  end.
Definition caused ts : Prop := ∀ x, x ∈ ts → task_caused ts x.

(** *** Routing *)
Lemma route_authorised req pc :
  route st req = pc → finished pc = false → (∀ f, pc ≠ QJobs f) → (∀ f, pc ≠ QRunning f None) → authorised req.
Proof.
  unfold route. destruct (find_route st (rq_path req)) as [[r ps]|] eqn:Hf; [|by intros <-].
  pose proof (find_route_in _ _ _ _ Hf) as [Hin _]. pose proof (routes_gated (cfg st) r Hin) as Hgate.
  destruct (if gated r then admin_gate st req else Ok tt) as [[]|err] eqn:Hg; [|by intros <-].
  destruct (method_allowed r (rq_method req)) eqn:Hm; cbn [negb]; [|by intros <-].
  intros <- Hfin Hj Hr. destruct (changes_state (endpoint r)) eqn:Hc.
  - destruct (Hgate eq_refl) as [Hgt Hp]. rewrite Hgt in Hg. unfold method_allowed in Hm. rewrite Hp in Hm.
    by apply String.eqb_eq in Hm.
  - exfalso. destruct (endpoint r), ps; try done; cbn in *; try by eapply Hj. all: by eapply Hr.
Qed.

Lemma route_trigger req k extras tpc :
  route st req = QCall (Trigger k extras tpc) → asks_to_run req k extras.
Proof.
  unfold route. destruct (find_route st (rq_path req)) as [[r ps]|] eqn:Hf; [|done].
  destruct (if gated r then _ else _); [|done]. destruct (negb _); [done|].
  destruct (endpoint r) eqn:He, ps as [|p [|p2 ps]]; try done. cbn [start_endpoint].
  destruct (bounded_query _ _) as [params|] eqn:Hb; [|done].
  destruct (refused_override _ _) as [[]|] eqn:Ho; [done|]. intros [= <- <- _]. by exists r, ps.
Qed.

Lemma route_caused req : pc_caused req (route st req).
Proof.
  pose proof (route_authorised req _ eq_refl) as Ha.
  destruct (route_cases st req) as [[? Hr]|[[? Hr]|[[? Hr]|[[? Hr]|[(k & ps & Hr)|[? Hr]]]]]]; rewrite Hr in *; cbn; try done.
  - by apply Ha.
  - split; [by apply Ha|]. by eapply route_trigger.
  - by apply Ha.
Qed.

(** *** Steps *)
Lemma after_call_caused req s t t' inp s' sp :
  thread_step b inp t s = Some (s', t', sp) → in_call t = true → pc_caused req (QCall t) →
  let (pc, sp') := after_call s t t' in
  pc_caused req pc ∧ ∀ u, u ∈ sp' → ∃ k extras tpc, u = Trigger k extras tpc ∧ authorised req ∧ asks_to_run req k extras.
Proof.
  intros Hs Hc Hca. destruct t as [|k extras [|spec cell|spec cell [| | |]]|k [|]| | | | |]; try done; cbn in Hs, Hca.
  - destruct (lookup_job k s); injection Hs as <- <- <-; cbn; (split; [done|]); by intros u ?%not_elem_of_nil.
  - destruct (begin_running _ _ _ _); injection Hs as <- <- <-; cbn; (split; [done|]); by intros u ?%not_elem_of_nil.
  - destruct (running s !! k); injection Hs as <- <- <-; cbn; (split; [done|]).
    + intros u ->%list_elem_of_singleton. do 3 eexists. split; [done|]. exact Hca.
    + by intros u ?%not_elem_of_nil.
  - injection Hs as <- <- <-. cbn. split; [done|]. by intros u ?%not_elem_of_nil.
  - destruct (jobs s !! k); injection Hs as <- <- <-; cbn; (split; [done|]); by intros u ?%not_elem_of_nil.
Qed.

Lemma reload_spawns inp t s s' t' sp :
  thread_step b inp t s = Some (s', t', sp) → in_reload t = true → ∀ u, u ∈ sp → ∃ sp expr cell, u = Loop sp expr cell LStart.
Proof.
  intros Hs Hr u Hu. destruct t as [| | |todo pc|l|l| |]; try done; cbn in Hs.
  2-3: injection Hs as <- <- <-; by apply not_elem_of_nil in Hu.
  destruct todo as [|spec todo], pc; cbn in Hs; injection Hs as <- <- <-; try by apply not_elem_of_nil in Hu.
  destruct (trigger spec); [|by apply not_elem_of_nil in Hu]. apply list_elem_of_singleton in Hu as ->. eauto.
Qed.

Lemma request_step_caused m req pc s g s' g' pc' sp :
  request_step st b vars root m req pc s g = Some (s', g', pc', sp) → pc_wf pc = true → pc_caused req pc →
  pc_caused req pc' ∧
  ∀ u, u ∈ sp → (∃ k extras tpc, u = Trigger k extras tpc ∧ authorised req ∧ asks_to_run req k extras) ∨
    ∃ sp expr cell, u = Loop sp expr cell LStart.
Proof.
  intros Hstep Hwf Hc. destruct pc as [|group| |t|n t|f|f a|rows a| | |]; cbn [request_step] in Hstep; try done.
  - injection Hstep as <- <- <- <-. split; [apply route_caused|by intros u ?%not_elem_of_nil].
  - destruct (gate_admit _ _ _ _) as [g2 r]. injection Hstep as <- <- <- <-. split; [by destruct r|by intros u ?%not_elem_of_nil].
  - injection Hstep as <- <- <- <-. split; [by destruct (load_dsl _ _)|by intros u ?%not_elem_of_nil].
  - destruct (thread_step b _ t s) as [[[s1 t1] sp1]|] eqn:Ht; cbn [mbind option_bind] in Hstep; [|done].
    pose proof (after_call_caused req _ _ _ _ _ _ Ht Hwf Hc) as Ha. pose proof (call_section b _ _ _ _ _ _ Ht Hwf) as Hs.
    destruct (after_call s t t1) as [pc1 sp2]. destruct Hs as [-> _]. injection Hstep as <- <- <- <-.
    destruct Ha as [Ha Hsp]. split; [done|]. intros u Hu. left. by apply Hsp.
  - destruct (thread_step b _ t s) as [[[s1 t1] sp1]|] eqn:Ht; cbn [mbind option_bind] in Hstep; [|done].
    injection Hstep as <- <- <- <-. split; [by destruct t1|]. intros u Hu. right. by eapply reload_spawns.
  - injection Hstep as <- <- <- <-. split; [done|by intros u ?%not_elem_of_nil].
  - injection Hstep as <- <- <- <-. split; [done|by intros u ?%not_elem_of_nil].
  - injection Hstep as <- <- <- <-. split; [done|by intros u ?%not_elem_of_nil].
Qed.

(** Requests stay, at whatever point. *)
Definition keeps_requests ts ts' : Prop :=
  ∀ req pc, TRequest req pc ∈ ts → ∃ pc', TRequest req pc' ∈ ts'.

Lemma caused_keeps ts ts' x : keeps_requests ts ts' → task_caused ts x → task_caused ts' x.
Proof.
  intros Hk. destruct x as [t|]; [|done]. destruct t as [|k extras tpc| | | | | |]; try done. cbn.
  intros (req & pc & Hin & Ha). destruct (Hk _ _ Hin) as [pc' ?]. by exists req, pc'.
Qed.
Lemma insert_keeps ts i x y l :
  ts !! i = Some x → (∀ req pc, x = TRequest req pc → ∃ pc', y = TRequest req pc') → keeps_requests ts (<[i := y]> ts ++ l).
Proof.
  intros Hi Hxy req pc Hin. apply list_elem_of_lookup_1 in Hin as [j Hj]. destruct (decide (i = j)) as [->|Hne].
  - rewrite Hi in Hj. injection Hj as ->. destruct (Hxy req pc eq_refl) as [pc' ->]. exists pc'.
    apply elem_of_app. left. eapply list_elem_of_lookup_2, list_lookup_insert_eq, lookup_lt_Some, Hi.
  - exists pc. apply elem_of_app. left. apply (list_elem_of_lookup_2 _ j). by rewrite list_lookup_insert_ne.
Qed.
(** Replacing a task and adding others. *)
Lemma caused_insert ts i x y l :
  caused ts → ts !! i = Some x → (∀ req pc, x = TRequest req pc → ∃ pc', y = TRequest req pc') →
  task_caused ts y → (∀ z, z ∈ l → task_caused ts z) → caused (<[i := y]> ts ++ l).
Proof.
  intros Hc Hi Hxy Hy Hl z Hz. apply (caused_keeps ts); [by eapply insert_keeps|].
  apply elem_of_app in Hz as [[->|Hz]%elem_of_insert|Hz]; [done|by apply Hc|by apply Hl].
Qed.

Lemma thread_step_caused inp t s s' t' sp ts :
  thread_step b inp t s = Some (s', t', sp) → thread_wf t = true →
  task_caused ts (TThread t) → task_caused ts (TThread t').
Proof.
  intros Hs Ht Hc. destruct t as [spec expr cell pc|k extras [| |spec cell pc]| | | | | |]; try done; cbn [thread_step] in Hs.
  - destruct (loop_step _ _ _ _ _ _ _) as [s1 t1] eqn:Hl. injection Hs as <- <- <-.
    destruct pc; cbn in Hl; repeat case_match; by simplify_eq.
  - rewrite trigger_step_run in Hs. destruct (run_step _ _ _ _ _ _ _ _) as [s1 []]; by injection Hs as <- <- <-.
Qed.
End causes.

Section invariant.
Context `{Libs} `{Axum} {R : Type} `{HistoryRecorder R}.
Context (st : AppState) (b : ExecutorBundle) (vars : Env) (root : PathBuf) (signals : Signals) (P : JobSpec → Prop).
Implicit Types (s : Shared R) (g : ReloadGate) (ts : list Task).
(** What a load lets through. *)
Context (load_ok : ∀ m jobs, load_dsl st (req_env vars root m) = Ok jobs → Forall P (spec <$> jobs)).

Record SInv (sv : Server R) : Prop := mkSInv
  { si_wf : tasks_wf (sv_tasks sv);
    si_typed : typed P (server_sys sv);
    si_caused : caused st (sv_tasks sv) }.

Lemma after_call_typed s t t' :
  thread_typed P t' → let (pc, sp) := after_call s t t' in
  (thread_typed P (pc_thread pc) ∧ Forall (thread_typed P) sp).
Proof.
  intros Ht. destruct t' as [|k extras [| |spec cell [| | |]]| | | | | |]; cbn in *; try (split; [exact Ht|done]).
  - split; [done|]. by constructor.
  - destruct t as [|? ? []|? []| | | | |]; by split.
Qed.

Lemma request_step_typed m req pc s g s' g' pc' sp :
  request_step st b vars root m req pc s g = Some (s', g', pc', sp) →
  thread_typed P (pc_thread pc) → jobs_typed P s →
  thread_typed P (pc_thread pc') ∧ jobs_typed P s' ∧ Forall (thread_typed P) sp.
Proof.
  intros Hstep Ht Hs. destruct pc as [|group| |t|n t|f|f a|rows a| | |]; cbn [request_step] in Hstep; try done.
  - injection Hstep as <- <- <- <-. split_and!; [|done..].
    destruct (route_cases st req) as [[? ->]|[[? ->]|[[? ->]|[[? ->]|[(k & ps & ->)|[? ->]]]]]]; done.
  - destruct (gate_admit _ _ _ _) as [g2 r]. injection Hstep as <- <- <- <-. by destruct r.
  - pose proof (load_ok m) as Hl. destruct (load_dsl _ _) as [js|]; injection Hstep as <- <- <- <-; [|done].
    split_and!; [|done..]. by apply Hl.
  - destruct (thread_step b _ t s) as [[[s1 t1] sp1]|] eqn:Hst; cbn [mbind option_bind] in Hstep; [|done].
    destruct (thread_step_typed P b _ _ _ _ _ _ Hst Ht Hs) as (Ht1 & Hs1 & Hsp1).
    pose proof (after_call_typed s t t1 Ht1) as Ha. destruct (after_call s t t1) as [pc1 sp2].
    injection Hstep as <- <- <- <-. destruct Ha. split_and!; [done..|]. by apply Forall_app.
  - destruct (thread_step b _ t s) as [[[s1 t1] sp1]|] eqn:Hst; cbn [mbind option_bind] in Hstep; [|done].
    destruct (thread_step_typed P b _ _ _ _ _ _ Hst Ht Hs) as (Ht1 & Hs1 & Hsp1).
    injection Hstep as <- <- <- <-. split_and!; [by destruct t1|done..].
  - by injection Hstep as <- <- <- <-.
  - by injection Hstep as <- <- <- <-.
  - by injection Hstep as <- <- <- <-.
Qed.

Lemma typed_insert s s' ts i x y sp :
  typed P (s, task_thread <$> ts) → ts !! i = Some x → jobs_typed P s' → thread_typed P (task_thread y) →
  Forall (thread_typed P) sp → typed P (s', task_thread <$> (<[i := y]> ts ++ (TThread <$> sp))).
Proof.
  intros [Hj Ht] Hi Hs' Hy Hsp. split; [done|]. rewrite task_thread_insert. cbn [snd] in *.
  intros u [[->|Hu]%elem_of_insert|Hu]%elem_of_app; [done|by apply Ht|]. rewrite Forall_forall in Hsp. by apply Hsp.
Qed.

Lemma typed_at s ts i x : typed P (s, task_thread <$> ts) → ts !! i = Some x → thread_typed P (task_thread x).
Proof. intros Hty Hi. apply (typed_tasks _ _ Hty), list_elem_of_fmap_2. by eapply list_elem_of_lookup_2. Qed.

Lemma typed_step (sv sv' : Server R) :
  server_step st b vars root signals sv sv' → typed P (server_sys sv) → typed P (server_sys sv').
Proof.
  intros Hstep Hty. destruct Hstep as [s g ts req|s g ts ph i t inp s' t' sp _ Hi Ht|s g ts ph i req pc m s' g' pc' sp _ Hi Hr
    |s g ts ph i req pc _ Hi Hd|s g ts first _|s g ts _]; unfold server_sys in *; cbn [sv_shared sv_tasks] in *; try done.
  - apply (typed_same P (s, task_thread <$> ts)); [|done]. rewrite fmap_app. cbn. by rewrite same_done, app_nil_r.
  - pose proof (typed_at _ _ _ _ Hty Hi) as Htt.
    destruct (thread_step_typed P b _ _ _ _ _ _ Ht Htt (typed_jobs _ _ Hty)) as (? & ? & ?). by eapply typed_insert.
  - pose proof (typed_at _ _ _ _ Hty Hi) as Htt.
    destruct (request_step_typed _ _ _ _ _ _ _ _ _ Hr Htt (typed_jobs _ _ Hty)) as (? & ? & ?). by eapply typed_insert.
  - rewrite <- (app_nil_r (<[i := _]> ts)). by eapply (typed_insert s s ts i _ _ [] Hty Hi (typed_jobs _ _ Hty)).
Qed.

Lemma caused_step (sv sv' : Server R) :
  server_step st b vars root signals sv sv' → tasks_wf (sv_tasks sv) → caused st (sv_tasks sv) → caused st (sv_tasks sv').
Proof.
  intros Hstep Hwf Hca. destruct Hstep as [s g ts req|s g ts ph i t inp s' t' sp _ Hi Ht|s g ts ph i req pc m s' g' pc' sp _ Hi Hr
    |s g ts ph i req pc _ Hi Hd|s g ts first _|s g ts _]; cbn [sv_tasks] in *; try done.
  - intros x [Hx| ->%list_elem_of_singleton]%elem_of_app; [|done]. eapply caused_keeps; [|by apply Hca].
    intros q pc Hin. exists pc. apply elem_of_app. by left.
  - pose proof (Forall_lookup_1 _ _ _ _ Hwf Hi) as Hx. destruct (thread_step_wf _ _ _ _ _ _ _ Ht Hx) as [_ ->].
    eapply caused_insert; [done|exact Hi|done| |by intros z ?%not_elem_of_nil].
    eapply thread_step_caused; [exact Ht|done|]. apply (Hca (TThread t)). by eapply list_elem_of_lookup_2.
  - pose proof (Forall_lookup_1 _ _ _ _ Hwf Hi) as Hx. pose proof (list_elem_of_lookup_2 _ _ _ Hi) as Hin.
    destruct (request_step_caused _ _ _ _ _ _ _ _ _ _ _ _ _ Hr Hx (Hca _ Hin)) as [Hpc Hsp].
    eapply caused_insert; [done|exact Hi|intros q pc0 [= <- _]; eauto|done|].
    intros z (u & -> & Hu)%list_elem_of_fmap. destruct (Hsp u Hu) as [(k & ex & tpc & -> & ? & ?)|(? & ? & ? & ->)]; [|done].
    by exists req, pc.
  - rewrite <- (app_nil_r (<[i := _]> ts)).
    eapply caused_insert; [done|exact Hi|intros q pc0 [= <- _]; eauto|done|by intros z ?%not_elem_of_nil].
Qed.

Lemma sinv_step (sv sv' : Server R) : server_step st b vars root signals sv sv' → SInv sv → SInv sv'.
Proof.
  intros Hstep [Hwf Hty Hca]. destruct (server_step_reaches _ _ _ _ _ _ _ Hstep Hwf) as [_ Hwf'].
  split; [done|by eapply typed_step|by eapply caused_step].
Qed.

(** A process starts with loops only. *)
Definition starts (a : App R) : Prop :=
  typed P (sys a) ∧ ∀ t, t ∈ (sys a).2 → ∃ sp expr cell, t = Loop sp expr cell LStart.

Lemma sinv_starts a : starts a → SInv (serving a).
Proof.
  intros [Hty Hl]. split.
  - apply serving_wf, Forall_forall. intros t Ht. by destruct (Hl t Ht) as (? & ? & ? & ->).
  - by rewrite serving_sys.
  - intros x (t & -> & Ht)%list_elem_of_fmap. by destruct (Hl t Ht) as (? & ? & ? & ->).
Qed.

Lemma sinv_reachable a sv : starts a → server_reachable st b vars root signals a sv → SInv sv.
Proof.
  intros Ha Hr. pose proof (sinv_starts a Ha) as Hi. unfold server_reachable in Hr.
  induction Hr as [sv|sv sv1 sv2 Hs _ IH]; [done|]. apply IH. by eapply sinv_step.
Qed.
End invariant.
