(* ===== verification/ServerServe.v ===== *)
(** * The handlers as interleavings (src/router.rs)

    [Router.serve] answers a request in one go. Here it is an interleaving of the sections
    of that request: its response, what it does to the state and the tasks it starts are
    those of the steps of the process. *)
From S2P Require Import Prelude RStr Errors Security Dsl History Config EnvSafety Libs Loader Dispatch DispatchSteps Scheduler SchedulerSteps SchedulerMethods JobTypes Middleware Router Signal Server ServerSteps.

Section own.
Context `{Libs} `{Axum} {R : Type} `{HistoryRecorder R}.
Context (st : AppState) (b : ExecutorBundle) (vars : Env) (root : PathBuf) (signals : Signals).
Implicit Types (s : Shared R) (g : ReloadGate) (ts : list Task).

(** The state, the throttle, the point of a request, and what it has spawned. *)
Definition ReqConf : Type := Shared R * ReloadGate * ReqPc * list Thread.
(** A section of one request, at one moment. *)
Definition own_request (m : Moment) (req : HttpRequest) (c c' : ReqConf) : Prop :=
  let '(s, g, pc, l) := c in
  ∃ s' g' pc' sp, request_step st b vars root m req pc s g = Some (s', g', pc', sp) ∧ c' = (s', g', pc', l ++ sp).

(** The process with that request among its tasks. *)
Definition with_request ts tl (req : HttpRequest) ph (c : ReqConf) : Server R :=
  let '(s, g, pc, l) := c in mkServer s g (ts ++ TRequest req pc :: tl ++ (TThread <$> l)) ph.

Lemma own_request_at m req c c' ts tl ph :
  ph ≠ Exited → rtc (own_request m req) c c' →
  rtc (server_step st b vars root signals) (with_request ts tl req ph c) (with_request ts tl req ph c').
Proof.
  intros Hph Hr. induction Hr as [c|[[[s g] pc] l] c1 c2 Hs _ IH]; [done|].
  destruct Hs as (s' & g' & pc' & sp & Hs & ->). eapply rtc_l; [|exact IH]. cbn [with_request].
  pose proof (sv_request st b vars root signals s g (ts ++ TRequest req pc :: tl ++ (TThread <$> l)) ph (length ts) req pc m s' g' pc' sp Hph) as Hstep.
  rewrite insert_middle, <- app_assoc, <- app_comm_cons, <- app_assoc in Hstep. rewrite fmap_app.
  apply Hstep; [|done]. by rewrite lookup_app_r, Nat.sub_diag by done.
Qed.

Lemma own_intro m req s g pc l s' g' pc' sp l' :
  request_step st b vars root m req pc s g = Some (s', g', pc', sp) → l' = l ++ sp →
  own_request m req (s, g, pc, l) (s', g', pc', l').
Proof. intros Hs ->. by exists s', g', pc', sp. Qed.

(** The point of a request in [reload_from]. *)
Definition reload_pc (n : nat) (t : Thread) : ReqPc :=
  match t with Done => reply (Ok (JsonBody (reloaded_json n))) | _ => QReload n t end.

Lemma own_reload m req n g c c' :
  rtc (own_step b) c c' →
  rtc (own_request m req) (c.1.1, g, reload_pc n c.1.2, c.2) (c'.1.1, g, reload_pc n c'.1.2, c'.2).
Proof.
  induction 1 as [c|[[s t] l] [[s1 t1] l1] c2 (sp & Ht & Hl) _ IH]; [done|]. cbn in *. subst l1. eapply rtc_l; [|exact IH].
  eapply (own_intro _ _ _ _ _ _ _ _ _ sp); [|done]. pose proof (Ht (request_input m)) as Hs.
  assert (reload_pc n t = QReload n t) as -> by by destruct t. cbn [request_step]. rewrite Hs. cbn. by destruct t1.
Qed.

Lemma describe_running_entries_snapshot s f :
  describe_running_entries s None (List.filter (λ e, selected f e.1) (map_to_list (running s))) = describe_running s f.
Proof.
  unfold describe_running, describe_running_entries.
  assert (∀ l : list (JobKey * RunningInstance), List.filter (λ e, selected None e.1) l = l) as ->; [|done].
  intros l. induction l as [|e l IH]; [done|]. exact (f_equal (cons e) IH).
Qed.

(** The two sections of [describe_running]. *)
Lemma own_running m req s g f stopped l :
  rtc (own_request m req) (s, g, QRunning f stopped, l)
    (s, g, reply (Ok (JsonBody (running_json (rows_json (describe_running s f)) stopped))), l).
Proof.
  eapply rtc_l; [by eapply (own_intro _ _ _ _ _ _ _ _ _ []); [|by rewrite app_nil_r]|].
  eapply rtc_once, (own_intro _ _ _ _ _ _ _ _ _ []); [|by rewrite app_nil_r]. cbn [request_step].
  by rewrite describe_running_entries_snapshot.
Qed.

Lemma own_execute m req s g k extras y r :
  trigger_now k extras (wall m) (s, []) = Some (y, r) →
  rtc (own_request m req) (s, g, QCall (Trigger k extras TLookup), [])
    (y.1, g, reply (match r with
                    | Err err => Err err
                    | Ok _ => Ok (JsonBody (rows_json (describe_running y.1 (Some (group k)))))
                    end), y.2).
Proof.
  unfold trigger_now, lookup_job. destruct (jobs s !! k) as [entry|] eqn:Hj; cbn [ok_or].
  2: { intros [= <- <-]. eapply rtc_once, (own_intro _ _ _ _ _ _ _ _ _ []); [|done]. cbn. unfold lookup_job. by rewrite Hj. }
  destruct (begin_running _ _ _ _) as [s'|err] eqn:Hb.
  2: { intros [= <- <-]. eapply rtc_l; [eapply (own_intro _ _ _ _ _ _ _ _ _ [])|]; [cbn; unfold lookup_job; by rewrite Hj|done|].
       eapply rtc_once, (own_intro _ _ _ _ _ _ _ _ _ []); [|done]. cbn. rewrite Hb.
       unfold begin_running in Hb. destruct (running s !! k); [|done]. by injection Hb as <-. }
  destruct (running s' !! k) as [inst|] eqn:Hr; cbn [mbind option_bind]; [|done]. intros [= <- <-]. cbn [fst snd].
  eapply rtc_l; [eapply (own_intro _ _ _ _ _ _ _ _ _ [])|]; [cbn; unfold lookup_job; by rewrite Hj|done|].
  eapply rtc_l; [eapply (own_intro _ _ _ _ _ _ _ _ _ [])|]; [cbn; by rewrite Hb|done|].
  eapply rtc_l; [eapply (own_intro _ _ _ _ _ _ _ _ _ [_])|]; [cbn; by rewrite Hr|done|]. apply own_running.
Qed.

Lemma own_stop m req s g k :
  rtc (own_request m req) (s, g, QCall (Stop k false), [])
    ((stop k s).1, g, reply (match (stop k s).2 with
                             | Err err => Err err
                             | Ok aborted => Ok (JsonBody (stopped_json aborted (rows_json (describe_running (stop k s).1 (Some (group k))))))
                             end), []).
Proof.
  unfold stop. destruct (jobs s !! k) as [j|] eqn:Hj.
  2: { eapply rtc_once, (own_intro _ _ _ _ _ _ _ _ _ []); [|done]. cbn. by rewrite Hj. }
  eapply rtc_l; [eapply (own_intro _ _ _ _ _ _ _ _ _ [])|]; [cbn; by rewrite Hj|done|].
  eapply rtc_l; [by eapply (own_intro _ _ _ _ _ _ _ _ _ [])|].
  etransitivity; [apply own_running|]. by destruct (running s !! k).
Qed.

Lemma own_load m req s g a' r gr :
  reload_jobs st (req_env vars root m) gr (mkApp (s, []) g) = (a', r) →
  rtc (own_request m req) (s, g, QGate gr, []) ((sys a').1, reload_gate a', reply r, (sys a').2).
Proof.
  unfold reload_jobs. cbn [reload_gate mono_ms req_env]. destruct (gate_admit _ _ _ _) as [g' adm] eqn:Hg.
  destruct adm as [[]|wait].
  2: { intros [= <- <-]. eapply rtc_once, (own_intro _ _ _ _ _ _ _ _ _ []); [|done]. cbn [request_step]. by rewrite Hg. }
  destruct (load_dsl _ _) as [js|err] eqn:Hl; intros Heq.
  2: { injection Heq as <- <-. eapply rtc_l; [eapply (own_intro _ _ _ _ _ _ _ g' QLoad [])|]; [cbn [request_step]; by rewrite Hg|done|].
       eapply rtc_once, (own_intro _ _ _ _ _ _ _ _ _ []); [|done]. cbn [request_step]. by rewrite Hl. }
  destruct (reload_own b js s []) as (s' & fresh & Hall & Hr). cbn [sys] in Heq.
  assert (reload_from js (s, []) = ((s', fresh), Ok (length js))) as Hrl.
  { specialize (Hall []). unfold reload_from in *. cbn [fst] in Hall. by rewrite Hall. }
  rewrite Hrl in Heq. injection Heq as <- <-.
  eapply rtc_l; [eapply (own_intro _ _ _ _ _ _ _ g' QLoad [])|]; [cbn [request_step]; by rewrite Hg|done|].
  eapply rtc_l; [eapply (own_intro _ _ _ _ _ _ _ g' (QReload (length js) (ReloadNotify (spec <$> js))) [])|];
    [cbn [request_step]; by rewrite Hl|done|].
  exact (own_reload m req (length js) g' _ _ Hr).
Qed.
End own.

Section serve.
Context `{Libs} `{Axum} {R : Type} `{HistoryRecorder R}.
Context (st : AppState) (b : ExecutorBundle) (vars : Env) (root : PathBuf).
Implicit Types (s : Shared R) (g : ReloadGate) (ts : list Task).

(** A request that is routed to [pc]. *)
Lemma own_routed m req s g pc c :
  route st req = pc → rtc (own_request st b vars root m req) (s, g, pc, []) c →
  rtc (own_request st b vars root m req) (s, g, QArrived, []) c.
Proof. intros Hr Hc. eapply rtc_l; [|exact Hc]. by eapply (own_intro _ _ _ _ _ _ _ _ _ _ _ _ _ []); [cbn; rewrite Hr|]. Qed.

Lemma serve_own m req s g a' resp :
  serve st (req_env vars root m) req (mkApp (s, []) g) = Some (a', resp) →
  rtc (own_request st b vars root m req) (s, g, QArrived, []) ((sys a').1, reload_gate a', QReplied resp, (sys a').2).
Proof.
  intros Hs. eapply own_routed; [reflexivity|]. revert Hs. unfold serve, route.
  destruct (find_route st (rq_path req)) as [[r ps]|]; [|by intros [= <- <-]].
  destruct (if gated r then admin_gate st req else Ok tt) as [[]|err]; [|by intros [= <- <-]].
  destruct (negb (method_allowed r (rq_method req))); [by intros [= <- <-]|].
  destruct (run_endpoint st _ (endpoint r) ps req _) as [[a1 res]|] eqn:Hrun; cbn [mbind option_bind]; [|done]. intros [= <- <-].
  assert (∀ pc, own_request st b vars root m req (s, g, pc, []) (s, g, reply res, []) → a1 = mkApp (s, []) g →
    rtc (own_request st b vars root m req) (s, g, pc, []) ((sys a1).1, reload_gate a1, reply res, (sys a1).2)) as Hone.
  { intros pc Ho ->. by apply rtc_once. }
  destruct (endpoint r); cbn [run_endpoint start_endpoint] in *.
  1-3: by injection Hrun as <- <-.
  1: by injection Hrun as <- <-; apply Hone; [eapply (own_intro _ _ _ _ _ _ _ _ _ _ _ _ _ [])|].
  1: by destruct ps as [|gr ps]; [|injection Hrun as <- <-; apply Hone; [eapply (own_intro _ _ _ _ _ _ _ _ _ _ _ _ _ [])|]].
  1: injection Hrun as <- <-; exact (own_running st b vars root m req s g None None []).
  1: by destruct ps as [|gr ps]; [|injection Hrun as <- <-; exact (own_running st b vars root m req s g _ None [])].
  - destruct ps as [|gr [|j ps]]; [done..|]. destruct (bounded_query _ _) as [params|]; [|by injection Hrun as <- <-].
    unfold execute_job in Hrun. destruct (refused_override st params) as [[k v]|]; [by injection Hrun as <- <-|].
    destruct (trigger_now _ _ _ _) as [[y r']|] eqn:Ht; cbn [mbind option_bind] in Hrun; [|done]. cbn [sys reload_gate wall_ms req_env] in *.
    pose proof (own_execute st b vars root m req s g _ _ _ _ Ht) as Ho. destruct r'; by injection Hrun as <- <-.
  - destruct ps as [|gr [|j ps]]; [done..|]. pose proof (own_stop st b vars root m req s g (mkJobKey gr j)) as Ho.
    unfold stop_job, json, shared in Hrun. cbn [sys fst snd] in Hrun. destruct (stop _ s) as [s1 [aborted|err]]; by injection Hrun as <- <-.
  - destruct ps as [|gr ps]; [done|]. injection Hrun as Hrun. by eapply own_load.
Qed.
End serve.
