(* ===== verification/ServerLive.v ===== *)
(** * Requests end, and so does the process (src/router.rs, src/signal.rs, src/main.rs)

    No request takes sections for ever, and none is stuck: it ends in a reply whatever the
    other tasks do. A draining process can therefore always exit; it does so without the
    runs of its jobs. *)
From S2P Require Import Prelude RStr Errors Security Dsl History Config EnvSafety Libs Loader Dispatch DispatchSteps Scheduler SchedulerSteps SchedulerMethods JobTypes Middleware Router Signal Server ServerSteps ServerServe.
From Stdlib Require Import Wellfounded Relation_Operators.

(** ** A measure of what a request has to do *)
Definition call_rank (t : Thread) : nat :=
  match t with
  | Trigger _ _ TLookup => 5 | Trigger _ _ (TBegin _ _) => 4 | Trigger _ _ _ => 3
  | Stop _ false => 4 | Stop _ true => 3
  | ReloadNotify loaded => 3 * length loaded + 5
  | ReloadClear loaded => 3 * length loaded + 4
  | Registering todo RRemove => 3 * length todo + 3
  | Registering todo (RSpawn _) => 3 * length todo + 2
  | Registering todo (RInsert _) => 3 * length todo + 1
  | _ => 0
  end.
(** The stage of the handler, and the sections left in it. *)
Definition request_rank (pc : ReqPc) : nat * nat :=
  match pc with
  | QArrived => (4, 0) | QGate _ => (3, 0) | QLoad => (2, 0)
  | QCall t | QReload _ t => (1, call_rank t)
  | QRunning _ _ => (1, 2) | QRows _ _ | QJobs _ => (1, 1)
  | QReplied _ | QDropped | QPanicked => (0, 0)
  end.
Abbreviation rank_lt := (slexprod nat nat lt lt).

Definition rank_below (pc' pc : ReqPc) : Prop := rank_lt (request_rank pc') (request_rank pc).
Lemma rank_below_wf : well_founded rank_below.
Proof. apply (wf_inverse_image _ _ rank_lt), wf_slexprod; apply lt_wf. Qed.
Lemma rank_below_irrefl pc : ¬ rank_below pc pc.
Proof. intros Hpc. induction (rank_below_wf pc) as [pc _ IH]. exact (IH pc Hpc Hpc). Qed.

Section requests.
Context `{Libs} `{Axum} {R : Type} `{HistoryRecorder R}.
Context (st : AppState) (b : ExecutorBundle) (vars : Env) (root : PathBuf).
Implicit Types (s : Shared R) (g : ReloadGate) (ts : list Task).

(** Some section leads a request from [pc] to [pc'], in whatever state of the process. *)
Definition moves (pc' pc : ReqPc) : Prop :=
  pc_wf pc = true ∧ ∃ m req s g s' g' sp, request_step st b vars root m req pc s g = Some (s', g', pc', sp).

Lemma call_decreases inp t s s' t' sp :
  thread_step b inp t s = Some (s', t', sp) → in_call t = true →
  rank_lt (request_rank (after_call s t t').1) (request_rank (QCall t)).
Proof.
  intros Hs Hc. destruct t as [|k extras [|spec cell|spec cell [| | |]]|k [|]| | | | |]; try done; cbn in Hs.
  - destruct (lookup_job k s); injection Hs as <- <- <-; cbn; [apply right_slex|apply left_slex]; lia.
  - destruct (begin_running _ _ _ _); injection Hs as <- <- <-; cbn; [apply right_slex|apply left_slex]; lia.
  - destruct (running s !! k); injection Hs as <- <- <-; cbn; [apply right_slex|apply left_slex]; lia.
  - injection Hs as <- <- <-. cbn. apply right_slex. lia.
  - destruct (jobs s !! k); injection Hs as <- <- <-; cbn; [apply right_slex|apply left_slex]; lia.
Qed.

Lemma reload_decreases inp t s s' t' sp n :
  thread_step b inp t s = Some (s', t', sp) → in_reload t = true →
  rank_lt (request_rank (reload_pc n t')) (request_rank (QReload n t)).
Proof.
  intros Hs Hr. destruct t as [| | |todo pc|l|l| |]; try done; cbn in Hs.
  - destruct todo as [|spec todo], pc; cbn in Hs; injection Hs as <- <- <-; cbn; [apply left_slex; lia..| | |];
      apply right_slex; lia.
  - injection Hs as <- <- <-. cbn. apply right_slex. lia.
  - injection Hs as <- <- <-. cbn. apply right_slex. lia.
Qed.

Lemma moves_rank pc pc' : moves pc' pc → rank_below pc' pc.
Proof.
  intros (Hwf & m & req & s & g & s' & g' & sp & Hstep).
  destruct pc as [|group| |t|n t|f|f a|rows a| | |]; cbn [request_step] in Hstep; try done.
  - injection Hstep as _ _ <- _.
    destruct (route_cases st req) as [[? ->]|[[? ->]|[[? ->]|[[? ->]|[(k & ps & ->)|[? ->]]]]]]; apply left_slex; lia.
  - destruct (gate_admit _ _ _ _) as [g2 r]. injection Hstep as _ _ <- _. destruct r; apply left_slex; lia.
  - injection Hstep as _ _ <- _. destruct (load_dsl _ _); apply left_slex; lia.
  - destruct (thread_step b _ t s) as [[[s1 t1] sp1]|] eqn:Ht; cbn [mbind option_bind] in Hstep; [|done].
    pose proof (call_decreases _ _ _ _ _ _ Ht Hwf) as Hd. destruct (after_call s t t1) as [pc1 sp2]. by injection Hstep as _ _ <- _.
  - destruct (thread_step b _ t s) as [[[s1 t1] sp1]|] eqn:Ht; cbn [mbind option_bind] in Hstep; [|done].
    pose proof (reload_decreases _ _ _ _ _ _ n Ht Hwf) as Hd. by injection Hstep as _ _ <- _.
  - injection Hstep as _ _ <- _. apply left_slex. cbn. lia.
  - injection Hstep as _ _ <- _. apply right_slex. lia.
  - injection Hstep as _ _ <- _. apply left_slex. cbn. lia.
Qed.

Lemma moves_wf : well_founded moves.
Proof. apply (wf_incl _ _ rank_below); [intros pc' pc; apply moves_rank|apply rank_below_wf]. Qed.

(** A request that is not over has a next section in every state. *)
Lemma request_progress m req pc s g :
  pc_wf pc = true → finished pc = false → is_Some (request_step st b vars root m req pc s g).
Proof.
  intros Hwf Hf. destruct pc as [|group| |t|n t|f|f a|rows a| | |]; cbn [request_step]; try done; try (by eexists).
  - by destruct (gate_admit _ _ _ _).
  - assert (is_Some (thread_step b (request_input m) t s)) as [[[s1 t1] sp1] ->].
    { by destruct t as [| | k [|]| | | | |]; try done; eexists. }
    cbn. by destruct (after_call s t t1).
  - assert (is_Some (thread_step b (request_input m) t s)) as [[[s1 t1] sp1] ->]; [|by eexists].
    by destruct t; try done; eexists.
Qed.
End requests.

(** ** The end of the process *)
Section draining.
Context `{Libs} `{Axum} {R : Type} `{HistoryRecorder R}.
Context (st : AppState) (b : ExecutorBundle) (vars : Env) (root : PathBuf) (signals : Signals).
Implicit Types (s : Shared R) (g : ReloadGate) (ts : list Task).
Local Abbreviation sstep := (server_step st b vars root signals).

(** At any moment: what a load meets does not matter here. *)
Definition any_moment : Moment := mkMoment 0 0 None Joined.

(** The points of the requests, and what a section of one of them does to these. *)
Definition in_flight (x : Task) : option ReqPc := match x with TRequest _ pc => Some pc | TThread _ => None end.
Definition request_pcs (sv : Server R) : list ReqPc := omap in_flight (sv_tasks sv).
Definition one_advances (l' l : list ReqPc) : Prop :=
  ∃ l1 pc pc' l2, l = l1 ++ pc :: l2 ∧ rank_below pc' pc ∧ l' = l1 ++ pc' :: l2.

Lemma one_advances_wf : well_founded one_advances.
Proof.
  intros l. induction l as [|pc l IHl]; [constructor; by intros l' ([|? ?] & ? & ? & ? & ? & _)|].
  revert l IHl. induction (rank_below_wf pc) as [pc _ IHpc]. intros l Hl. induction Hl as [l Hl IHl]. constructor.
  intros l' ([|pc1 l1] & pc2 & pc' & l2 & Heq & Hlt & ->); cbn in *; injection Heq as -> ->.
  - apply IHpc; [done|]. by constructor.
  - apply IHl. by exists l1, pc2, pc', l2.
Qed.

Lemma request_pcs_insert ts i x0 x sp :
  ts !! i = Some x0 →
  ∃ l1 l2, omap in_flight ts = l1 ++ omap in_flight [x0] ++ l2 ∧
    omap in_flight (<[i := x]> ts ++ (TThread <$> sp)) = l1 ++ omap in_flight [x] ++ l2.
Proof.
  intros Hi. apply list_elem_of_split_length in Hi as (ts1 & ts2 & -> & ->).
  assert (omap in_flight (TThread <$> sp) = []) as Hsp by by induction sp.
  exists (omap in_flight ts1), (omap in_flight ts2).
  rewrite insert_middle, !omap_app, Hsp, app_nil_r. cbn [omap list_omap]. by split; destruct (in_flight _).
Qed.

(** After the signal, a step leaves the requests as they are or advances one of them. *)
Lemma draining_step (sv sv' : Server R) :
  sstep sv sv' → tasks_wf (sv_tasks sv) → sv_phase sv ≠ Accepting →
  sv_phase sv' ≠ Accepting ∧ (request_pcs sv' = request_pcs sv ∨ one_advances (request_pcs sv') (request_pcs sv)).
Proof.
  intros Hstep Hwf Hp. unfold request_pcs.
  destruct Hstep as [|s g ts ph i t inp s' t' sp _ Hi Ht|s g ts ph i req pc m s' g' pc' sp _ Hi Hr|s g ts ph i req pc _ Hi Hd|
    |s g ts _]; cbn [sv_tasks sv_phase] in *; try done.
  - split; [done|]. left. by destruct (request_pcs_insert ts i _ (TThread t') sp Hi) as (l1 & l2 & -> & ->).
  - split; [done|]. right. destruct (request_pcs_insert ts i _ (TRequest req pc') sp Hi) as (l1 & l2 & -> & ->).
    exists l1, pc, pc', l2. split_and!; [done| |done]. apply (moves_rank st b vars root). split.
    { unfold tasks_wf in Hwf. rewrite Forall_forall in Hwf. exact (Hwf _ (list_elem_of_lookup_2 _ _ _ Hi)). }
    by exists m, req, s, g, s', g', sp.
  - split; [done|]. right. destruct (request_pcs_insert ts i _ (TRequest req QDropped) [] Hi) as (l1 & l2 & Hl & Hl').
    cbn in Hl, Hl'. rewrite app_nil_r in Hl'. exists l1, pc, QDropped, l2. split_and!; [done| |done].
    destruct pc; try done; apply left_slex; cbn; lia.
  - split; [done|]. by left.
Qed.

(** [sv'] is what [sv] becomes by some steps and then a section of one of its requests. *)
Definition drained_to (sv' sv : Server R) : Prop :=
  ∃ mid, rtc sstep sv mid ∧ sstep mid sv' ∧ request_pcs sv' ≠ request_pcs mid.

Lemma drained_to_acc (sv : Server R) : tasks_wf (sv_tasks sv) → sv_phase sv ≠ Accepting → Acc drained_to sv.
Proof.
  remember (request_pcs sv) as l eqn:Hl. revert sv Hl. induction (one_advances_wf l) as [l _ IH]. intros sv -> Hwf Hp.
  constructor. intros sv' (mid & Hr & Hs & Hne). revert Hwf Hp IH. induction Hr as [sv|sv sv1 mid Hs1 Hr IHr]; intros Hwf Hp IH.
  - destruct (server_step_reaches st b vars root signals _ _ Hs Hwf) as [_ Hwf'].
    destruct (draining_step _ _ Hs Hwf Hp) as [Hp' [Heq|Ha]]; [done|]. by apply (IH _ Ha).
  - destruct (server_step_reaches st b vars root signals _ _ Hs1 Hwf) as [_ Hwf1].
    destruct (draining_step _ _ Hs1 Hwf Hp) as [Hp1 [Heq|Ha]]; [apply IHr; [done..|by rewrite Heq]|].
    apply (Acc_inv (IH _ Ha sv1 eq_refl Hwf1 Hp1)). by exists mid.
Qed.

(** While a request is not answered there is a section that advances one. *)
Lemma draining_progress (sv : Server R) :
  tasks_wf (sv_tasks sv) → sv_phase sv = Draining → forallb answered (sv_tasks sv) = false →
  ∃ sv', sstep sv sv' ∧ request_pcs sv' ≠ request_pcs sv ∧ sv_phase sv' = Draining.
Proof.
  destruct sv as [s g ts ph]. cbn. intros Hwf -> Ha. unfold request_pcs. cbn [sv_tasks].
  destruct (forallb_lookup_false _ _ Ha) as (i & x & Hi & Hx).
  unfold tasks_wf in Hwf. rewrite Forall_forall in Hwf. pose proof (Hwf _ (list_elem_of_lookup_2 _ _ _ Hi)) as Hpc.
  destruct x as [t|req pc]; [done|]. cbn [answered task_wf] in *.
  destruct (request_progress st b vars root any_moment req pc s g Hpc Hx) as [[[[s1 g1] pc1] sp] Hs].
  eexists. split_and!; [by eapply sv_request|cbn [sv_tasks]|done].
  destruct (request_pcs_insert ts i _ (TRequest req pc1) sp Hi) as (l1 & l2 & -> & ->). intros Heq. cbn in Heq.
  simplify_list_eq. apply (rank_below_irrefl pc), (moves_rank st b vars root). split; [done|].
  by exists any_moment, req, s, g, s1, g1, sp.
Qed.

Lemma drain_to_exit (sv : Server R) :
  tasks_wf (sv_tasks sv) → sv_phase sv = Draining →
  ∃ sv', rtc sstep sv sv' ∧ sv_phase sv' = Exited ∧ forallb answered (sv_tasks sv') = true.
Proof.
  intros Hwf Hp. assert (Acc drained_to sv) as Hacc by (apply drained_to_acc; congruence).
  revert Hwf Hp. induction Hacc as [sv _ IH]. intros Hwf Hp. destruct (forallb answered (sv_tasks sv)) eqn:Ha.
  - destruct sv as [s g ts ph]. cbn in *. subst ph. exists (mkServer s g ts Exited). by split; [apply rtc_once, sv_exit|].
  - destruct (draining_progress sv Hwf Hp Ha) as (sv1 & Hs & Hne & Hp1).
    destruct (server_step_reaches st b vars root signals _ _ Hs Hwf) as [_ Hwf1].
    destruct (IH sv1 ltac:(by exists sv) Hwf1 Hp1) as (sv' & Hr & ?). exists sv'. by split; [eapply rtc_l|].
Qed.

Lemma exited_is_final (sv sv' : Server R) : sv_phase sv = Exited → ¬ sstep sv sv'.
Proof. intros Hp Hs. destruct Hs; cbn in Hp; congruence. Qed.
End draining.

(** C22: a request never takes sections for ever: whatever the other tasks do to the state in
    between, no sequence of its sections is infinite; and it is never stuck: until it has its
    reply it has a next section in every state of the process. *)
Theorem requests_terminate `{Libs} `{Axum} {R} `{HistoryRecorder R} st b vars root :
  well_founded (moves (R := R) st b vars root) ∧
  (¬ ∃ pc : nat → ReqPc, ∀ n, moves (R := R) st b vars root (pc (S n)) (pc n)) ∧
  (pc_wf QArrived = true) ∧
  ∀ pc, pc_wf pc = true → finished pc = false → ∀ m req (s : Shared R) g, ∃ s' g' pc' sp,
    request_step st b vars root m req pc s g = Some (s', g', pc', sp) ∧ pc_wf pc' = true.
Proof.
  pose proof (moves_wf (R := R) st b vars root) as Hwf. split_and!; [done| |done|].
  - intros [f Hf]. assert (∀ pc n, pc = f n → False) as Hno.
    { intros pc. induction (Hwf pc) as [pc _ IH]. intros n ->. exact (IH _ (Hf n) (S n) eq_refl). }
    by apply (Hno (f 0) 0).
  - intros pc Hpc Hf m req s g. destruct (request_progress st b vars root m req pc s g Hpc Hf) as [[[[s' g'] pc'] sp] Hs].
    exists s', g', pc', sp. split; [done|]. by destruct (request_section _ _ _ _ _ _ _ _ _ _ _ _ _ Hs Hpc) as (_ & ? & _).
Qed.

#[local] Existing Instance Sample.libs.
#[local] Existing Instance SampleAxum.axum.
Lemma requests_terminate_witness :
  ∃ s' g' pc' sp, request_step (R := unit) sample_state sample_bundle ∅ ["jobs"] any_moment (bearer "/execute/b/x" "master-token") QArrived
    sample_shared ∅ = Some (s', g', pc', sp) ∧ pc_wf pc' = true.
Proof.
  exact (proj2 (proj2 (proj2 (requests_terminate (R := unit) sample_state sample_bundle ∅ ["jobs"]))) QArrived eq_refl eq_refl
    any_moment (bearer "/execute/b/x" "master-token") sample_shared ∅).
Defined.

(** C8: [serve] refines the process: serving a request in one go is one of the interleavings of
    its sections, with the same response, state, throttle and new tasks, from every state of a
    process that accepts requests. *)
Theorem serve_refines_process `{Libs} `{Axum} {R} `{HistoryRecorder R} st b vars root signals m req (s : Shared R) g ts a' resp :
  serve st (req_env vars root m) req (mkApp (s, []) g) = Some (a', resp) →
  rtc (server_step st b vars root signals) (mkServer s g ts Accepting)
    (mkServer (sys a').1 (reload_gate a') (ts ++ TRequest req (QReplied resp) :: (TThread <$> (sys a').2)) Accepting).
Proof.
  intros Hs%(serve_own st b vars root). eapply rtc_l; [by apply (sv_accept st b vars root signals s g ts req)|].
  exact (own_request_at st b vars root signals m req _ _ ts [] Accepting ltac:(done) Hs).
Qed.

Lemma serve_refines_process_witness :
  ∃ a' resp, serve sample_state (req_env ∅ ["jobs"] any_moment) (bearer "/execute/b/x" "master-token") (mkApp (sample_shared, []) ∅) = Some (a', resp) ∧
    rtc (server_step sample_state sample_bundle ∅ ["jobs"] (mkSignals true (Ok tt) None (Ok tt) None)) (mkServer sample_shared ∅ [] Accepting)
      (mkServer (sys a').1 (reload_gate a') (TRequest (bearer "/execute/b/x" "master-token") (QReplied resp) :: (TThread <$> (sys a').2)) Accepting) ∧
    rs_status resp = 200%Z.
Proof.
  destruct (serve sample_state (req_env ∅ ["jobs"] any_moment) (bearer "/execute/b/x" "master-token") (mkApp (sample_shared, []) ∅)) as [[a' resp]|] eqn:Hs;
    [|vm_compute in Hs; discriminate].
  exists a', resp. split; [reflexivity|]. split; [|vm_compute in Hs; injection Hs as _ <-; reflexivity].
  exact (serve_refines_process sample_state sample_bundle ∅ ["jobs"] (mkSignals true (Ok tt) None (Ok tt) None) any_moment _ sample_shared ∅ [] a' resp Hs).
Defined.

(** C34: graceful shutdown does not wait for runs: in a process without requests in flight an
    [/execute] of an idle job can be answered 200 with the job among the running, and the
    process then drains and exits while that job is running: no attempt was made, no row is
    recorded, and no step of the process is left that could. *)
Theorem shutdown_abandons_runs `{Libs} `{Axum} {R} `{HistoryRecorder R} st b vars root signals first req k extras (s : Shared R) g ts entry :
  route st req = QCall (Trigger k extras TLookup) → jobs s !! k = Some entry → running s !! k = None →
  is_Some (shutdown_signal signals first) → forallb answered ts = true →
  ∃ sv rows token, rtc (server_step st b vars root signals) (mkServer s g ts Accepting) sv ∧
    TRequest req (QReplied (to_response (Ok (JsonBody rows)))) ∈ sv_tasks sv ∧
    TThread (Trigger k extras (TRun (reg_spec entry) (state entry) (Dispatching token DStart))) ∈ sv_tasks sv ∧
    is_Some (running (sv_shared sv) !! k) ∧ history (sv_shared sv) = history s ∧
    sv_phase sv = Exited ∧ ∀ sv', ¬ server_step st b vars root signals sv sv'.
Proof.
  intros Hroute Hj Hr Hsig Hts. pose proof (trigger_now_spec k extras (wall any_moment) s []) as Ht. rewrite Hj, Hr in Ht.
  destruct Ht as (s' & token & Ht & Hrun & _ & _ & Hh & _).
  pose proof (own_routed st b vars root any_moment req s g _ _ Hroute (own_execute st b vars root any_moment req s g k extras _ _ Ht)) as Ho.
  set (rows := rows_json _) in Ho. set (run := Trigger k extras (TRun (reg_spec entry) (state entry) (Dispatching token DStart))) in *.
  set (ts' := ts ++ [TRequest req (QReplied (to_response (Ok (JsonBody rows)))); TThread run]).
  exists (mkServer s' g ts' Exited), rows, token. cbn [sv_tasks sv_shared sv_phase]. split_and!.
  - eapply rtc_l; [by apply (sv_accept st b vars root signals s g ts req)|].
    etransitivity; [exact (own_request_at st b vars root signals any_moment req _ _ ts [] Accepting ltac:(done) Ho)|].
    eapply rtc_l; [by eapply sv_signal|]. apply rtc_once, (sv_exit st b vars root signals s' g ts'). unfold ts'. by rewrite forallb_app, Hts.
  - apply elem_of_app. right. by left.
  - apply elem_of_app. right. right. by apply list_elem_of_singleton.
  - rewrite Hrun, lookup_insert_eq. by eexists.
  - done.
  - done.
  - intros sv'. by apply exited_is_final.
Qed.

Lemma shutdown_abandons_runs_witness :
  ∃ sv, rtc (server_step sample_state sample_bundle ∅ ["jobs"] (mkSignals true (Ok tt) (Some 5%Z) (Ok tt) None))
      (mkServer sample_shared ∅ [] Accepting) sv ∧
    is_Some (running (sv_shared sv) !! mkJobKey "b" "x") ∧ sv_phase sv = Exited.
Proof.
  assert (route sample_state (bearer "/execute/b/x" "master-token") = QCall (Trigger (mkJobKey "b" "x") [] TLookup)) as Hroute
    by (vm_compute; reflexivity).
  destruct (jobs sample_shared !! mkJobKey "b" "x") as [entry|] eqn:Hj; [|vm_compute in Hj; discriminate].
  assert (running sample_shared !! mkJobKey "b" "x" = None) as Hr by (vm_compute; reflexivity).
  destruct (shutdown_abandons_runs sample_state sample_bundle ∅ ["jobs"] (mkSignals true (Ok tt) (Some 5%Z) (Ok tt) None) true
    (bearer "/execute/b/x" "master-token") (mkJobKey "b" "x") [] sample_shared ∅ [] entry Hroute Hj Hr ltac:(by eexists) eq_refl)
    as (sv & rows & token & Hs & _ & _ & Hk & _ & Hp & _).
  exists sv. exact (conj Hs (conj Hk Hp)).
Defined.
