(* ===== verification/ServerRaces.v ===== *)
(** * Reloads next to other requests (src/scheduler.rs, src/router.rs)

    [reload_from] clears the registry in one locked section and registers the jobs it
    loaded in others. Between them other requests see an empty registry, and another
    reload can run: what the process does then. *)
From S2P Require Import Prelude RStr Errors Dsl History Config Libs Loader Dispatch DispatchSteps Scheduler SchedulerSteps SchedulerMethods JobTypes Middleware Router Signal Server ServerSteps ServerServe ServerLive.

(** The registration of [specs] over a registry overrides it key by key. *)
Lemma registered_over specs k acc :
  foldl (λ acc sp, if decide (Dsl.key sp = k) then Some sp else acc) acc specs = union_with (λ sp _, Some sp) (registered specs k) acc.
Proof.
  unfold registered. revert acc. induction specs as [|sp specs IH]; intros acc; cbn; [by destruct acc|].
  rewrite IH. rewrite (IH (if decide _ then _ else None)). destruct (foldl _ _ _), (decide _), acc; done.
Qed.

Section races.
Context `{Libs} `{Axum} {R : Type} `{HistoryRecorder R}.
Context (st : AppState) (b : ExecutorBundle) (vars : Env) (root : PathBuf) (signals : Signals).
Implicit Types (s : Shared R) (g : ReloadGate).
Local Abbreviation steps := (rtc (server_step st b vars root signals)).

(** A POST to [/reload] at [m], admitted by the throttle, whose tree loads. *)
Record reloads (m : Moment) (req : HttpRequest) (g g' : ReloadGate) (group : string) (loaded : list LoadedJob) : Prop :=
  { rl_route : route st req = QGate group;
    rl_gate : gate_admit group (reload_min_interval_secs (security (cfg st))) (mono m) g = (g', Ok tt);
    rl_load : load_dsl st (req_env vars root m) = Ok loaded }.

Definition cleared s : Shared R := set_jobs ∅ (notify_running s).
Definition about_to_register (loaded : list LoadedJob) : ReqPc := QReload (length loaded) (Registering (spec <$> loaded) RRemove).
Definition reload_reply (loaded : list LoadedJob) : ReqPc := reply (Ok (JsonBody (reloaded_json (length loaded)))).

Lemma own_clear m req s g g' group loaded :
  reloads m req g g' group loaded →
  rtc (own_request st b vars root m req) (s, g, QArrived, []) (cleared s, g', about_to_register loaded, []).
Proof.
  intros [Hr Hg Hl]. eapply own_routed; [exact Hr|].
  eapply rtc_l; [eapply (own_intro _ _ _ _ _ _ _ _ _ _ _ g' QLoad [])|]; [cbn [request_step]; by rewrite Hg|done|].
  eapply rtc_l; [eapply (own_intro _ _ _ _ _ _ _ _ _ _ _ g' (QReload (length loaded) (ReloadNotify (spec <$> loaded))) [])|];
    [cbn [request_step]; by rewrite Hl|done|].
  eapply rtc_l; [by eapply (own_intro _ _ _ _ _ _ _ _ _ _ _ _ _ [])|].
  apply rtc_once. by eapply (own_intro _ _ _ _ _ _ _ _ _ _ _ _ _ []).
Qed.

Lemma own_register m req s g loaded (seen : JobKey → option JobSpec) :
  (∀ k, job_matches s k (seen k)) →
  ∃ s' fresh, rtc (own_request st b vars root m req) (s, g, about_to_register loaded, []) (s', g, reload_reply loaded, fresh) ∧
    running s' = running s ∧ history s' = history s ∧
    ∀ k, job_matches s' k (union_with (λ sp _, Some sp) (registered (spec <$> loaded) k) (seen k)).
Proof.
  intros Hseen. destruct (registering_own b (spec <$> loaded) s []) as (s' & fresh & Hall & Hr).
  destruct (register_all_spec (spec <$> loaded) s [] seen Hseen) as (s2 & f2 & Hall2 & Hrun & Hh & _ & Hk & _).
  rewrite (Hall []) in Hall2. injection Hall2 as <- <-. exists s', fresh.
  split_and!; [exact (own_reload st b vars root m req (length loaded) g _ _ Hr)|done|done|].
  intros k. by rewrite <- registered_over.
Qed.

(** Two requests next to each other take their sections in turn. *)
Lemma first_at m ra rb pcb s g pca s' g' pca' l :
  rtc (own_request st b vars root m ra) (s, g, pca, []) (s', g', pca', l) → ∀ ts tl,
  steps (mkServer s g (ts ++ [TRequest ra pca; TRequest rb pcb] ++ tl) Accepting)
        (mkServer s' g' (ts ++ [TRequest ra pca'; TRequest rb pcb] ++ tl ++ (TThread <$> l)) Accepting).
Proof.
  intros Hr ts tl. pose proof (own_request_at st b vars root signals m ra _ _ ts (TRequest rb pcb :: tl) Accepting ltac:(done) Hr) as Hs.
  cbn [with_request fmap list_fmap] in Hs. by rewrite app_nil_r in Hs.
Qed.
Lemma second_at m ra rb pca s g pcb s' g' pcb' l :
  rtc (own_request st b vars root m rb) (s, g, pcb, []) (s', g', pcb', l) → ∀ ts tl,
  steps (mkServer s g (ts ++ [TRequest ra pca; TRequest rb pcb] ++ tl) Accepting)
        (mkServer s' g' (ts ++ [TRequest ra pca; TRequest rb pcb'] ++ tl ++ (TThread <$> l)) Accepting).
Proof.
  intros Hr ts tl. pose proof (own_request_at st b vars root signals m rb _ _ (ts ++ [TRequest ra pca]) tl Accepting ltac:(done) Hr) as Hs.
  cbn [with_request fmap list_fmap] in Hs. rewrite app_nil_r in Hs. by rewrite <- !app_assoc in Hs.
Qed.
Lemma accept_two ra rb s g ts :
  steps (mkServer s g ts Accepting) (mkServer s g (ts ++ [TRequest ra QArrived; TRequest rb QArrived] ++ []) Accepting).
Proof.
  eapply rtc_l; [by apply (sv_accept st b vars root signals s g ts ra)|].
  eapply rtc_l; [by apply (sv_accept st b vars root signals s g _ rb)|]. by rewrite <- app_assoc.
Qed.
End races.

(** C33: two reloads at once can leave a registry that is neither's: one clears the registry, the
    other clears it, registers its jobs and answers, and then the first registers its own
    over them. Both answer 200 with the number of jobs they loaded, the registry is the union,
    the first reload's definition of a key winning, and so a job that the later tree no
    longer has can stay, or an older definition of it come back. *)
Theorem reloads_can_mix `{Libs} `{Axum} {R} `{HistoryRecorder R} st b vars root signals ma mb ra rb ga gb g0 g1 g2 la lb (s : Shared R) ts :
  reloads st vars root ma ra g0 g1 ga la → reloads st vars root mb rb g1 g2 gb lb →
  ∃ s' fresh, rtc (server_step st b vars root signals) (mkServer s g0 ts Accepting)
      (mkServer s' g2 (ts ++ [TRequest ra (reload_reply la); TRequest rb (reload_reply lb)] ++ (TThread <$> fresh)) Accepting) ∧
    running s' = running s ∧
    ∀ k, reg_spec <$> jobs s' !! k =
      match registered (spec <$> la) k with Some sp => Some sp | None => registered (spec <$> lb) k end.
Proof.
  intros Ha Hb.
  pose proof (own_clear st b vars root ma ra s g0 g1 ga la Ha) as Hca.
  pose proof (own_clear st b vars root mb rb (cleared s) g1 g2 gb lb Hb) as Hcb.
  destruct (own_register st b vars root mb rb (cleared (cleared s)) g2 lb (λ _, None)) as (sb & fb & Hrb & Hb1 & _ & Hkb).
  { intros k. apply lookup_empty. }
  destruct (own_register st b vars root ma ra sb g2 la _ Hkb) as (s' & fa & Hra & Ha1 & _ & Hka).
  exists s', (fb ++ fa). split_and!.
  - etransitivity; [apply (accept_two st b vars root signals ra rb)|].
    etransitivity; [exact (first_at st b vars root signals ma ra rb _ _ _ _ _ _ _ _ Hca ts [])|].
    etransitivity; [exact (second_at st b vars root signals mb ra rb _ _ _ _ _ _ _ _ Hcb ts _)|].
    etransitivity; [exact (second_at st b vars root signals mb ra rb _ _ _ _ _ _ _ _ Hrb ts _)|].
    pose proof (first_at st b vars root signals ma ra rb (reload_reply lb) _ _ _ _ _ _ _ Hra ts (TThread <$> fb)) as Hf.
    by rewrite fmap_app.
  - by rewrite Ha1, Hb1.
  - intros k. specialize (Hka k). destruct (registered (spec <$> la) k) as [sp|], (registered (spec <$> lb) k) as [sp'|];
      cbn in Hka; first [destruct Hka as (cell & -> & _); done|by rewrite Hka].
Qed.

(** In the window of a reload a job that is registered before it and after it does not exist:
    a request to run it is answered 404. *)
Theorem reload_hides_jobs `{Libs} `{Axum} {R} `{HistoryRecorder R} st b vars root signals m rl rq gr g0 g1 loaded k extras (s : Shared R) ts :
  reloads st vars root m rl g0 g1 gr loaded → route st rq = QCall (Trigger k extras TLookup) →
  ∃ s' fresh, rtc (server_step st b vars root signals) (mkServer s g0 ts Accepting)
      (mkServer s' g1 (ts ++ [TRequest rl (reload_reply loaded); TRequest rq (reply (Err (job_not_found k)))] ++ (TThread <$> fresh)) Accepting) ∧
    reg_spec <$> jobs s' !! k = registered (spec <$> loaded) k.
Proof.
  intros Hl Hq. pose proof (own_clear st b vars root m rl s g0 g1 gr loaded Hl) as Hc.
  assert (rtc (own_request st b vars root m rq) (cleared s, g1, QArrived, []) (cleared s, g1, reply (Err (job_not_found k)), [])) as Hn.
  { eapply own_routed; [exact Hq|]. apply rtc_once. by eapply (own_intro _ _ _ _ _ _ _ _ _ _ _ _ _ []). }
  destruct (own_register st b vars root m rl (cleared s) g1 loaded (λ _, None)) as (s' & fresh & Hr & _ & _ & Hk).
  { intros k'. apply lookup_empty. }
  exists s', fresh. split.
  - etransitivity; [apply (accept_two st b vars root signals rl rq)|].
    etransitivity; [exact (first_at st b vars root signals m rl rq _ _ _ _ _ _ _ _ Hc ts [])|].
    etransitivity; [exact (second_at st b vars root signals m rl rq _ _ _ _ _ _ _ _ Hn ts _)|].
    exact (first_at st b vars root signals m rl rq _ _ _ _ _ _ _ _ Hr ts []).
  - specialize (Hk k). destruct (registered (spec <$> loaded) k) as [sp|]; cbn in Hk; [|by rewrite Hk].
    by destruct Hk as (cell & -> & _).
Qed.

(** The first reload found a tree with two files, the second the tree without one of them. *)
#[local] Existing Instance Sample.libs.
#[local] Existing Instance SampleAxum.axum.
Definition tree_without : Node := DirNode (Ok [("zz.yaml", FileNode (mkFile (Ok 4%Z) (Ok "ping")))]).
Definition moment_of (n : Node) : Moment := mkMoment 0 0 (Some n) Joined.
Lemma sample_reloads : ∃ g1 g2 la lb,
  reloads sample_state ∅ ["jobs"] (moment_of sample_tree) (bearer "/reload/b" "master-token") ∅ g1 "b" la ∧
  reloads sample_state ∅ ["jobs"] (moment_of tree_without) (bearer "/reload/zz" "master-token") g1 g2 "zz" lb ∧
  is_Some (registered (spec <$> la) (mkJobKey "apps-demo" "ping")) ∧ registered (spec <$> lb) (mkJobKey "apps-demo" "ping") = None.
Proof.
  do 4 eexists. split; [split; vm_compute; reflexivity|]. split; [split; vm_compute; reflexivity|].
  split; [vm_compute; by eexists|vm_compute; reflexivity].
Qed.

Lemma reloads_can_mix_witness : ∃ (s' : Shared unit) lb, registered (spec <$> lb) (mkJobKey "apps-demo" "ping") = None ∧
  is_Some (reg_spec <$> jobs s' !! mkJobKey "apps-demo" "ping") ∧
  ∃ g' ts', TRequest (bearer "/reload/zz" "master-token") (reload_reply lb) ∈ ts' ∧
    rtc (server_step sample_state sample_bundle ∅ ["jobs"] (mkSignals true (Ok tt) None (Ok tt) None))
      (mkServer sample_shared ∅ [] Accepting) (mkServer s' g' ts' Accepting).
Proof.
  destruct sample_reloads as (g1 & g2 & la & lb & Ha & Hb & [sp Hsp] & Hn).
  destruct (reloads_can_mix sample_state sample_bundle ∅ ["jobs"] (mkSignals true (Ok tt) None (Ok tt) None) _ _ _ _ _ _ _ _ _ _ _
    sample_shared [] Ha Hb) as (s' & fresh & Hs & _ & Hk).
  exists s', lb. split; [exact Hn|]. split; [rewrite (Hk (mkJobKey "apps-demo" "ping")), Hsp; by eexists|].
  eexists g2, _. split; [|exact Hs]. right. left.
Defined.

Lemma reload_hides_jobs_witness : ∃ (s' : Shared unit) g' ts',
  is_Some (jobs sample_shared !! mkJobKey "b" "x") ∧
  TRequest (bearer "/execute/b/x" "master-token") (reply (Err (job_not_found (mkJobKey "b" "x")))) ∈ ts' ∧
  rtc (server_step sample_state sample_bundle ∅ ["jobs"] (mkSignals true (Ok tt) None (Ok tt) None))
    (mkServer sample_shared ∅ [] Accepting) (mkServer s' g' ts' Accepting).
Proof.
  destruct sample_reloads as (g1 & _ & la & _ & Ha & _).
  assert (route sample_state (bearer "/execute/b/x" "master-token") = QCall (Trigger (mkJobKey "b" "x") [] TLookup)) as Hq
    by (vm_compute; reflexivity).
  destruct (reload_hides_jobs sample_state sample_bundle ∅ ["jobs"] (mkSignals true (Ok tt) None (Ok tt) None) _ _ _ _ _ _ _ _ _
    sample_shared [] Ha Hq) as (s' & fresh & Hs & _).
  eexists s', g1, _. split; [vm_compute; by eexists|]. split; [|exact Hs]. right. left.
Defined.
