(* ===== verification/Process.v ===== *)
(** * The whole process (src/main.rs and all it starts)

    A process that boots and serves: whatever requests come, whatever the clocks, the
    network and the system answer, and in whatever order the tasks take their sections,
    the theorems of the scheduler hold of it, every job in it was validated, and every run
    has a cause. *)
From S2P Require Import Prelude RStr Errors Security Dsl History Config EnvSafety Libs Loader Dispatch DispatchSteps Scheduler SchedulerSteps SchedulerMethods JobTypes Middleware Router Signal Boot Server ServerSteps ServerCauses ServerServe ServerLive.

Section process.
Context `{Libs} `{Axum}.

(** The states of the process that [main] started with [srv]. *)
Definition process_reachable (vars : Env) (w : BootWorld) (srv : Serving) (signals : Signals) (sv : Server Recorder) : Prop :=
  server_reachable (state srv) (bundle srv) vars (tree_root w) signals (app srv) sv.

(** What the validation of the loader guarantees under the policy of the process. *)
Definition valid_job (cfg : AppConfig) (vars : Env) (sp : JobSpec) : Prop := spec_ok vars (boot_policy cfg vars) sp.

Lemma load_valid `{!LibLaws _} cfg vars w jobs :
  load_jobs cfg vars w = Ok jobs → Forall (valid_job cfg vars) (spec <$> jobs).
Proof.
  intros Hl%load_all_bounded_ok. apply Forall_fmap, Forall_forall. intros j Hj.
  by destruct (loaded_jobs_sound _ _ _ _ _ _ Hl Hj) as [Hok _].
Qed.

(** A reload loads as boot does. *)
Lemma reload_load cfg vars w srv m :
  boot cfg vars w = Some (Ok srv) →
  load_dsl (state srv) (req_env vars (tree_root w) m) =
    load_jobs cfg vars (mkBootWorld (client_builds w) (driver w) (found_tree m) (tree_root w) (load_ended m)).
Proof. by intros (_ & recorder & jobs & _ & _ & ->)%boot_ok. Qed.

Lemma boot_starts `{!LibLaws _} cfg vars w srv :
  boot cfg vars w = Some (Ok srv) → starts (valid_job cfg vars) (app srv).
Proof.
  intros (_ & recorder & jobs & _ & Hl & ->)%boot_ok. cbn [app]. pose proof (load_valid _ _ _ _ Hl) as Hv.
  destruct (register_all_spec (spec <$> jobs) (mkShared ∅ ∅ [] recorder 0 ∅) [] (λ _, None)) as (s' & fresh & Hall & _ & _ & _ & Hk & Hf & _).
  { intros k. apply lookup_empty. }
  unfold starts. cbn [sys]. rewrite Hall. rewrite Forall_forall in Hf. rewrite Forall_forall in Hv. split; [split|]; cbn [fst snd app].
  - intros k j Hj. specialize (Hk k). fold (registered (spec <$> jobs) k) in Hk.
    destruct (registered (spec <$> jobs) k) as [sp|] eqn:Hsp; cbn in Hk; [|congruence].
    destruct Hk as (cell & Hj' & _). rewrite Hj in Hj'. injection Hj' as ->. apply registered_in in Hsp as [Hin Hk].
    split; [by apply Hv|done].
  - intros t (sp & expr & cell & Hin & Htr & ->)%Hf. split; [by apply Hv|done].
  - intros t (sp & expr & cell & _ & _ & ->)%Hf. eauto.
Qed.

Lemma process_inv `{!LibLaws _} cfg vars w srv signals sv :
  boot cfg vars w = Some (Ok srv) → process_reachable vars w srv signals sv → SInv (state srv) (valid_job cfg vars) sv.
Proof.
  intros Hb Hr. apply (sinv_reachable (state srv) (bundle srv) vars (tree_root w) signals (valid_job cfg vars)) with (app srv);
    [|by eapply boot_starts|done].
  intros m jobs Hl. rewrite (reload_load cfg vars w srv m Hb) in Hl. exact (load_valid _ _ _ _ Hl).
Qed.

Lemma process_reaches cfg vars w srv signals sv :
  boot cfg vars w = Some (Ok srv) → process_reachable vars w srv signals sv →
  ∃ recorder, choose_recorder cfg vars w = Ok recorder ∧
    reaches (bundle srv) (init recorder) (server_sys sv) ∧ tasks_wf (sv_tasks sv).
Proof.
  intros Hb Hr. apply boot_ok in Hb as (_ & recorder & jobs & Hrec & _ & ->). exists recorder. split; [done|].
  unfold process_reachable in Hr. cbn [state bundle app] in *.
  assert (reaches (bundle_new vars cfg) (init recorder) (sys (mkApp (register_all (spec <$> jobs) (mkShared ∅ ∅ [] recorder 0 ∅, [])) ∅))) as Hboot
    by apply register_all_reaches.
  refine ((λ Ha, _) _ : reaches _ _ _ ∧ _).
  { destruct (server_reaches _ _ _ _ _ _ sv Ha Hr) as [Hy Hwf]. split; [by etrans|done]. }
  destruct (register_all_spec (spec <$> jobs) (mkShared ∅ ∅ [] recorder 0 ∅) [] (λ _, None)) as (s' & fresh & Hall & _ & _ & _ & _ & Hf & _).
  { intros k. apply lookup_empty. }
  unfold app_wf. cbn [sys]. rewrite Hall. eapply Forall_impl; [exact Hf|]. by intros t (? & ? & ? & _ & _ & ->).
Qed.

Lemma process_scheduler_inv cfg vars w srv signals sv :
  boot cfg vars w = Some (Ok srv) → process_reachable vars w srv signals sv → Inv (server_sys sv).
Proof.
  intros Hb Hr. destruct (process_reaches _ _ _ _ _ _ Hb Hr) as (recorder & _ & (y & Hy & Hs) & _).
  rewrite <- Hs. by eapply inv_reachable.
Qed.
End process.

(** C1: in every state of a process that booted, whatever was requested and however its tasks
    were interleaved: a job has at most one run, whether a loop or a request started it;
    the table of running instances has an entry exactly for the jobs with a run, with the
    token that run listens to; and no request and no task has panicked. *)
Theorem process_safety `{Libs} `{Axum} cfg vars w srv signals sv :
  boot cfg vars w = Some (Ok srv) → process_reachable vars w srv signals sv →
  let owner x := owned_key (task_thread x) in
  (∀ i j x1 x2 k, sv_tasks sv !! i = Some x1 → sv_tasks sv !! j = Some x2 →
     owner x1 = Some k → owner x2 = Some k → i = j) ∧
  (∀ k, is_Some (running (sv_shared sv) !! k) ↔ ∃ x, x ∈ sv_tasks sv ∧ owner x = Some k) ∧
  (∀ x k c, x ∈ sv_tasks sv → dispatching (task_thread x) = Some (k, c) → cancel <$> running (sv_shared sv) !! k = Some c) ∧
  (TThread Panicked ∉ sv_tasks sv) ∧ ∀ req, TRequest req QPanicked ∉ sv_tasks sv.
Proof.
  intros Hb Hr owner. destruct (process_scheduler_inv _ _ _ _ _ _ Hb Hr) as [Hnd Hrun Hpan Htok _ _ _ _ _ _].
  cbn [server_sys fst snd] in *. split_and!.
  - intros i j x1 x2 k Hi Hj H1 H2.
    apply (omap_NoDup_index owned_key (task_thread <$> sv_tasks sv) i j (task_thread x1) (task_thread x2) k);
      rewrite ?list_lookup_fmap, ?Hi, ?Hj; done.
  - intros k. rewrite Hrun, elem_of_owned. split.
    + intros (t & (x & -> & Hx)%list_elem_of_fmap & Ho). by exists x.
    + intros (x & Hx & Ho). exists (task_thread x). split; [|done]. by apply list_elem_of_fmap_2.
  - intros x k c Hx. apply Htok. by apply list_elem_of_fmap_2.
  - intros Hin. apply Hpan. by apply (list_elem_of_fmap_2 task_thread) in Hin.
  - intros req Hin. apply Hpan. by apply (list_elem_of_fmap_2 task_thread) in Hin.
Qed.

(** ** Every job was validated *)
Lemma max_attempts_valid `{Libs} cfg vars sp :
  valid_job cfg vars sp → (max_retry_count (security cfg) < u32_max)%Z →
  max_attempts sp = (count (retry sp) + 1)%Z ∧ (1 ≤ max_attempts sp ≤ max_retry_count (security cfg) + 1)%Z.
Proof.
  intros (_ & Hc & _) Hm. cbn in Hc. unfold max_attempts. rewrite wrap_u32_small; lia.
Qed.

(** C11: every job in a process that booted passed the validation of the loader under the policy
    of that process, whether it is registered, scheduled, running, or was reloaded since: it is
    run under its own key, a loop has the expression of its job, which parses, so that the
    loop never takes its defensive exit; and if the cap on retries
    ([security.max_retry_count]) is below 2^32 - 1, the number of its attempts,
    [retryCount + 1] in 32 bits, does not wrap and is at most one more than the cap. *)
Theorem process_well_typed `{LibLaws} `{Axum} cfg vars w srv signals sv :
  boot cfg vars w = Some (Ok srv) → process_reachable vars w srv signals sv →
  (∀ k j, jobs (sv_shared sv) !! k = Some j → valid_job cfg vars (reg_spec j) ∧ Dsl.key (reg_spec j) = k) ∧
  (∀ x sp expr cell pc, x ∈ sv_tasks sv → task_thread x = Loop sp expr cell pc →
     valid_job cfg vars sp ∧ trigger sp = Cron expr ∧
     ∀ inp s, (loop_step (R := Recorder) (bundle srv) inp sp expr cell LStart s).2 = Loop sp expr cell LWait) ∧
  (∀ x k extras sp cell pc, x ∈ sv_tasks sv → task_thread x = Trigger k extras (TRun sp cell pc) →
     valid_job cfg vars sp ∧ Dsl.key sp = k) ∧
  ∀ sp, valid_job cfg vars sp → (max_retry_count (security cfg) < u32_max)%Z →
    max_attempts sp = (count (retry sp) + 1)%Z ∧ (1 ≤ max_attempts sp ≤ max_retry_count (security cfg) + 1)%Z.
Proof.
  intros Hb Hr. destruct (process_inv _ _ _ _ _ _ Hb Hr) as [_ [Hj Ht] _]. cbn [server_sys fst snd] in *.
  assert (∀ x, x ∈ sv_tasks sv → thread_typed (valid_job cfg vars) (task_thread x)) as Htt.
  { intros x Hx. by apply Ht, list_elem_of_fmap_2. }
  split_and!; [exact Hj| | |intros sp; apply max_attempts_valid].
  - intros x sp expr cell pc Hx Heq. specialize (Htt x Hx). rewrite Heq in Htt. destruct Htt as [Hv Htr]. split_and!; [done..|].
    intros inp s. apply (loop_parses _ (valid_job cfg vars)); [|by split]. by intros sp' [Hp _].
  - intros x k extras sp cell pc Hx Heq. specialize (Htt x Hx). by rewrite Heq in Htt.
Qed.

(** ** Every run has a cause *)
Definition harmless (st : AppState) (extras : list (string * string)) : Prop :=
  allow_dangerous_env_overrides (security (cfg st)) = false → Forall (λ kv, is_dangerous_env kv.1 = false) extras.
Lemma refused_none st extras : refused_override st extras = None → harmless st extras.
Proof.
  unfold refused_override. intros Ho Hallow. rewrite Hallow in Ho. cbn [negb] in Ho. apply Forall_forall. intros kv Hin.
  by apply (find_none _ _ Ho), list_elem_of_In.
Qed.

(** C3: every running job was started by something entitled to: a loop of a valid job whose
    cron expression the configuration gave, or a POST that passed the admin gate, still
    among the requests, which named this job, with the query as its overrides, none of
    them dangerous unless the operator allows it. *)
Theorem every_run_has_a_cause `{LibLaws} `{Axum} cfg vars w srv signals sv k :
  boot cfg vars w = Some (Ok srv) → process_reachable vars w srv signals sv → is_Some (running (sv_shared sv) !! k) →
  (∃ sp expr cell pc, TThread (Loop sp expr cell (LRun pc)) ∈ sv_tasks sv ∧ Dsl.key sp = k ∧ trigger sp = Cron expr ∧
     valid_job cfg vars sp) ∨
  (∃ req rpc extras, TRequest req rpc ∈ sv_tasks sv ∧ rq_method req = "POST" ∧ admin_gate (state srv) req = Ok tt ∧
     asks_to_run (state srv) req k extras ∧ harmless (state srv) extras ∧
     ∃ x sp cell pc, x ∈ sv_tasks sv ∧ task_thread x = Trigger k extras (TRun sp cell pc) ∧
       Dsl.key sp = k ∧ valid_job cfg vars sp).
Proof.
  intros Hb Hr Hk. pose proof (process_inv _ _ _ _ _ _ Hb Hr) as [Hwf [_ Ht] Hca].
  pose proof (process_scheduler_inv _ _ _ _ _ _ Hb Hr) as Hinv. cbn [server_sys fst snd] in *.
  apply (inv_running _ Hinv), elem_of_owned in Hk as (t & (x & -> & Hx)%list_elem_of_fmap & Ho). cbn [server_sys snd] in *.
  pose proof (Ht _ (list_elem_of_fmap_2 task_thread _ _ Hx)) as Htt. pose proof (Hca x Hx) as Hc.
  unfold tasks_wf in Hwf. rewrite Forall_forall in Hwf. specialize (Hwf x Hx). destruct x as [t|req rpc]; cbn [task_thread] in *.
  - destruct t as [sp expr cell []|k' extras [| |sp cell pc]| | | | | |]; try done; injection Ho as <-.
    + left. destruct Htt. eauto 10.
    + right. destruct Hc as (req & rpc & Hin & [Hm Hg] & Ha). destruct Htt. exists req, rpc, extras.
      split_and!; try done; [destruct Ha as (? & ? & _ & _ & _ & ?); by apply refused_none|]. eauto 10.
  - right. destruct rpc as [| | |t|n t| | | | | |]; try done; cbn [pc_thread task_wf pc_wf] in *;
      destruct t as [|k' extras [| |sp cell pc]| | | | | |]; try done. injection Ho as <-. destruct Htt, Hc as [[Hm Hg] Ha].
    exists req, (QCall (Trigger k' extras (TRun sp cell pc))), extras.
    split_and!; try done; [destruct Ha as (? & ? & _ & _ & _ & ?); by apply refused_none|]. eauto 10.
Qed.

(** ** The process ends *)
(** C13: after the shutdown signal a process that booted ends: only finitely many sections of its
    requests are left, however the loops and runs of its jobs are interleaved with them and
    whatever they meet; as long as a request is not answered one of these sections can be taken;
    and the process has a way to exit, with every request answered, dropped or panicked. *)
Theorem drain_completes `{Libs} `{Axum} cfg vars w srv signals sv :
  boot cfg vars w = Some (Ok srv) → process_reachable vars w srv signals sv → sv_phase sv = Draining →
  let step := server_step (state srv) (bundle srv) vars (tree_root w) signals in
  Acc (drained_to (state srv) (bundle srv) vars (tree_root w) signals) sv ∧
  (∀ sv1, rtc step sv sv1 → sv_phase sv1 = Draining → forallb answered (sv_tasks sv1) = false →
     ∃ sv2, step sv1 sv2 ∧ request_pcs sv2 ≠ request_pcs sv1) ∧
  ∃ sv', rtc step sv sv' ∧ sv_phase sv' = Exited ∧ forallb answered (sv_tasks sv') = true.
Proof.
  intros Hb Hr Hp step. destruct (process_reaches _ _ _ _ _ _ Hb Hr) as (_ & _ & _ & Hwf). split_and!.
  - apply drained_to_acc; [done|congruence].
  - intros sv1 Hr1 Hp1 Ha. destruct (server_steps_reaches _ _ _ _ _ _ _ Hr1 Hwf) as [_ Hwf1].
    destruct (draining_progress (state srv) (bundle srv) vars (tree_root w) signals sv1 Hwf1 Hp1 Ha) as (sv2 & Hs & Hne & _).
    by exists sv2.
  - by apply drain_to_exit.
Qed.

(** ** A process that boots, starts a run on request and is told to shut down *)
(** [n] sections of one task, which spawn nothing. *)
Fixpoint take_sections `{Libs} {R} `{HistoryRecorder R} (b : ExecutorBundle) (n : nat) (inp : Input) (t : Thread) (s : Shared R) :
    option (Shared R * Thread) :=
  match n with
  | 0 => Some (s, t)
  | S n => '(s', t', sp) ← thread_step b inp t s; match sp with [] => take_sections b n inp t' s' | _ => None end
  end.
Lemma take_sections_steps `{Libs} `{Axum} {R} `{HistoryRecorder R} st b vars root signals n inp t (s : Shared R) s' t' g ts ph :
  take_sections b n inp t s = Some (s', t') → ph ≠ Exited →
  rtc (server_step st b vars root signals) (mkServer s g (ts ++ [TThread t]) ph) (mkServer s' g (ts ++ [TThread t']) ph).
Proof.
  intros Hn Hph. revert t s Hn. induction n as [|n IH]; intros t s; cbn [take_sections]; [by intros [= -> ->]|].
  destruct (thread_step b inp t s) as [[[s1 t1] [|? ?]]|] eqn:Ht; cbn [mbind option_bind]; [|done..]. intros Hn.
  eapply rtc_l; [|by apply IH].
  pose proof (sv_thread st b vars root signals s g (ts ++ [TThread t]) ph (length ts) t inp s1 t1 [] Hph) as Hs.
  rewrite insert_middle, app_nil_r in Hs. apply Hs; [|done]. by rewrite lookup_app_r, Nat.sub_diag by done.
Qed.

#[local] Existing Instance Sample.libs.
#[local] Existing Instance Sample.libs_laws.
#[local] Existing Instance SampleAxum.axum.
Definition sample_signals : Signals := mkSignals true (Ok tt) (Some 5%Z) (Ok tt) None.
Definition sample_key : JobKey := mkJobKey "apps-demo" "ping".
Definition sample_request : HttpRequest := bearer "/execute/apps-demo/ping" "k7Qp2vXz9LmN4rTb8WcY6hJd3FgS5aUe".

(** Boot, serve that request, and let the run it starts take [n] sections. *)
Definition sample_path (cfg : AppConfig) (vars : Env) (n : nat) : option (Serving * App Recorder * HttpResponse * Shared Recorder * Thread) :=
  match boot cfg vars sample_boot with
  | Some (Ok srv) =>
      '(a, resp) ← serve (state srv) (req_env vars ["jobs"] any_moment) sample_request (mkApp ((sys (app srv)).1, []) (reload_gate (app srv)));
      match (sys a).2 with
      | [t] => '(s, t') ← take_sections (bundle srv) n (at_time 60000) t (sys a).1; Some (srv, a, resp, s, t')
      | _ => None
      end
  | _ => None
  end.
Definition sample_server (srv : Serving) (a : App Recorder) (resp : HttpResponse) (s : Shared Recorder) (t : Thread) : Server Recorder :=
  mkServer s (reload_gate a) (((TThread <$> (sys (app srv)).2) ++ [TRequest sample_request (QReplied resp)]) ++ [TThread t]) Accepting.

Lemma sample_path_reachable cfg vars n srv a resp s t :
  sample_path cfg vars n = Some (srv, a, resp, s, t) →
  boot cfg vars sample_boot = Some (Ok srv) ∧ process_reachable vars sample_boot srv sample_signals (sample_server srv a resp s t).
Proof.
  unfold sample_path. destruct (boot cfg vars sample_boot) as [[srv'|]|]; [|done..].
  destruct (serve _ _ _ _) as [[a' resp']|] eqn:Hs; cbn [mbind option_bind]; [|done].
  destruct ((sys a').2) as [|t0 [|? ?]] eqn:Ht; [done| |done].
  destruct (take_sections _ _ _ _ _) as [[s' t']|] eqn:Hn; cbn [mbind option_bind]; [|done]. intros [= -> -> -> -> ->].
  split; [done|]. unfold process_reachable, server_reachable. change (tree_root sample_boot) with ["jobs"].
  eapply rtc_l; [apply (sv_accept _ _ _ _ _ _ _ _ sample_request)|]. apply (serve_own _ (bundle srv)) in Hs.
  etransitivity; [exact (own_request_at _ _ _ _ _ _ _ _ _ (TThread <$> (sys (app srv)).2) [] Accepting ltac:(done) Hs)|].
  cbn [with_request app]. rewrite Ht. cbn [fmap list_fmap].
  pose proof (take_sections_steps (state srv) (bundle srv) vars ["jobs"] sample_signals n _ _ _ _ _ (reload_gate a)
    ((TThread <$> (sys (app srv)).2) ++ [TRequest sample_request (QReplied resp)]) Accepting Hn ltac:(done)) as Hsteps.
  rewrite <- (app_assoc _ _ [TThread t0]) in Hsteps. exact Hsteps.
Qed.

Lemma sample_process : ∃ srv sv,
  boot AppConfig_default sample_vars sample_boot = Some (Ok srv) ∧
  process_reachable sample_vars sample_boot srv sample_signals sv ∧
  is_Some (running (sv_shared sv) !! sample_key) ∧ is_Some (jobs (sv_shared sv) !! sample_key) ∧
  length (sv_tasks sv) = 4 ∧ sv_phase sv = Draining.
Proof.
  assert (match sample_path AppConfig_default sample_vars 0 with
          | Some (srv, _, _, s, _) => bool_decide (is_Some (running s !! sample_key)) && bool_decide (is_Some (jobs s !! sample_key)) &&
              (length (sys (app srv)).2 =? 2)
          | None => false
          end = true) as Hc by (vm_compute; reflexivity).
  destruct (sample_path _ _ _) as [[[[[srv a] resp] s] t]|] eqn:Hp; [|done].
  apply andb_true_iff in Hc as [[Hr%bool_decide_eq_true Hj%bool_decide_eq_true]%andb_true_iff Hl%Nat.eqb_eq].
  apply sample_path_reachable in Hp as [Hb Hreach]. exists srv. eexists. split; [done|]. split.
  - eapply rtc_r; [exact Hreach|]. by apply (sv_signal _ _ _ _ sample_signals _ _ _ true).
  - cbn. split_and!; [done..| |done]. by rewrite !length_app, length_fmap, Hl.
Qed.

Lemma process_safety_witness : ∃ sv : Server Recorder, is_Some (running (sv_shared sv) !! sample_key) ∧ length (sv_tasks sv) = 4 ∧
  ∀ i j x1 x2 k, sv_tasks sv !! i = Some x1 → sv_tasks sv !! j = Some x2 →
    owned_key (task_thread x1) = Some k → owned_key (task_thread x2) = Some k → i = j.
Proof.
  destruct sample_process as (srv & sv & Hb & Hr & Hk & _ & Hl & _). exists sv. split; [exact Hk|]. split; [exact Hl|].
  exact (proj1 (process_safety _ _ _ _ _ _ Hb Hr)).
Defined.

Lemma process_well_typed_witness : ∃ (sv : Server Recorder) j, jobs (sv_shared sv) !! sample_key = Some j ∧
  valid_job AppConfig_default sample_vars (reg_spec j) ∧ Dsl.key (reg_spec j) = sample_key.
Proof.
  destruct sample_process as (srv & sv & Hb & Hr & _ & [j Hj] & _). exists sv, j. split; [exact Hj|].
  exact (proj1 (process_well_typed _ _ _ _ _ _ Hb Hr) _ _ Hj).
Defined.

Lemma every_run_has_a_cause_witness : ∃ srv (sv : Server Recorder), is_Some (running (sv_shared sv) !! sample_key) ∧
  ((∃ sp expr cell pc, TThread (Loop sp expr cell (LRun pc)) ∈ sv_tasks sv ∧ Dsl.key sp = sample_key ∧ trigger sp = Cron expr ∧
      valid_job AppConfig_default sample_vars sp) ∨
   (∃ req rpc extras, TRequest req rpc ∈ sv_tasks sv ∧ rq_method req = "POST" ∧ admin_gate (state srv) req = Ok tt ∧
      asks_to_run (state srv) req sample_key extras ∧ harmless (state srv) extras ∧
      ∃ x sp cell pc, x ∈ sv_tasks sv ∧ task_thread x = Trigger sample_key extras (TRun sp cell pc) ∧
        Dsl.key sp = sample_key ∧ valid_job AppConfig_default sample_vars sp)).
Proof.
  destruct sample_process as (srv & sv & Hb & Hr & Hk & _). exists srv, sv. split; [exact Hk|].
  exact (every_run_has_a_cause _ _ _ _ _ _ _ Hb Hr Hk).
Defined.

Lemma drain_completes_witness : ∃ srv (sv sv' : Server Recorder), is_Some (running (sv_shared sv) !! sample_key) ∧
  rtc (server_step (state srv) (bundle srv) sample_vars ["jobs"] sample_signals) sv sv' ∧ sv_phase sv' = Exited.
Proof.
  destruct sample_process as (srv & sv & Hb & Hr & Hk & _ & _ & Hp).
  destruct (drain_completes _ _ _ _ _ _ Hb Hr Hp) as (_ & _ & sv' & Hs & Hx & _).
  exists srv, sv, sv'. exact (conj Hk (conj Hs Hx)).
Defined.
