(* ===== verification/ProcessHistory.v ===== *)
(** * The history of a process (src/history, src/scheduler.rs, src/main.rs)

    Whatever a process does, its history has rows of validated jobs only, numbered within
    the attempts of their job (if the cap on retries fits the [i32] of a row); of the recorder of Postgres the table has those of them whose
    insert succeeded, in order, and every other row is one warning. *)
From S2P Require Import Prelude RStr Errors Security Dsl History Config EnvSafety Libs Loader Dispatch DispatchSteps Scheduler SchedulerSteps SchedulerMethods JobTypes JobRows Middleware Router Signal Boot Server ServerSteps ServerCauses ServerServe ServerLive Process.

Section rows.
Context `{Libs} `{Axum} {R : Type} `{HistoryRecorder R}.
Context (st : AppState) (b : ExecutorBundle) (vars : Env) (root : PathBuf) (signals : Signals) (P : JobSpec → Prop).

Lemma call_history inp t (s : Shared R) s' t' sp :
  thread_step b inp t s = Some (s', t', sp) → in_call t = true ∨ in_reload t = true → history s' = history s.
Proof.
  intros Hs Ht. destruct t as [|k extras [|spec cell|spec cell [| | |]]|k chk|todo pc|l|l| |]; cbn [thread_step] in Hs;
    try (by destruct Ht); cbn in Hs.
  - by injection Hs as <- _ _.
  - destruct (begin_running _ _ _ _) as [s2|] eqn:Hb; injection Hs as <- _ _; [|done]. by apply begin_running_ok in Hb as (_ & _ & _ & _ & _ & _ & ->).
  - by destruct (running s !! k); injection Hs as <- _ _.
  - destruct chk; injection Hs as <- _ _; [by destruct (running s !! k)|done].
  - by destruct todo as [|spec todo], pc; cbn in Hs; injection Hs as <- _ _.
  - by injection Hs as <- _ _.
  - by injection Hs as <- _ _.
Qed.

Lemma request_history m req pc (s : Shared R) g s' g' pc' sp :
  request_step st b vars root m req pc s g = Some (s', g', pc', sp) → pc_wf pc = true → history s' = history s.
Proof.
  intros Hstep Hwf. destruct pc as [|group| |t|n t|f|f a|rows a| | |]; cbn [request_step] in Hstep; try done;
    try by injection Hstep as <- _ _ _.
  - destruct (gate_admit _ _ _ _). by injection Hstep as <- _ _ _.
  - destruct (thread_step b _ t s) as [[[s1 t1] sp1]|] eqn:Ht; cbn [mbind option_bind] in Hstep; [|done].
    destruct (after_call s t t1). injection Hstep as <- _ _ _. by eapply call_history; [exact Ht|left].
  - destruct (thread_step b _ t s) as [[[s1 t1] sp1]|] eqn:Ht; cbn [mbind option_bind] in Hstep; [|done].
    injection Hstep as <- _ _ _. by eapply call_history; [exact Ht|right].
Qed.

Lemma server_step_rows (sv sv' : Server R) :
  server_step st b vars root signals sv sv' → SInv st P sv → Inv (server_sys sv) →
  adds_rows (row_of_some P) (history (sv_shared sv)) (history (sv_shared sv')).
Proof.
  intros Hstep [Hwf Hty _] Hinv. unfold tasks_wf in Hwf. rewrite Forall_forall in Hwf.
  destruct Hstep as [s g ts req|s g ts ph i t inp s' t' sp _ Hi Ht|s g ts ph i req pc m s' g' pc' sp _ Hi Hr
    |s g ts ph i req pc _ Hi Hd|s g ts first _|s g ts _]; unfold server_sys in *; cbn [sv_shared sv_tasks] in *; try apply adds_none.
  - apply (thread_step_rows b P _ _ _ _ _ _ Ht); [by apply (typed_at P s ts i (TThread t))|].
    apply (inv_attempts _ Hinv), (list_elem_of_fmap_2 task_thread _ (TThread t)). by eapply list_elem_of_lookup_2.
  - rewrite (request_history _ _ _ _ _ _ _ _ _ Hr); [apply adds_none|].
    apply (Hwf (TRequest req pc)). by eapply list_elem_of_lookup_2.
Qed.
End rows.

Section process.
Context `{LibLaws} `{Axum}.

Lemma process_rows cfg vars w srv signals sv :
  boot cfg vars w = Some (Ok srv) → process_reachable vars w srv signals sv →
  ∃ recorder, choose_recorder cfg vars w = Ok recorder ∧
    adds_rows (row_of_some (valid_job cfg vars)) recorder (history (sv_shared sv)).
Proof.
  intros Hb Hr. apply boot_ok in Hb as Hok. destruct Hok as (_ & recorder & jobs & Hrec & _ & Heq). exists recorder.
  split; [done|]. unfold process_reachable, server_reachable in Hr. revert Hr.
  apply (rtc_ind_r (λ sv, adds_rows (row_of_some (valid_job cfg vars)) recorder (history (sv_shared sv)))).
  - rewrite Heq. cbn [app serving sv_shared sys].
    destruct (register_all_spec (spec <$> jobs) (mkShared ∅ ∅ [] recorder 0 ∅) [] (λ _, None)) as (s' & fresh & -> & _ & Hh & _).
    { intros k. apply lookup_empty. }
    cbn [fst]. rewrite Hh. apply adds_none.
  - intros sv1 sv2 Hr1 Hs IH. etrans; [exact IH|]. eapply server_step_rows; [exact Hs| |].
    + by eapply process_inv.
    + by eapply process_scheduler_inv.
Qed.

Lemma valid_row cfg vars sp r :
  valid_job cfg vars sp → (max_retry_count (security cfg) < 2147483647)%Z → row_of_job sp r →
  (1 ≤ attempt_number r ≤ History.max_attempts r)%Z ∧ (History.max_attempts r ≤ max_retry_count (security cfg) + 1)%Z ∧
  (hstatus r = Retrying → attempt_number r < History.max_attempts r)%Z.
Proof.
  intros Hv Hm Hr. destruct (max_attempts_valid cfg vars sp Hv) as [Heq Hle]; [unfold u32_max; lia|].
  destruct (row_number _ _ Hr) as [(-> & -> & Hst)|(i & Hi & -> & -> & Hret)].
  - split_and!; [lia..|]. intros Hs. by destruct Hst as [Hst|Hst]; rewrite Hs in Hst.
  - rewrite !as_i32_small by lia. split_and!; [lia..|done].
Qed.
End process.

Lemma record_all_recorder rows p : record_all rows (Postgres p) = Postgres (record_all rows p).
Proof. unfold record_all. revert p. induction rows as [|r rows IH]; intros p; [done|]. cbn. apply IH. Qed.

Lemma postgres_is_connected cfg vars w p :
  choose_recorder cfg vars w = Ok (Postgres p) →
  p = mkPostgres [] (executes (driver w)) 0 (stored_response_body_max_bytes (security cfg)).
Proof.
  unfold choose_recorder. destruct (database_dsn cfg vars) as [[dsn|]|]; cbn [map_err]; [|done..].
  unfold connect. destruct (pool_connect _ dsn); cbn [map_err]; [|done]. destruct (migrate _); cbn [map_err]; [|done].
  by intros [= <-].
Qed.

(** C7: the history of a process that booted is what its recorder was at the start with some rows
    added. Each is of a job that passed validation, under its name and type, with an error
    exactly when it is no SUCCESS and then without a body; and if the cap on retries
    ([security.max_retry_count]) is below 2^31 - 1, it is numbered from 1 to the attempts
    of that job, which are at most one more than the cap, and RETRYING only before the
    last. With Postgres the table consists of exactly those rows whose insert the database
    answered with success, in order, with bodies truncated to the configured cap, and every
    row that is missing was logged as a warning. *)
Theorem process_history_sound `{LibLaws} `{Axum} cfg vars w srv signals sv :
  boot cfg vars w = Some (Ok srv) → process_reachable vars w srv signals sv →
  ∃ recorder rows, choose_recorder cfg vars w = Ok recorder ∧ history (sv_shared sv) = record_all rows recorder ∧
    (∀ r, r ∈ rows → ∃ sp, valid_job cfg vars sp ∧
       mkJobKey (job_group r) (job_name r) = Dsl.key sp ∧ job_type r = type_label (kind sp) ∧
       (error_message r = None ↔ hstatus r = Success) ∧ (hstatus r ≠ Success → response_body r = None) ∧
       ((max_retry_count (security cfg) < 2147483647)%Z →
        (1 ≤ attempt_number r ≤ History.max_attempts r)%Z ∧ (History.max_attempts r ≤ max_retry_count (security cfg) + 1)%Z ∧
        (hstatus r = Retrying → attempt_number r < History.max_attempts r)%Z)) ∧
    ∀ p, recorder = Postgres p → ∃ p', history (sv_shared sv) = Postgres p' ∧
      table p' = row_of (stored_response_body_max_bytes (security cfg)) <$> inserted (executes (driver w)) rows ∧
      length (inserted (executes (driver w)) rows) + warnings p' = length rows.
Proof.
  intros Hb Hr. destruct (process_rows _ _ _ _ _ _ Hb Hr) as (recorder & Hrec & rows & Hh & Hrows).
  exists recorder, rows. split_and!; [done..| |].
  - intros r Hin. rewrite Forall_forall in Hrows. destruct (Hrows r Hin) as (sp & Hv & Hrow). exists sp.
    pose proof (λ Hm, valid_row _ _ _ r Hv Hm Hrow) as Hnum. destruct Hrow as [-> -> ? _ ? ?].
    split_and!; try done. by destruct (Dsl.key sp).
  - intros p ->. apply postgres_is_connected in Hrec as ->. exists (record_all rows (mkPostgres [] (executes (driver w)) 0 (stored_response_body_max_bytes (security cfg)))).
    rewrite Hh, record_all_recorder. destruct (record_all_postgres rows (mkPostgres [] (executes (driver w)) 0 (stored_response_body_max_bytes (security cfg)))) as [Ht Hl].
    split_and!; [done|exact Ht|cbn in Hl; lia].
Qed.

(** ** A process with a database, in which one attempt of a requested run was recorded *)
#[local] Existing Instance Sample.libs.
#[local] Existing Instance Sample.libs_laws.
#[local] Existing Instance SampleAxum.axum.
Definition db_cfg : AppConfig :=
  mkAppConfig default_port default_dsl_path default_app_root_path [] ∅ Limits_default AdminConfig_default
    SecurityConfig_default (Some (mkDatabase "postgres://cron@db/x" "PGPASSWORD")).
Definition db_vars : Env := <["PGPASSWORD" := "w9Zr4Kt8Bn2Qm6Xs1Vd5Hj3Lc7Pf0Gy"]> sample_vars.

Lemma sample_db_process : ∃ srv sv p,
  boot db_cfg db_vars sample_boot = Some (Ok srv) ∧ process_reachable db_vars sample_boot srv sample_signals sv ∧
  history (sv_shared sv) = Postgres p ∧ length (table p) = 1.
Proof.
  assert (match sample_path db_cfg db_vars 5 with
          | Some (_, _, _, s, _) => match history s with Postgres p => length (table p) =? 1 | Noop => false end
          | None => false
          end = true) as Hc by (vm_compute; reflexivity).
  destruct (sample_path _ _ _) as [[[[[srv a] resp] s] t]|] eqn:Hp; [|done].
  apply sample_path_reachable in Hp as [Hb Hreach]. destruct (history s) as [|p] eqn:Hh; [done|]. apply Nat.eqb_eq in Hc.
  exists srv, (sample_server srv a resp s t), p. exact (conj Hb (conj Hreach (conj Hh Hc))).
Qed.

Lemma process_history_sound_witness : ∃ (sv : Server Recorder) (rows : list HistoryEntry) p r,
  history (sv_shared sv) = Postgres p ∧ length (table p) = 1 ∧ inserted [] rows = [r] ∧
  table p = [row_of default_stored_response_body_max_bytes r].
Proof.
  destruct sample_db_process as (srv & sv & p & Hb & Hr & Hp & Hl).
  destruct (process_history_sound _ _ _ _ _ _ Hb Hr) as (recorder & rows & Hrec & _ & Hrows & Hpg).
  destruct recorder as [|p0]; [vm_compute in Hrec; discriminate|].
  destruct (Hpg p0 eq_refl) as (p' & Hp' & Ht & _). rewrite Hp in Hp'. injection Hp' as <-.
  change (executes (driver sample_boot)) with ([] : list bool) in Ht.
  assert (∃ r, inserted [] rows = [r]) as [r Hin].
  { rewrite Ht, length_fmap in Hl. destruct (inserted [] rows) as [|r [|? ?]]; [discriminate Hl| |discriminate Hl]. by exists r. }
  exists sv, rows, p, r. rewrite Hin in Ht. exact (conj Hp (conj Hl (conj Hin Ht))).
Defined.
