(* ===== verification/ProcessEffects.v ===== *)
(** * What a process does to the world (src/executor, src/router.rs, src/main.rs)

    The effects of an attempt are its name lookups, requests, spawns and kills. Whatever a
    process outside dev runs, and whatever its attempts meet, no effect of them leaves what
    the validation, the configuration and the SSRF check allow. *)
From S2P Require Import Prelude RStr Ip Errors Security Dsl History Config EnvSafety Libs Loader Dispatch DispatchSteps Scheduler SchedulerSteps SchedulerMethods JobTypes Middleware Router Signal Boot Server ServerSteps ServerCauses ServerServe ServerLive Process.
From S2P Require HttpExec ShellExec.

Inductive Effect := HttpEffect (io : HttpExec.HttpIo) | ShellEffect (io : ShellExec.ShellIo).
#[local] Existing Instance HttpExec.HttpIo_eq_dec.
#[local] Existing Instance ShellExec.ShellIo_eq_dec.
#[export] Instance Effect_eq_dec : EqDecision Effect.
Proof. solve_decision. Defined.

(** The effects of one attempt of [sp] in the surroundings [w]. *)
Definition attempt_io `{Libs} (b : ExecutorBundle) (sp : JobSpec) (extras : list (string * string)) (w : AttemptWorld) : list Effect :=
  match kind sp with
  | Http method url headers => HttpEffect <$> (HttpExec.execute (attempt_env w) (net w) (http b) method url headers).1
  | Exec argv allowed => ShellEffect <$> ShellExec.io (ShellExec.execute (Dispatch.sys w) (shell b) argv allowed extras)
  end.
(** The job that a task dispatches, with its overrides. *)
Definition dispatched (t : Thread) : option (JobSpec * list (string * string)) :=
  match t with
  | Loop sp _ _ (LRun (Dispatching _ _)) => Some (sp, [])
  | Trigger _ extras (TRun sp _ (Dispatching _ _)) => Some (sp, extras)
  | _ => None
  end.

(** What an attempt of [sp] may do. *)
Definition effect_safe `{Libs} (cfg : AppConfig) (b : ExecutorBundle) (sp : JobSpec) (extras : list (string * string))
    (w : AttemptWorld) (e : Effect) : Prop :=
  match kind sp, e with
  | Http method url headers, HttpEffect (HttpExec.Lookup target) =>
      ∃ parsed name, url_parse url = Ok parsed ∧ host_str parsed = Some name ∧ target = HttpExec.dns_target parsed name
  | Http method url headers, HttpEffect (HttpExec.Send r) =>
      HttpExec.req_url r = url ∧ HttpExec.req_method r ∈ KNOWN_METHODS ∧
      (∀ n v, (n, v) ∈ HttpExec.req_headers r → (n ∉ FORBIDDEN_HEADERS) ∧ header_value_from_str v = true) ∧
      HttpExec.address_checked (net w) (http b)
        (HttpExec.execute (attempt_env w) (net w) (http b) method url headers).1 url r
  | Exec argv allowed, ShellEffect (ShellExec.DoSpawn s) =>
      argv = ShellExec.program s :: ShellExec.args s ∧ ShellExec.cwd s = app_root_path cfg ∧
      ∀ k v, ShellExec.child_env s !! k = Some v →
        k ∈ allowed ∧ (is_dangerous_env k = true → shell_environment cfg !! k = Some v)
  | Exec _ _, ShellEffect ShellExec.DoKill => True
  | _, _ => False
  end.

(** ** One attempt *)
Section attempt.
Context `{LibLaws}.

Lemma upper_ascii c : is_ascii_byte (ascii_upper c) = is_ascii_byte c.
Proof. revert c. byte_cases. Qed.

Lemma known_method m : to_ascii_uppercase m ∈ KNOWN_METHODS → str_to_uppercase m ∈ KNOWN_METHODS.
Proof.
  intros Hin. rewrite to_uppercase_ascii; [done|].
  assert (all_ascii (to_ascii_uppercase m) = all_ascii m) as <-.
  { unfold all_ascii, to_ascii_uppercase. rewrite str_all_map. clear Hin. induction m as [|c m IH]; [done|].
    cbn [str_all]. by rewrite upper_ascii, IH. }
  assert (forallb all_ascii KNOWN_METHODS = true) as Hall by reflexivity.
  rewrite forallb_forall in Hall. by apply Hall, list_elem_of_In.
Qed.

Lemma last_override_harmless k (extras : list (string * string)) :
  Forall (λ kv, is_dangerous_env kv.1 = false) extras → is_dangerous_env k = true →
  ShellExec.last_override k extras = None.
Proof.
  unfold ShellExec.last_override. intros Hf Hk. induction Hf as [|[k' v] extras Hd _ IH]; [done|]. cbn.
  destruct (String.eqb_spec k' k) as [->|]; [cbn in Hd; congruence|done].
Qed.

Lemma attempt_effects_safe cfg vars sp extras w e :
  block_private_networks (security cfg) = true → valid_job cfg vars sp →
  Forall (λ kv, is_dangerous_env kv.1 = false) extras →
  e ∈ attempt_io (bundle_new vars cfg) sp extras w → effect_safe cfg (bundle_new vars cfg) sp extras w e.
Proof.
  intros Hblock (_ & _ & Hk) Hex. unfold attempt_io, effect_safe. destruct (kind sp) as [method url headers|argv allowed].
  - destruct Hk as (Hm & Hu & Hh). intros ([target|r] & -> & Hin)%list_elem_of_fmap; [by apply HttpExec.execute_lookup in Hin|].
    pose proof Hin as Hs. apply HttpExec.execute_sent in Hs as (io & hs & _ & Hc & -> & _). cbn.
    split_and!; [done|by apply known_method| |].
    + intros n v Hnv. destruct (HttpExec.sent_headers _ _ _ _ _ Hc Hnv) as (Hv & h & Hh' & <-).
      rewrite Forall_forall in Hh. by destruct (Hh h Hh') as (_ & ? & _).
    + by eapply (HttpExec.no_send_to_blocked_address _ _ _ (boot_policy cfg vars)).
  - intros ([s|] & -> & Hin)%list_elem_of_fmap; [|done]. apply ShellExec.execute_spawns in Hin as (-> & -> & ->).
    split_and!; [done..|]. intros k v. rewrite ShellExec.child_environment_spec.
    destruct (decide (k ∈ allowed)); [|done]. intros Hv. split; [done|]. intros Hd.
    by rewrite (last_override_harmless k extras Hex Hd) in Hv.
Qed.
End attempt.

(** ** The whole process *)
Section process.
Context `{LibLaws} `{Axum}.

(** What a task dispatches is valid, and a harmful override never gets that far. *)
Lemma dispatched_sound cfg vars w srv signals sv x sp extras :
  boot cfg vars w = Some (Ok srv) → process_reachable vars w srv signals sv →
  x ∈ sv_tasks sv → dispatched (task_thread x) = Some (sp, extras) →
  valid_job cfg vars sp ∧ harmless (state srv) extras.
Proof.
  intros Hb Hr Hx Hd. pose proof (process_inv _ _ _ _ _ _ Hb Hr) as [Hwf [_ Ht] Hca]. cbn [server_sys fst snd] in *.
  pose proof (Ht _ (list_elem_of_fmap_2 task_thread _ _ Hx)) as Htt. pose proof (Hca x Hx) as Hc.
  unfold tasks_wf in Hwf. rewrite Forall_forall in Hwf. specialize (Hwf x Hx). destruct x as [t|req rpc]; cbn [task_thread] in *.
  - destruct t as [sp' expr cell [| | | | |[|tok dpc| |]]|k ex [| |sp' cell [|tok dpc| |]]| | | | | |]; try done; injection Hd as -> <-.
    + destruct Htt. split; [done|]. by intros _.
    + destruct Htt. split; [done|]. subst. destruct Hc as (? & ? & _ & _ & ? & ? & _ & _ & _ & Ho). by apply refused_none.
  - exfalso. destruct rpc as [| | |t|n t| | | | | |]; try done; cbn [pc_thread task_wf pc_wf] in *;
      by destruct t as [|k' ex [| |sp' cell [| | |]]| | | | | |].
Qed.
End process.

(** C5: outside dev nothing that a process does while it serves leaves the bounds it was
    configured with, whatever was requested, reloaded or answered, and however its tasks were
    interleaved. An attempt looks up the host of its job's URL only. It sends requests to
    that URL only, by a known method, with no forbidden header and no value that breaks a
    header line, after every address of the host passed the SSRF check. It spawns the
    program of its job only, in the root of the application, and the environment of the
    child has allowed names only, a dangerous one only with the operator's own value. *)
Theorem process_effects_are_safe `{LibLaws} `{Axum} cfg vars w srv signals sv x sp extras a e :
  requires_prod_creds (from_env vars) = true →
  boot cfg vars w = Some (Ok srv) → process_reachable vars w srv signals sv →
  x ∈ sv_tasks sv → dispatched (task_thread x) = Some (sp, extras) →
  e ∈ attempt_io (bundle srv) sp extras a → effect_safe cfg (bundle srv) sp extras a e.
Proof.
  intros Hprod Hb Hr Hx Hd He. destruct (dispatched_sound _ _ _ _ _ _ _ _ _ Hb Hr Hx Hd) as [Hv Hh].
  destruct (boot_locks_down _ _ _ _ Hprod Hb) as (_ & Hallow & Hblock & _).
  apply boot_ok in Hb as (_ & recorder & jobs & _ & _ & ->). cbn [state bundle] in *.
  apply (attempt_effects_safe _ _ _ _ _ _ Hblock Hv (Hh Hallow) He).
Qed.

(** ** A process outside dev whose requested run sends its request *)
#[local] Existing Instance Sample.libs.
#[local] Existing Instance Sample.libs_laws.
#[local] Existing Instance SampleAxum.axum.
Definition public_world : AttemptWorld :=
  mkAttempt 0 1 ∅ (HttpExec.mkHttpWorld (λ _, Ok [V4 (V4Addr 93 184 216 34)]) (λ _, HttpExec.SendCancelled))
    (ShellExec.world_of (ShellExec.child_of None None)) Slept.
Definition sample_sent : HttpExec.Request := HttpExec.mkRequest "GET" "https://example.org/ping" [("x-source", "cron")].

Lemma sample_dispatch : ∃ srv sv x sp extras,
  boot AppConfig_default sample_vars sample_boot = Some (Ok srv) ∧
  process_reachable sample_vars sample_boot srv sample_signals sv ∧ x ∈ sv_tasks sv ∧
  dispatched (task_thread x) = Some (sp, extras) ∧
  HttpEffect (HttpExec.Send sample_sent) ∈ attempt_io (bundle srv) sp extras public_world.
Proof.
  assert (match sample_path AppConfig_default sample_vars 0 with
          | Some (srv, _, _, _, t) =>
              match dispatched t with
              | Some (sp, extras) => bool_decide (HttpEffect (HttpExec.Send sample_sent) ∈ attempt_io (bundle srv) sp extras public_world)
              | None => false
              end
          | None => false
          end = true) as Hc by (vm_compute; reflexivity).
  destruct (sample_path _ _ _) as [[[[[srv a] resp] s] t]|] eqn:Hp; [|discriminate Hc].
  destruct (dispatched t) as [[sp extras]|] eqn:Hd; [|discriminate Hc].
  apply bool_decide_eq_true in Hc. apply sample_path_reachable in Hp as [Hb Hreach].
  exists srv, (sample_server srv a resp s t), (TThread t), sp, extras.
  split; [exact Hb|]. split; [exact Hreach|]. split; [|exact (conj Hd Hc)].
  unfold sample_server. cbn [sv_tasks]. apply elem_of_app. right. by left.
Qed.

Lemma process_effects_are_safe_witness : ∃ srv (sv : Server Recorder) x sp extras,
  x ∈ sv_tasks sv ∧ dispatched (task_thread x) = Some (sp, extras) ∧
  effect_safe AppConfig_default (bundle srv) sp extras public_world (HttpEffect (HttpExec.Send sample_sent)).
Proof.
  destruct sample_dispatch as (srv & sv & x & sp & extras & Hb & Hr & Hx & Hd & He). exists srv, sv, x, sp, extras.
  split; [exact Hx|]. split; [exact Hd|].
  assert (requires_prod_creds (from_env sample_vars) = true) as Hprod by (vm_compute; reflexivity).
  exact (process_effects_are_safe _ _ _ _ _ _ _ _ _ _ _ Hprod Hb Hr Hx Hd He).
Defined.
