(* ===== verification/Schedules.v ===== *)
(** * Cron jobs stay scheduled (src/scheduler.rs, src/main.rs)

    A registration and its loop share the cell of the job's runtime state. In every state
    that the scheduler can reach a registered job with a cron expression has its loop, unless
    its schedule came to an end; nothing that happens to a process takes it away, and when
    the job does not run its loop alone can start it. *)
From S2P Require Import Prelude RStr Errors Dsl History Config EnvSafety Libs Loader Dispatch DispatchSteps Scheduler SchedulerSteps SchedulerMethods JobTypes Middleware Router Signal Boot Server ServerExec ServerSteps ServerCauses ServerServe ServerLive Process.

Section loops.
Context `{Libs} {R : Type} `{HistoryRecorder R} (b : ExecutorBundle).
Implicit Types (s : Shared R) (ts : list Thread).

(** The schedule of [expr] has no fire after some moment, or does not parse. *)
Definition over (expr : string) : Prop :=
  match cron_from_str expr with Ok sch => ∃ t, upcoming_next sch t = None | Err _ => True end.
(** A loop of [sp] that writes [cell] is among the tasks, or its schedule is over. *)
Definition looping ts (sp : JobSpec) (expr : string) (cell : nat) : Prop :=
  (∃ pc, Loop sp expr cell pc ∈ ts) ∨ over expr.

Record Sched (y : Sys R) : Prop := mkSched
  { sched_jobs : ∀ k j expr, jobs y.1 !! k = Some j → trigger (reg_spec j) = Cron expr →
      looping y.2 (reg_spec j) expr (Scheduler.state j);
    sched_insert : ∀ sp todo cell expr, Registering (sp :: todo) (RInsert cell) ∈ y.2 → trigger sp = Cron expr →
      looping y.2 sp expr cell }.

(** A loop goes on until its schedule is over. *)
Lemma loop_stays inp sp expr cell pc s s' t' :
  loop_step b inp sp expr cell pc s = (s', t') → t' ≠ Panicked →
  (∃ pc', t' = Loop sp expr cell pc') ∨ over expr.
Proof.
  unfold over. destruct pc as [| |due|m| |pc]; cbn.
  - intros [= <- <-] _. destruct (cron_from_str expr); eauto.
  - intros [= <- <-] _. destruct (cron_from_str expr) as [sch|]; [|by right].
    destruct (upcoming_next sch (now inp)) eqn:Hn; eauto.
  - intros Hs _. repeat case_match; simplify_eq; eauto.
  - intros [= <- <-] _. eauto.
  - intros Hs _. destruct (begin_running _ _ _ _); simplify_eq; eauto.
  - intros Hs Hp. destruct (run_step _ _ _ _ _ _ _ _) as [s1 r]. injection Hs as <- <-. destruct r; eauto. done.
Qed.

Lemma thread_step_jobs inp t s s' t' sp :
  thread_step b inp t s = Some (s', t', sp) →
  match t with Registering _ _ | ReloadClear _ => True | _ => jobs s' = jobs s end.
Proof.
  intros Hs. destruct t as [spec expr cell pc|k extras pc|k chk|todo pc|l|l| |]; cbn [thread_step] in Hs; try done.
  - destruct (loop_step _ _ _ _ _ _ _) as [s1 t1] eqn:Hl. injection Hs as <- <- <-. destruct pc as [| |due|m| |pc]; cbn in Hl.
    1-4: repeat case_match; by simplify_eq.
    + destruct (begin_running _ _ _ _) as [s2|] eqn:Hb; simplify_eq; [|done]. by apply begin_running_ok in Hb as (_ & _ & _ & _ & ? & _).
    + pose proof (run_step_cells b inp (Dsl.key spec) spec [] cell pc s) as [_ Hj].
      destruct (run_step _ _ _ _ _ _ _ _). by injection Hl as <- _.
  - destruct (trigger_step _ _ _ _ _ _) as [s1 t1] eqn:Hl. injection Hs as <- <- <-. destruct pc as [|spec cell|spec cell pc]; cbn in Hl.
    + by injection Hl as <- _.
    + destruct (begin_running _ _ _ _) as [s2|] eqn:Hb; simplify_eq; [|done]. by apply begin_running_ok in Hb as (_ & _ & _ & _ & ? & _).
    + pose proof (run_step_cells b inp k spec extras cell pc s) as [_ Hj].
      destruct (run_step _ _ _ _ _ _ _ _). by injection Hl as <- _.
  - destruct chk; injection Hs as <- _ _; [by destruct (running s !! k)|done].
  - by injection Hs as <- _ _.
Qed.

(** The loops that were there are still there after a section of any task. *)
Lemma looping_step inp ts i t s s' t' spawned sp expr cell :
  ts !! i = Some t → thread_step b inp t s = Some (s', t', spawned) → t' ≠ Panicked →
  looping ts sp expr cell → looping (<[i := t']> ts ++ spawned) sp expr cell.
Proof.
  intros Hi Hs Hp [[pc Hin]|Ho]; [|by right]. apply list_elem_of_lookup_1 in Hin as [j Hj].
  destruct (decide (i = j)) as [<-|Hne].
  - rewrite Hi in Hj. injection Hj as ->. cbn [thread_step] in Hs.
    destruct (loop_step _ _ _ _ _ _ _) as [s1 t1] eqn:Hl. injection Hs as <- <- <-.
    destruct (loop_stays _ _ _ _ _ _ _ _ Hl Hp) as [[pc' ->]|?]; [|by right]. left. exists pc'.
    apply elem_of_app. left. by eapply list_elem_of_lookup_2, list_lookup_insert_eq, lookup_lt_Some.
  - left. exists pc. apply elem_of_app. left. apply (list_elem_of_lookup_2 _ j). by rewrite list_lookup_insert_ne.
Qed.

Lemma looping_mono ts ts' sp expr cell : ts ⊆ ts' → looping ts sp expr cell → looping ts' sp expr cell.
Proof. intros Hsub [[pc Hin]|Ho]; [|by right]. left. exists pc. by apply Hsub. Qed.

(** What a section registers, and what it is about to. *)
Lemma thread_step_registers inp t s s' t' spawned :
  thread_step b inp t s = Some (s', t', spawned) →
  (∀ k j, jobs s' !! k = Some j → jobs s !! k = Some j ∨
     ∃ todo, t = Registering (reg_spec j :: todo) (RInsert (Scheduler.state j))) ∧
  (∀ sp todo cell expr, t' = Registering (sp :: todo) (RInsert cell) → trigger sp = Cron expr →
     Loop sp expr cell LStart ∈ spawned) ∧
  ∀ sp todo cell, Registering (sp :: todo) (RInsert cell) ∉ spawned.
Proof.
  intros Hs. pose proof (thread_step_jobs _ _ _ _ _ _ Hs) as Hj.
  destruct t as [spec expr cell pc|k extras pc|k chk|todo pc|l|l| |]; cbn [thread_step] in Hs; try done.
  - destruct (loop_step _ _ _ _ _ _ _) as [s1 t1] eqn:Hl. injection Hs as <- <- <-. rewrite Hj.
    split_and!; [by left| |by intros ??? ?%not_elem_of_nil]. intros sp todo c e ->.
    destruct pc; cbn in Hl; repeat case_match; by simplify_eq.
  - destruct (trigger_step _ _ _ _ _ _) as [s1 t1] eqn:Hl. injection Hs as <- <- <-. rewrite Hj.
    split_and!; [by left| |by intros ??? ?%not_elem_of_nil]. intros sp todo c e ->.
    destruct pc; cbn in Hl; repeat case_match; by simplify_eq.
  - destruct chk; injection Hs as <- <- <-; rewrite ?Hj; (split_and!; [by left| |by intros ??? ?%not_elem_of_nil]).
    + done.
    + by destruct (jobs s !! k).
  - destruct todo as [|sp todo]; [cbn in Hs; injection Hs as <- <- <-; split_and!; [by left|done|by intros ??? ?%not_elem_of_nil]|].
    destruct pc as [|cell|cell]; cbn in Hs; injection Hs as <- <- <-.
    + split_and!; [|done|by intros ??? ?%not_elem_of_nil]. intros k j. cbn. rewrite lookup_delete_Some. intros [_ ?]. by left.
    + split_and!; [by left| |].
      * intros sp' todo' c e [= -> -> ->] ->. by left.
      * intros sp' todo' c. destruct (trigger sp); [by intros ?%list_elem_of_singleton|apply not_elem_of_nil].
    + split_and!; [|done|by intros ??? ?%not_elem_of_nil].
      intros k j. cbn. rewrite lookup_insert_Some. intros [[<- <-]|[_ ?]]; [right; by exists todo|by left].
  - injection Hs as <- <- <-. split_and!; [by left|done|by intros ??? ?%not_elem_of_nil].
  - injection Hs as <- <- <-. split_and!; [|done|by intros ??? ?%not_elem_of_nil]. intros k j. cbn. by rewrite lookup_empty.
Qed.

Lemma sched_step y y' : Inv y' → Sched y → step b y y' → Sched y'.
Proof.
  intros Hinv [Hj Hi] Hstep. destruct Hstep as [s ts t Hc|s ts i t inp s' t' spawned Ht Hs]; cbn [fst snd] in *.
  - split; cbn [fst snd].
    + intros k j expr Hk Htr. eapply looping_mono; [|by eapply Hj]. intros u Hu. apply elem_of_app. by left.
    + intros sp todo cell expr [Hin|Hin%list_elem_of_singleton]%elem_of_app Htr; [|by subst t].
      eapply looping_mono; [|by eapply Hi]. intros u Hu. apply elem_of_app. by left.
  - assert (t' ≠ Panicked) as Hp.
    { intros ->. apply (inv_panic _ Hinv). cbn [snd]. apply elem_of_app. left.
      by eapply list_elem_of_lookup_2, list_lookup_insert_eq, lookup_lt_Some. }
    destruct (thread_step_registers _ _ _ _ _ _ Hs) as (Hreg & Hins & Hsp). split; cbn [fst snd].
    + intros k j expr Hk Htr. eapply looping_step; [done|exact Hs|done|].
      destruct (Hreg k j Hk) as [Hk0|[todo ->]]; [by eapply Hj|].
      eapply Hi; [by eapply list_elem_of_lookup_2|done].
    + intros sp todo cell expr [Hin|Hin]%elem_of_app Htr; [|by apply Hsp in Hin].
      apply elem_of_insert in Hin as [Ht2|Hin].
      * left. exists LStart. apply elem_of_app. right. by eapply (Hins sp todo cell expr).
      * eapply looping_step; [done|exact Hs|done|]. by eapply Hi.
Qed.

Lemma sched_reachable h y : SchedulerSteps.reachable b h y → Sched y.
Proof.
  intros Hr. assert (Inv y ∧ Sched y) as [_ ?]; [|done]. unfold reachable in Hr. revert Hr.
  apply (rtc_ind_r (λ y, Inv y ∧ Sched y)).
  - split; [apply inv_init|]. split; [intros k j expr; cbn; by rewrite lookup_empty|by intros ???? ?%not_elem_of_nil].
  - intros y1 y2 _ Hs [Hinv Hsch]. pose proof (inv_step b _ _ Hinv Hs) as Hinv'. split; [done|]. by eapply sched_step.
Qed.
End loops.

(** ** A loop alone starts its job *)
Section progress.
Context `{Libs} `{Axum} {R : Type} `{HistoryRecorder R}.
Context (st : AppState) (b : ExecutorBundle) (vars : Env) (root : PathBuf) (signals : Signals).
Implicit Types (s : Shared R) (g : ReloadGate) (ts : list Task).
Local Abbreviation sstep := (server_step st b vars root signals).

(** How many sections a loop at [pc] is from its next run. *)
Definition distance (pc : LoopPc) : nat :=
  match pc with LStart => 4 | LSkipped _ => 4 | LWait => 3 | LSleep _ => 2 | LBegin => 1 | LRun _ => 0 end.

(** One of these sections. *)
Lemma loop_advances sp expr cell pc s :
  (∀ sch t, cron_from_str expr = Ok sch → is_Some (upcoming_next sch t)) → is_ok (cron_from_str expr) = true →
  end_ms (window sp) = None → running s !! Dsl.key sp = None → (∀ rpc, pc ≠ LRun rpc) →
  ∃ inp s' pc', thread_step b inp (Loop sp expr cell pc) s = Some (s', Loop sp expr cell pc', []) ∧
    S (distance pc') = distance pc ∧
    ((running s' !! Dsl.key sp = None ∧ ∀ rpc, pc' ≠ LRun rpc) ∨ ∃ rpc, pc' = LRun rpc ∧ is_Some (running s' !! Dsl.key sp)).
Proof.
  intros Hsch Hok Hend Hrun Hpc. destruct (cron_from_str expr) as [sch|] eqn:Hp; [|done].
  destruct pc as [| |due|m| |rpc]; [| | | | |by specialize (Hpc rpc)]; cbn [thread_step loop_step]; rewrite ?Hp.
  - exists any_input, s, LWait. split_and!; [done..|by left].
  - destruct (Hsch sch (now any_input) eq_refl) as [t Ht]. exists any_input, s, (LSleep t). rewrite Ht. split_and!; [done..|by left].
  - set (t := Z.max due (default due (start_ms (window sp)))). exists (mkInput t (surroundings any_input) false), s, LBegin. cbn [now].
    destruct (Z.ltb_spec t due); [lia|]. assert (allows (window sp) t = true) as ->.
    { apply allows_iff. rewrite Hend. split; [|done]. intros t0 Ht0. unfold t. rewrite Ht0. cbn. lia. }
    split_and!; [done..|by left].
  - exists any_input, (record_skip cell m s), LWait. split_and!; [done..|by left].
  - unfold begin_running. rewrite Hrun. exists any_input. do 2 eexists. split_and!; [done|done|]. right. eexists. split; [done|].
    cbn. rewrite lookup_insert_eq. eauto.
Qed.

Lemma loop_starts n sp expr cell pc s g ts ph i :
  (∀ sch t, cron_from_str expr = Ok sch → is_Some (upcoming_next sch t)) → is_ok (cron_from_str expr) = true →
  end_ms (window sp) = None → ph ≠ Exited → distance pc = n → (∀ rpc, pc ≠ LRun rpc) →
  ts !! i = Some (TThread (Loop sp expr cell pc)) → running s !! Dsl.key sp = None →
  ∃ inputs sv', length inputs = n ∧
    exec_all st b vars root signals (MThread i <$> inputs) (mkServer s g ts ph) = Some sv' ∧
    (∃ rpc, sv_tasks sv' !! i = Some (TThread (Loop sp expr cell (LRun rpc)))) ∧
    is_Some (running (sv_shared sv') !! Dsl.key sp).
Proof.
  intros Hsch Hok Hend Hph. revert pc s ts. induction n as [|n IH]; intros pc s ts Hn Hpc Hi Hrun.
  { destruct pc; try discriminate Hn. by destruct (Hpc pc). }
  destruct (loop_advances sp expr cell pc s Hsch Hok Hend Hrun Hpc) as (inp & s' & pc' & Ht & Hd & Hc).
  assert (exec st b vars root signals (MThread i inp) (mkServer s g ts ph) =
    Some (mkServer s' g (<[i := TThread (Loop sp expr cell pc')]> ts) ph)) as Hx.
  { cbn [exec]. rewrite Hi, Ht. cbn. rewrite app_nil_r. by destruct ph. }
  assert (<[i := TThread (Loop sp expr cell pc')]> ts !! i = Some (TThread (Loop sp expr cell pc'))) as Hi'
    by by eapply list_lookup_insert_eq, lookup_lt_Some.
  destruct Hc as [[Hrun' Hpc']|(rpc & -> & Hrun')].
  - destruct (IH pc' s' _ ltac:(lia) Hpc' Hi' Hrun') as (inputs & sv' & Hl & Hs & Ho). exists (inp :: inputs), sv'.
    split_and!; [cbn; lia| |apply Ho..]. cbn [fmap list_fmap exec_all]. by rewrite Hx.
  - cbn in Hd. assert (n = 0) as -> by lia. exists [inp]. eexists. cbn [fmap list_fmap exec_all]. rewrite Hx.
    split_and!; [done|reflexivity|by exists rpc|done].
Qed.
End progress.

(** C10: a job of a process that booted stays scheduled: whatever was requested, reloaded,
    stopped or run, a registered job with a cron expression has a loop that fires this very
    registration and writes the state that [/jobs] shows for it, unless its schedule has no
    fire left. When the job does not run, its window has no end ([endDate] is not set) and
    its schedule never ends, then at most four sections of that loop, on its own and at
    suitable times, start a run of the job, in which the loop then is. *)
Theorem cron_jobs_stay_scheduled `{LibLaws} `{Axum} cfg vars w srv signals sv k j expr :
  boot cfg vars w = Some (Ok srv) → process_reachable vars w srv signals sv →
  jobs (sv_shared sv) !! k = Some j → trigger (reg_spec j) = Cron expr →
  (∃ sch t, cron_from_str expr = Ok sch ∧ upcoming_next sch t = None) ∨
  ∃ i pc, sv_tasks sv !! i = Some (TThread (Loop (reg_spec j) expr (Scheduler.state j) pc)) ∧
    (sv_phase sv ≠ Exited → running (sv_shared sv) !! k = None → end_ms (window (reg_spec j)) = None →
     (∀ sch t, cron_from_str expr = Ok sch → is_Some (upcoming_next sch t)) →
     ∃ inputs sv', length inputs ≤ 4 ∧
       exec_all (state srv) (bundle srv) vars (tree_root w) signals (MThread i <$> inputs) sv = Some sv' ∧
       (∃ rpc, sv_tasks sv' !! i = Some (TThread (Loop (reg_spec j) expr (Scheduler.state j) (LRun rpc)))) ∧
       is_Some (running (sv_shared sv') !! k)).
Proof.
  intros Hb Hr Hj Htr. destruct (process_reaches _ _ _ _ _ _ Hb Hr) as (recorder & _ & (y & Hy & Hs) & Hwf).
  pose proof (process_inv _ _ _ _ _ _ Hb Hr) as [_ [Hty _] _]. destruct (Hty k j Hj) as [(Hparse & _) Hk].
  specialize (Hparse expr Htr). apply sched_reachable in Hy as [Hsch _]. destruct Hs as [Hs1 Hs2]. cbn [server_sys fst snd] in *.
  destruct (Hsch k j expr) as [[pc Hin]|Ho]; [by rewrite Hs1|done| |].
  2: { left. unfold over in Ho. destruct (cron_from_str expr) as [sch|]; [|done]. destruct Ho as [t Ht]. by exists sch, t. }
  right. apply (live_exists _ _ _ Hs2) in Hin; [|done]. apply list_elem_of_fmap in Hin as (x & Hx & Hin).
  assert (x = TThread (Loop (reg_spec j) expr (Scheduler.state j) pc)) as ->.
  { unfold tasks_wf in Hwf. rewrite Forall_forall in Hwf. specialize (Hwf x Hin). destruct x as [t|req rpc]; [by cbn in Hx; subst|].
    exfalso. destruct rpc; cbn in *; try done; by subst. }
  pose proof Hin as [i Hi]%list_elem_of_lookup_1. exists i, pc.
  split; [done|]. intros Hph Hrun Hend Hnext. pose proof (process_scheduler_inv _ _ _ _ _ _ Hb Hr) as Hinv.
  assert (∀ rpc, pc ≠ LRun rpc) as Hpc.
  { intros rpc ->. assert (is_Some (running (sv_shared sv) !! k)) as [? Hsome]; [|by rewrite Hrun in Hsome].
    apply (inv_running _ Hinv), elem_of_owned. eexists. split; [by apply (list_elem_of_fmap_2 task_thread _ _ Hin)|]. cbn. by rewrite Hk. }
  destruct sv as [s g ts ph]. cbn [sv_shared sv_tasks sv_phase] in *. rewrite <- Hk in Hrun |- *.
  destruct (loop_starts (state srv) (bundle srv) vars (tree_root w) signals (distance pc) _ _ _ _ _ g _ _ _ Hnext Hparse Hend Hph eq_refl Hpc Hi Hrun)
    as (inputs & sv' & Hl & Hexec & Ht & Hsome).
  exists inputs, sv'. split_and!; [rewrite Hl; destruct pc; cbn; lia|done..].
Qed.

#[local] Existing Instance Sample.libs.
#[local] Existing Instance Sample.libs_laws.
#[local] Existing Instance SampleAxum.axum.
Definition sample_expr : string := "0 * * * * ?".
(** The job that boot registers at the key of the sample, unless its trigger or window differ. *)
Definition sample_job (srv : Serving) : option RegisteredJob :=
  j ← jobs (Boot.scheduler srv).1 !! sample_key;
  if bool_decide (trigger (reg_spec j) = Cron sample_expr) && bool_decide (end_ms (window (reg_spec j)) = None) &&
     bool_decide (running (Boot.scheduler srv).1 !! sample_key = None) then Some j else None.

Lemma sample_cron_job : ∃ srv j, boot AppConfig_default sample_vars sample_boot = Some (Ok srv) ∧ sample_job srv = Some j.
Proof.
  assert (match boot AppConfig_default sample_vars sample_boot with
          | Some (Ok srv) => bool_decide (is_Some (sample_job srv))
          | _ => false
          end = true) as Hc by (vm_compute; reflexivity).
  destruct (boot _ _ _) as [[srv|]|]; [|discriminate Hc..]. apply bool_decide_eq_true in Hc as [j Hj]. by exists srv, j.
Qed.

Lemma cron_jobs_stay_scheduled_witness : ∃ srv i inputs sv', length inputs ≤ 4 ∧
  exec_all (state srv) (bundle srv) sample_vars ["jobs"] sample_signals (MThread i <$> inputs) (serving (app srv)) = Some sv' ∧
  is_Some (running (sv_shared sv') !! sample_key).
Proof.
  destruct sample_cron_job as (srv & j & Hb & Hj). unfold sample_job in Hj.
  destruct (jobs (Boot.scheduler srv).1 !! sample_key) as [j'|] eqn:Hk; cbn [mbind option_bind] in Hj; [|discriminate Hj].
  destruct (bool_decide (trigger (reg_spec j') = Cron sample_expr)) eqn:Ht; [|discriminate Hj].
  destruct (bool_decide (end_ms (window (reg_spec j')) = None)) eqn:He; [|discriminate Hj].
  destruct (bool_decide (running (Boot.scheduler srv).1 !! sample_key = None)) eqn:Hr; [|discriminate Hj].
  apply bool_decide_eq_true in Ht, He, Hr.
  assert (process_reachable sample_vars sample_boot srv sample_signals (serving (app srv))) as Hreach by apply rtc_refl.
  destruct (cron_jobs_stay_scheduled AppConfig_default sample_vars sample_boot srv sample_signals (serving (app srv)) sample_key j'
    sample_expr Hb Hreach Hk Ht) as [(sch & t & _ & Hn)|(i & pc & _ & Hgo)]; [discriminate Hn|].
  destruct (Hgo ltac:(discriminate) Hr He) as (inputs & sv' & Hn & Hs & _ & Hsome); [intros sch t _; eexists; reflexivity|].
  exists srv, i, inputs, sv'. exact (conj Hn (conj Hs Hsome)).
Defined.
