(* ===== verification/Reports.v ===== *)
(** * What /jobs reports happened (src/scheduler.rs, src/executor/mod.rs)

    The last result that a snapshot shows for a job is the outcome of one of its fires, and
    the history has a row of that fire with a status that agrees. The invariant keeps the
    job of every cell, and for every task what it is about to write. *)
From S2P Require Import Prelude RStr Errors Dsl History Config EnvSafety Libs Loader Dispatch DispatchSteps Scheduler SchedulerSteps SchedulerMethods JobTypes Middleware Router Signal Boot Server ServerSteps ServerCauses ServerServe ServerLive Process Schedules.

(** A row with status [row] is what a fire with outcome [st] leaves last. *)
Definition backs (st row : ExecutionStatus) : bool :=
  match st, row with
  | Success, Success | Timeout, Timeout | Offline, Offline => true
  | Skipped, (Skipped | Failed) | Failed, (Failed | Retrying) => true
  | _, _ => false
  end.
Definition row_for (k : JobKey) (r : HistoryEntry) : Prop := job_name r = name k ∧ job_group r = group k.

Section backed.
Context `{Libs} {R : Type} `{HistoryRecorder R} (b : ExecutorBundle).
Implicit Types (s : Shared R) (rows : list HistoryEntry) (owners : list JobSpec).

(** [rows] has a row of [sp] that agrees with [st]. A job without attempts leaves none. *)
Definition backed rows (sp : JobSpec) (st : ExecutionStatus) : Prop :=
  (∃ r, r ∈ rows ∧ row_for (key sp) r ∧ backs st (hstatus r) = true) ∨ (max_attempts sp < 1)%Z.
Definition cell_backed rows (sp : JobSpec) (c : JobRuntimeState) : Prop :=
  c = JobRuntimeState_default ∨ ∃ st, last_result c = as_str st ∧ backed rows sp st.
Definition run_backed rows (sp : JobSpec) (pc : RunPc) : Prop :=
  match pc with
  | Finishing o => backed rows sp (status o)
  | Dispatching _ (DPause _ _) => backed rows sp Failed
  | _ => True
  end.
Definition thread_backed rows (t : Thread) : Prop :=
  match t with
  | Loop sp _ _ (LSkipped _) => backed rows sp Skipped
  | Loop sp _ _ (LRun pc) | Trigger _ _ (TRun sp _ pc) => run_backed rows sp pc
  | _ => True
  end.
(** The job whose cell a task writes. *)
Definition cell_user (t : Thread) : option (nat * JobSpec) :=
  match t with
  | Loop sp _ c _ | Trigger _ _ (TBegin sp c) | Trigger _ _ (TRun sp c _)
  | Registering (sp :: _) (RSpawn c) | Registering (sp :: _) (RInsert c) => Some (c, sp)
  | _ => None
  end.

Record Backed (rows : list HistoryEntry) (owners : list JobSpec) (y : Sys R) : Prop := mkBacked
  { bk_cells : Forall2 (cell_backed rows) owners (cells y.1);
    bk_jobs : ∀ k j, jobs y.1 !! k = Some j → owners !! Scheduler.state j = Some (reg_spec j);
    bk_users : ∀ t c sp, t ∈ y.2 → cell_user t = Some (c, sp) → owners !! c = Some sp;
    bk_tasks : ∀ t, t ∈ y.2 → thread_backed rows t }.

(** *** More rows *)
Lemma backed_more rows new sp st : backed rows sp st → backed (rows ++ new) sp st.
Proof. intros [(r & Hin & Hr)|?]; [|by right]. left. exists r. split; [|done]. apply elem_of_app. by left. Qed.
Lemma run_backed_more rows new sp pc : run_backed rows sp pc → run_backed (rows ++ new) sp pc.
Proof. destruct pc as [|? []| |]; cbn; try done; apply backed_more. Qed.
Lemma thread_backed_more rows new t : thread_backed rows t → thread_backed (rows ++ new) t.
Proof. destruct t as [? ? ? []|? ? []| | | | | |]; cbn; try done; try apply backed_more; apply run_backed_more. Qed.
Lemma cells_backed_more rows new owners cs :
  Forall2 (cell_backed rows) owners cs → Forall2 (cell_backed (rows ++ new)) owners cs.
Proof.
  intros Hf. eapply Forall2_impl; [exact Hf|]. intros sp c [?|(st & ? & ?)]; [by left|right].
  exists st. split; [done|by apply backed_more].
Qed.

Lemma backed_new rows sp st r : row_for (key sp) r → backs st (hstatus r) = true → backed (rows ++ [r]) sp st.
Proof. intros Hr Hb. left. exists r. split; [|done]. apply elem_of_app. right. by left. Qed.

(** *** A dispatch *)
Lemma row_for_attempt sp w i r : row_for (key sp) (attempt_row sp w i r).
Proof. unfold attempt_row. destruct (method_url _). by destruct r. Qed.
Lemma row_for_offline sp t : row_for (key sp) (offline_row sp t) ∧ hstatus (offline_row sp t) = Offline.
Proof. unfold offline_row. by destruct (method_url _). Qed.

Lemma dispatch_step_backed sp ov inp pc woken (h h' : R) n rows :
  dispatch_step b sp ov inp pc woken h = (h', n) → run_backed rows sp (Dispatching 0 pc) →
  ∃ new, h' = record_all new h ∧
    match n with
    | DGo pc' => run_backed (rows ++ new) sp (Dispatching 0 pc')
    | DEnd o => backed (rows ++ new) sp (status o)
    | DStay => True
    end.
Proof.
  destruct pc as [|i|i w|i w|i le]; cbn [dispatch_step].
  - unfold offline_stub. destruct (offline_mode b); [destruct (pending inp)|]; intros [= <- <-] _.
    + by exists [].
    + exists [offline_row sp (now inp)]. split; [done|]. destruct (row_for_offline sp (now inp)) as [? Hst].
      apply backed_new; [done|by rewrite Hst].
    + exists []. split; [done|]. destruct (Z.ltb_spec (max_attempts sp) 1); [by right|done].
  - intros [= <- <-] _. exists []. split; [done|]. destruct (pending inp); [done|]. by destruct (listens _ _ _ _).
  - intros [= <- <-] _. exists []. split; [done|]. by destruct (_ && _).
  - destruct (pending inp); [intros [= <- <-] _; by exists []|].
    destruct (attempt_result b sp ov (λ _, w) i) as [r|]; intros [= <- <-] _; [|by exists []]. eexists [_]. split; [reflexivity|].
    pose proof (row_for_attempt sp (λ _, w) i r) as Hr.
    pose proof (attempt_row_fields sp (λ _, w) i r) as (_ & _ & Hst). unfold status_for_history in Hst.
    destruct r as [x|e]; [by apply backed_new; [|rewrite Hst]|].
    destruct (is_shell_timeout e); [by apply backed_new; [|rewrite Hst]|].
    destruct (i <? max_attempts sp)%Z; [by apply backed_new; [|rewrite Hst]|].
    apply backed_new; [done|]. rewrite Hst. by destruct (ignore_failures (retry sp)).
  - intros [= <- <-] Hb. exists []. split; [done|]. rewrite app_nil_r.
    destruct (pause _); [by destruct (_ && _)|]. by destruct woken.
Qed.

(** The cells after a section: the same, or the outcome of the run is written. *)
Definition cell_effect rows (sp : JobSpec) (cell : nat) s s' : Prop :=
  cells s' = cells s ∨ ∃ c, cells s' = <[cell := c]> (cells s) ∧ cell_backed rows sp c.

Lemma run_step_backed inp k sp extras cell pc s s' r rows :
  run_step b inp k sp extras cell pc s = (s', r) → run_backed rows sp pc →
  ∃ new, history s' = record_all new (history s) ∧ cell_effect (rows ++ new) sp cell s s' ∧
    match r with RunTo pc' => run_backed (rows ++ new) sp pc' | _ => True end.
Proof.
  intros Hr Hb. destruct pc as [|token pc|o|]; cbn in Hr.
  - exists []. destruct (running s !! k); injection Hr as <- <-; (split_and!; [done|by left|done]).
  - destruct (dispatch_step _ _ _ _ _ _ _) as [h n] eqn:Hd. apply (dispatch_step_backed _ _ _ _ _ _ _ _ rows) in Hd as (new & -> & Hn); [|by destruct pc].
    exists new. set (s1 := set_history (record_all new (history s)) s) in *. pose proof (wait_fields token pc s1) as Hl.
    destruct Hl as (_ & _ & _ & _ & _ & _ & _ & Hlc & _ & Hlh). destruct n as [pc'|o|]; injection Hr as <- <-.
    + destruct (wait_fields token pc' (leave_wait token pc s1)) as (_ & _ & _ & _ & _ & _ & Hec & _ & Heh & _).
      split_and!; [by rewrite Heh, Hlh|left; by rewrite Hec, Hlc|]. by destruct pc'.
    + split_and!; [by rewrite Hlh|left; by rewrite Hlc|done].
    + split_and!; [done|by left|]. apply run_backed_more. by destruct pc.
  - injection Hr as <- <-. exists []. split_and!; [done| |done]. right. eexists. split; [reflexivity|]. right. exists (status o).
    rewrite app_nil_r. done.
  - injection Hr as <- <-. exists []. split_and!; [done|by left|done].
Qed.

(** *** Sections of a task *)
Lemma loop_step_backed inp sp expr cell pc s s' t' rows :
  loop_step b inp sp expr cell pc s = (s', t') → thread_backed rows (Loop sp expr cell pc) →
  ∃ new, history s' = record_all new (history s) ∧ cell_effect (rows ++ new) sp cell s s' ∧ thread_backed (rows ++ new) t'.
Proof.
  intros Hl Hb. destruct pc as [| |due|m| |pc]; cbn in Hl.
  1-2: injection Hl as <- <-; exists []; (split_and!; [done|by left|by repeat case_match]).
  - destruct (now inp <? due)%Z; [injection Hl as <- <-; exists []; by split_and!; [|left|]|].
    destruct (allows _ _); injection Hl as <- <-; [exists []; by split_and!; [|left|]|].
    exists [skipped_row sp (now inp)]. split_and!; [done|by left|]. by apply backed_new.
  - injection Hl as <- <-. exists []. split_and!; [done| |done]. right. eexists. split; [reflexivity|]. right. exists Skipped.
    split; [done|]. by rewrite app_nil_r.
  - exists []. rewrite app_nil_r. destruct (begin_running _ _ _ _) as [s2|] eqn:Hbr; injection Hl as <- <-; [|by split_and!; [|left|]].
    apply begin_running_ok in Hbr as (_ & _ & _ & _ & _ & Hc & Hh). split_and!; [done|by left|done].
  - destruct (run_step _ _ _ _ _ _ _ _) as [s2 r] eqn:Hr. apply (run_step_backed _ _ _ _ _ _ _ _ _ rows) in Hr as (new & ? & ? & ?); [|done].
    injection Hl as <- <-. exists new. split_and!; [done..|]. by destruct r.
Qed.

Lemma trigger_step_backed inp k extras pc s s' t' rows :
  trigger_step b inp k extras pc s = (s', t') → thread_backed rows (Trigger k extras pc) →
  ∃ new, history s' = record_all new (history s) ∧ thread_backed (rows ++ new) t' ∧
    (cells s' = cells s ∨ ∃ sp cell, cell_user (Trigger k extras pc) = Some (cell, sp) ∧ cell_effect (rows ++ new) sp cell s s').
Proof.
  intros Hl Hb. destruct pc as [|sp cell|sp cell pc]; cbn in Hl.
  - injection Hl as <- <-. exists []. split_and!; [done| |by left]. by destruct (lookup_job k s).
  - exists []. rewrite app_nil_r. destruct (begin_running _ _ _ _) as [s2|] eqn:Hbr; injection Hl as <- <-; [|by split_and!; [| |left]].
    apply begin_running_ok in Hbr as (_ & _ & _ & _ & _ & Hc & Hh). split_and!; [done|done|by left].
  - destruct (run_step _ _ _ _ _ _ _ _) as [s2 r] eqn:Hr. apply (run_step_backed _ _ _ _ _ _ _ _ _ rows) in Hr as (new & ? & ? & ?); [|done].
    injection Hl as <- <-. exists new. split_and!; [done|by destruct r|right; eauto].
Qed.

(** The owner of the cell that a section creates. *)
Definition fresh_owner (t : Thread) : list JobSpec :=
  match t with Registering (sp :: _) RRemove => [sp] | _ => [] end.

(** Rows and cells: a section writes the cell of its task or creates one. *)
Lemma thread_step_backed inp t s s' t' spawned rows :
  thread_step b inp t s = Some (s', t', spawned) → thread_backed rows t →
  ∃ new, history s' = record_all new (history s) ∧ thread_backed (rows ++ new) t' ∧
    ((∃ sp cell, cell_user t = Some (cell, sp) ∧ cell_effect (rows ++ new) sp cell s s' ∧ fresh_owner t = []) ∨
     cells s' = cells s ++ ((λ _, JobRuntimeState_default) <$> fresh_owner t)).
Proof.
  intros Hs Hb. destruct t as [sp expr cell pc|k extras pc|k chk|todo pc|l|l| |]; cbn [thread_step] in Hs; try done.
  - destruct (loop_step _ _ _ _ _ _ _) as [s1 t1] eqn:Hl. injection Hs as <- <- <-.
    destruct (loop_step_backed _ _ _ _ _ _ _ _ _ Hl Hb) as (new & ? & ? & ?). exists new. split_and!; [done..|left; eauto].
  - destruct (trigger_step _ _ _ _ _ _) as [s1 t1] eqn:Hl. injection Hs as <- <- <-.
    destruct (trigger_step_backed _ _ _ _ _ _ _ _ Hl Hb) as (new & ? & ? & [Hc|(sp & cell & ? & ?)]); exists new; (split_and!; [done..|]).
    + right. by rewrite Hc, app_nil_r.
    + left. eauto.
  - exists []. destruct chk; injection Hs as <- <- <-; (split_and!; [by destruct (running s !! k)|by destruct (jobs s !! k)|right]);
      rewrite app_nil_r; by destruct (running s !! k).
  - exists []. destruct todo as [|sp todo], pc as [|cell|cell]; cbn in Hs; injection Hs as <- <- <-; (split_and!; [done..|right]);
      by rewrite ?app_nil_r.
  - exists []. injection Hs as <- <- <-. split_and!; [done..|right]. by rewrite app_nil_r.
  - exists []. injection Hs as <- <- <-. split_and!; [done..|right]. by rewrite app_nil_r.
Qed.

(** The cell of a task is the one it had, that of the registration it found, or a new one. *)
Lemma thread_step_users inp t s s' t' spawned u c sp :
  thread_step b inp t s = Some (s', t', spawned) → u = t' ∨ u ∈ spawned → cell_user u = Some (c, sp) →
  cell_user t = Some (c, sp) ∨ (∃ k j, jobs s !! k = Some j ∧ Scheduler.state j = c ∧ reg_spec j = sp) ∨
  (c = length (cells s) ∧ fresh_owner t = [sp]).
Proof.
  intros Hs Hu Hc. destruct t as [sp0 expr cell pc|k extras pc|k chk|todo pc|l|l| |]; cbn [thread_step] in Hs; try done.
  - destruct (loop_step _ _ _ _ _ _ _) as [s1 t1] eqn:Hl. injection Hs as <- <- <-. apply single_spawn in Hu as ->. left.
    destruct pc; cbn in Hl; repeat case_match; by simplify_eq.
  - destruct (trigger_step _ _ _ _ _ _) as [s1 t1] eqn:Hl. injection Hs as <- <- <-. apply single_spawn in Hu as ->.
    destruct pc as [|sp0 cell|sp0 cell pc]; cbn in Hl; unfold lookup_job in Hl.
    + injection Hl as _ <-. destruct (jobs s !! k) as [j|] eqn:Hj; [|done]. injection Hc as <- <-. right. left. eauto.
    + left. destruct (begin_running _ _ _ _); by simplify_eq.
    + left. destruct (run_step _ _ _ _ _ _ _ _) as [s2 []]; by simplify_eq.
  - exfalso. destruct chk; injection Hs as _ <- <-; apply single_spawn in Hu as ->; [|destruct (jobs s !! k)]; done.
  - destruct todo as [|sp0 todo], pc as [|cell|cell]; cbn in Hs; injection Hs as _ <- <-.
    1-3: by apply single_spawn in Hu as ->.
    + apply single_spawn in Hu as ->. injection Hc as <- <-. by right; right.
    + left. destruct Hu as [->|Hu]; [done|]. destruct (trigger sp0); [|by apply not_elem_of_nil in Hu].
      apply list_elem_of_singleton in Hu as ->. done.
    + apply single_spawn in Hu as ->. by destruct todo.
  - injection Hs as _ <- <-. by apply single_spawn in Hu as ->.
  - injection Hs as _ <- <-. apply single_spawn in Hu as ->. by destruct l.
Qed.

Lemma spawned_backed inp t s s' t' spawned rows :
  thread_step b inp t s = Some (s', t', spawned) → Forall (thread_backed rows) spawned.
Proof.
  intros Hs. destruct t as [sp expr cell pc|k extras pc|k chk|todo pc|l|l| |]; cbn [thread_step] in Hs; try done.
  1-2: destruct (loop_step _ _ _ _ _ _ _) || destruct (trigger_step _ _ _ _ _ _); by injection Hs as _ _ <-.
  - by destruct chk; injection Hs as _ _ <-.
  - destruct todo as [|sp0 todo], pc as [|cell|cell]; cbn in Hs; injection Hs as _ _ <-; try done.
    destruct (trigger sp0); by repeat constructor.
  - by injection Hs as _ _ <-.
  - by injection Hs as _ _ <-.
Qed.

(** *** Steps *)
Lemma cells_write rows owners cs c cell sp :
  Forall2 (cell_backed rows) owners cs → owners !! cell = Some sp → cell_backed rows sp c →
  Forall2 (cell_backed rows) owners (<[cell := c]> cs).
Proof.
  intros Hf Ho Hc. replace owners with (<[cell := sp]> owners) by by apply list_insert_id. by apply Forall2_insert.
Qed.

Lemma backed_section inp i t s ts s' t' spawned rows owners :
  ts !! i = Some t → thread_step b inp t s = Some (s', t', spawned) → Backed rows owners (s, ts) →
  ∃ new own, history s' = record_all new (history s) ∧ Backed (rows ++ new) (owners ++ own) (s', <[i := t']> ts ++ spawned).
Proof.
  intros Hi Hs [Hcells Hjobs Husers Htasks]. pose proof (list_elem_of_lookup_2 _ _ _ Hi) as Hin. cbn [fst snd] in *.
  destruct (thread_step_backed _ _ _ _ _ _ rows Hs (Htasks t Hin)) as (new & Hh & Ht' & Heff).
  destruct (thread_step_registers b _ _ _ _ _ _ Hs) as (Hreg & _ & _). exists new, (fresh_owner t). split; [done|].
  assert (∀ c sp, owners !! c = Some sp → (owners ++ fresh_owner t) !! c = Some sp) as Hkeep by (intros; by apply lookup_app_l_Some).
  split; cbn [fst snd].
  - apply (cells_backed_more _ new) in Hcells. destruct Heff as [(sp & cell & Hu & [-> |(c & -> & Hc)] & ->)| ->].
    + by rewrite app_nil_r.
    + rewrite app_nil_r. eapply cells_write; [done| |done]. by apply (Husers t).
    + apply Forall2_app; [done|]. unfold fresh_owner. destruct t as [| | |[|] []| | | |]; try done. by constructor; [left|].
  - intros k j Hk. apply Hkeep. destruct (Hreg k j Hk) as [?|[todo ->]]; [by eapply Hjobs|]. by eapply Husers.
  - intros u c sp Hu Hc. assert (u = t' ∨ u ∈ spawned ∨ u ∈ ts) as Hcases.
    { apply elem_of_app in Hu as [[?|?]%elem_of_insert|?]; auto. }
    assert (u = t' ∨ u ∈ spawned → (owners ++ fresh_owner t) !! c = Some sp) as Hnew.
    { intros Hu'. destruct (thread_step_users _ _ _ _ _ _ _ _ _ Hs Hu' Hc) as [?|[(k & j & Hk & <- & <-)|[-> ->]]].
      - apply Hkeep. by eapply Husers.
      - apply Hkeep. by eapply Hjobs.
      - rewrite <- (Forall2_length _ _ _ Hcells), lookup_app_r, Nat.sub_diag by lia. done. }
    destruct Hcases as [?|[?|?]]; [apply Hnew; by left|apply Hnew; by right|]. apply Hkeep. by eapply Husers.
  - pose proof (spawned_backed _ _ _ _ _ _ (rows ++ new) Hs) as Hsp. rewrite Forall_forall in Hsp.
    intros u [[->|Hu]%elem_of_insert|Hu]%elem_of_app; [done| |by apply Hsp]. by apply thread_backed_more, Htasks.
Qed.

Lemma backed_reachable (h : R) y : SchedulerSteps.reachable b h y →
  ∃ rows owners, history y.1 = record_all rows h ∧ Backed rows owners y.
Proof.
  unfold reachable. apply (rtc_ind_r (λ y, ∃ rows owners, history y.1 = record_all rows h ∧ Backed rows owners y)).
  - exists [], []. split; [done|]. split; cbn; [constructor|intros k j; by rewrite lookup_empty|by intros ??? ?%not_elem_of_nil|by intros ? ?%not_elem_of_nil].
  - intros y1 y2 _ Hstep (rows & owners & Hh & Hb). destruct Hstep as [s ts t Hc|s ts i t inp s' t' spawned Hi Hs]; cbn [fst snd] in *.
    + exists rows, owners. split; [done|]. destruct Hb as [? ? Hu Ht]. split; cbn [fst snd] in *; [done|done| |].
      * intros u c sp [?|Hu'%list_elem_of_singleton]%elem_of_app; [by apply Hu|]. subst u.
        destruct t as [|? ? []|? []|[|] []| | | |]; try done.
      * intros u [?|Hu'%list_elem_of_singleton]%elem_of_app; [by apply Ht|]. subst u. by destruct t as [|? ? []|? []|? []| | | |].
    + destruct (backed_section _ _ _ _ _ _ _ _ _ _ Hi Hs Hb) as (new & own & Hh' & Hb'). exists (rows ++ new), (owners ++ own).
      split; [|done]. by rewrite Hh', Hh, record_all_app.
Qed.
End backed.

(** ** The whole process *)
Lemma describe_elem `{Libs} {R} (now : Z) (s : Shared R) f g l d :
  describe now s f !! g = Some l → d ∈ l → ∃ k j, jobs s !! k = Some j ∧ group k = g ∧ d = job_row now s k j.
Proof.
  unfold describe. rewrite describe_entries_grouped. intros Hl Hd.
  apply (proj1 (grouped_elem (job_row now s) _ _ _ d Hl)) in Hd as (k & j & Hin & Hg & ->).
  apply list_elem_of_In, filter_In in Hin as [Hin _]. apply list_elem_of_In, elem_of_map_to_list in Hin. by exists k, j.
Qed.

(** C18: what [GET /jobs] shows of a job happened, if the cap on retries is below 2^32 - 1: in
    every state of a process that booted each row of the snapshot is either blank, with no
    last result and no last execution (nothing was recorded since the job was registered,
    a reload registering it anew), or its last result is the outcome of a fire of this job
    whose row is in the history with a status that agrees: a SUCCESS, TIMEOUT or OFFLINE is
    one in the history, a FAILED is the row of a failed attempt, a SKIPPED one of a fire
    outside the window or of a failure that the job ignores. *)
Theorem jobs_report_what_happened `{LibLaws} `{Axum} cfg vars w srv signals sv :
  boot cfg vars w = Some (Ok srv) → process_reachable vars w srv signals sv →
  (max_retry_count (security cfg) < u32_max)%Z →
  ∃ recorder rows, choose_recorder cfg vars w = Ok recorder ∧ history (sv_shared sv) = record_all rows recorder ∧
    ∀ now f g l d, describe now (sv_shared sv) f !! g = Some l → d ∈ l →
      (dlast_result d = "" ∧ last_execution d = 0%Z) ∨
      ∃ st r, dlast_result d = as_str st ∧ r ∈ rows ∧ job_group r = g ∧ job_name r = dname d ∧ backs st (hstatus r) = true.
Proof.
  intros Hb Hr Hm. destruct (process_reaches _ _ _ _ _ _ Hb Hr) as (recorder & Hrec & (y & Hy & [Hs _]) & _).
  pose proof (process_inv _ _ _ _ _ _ Hb Hr) as [_ [Hty _] _].
  apply backed_reachable in Hy as (rows & owners & Hh & [Hcells Hjobs _ _]). cbn [server_sys fst] in *.
  exists recorder, rows. split_and!; [done|by rewrite <- Hs|]. intros now f g l d Hl Hd.
  destruct (describe_elem _ _ _ _ _ _ Hl Hd) as (k & j & Hj & <- & ->). destruct (Hty k j Hj) as [Hv Hk].
  destruct (max_attempts_valid _ _ _ Hv Hm) as [_ Hmax]. rewrite Hs in Hcells, Hjobs. specialize (Hjobs k j Hj).
  destruct (Forall2_lookup_l _ _ _ _ _ Hcells Hjobs) as (c & Hc & Hcb). rewrite job_row_name.
  assert (dlast_result (job_row now (sv_shared sv) k j) = last_result c ∧
    last_execution (job_row now (sv_shared sv) k j) = default 0%Z (last_execution_ms c)) as [-> ->].
  { unfold job_row. rewrite Hc. by destruct (trigger (reg_spec j)). }
  destruct Hcb as [->|(st & -> & [(r & Hin & [Hn Hg] & Hst)|?])]; [by left| |lia].
  right. exists st, r. rewrite Hn, Hg, Hk. by split_and!.
Qed.

(** ** A run that fails three times over, and what is shown of it *)
#[local] Existing Instance Sample.libs.
#[local] Existing Instance Sample.libs_laws.
#[local] Existing Instance SampleAxum.axum.
Definition shown (s : Shared Recorder) : option (list JobDescriptor) := describe 60000 s None !! "apps-demo".

Lemma sample_report : ∃ srv sv l d,
  boot AppConfig_default sample_vars sample_boot = Some (Ok srv) ∧
  process_reachable sample_vars sample_boot srv sample_signals sv ∧ shown (sv_shared sv) = Some l ∧ d ∈ l ∧ dlast_result d = "FAILED".
Proof.
  assert (match sample_path AppConfig_default sample_vars 10 with
          | Some (_, _, _, s, _) =>
              match shown s with Some (d :: _) => bool_decide (dlast_result d = "FAILED") | _ => false end
          | None => false
          end = true) as Hc by (vm_compute; reflexivity).
  destruct (sample_path _ _ _) as [[[[[srv a] resp] s] t]|] eqn:Hp; [|discriminate Hc].
  destruct (shown s) as [[|d l]|] eqn:Hs; [discriminate Hc| |discriminate Hc]. apply bool_decide_eq_true in Hc.
  apply sample_path_reachable in Hp as [Hb Hreach]. exists srv, (sample_server srv a resp s t), (d :: l), d.
  split; [exact Hb|]. split; [exact Hreach|]. split; [exact Hs|]. split; [left|exact Hc].
Qed.

Lemma jobs_report_what_happened_witness : ∃ (sv : Server Recorder) (l : list JobDescriptor) d (rows : list HistoryEntry) st r,
  shown (sv_shared sv) = Some l ∧ d ∈ l ∧ dlast_result d = "FAILED" ∧ r ∈ rows ∧
  dlast_result d = as_str st ∧ backs st (hstatus r) = true.
Proof.
  destruct sample_report as (srv & sv & l & d & Hb & Hr & Hs & Hd & Hf).
  destruct (jobs_report_what_happened _ _ _ _ _ _ Hb Hr ltac:(reflexivity)) as (recorder & rows & _ & _ & Hrep).
  destruct (Hrep _ _ _ _ _ Hs Hd) as [[Hno _]|(st & r & Hst & Hin & _ & _ & Hbk)]; [rewrite Hf in Hno; discriminate Hno|].
  exists sv, l, d, rows, st, r. exact (conj Hs (conj Hd (conj Hf (conj Hin (conj Hst Hbk))))).
Defined.
