(* ===== verification/Secrets.v ===== *)
(** * The values of header secrets stay on the wire (the whole process)

    Two runs of the process that differ only in the values of the variables that
    [headerEnvs] may name: the same moves lead both to the same history, registry, tables
    and responses. [alike] relates the environments, the surroundings of an attempt, the
    tasks and the processes; every operation respects it. *)
From S2P Require Import Prelude RStr Ip Errors Security Dsl History Config EnvSafety Libs Loader Dispatch DispatchSteps Scheduler SchedulerSteps SchedulerMethods Middleware Router Signal Boot Server ServerSteps ServerExec ServerServe ServerLive Process.
From S2P Require HttpExec ShellExec.

Section alike.
Context `{Libs} (secret : string → Prop).

(** As a header value one is as good as the other. *)
Definition value_alike (a b : string) : Prop :=
  String.eqb a "" = String.eqb b "" ∧ header_value_from_str a = header_value_from_str b.
Definition env_alike (e1 e2 : Env) : Prop :=
  ∀ n, e1 !! n = e2 !! n ∨ (secret n ∧ ∃ a b, e1 !! n = Some a ∧ e2 !! n = Some b ∧ value_alike a b).
(** The network answers requests that differ in header values only alike. *)
Record world_alike (w1 w2 : AttemptWorld) : Prop := mkWorldAlike
  { wa_at : at_ms w1 = at_ms w2; wa_took : took_ms w1 = took_ms w2; wa_sys : Dispatch.sys w1 = Dispatch.sys w2;
    wa_pause : pause w1 = pause w2; wa_env : env_alike (attempt_env w1) (attempt_env w2);
    wa_dns : ∀ target, HttpExec.lookup_host (net w1) target = HttpExec.lookup_host (net w2) target;
    wa_send : ∀ r1 r2, HttpExec.same_shape r1 r2 → HttpExec.send (net w1) r1 = HttpExec.send (net w2) r2 }.
(** Up to the [select!] nothing was sent yet. *)
Record before_alike (w1 w2 : AttemptWorld) : Prop := mkBeforeAlike
  { ba_at : at_ms w1 = at_ms w2; ba_spawn : ShellExec.spawn (Dispatch.sys w1) = ShellExec.spawn (Dispatch.sys w2);
    ba_env : env_alike (attempt_env w1) (attempt_env w2);
    ba_dns : ∀ target, HttpExec.lookup_host (net w1) target = HttpExec.lookup_host (net w2) target }.
Definition input_alike (i1 i2 : Input) : Prop :=
  now i1 = now i2 ∧ (∀ i, world_alike (surroundings i1 i) (surroundings i2 i)) ∧ pending i1 = pending i2.

Inductive dpc_alike : DispatchPc → DispatchPc → Prop :=
  | da_same pc : dpc_alike pc pc
  | da_listen i w1 w2 : before_alike w1 w2 → dpc_alike (DListen i w1) (DListen i w2)
  | da_finish i w1 w2 : world_alike w1 w2 → dpc_alike (DFinish i w1) (DFinish i w2).
Inductive run_alike : RunPc → RunPc → Prop :=
  | ra_same pc : run_alike pc pc
  | ra_dispatch token pc1 pc2 : dpc_alike pc1 pc2 → run_alike (Dispatching token pc1) (Dispatching token pc2).
Inductive thread_alike : Thread → Thread → Prop :=
  | ta_same t : thread_alike t t
  | ta_loop sp expr cell pc1 pc2 : run_alike pc1 pc2 → thread_alike (Loop sp expr cell (LRun pc1)) (Loop sp expr cell (LRun pc2))
  | ta_trigger k extras sp cell pc1 pc2 : run_alike pc1 pc2 →
      thread_alike (Trigger k extras (TRun sp cell pc1)) (Trigger k extras (TRun sp cell pc2)).
Inductive task_alike : Task → Task → Prop :=
  | ka_thread t1 t2 : thread_alike t1 t2 → task_alike (TThread t1) (TThread t2)
  | ka_request req pc : task_alike (TRequest req pc) (TRequest req pc).
Record server_alike {R} (sv1 sv2 : Server R) : Prop := mkServerAlike
  { sa_shared : sv_shared sv1 = sv_shared sv2; sa_gate : sv_gate sv1 = sv_gate sv2; sa_phase : sv_phase sv1 = sv_phase sv2;
    sa_tasks : Forall2 task_alike (sv_tasks sv1) (sv_tasks sv2) }.
Inductive move_alike : Move → Move → Prop :=
  | ma_same mv : (∀ i inp, mv ≠ MThread i inp) → move_alike mv mv
  | ma_thread i inp1 inp2 : input_alike inp1 inp2 → move_alike (MThread i inp1) (MThread i inp2).

(** ** Attempts *)
Lemma env_alike_validity e1 e2 headers : env_alike e1 e2 → HttpExec.same_validity e1 e2 headers.
Proof.
  intros He h var _ _. destruct (He var) as [->|(_ & a & c & -> & -> & _ & Hv)]; [by destruct (e2 !! var)|done].
Qed.

Lemma attempt_result_alike b sp ov w1 w2 i :
  world_alike w1 w2 → attempt_result b sp ov (λ _, w1) i = attempt_result b sp ov (λ _, w2) i.
Proof.
  intros Hw. unfold attempt_result. rewrite (wa_sys _ _ Hw). destruct (kind sp) as [method url headers|argv allowed]; [|done].
  do 2 f_equal. apply HttpExec.header_values_do_not_leak; [|apply Hw|apply Hw]. by apply env_alike_validity, Hw.
Qed.

Lemma attempt_stopped_alike b sp ov w1 w2 : world_alike w1 w2 → attempt_stopped b sp ov w1 = attempt_stopped b sp ov w2.
Proof.
  intros Hw. unfold attempt_stopped. rewrite (wa_sys _ _ Hw). destruct (kind sp) as [method url headers|argv allowed]; [|done].
  pose proof (HttpExec.execute_alike _ _ (net w1) (net w2) (http b) method url headers
    (env_alike_validity _ _ headers (wa_env _ _ Hw)) (wa_dns _ _ Hw) (wa_send _ _ Hw)) as [_ Hio].
  induction Hio as [|io1 io2 l1 l2 Hs _ IH]; [done|]. cbn. rewrite IH. f_equal.
  destruct io1 as [t1|r1], io2 as [t2|r2]; try done. by rewrite (wa_send _ _ Hw _ _ Hs).
Qed.

Lemma listens_alike b sp ov w1 w2 : world_alike w1 w2 → listens b sp ov w1 = listens b sp ov w2.
Proof.
  intros Hw. unfold listens. rewrite (wa_sys _ _ Hw). destruct (kind sp) as [method url headers|argv allowed]; [|done].
  pose proof (HttpExec.execute_alike _ _ (net w1) (net w2) (http b) method url headers
    (env_alike_validity _ _ headers (wa_env _ _ Hw)) (wa_dns _ _ Hw) (wa_send _ _ Hw)) as [_ Hio].
  induction Hio as [|io1 io2 l1 l2 Hs _ IH]; [done|]. cbn. rewrite IH. f_equal. by destruct io1, io2.
Qed.

Lemma before_refl w : before_alike w w.
Proof. split; [done..| |done]. intros n. by left. Qed.
Lemma world_before w1 w2 : world_alike w1 w2 → before_alike w1 w2.
Proof. intros [? ? Hs ? ? ? ?]. split; [done|by rewrite Hs|done|done]. Qed.
Lemma meet_alike w1 w2 w1' w2' : before_alike w1 w2 → world_alike w1' w2' → world_alike (meet w1 w1') (meet w2 w2').
Proof.
  intros [Ha Hsp He Hd] [_ Ht Hs Hp _ _ Hsend]. split; cbn; [done|done| |done..]. by rewrite Hsp, Hs.
Qed.

Lemma attempt_row_alike sp w1 w2 i r : world_alike w1 w2 → attempt_row sp (λ _, w1) i r = attempt_row sp (λ _, w2) i r.
Proof. intros Hw. apply attempt_row_ext; apply Hw. Qed.

Definition next_alike (n1 n2 : DispatchNext) : Prop :=
  match n1, n2 with
  | DGo p1, DGo p2 => dpc_alike p1 p2
  | DEnd o1, DEnd o2 => o1 = o2
  | DStay, DStay => True
  | _, _ => False
  end.
Lemma next_refl n : next_alike n n.
Proof. destruct n; [constructor|done|done]. Qed.

Lemma dispatch_step_alike {R} `{HistoryRecorder R} b sp ov i1 i2 pc1 pc2 woken (h : R) :
  input_alike i1 i2 → dpc_alike pc1 pc2 →
  (dispatch_step b sp ov i1 pc1 woken h).1 = (dispatch_step b sp ov i2 pc2 woken h).1 ∧
  next_alike (dispatch_step b sp ov i1 pc1 woken h).2 (dispatch_step b sp ov i2 pc2 woken h).2.
Proof.
  intros (Hnow & Hw & Hpe) Hpc.
  assert (∀ i w1 w2, before_alike w1 w2 →
    (dispatch_step b sp ov i1 (DListen i w1) woken h).1 = (dispatch_step b sp ov i2 (DListen i w2) woken h).1 ∧
    next_alike (dispatch_step b sp ov i1 (DListen i w1) woken h).2 (dispatch_step b sp ov i2 (DListen i w2) woken h).2) as Hlisten.
  { intros i w1 w2 Hal. cbn -[attempt_stopped next_alike]. pose proof (meet_alike _ _ _ _ Hal (Hw i)) as Hm.
    rewrite (attempt_stopped_alike _ _ _ _ _ Hm), Hpe. split; [done|]. destruct (_ && _); [done|]. by constructor. }
  assert (∀ i w1 w2, world_alike w1 w2 →
    (dispatch_step b sp ov i1 (DFinish i w1) woken h).1 = (dispatch_step b sp ov i2 (DFinish i w2) woken h).1 ∧
    next_alike (dispatch_step b sp ov i1 (DFinish i w1) woken h).2 (dispatch_step b sp ov i2 (DFinish i w2) woken h).2) as Hfinish.
  { intros i w1 w2 Hal. cbn -[next_alike]. rewrite (attempt_result_alike _ _ _ _ _ _ Hal), Hpe.
    destruct (pending i2); [by split; [|exact I]|]. destruct (attempt_result _ _ _ _ _) as [r|]; [|by split; [|exact I]].
    rewrite (attempt_row_alike _ _ _ _ _ Hal). split; [done|apply next_refl]. }
  destruct Hpc as [pc|i w1 w2 Hal|i w1 w2 Hal]; [|by apply Hlisten|by apply Hfinish].
  destruct pc as [|i|i w|i w|i le]; [| |by apply Hlisten, before_refl| |]; cbn -[listens next_alike].
  - rewrite Hnow, Hpe. destruct (offline_mode b); [destruct (pending i2)|]; (split; [done|apply next_refl]).
  - rewrite (listens_alike _ _ _ _ _ (Hw i)), Hpe. split; [done|]. destruct (pending i2); [done|].
    destruct (listens _ _ _ _); constructor; [apply world_before|]; apply Hw.
  - rewrite Hpe. split; [done|apply next_refl].
  - rewrite (wa_pause _ _ (Hw i)), Hpe. split; [done|apply next_refl].
Qed.

(** ** Tasks *)
Definition run_next_alike (r1 r2 : RunStep) : Prop :=
  match r1, r2 with
  | RunTo p1, RunTo p2 => run_alike p1 p2
  | RunDone, RunDone | RunPanic, RunPanic => True
  | _, _ => False
  end.
Lemma run_next_refl r : run_next_alike r r.
Proof. destruct r; [constructor|done|done]. Qed.

Lemma dpc_alike_waits pc1 pc2 : dpc_alike pc1 pc2 → waits pc1 = waits pc2.
Proof. by intros []. Qed.

Lemma run_step_alike {R} `{HistoryRecorder R} b i1 i2 k sp extras cell pc1 pc2 (s : Shared R) :
  input_alike i1 i2 → run_alike pc1 pc2 →
  (run_step b i1 k sp extras cell pc1 s).1 = (run_step b i2 k sp extras cell pc2 s).1 ∧
  run_next_alike (run_step b i1 k sp extras cell pc1 s).2 (run_step b i2 k sp extras cell pc2 s).2.
Proof.
  intros Hi Hp. assert (∀ token p1 p2, dpc_alike p1 p2 →
    (run_step b i1 k sp extras cell (Dispatching token p1) s).1 = (run_step b i2 k sp extras cell (Dispatching token p2) s).1 ∧
    run_next_alike (run_step b i1 k sp extras cell (Dispatching token p1) s).2 (run_step b i2 k sp extras cell (Dispatching token p2) s).2) as Hd.
  { intros token p1 p2 Hpp. cbn. pose proof (dispatch_step_alike b sp extras i1 i2 p1 p2 (default false (waiters s !! token)) (history s) Hi Hpp) as [Hh Hn].
    destruct (dispatch_step b sp extras i1 _ _ _) as [h1 n1], (dispatch_step b sp extras i2 _ _ _) as [h2 n2]. cbn [fst snd] in *. subst h2.
    unfold enter_wait, leave_wait. rewrite (dpc_alike_waits _ _ Hpp).
    destruct n1 as [q1|o1|], n2 as [q2|o2|]; try done; cbn [fst snd].
    - rewrite (dpc_alike_waits _ _ Hn). split; [done|]. by constructor.
    - cbn in Hn. subst. split; [done|apply run_next_refl].
    - split; [done|]. by constructor. }
  destruct Hp as [pc|token p1 p2 Hpp]; [|by apply Hd].
  destruct pc as [|token pc|o|]; [|apply Hd, da_same| |]; cbn.
  - split; [done|apply run_next_refl].
  - rewrite (proj1 Hi). split; [done|constructor].
  - done.
Qed.

(** The same section, with alike inputs, of alike tasks. *)
Lemma thread_step_alike {R} `{HistoryRecorder R} b i1 i2 t1 t2 (s : Shared R) s' t1' sp :
  input_alike i1 i2 → thread_alike t1 t2 → thread_step b i1 t1 s = Some (s', t1', sp) →
  ∃ t2', thread_step b i2 t2 s = Some (s', t2', sp) ∧ thread_alike t1' t2'.
Proof.
  intros Hi Ht. assert (∀ ex expr cell p1 p2, run_alike p1 p2 → thread_step b i1 (Loop ex expr cell (LRun p1)) s = Some (s', t1', sp) →
    ∃ t2', thread_step b i2 (Loop ex expr cell (LRun p2)) s = Some (s', t2', sp) ∧ thread_alike t1' t2') as Hl.
  { intros ex expr cell p1 p2 Hp. cbn. pose proof (run_step_alike b i1 i2 (Dsl.key ex) ex [] cell p1 p2 s Hi Hp) as [Hs Hn].
    destruct (run_step b i1 _ _ _ _ _ _) as [s1 r1], (run_step b i2 _ _ _ _ _ _) as [s2 r2]. cbn [fst snd] in *. subst s2.
    intros [= <- <- <-]. eexists. split; [done|]. destruct r1, r2; try done; by constructor. }
  assert (∀ k ex spc cell p1 p2, run_alike p1 p2 → thread_step b i1 (Trigger k ex (TRun spc cell p1)) s = Some (s', t1', sp) →
    ∃ t2', thread_step b i2 (Trigger k ex (TRun spc cell p2)) s = Some (s', t2', sp) ∧ thread_alike t1' t2') as Htr.
  { intros k ex spc cell p1 p2 Hp. cbn. pose proof (run_step_alike b i1 i2 k spc ex cell p1 p2 s Hi Hp) as [Hs Hn].
    destruct (run_step b i1 _ _ _ _ _ _) as [s1 r1], (run_step b i2 _ _ _ _ _ _) as [s2 r2]. cbn [fst snd] in *. subst s2.
    intros [= <- <- <-]. eexists. split; [done|]. destruct r1, r2; try done; by constructor. }
  destruct Ht as [t|ex expr cell p1 p2 Hp|k ex spc cell p1 p2 Hp]; [|by apply Hl|by apply Htr].
  destruct t as [ex expr cell pc|k ex pc|k chk|todo pc|l|l| |].
  - destruct pc as [| |due|m| |pc]; [..|apply Hl, ra_same]; cbn; rewrite <- ?(proj1 Hi); intros Heq; eexists; (split; [exact Heq|constructor]).
  - destruct pc as [|spc cell|spc cell pc]; [..|apply Htr, ra_same]; cbn; rewrite <- ?(proj1 Hi); intros Heq; eexists; (split; [exact Heq|constructor]).
  - intros Heq. exists t1'. split; [exact Heq|constructor].
  - intros Heq. exists t1'. split; [exact Heq|constructor].
  - intros Heq. exists t1'. split; [exact Heq|constructor].
  - intros Heq. exists t1'. split; [exact Heq|constructor].
  - done.
  - done.
Qed.

(** ** Loading *)
Section load.
Context (e1 e2 : Env) (He : env_alike e1 e2).

Lemma env_headers_alike key src l out : env_headers e1 key src l out = env_headers e2 key src l out.
Proof.
  revert out. induction l as [|[n var] l IH]; intros out; [done|]. cbn [env_headers].
  destruct (check_name key src n) as [p|]; [|done]. destruct (existsb _ out); [done|]. destruct (valid_env_name var); [|done].
  unfold env_var. cbn [negb]. destruct (He var) as [->|(_ & a & c & -> & -> & Hn & Hv)].
  - destruct (e2 !! var); [|done]. by rewrite IH.
  - by rewrite Hn, Hv, IH.
Qed.

Lemma into_kind_alike raw key src policy : into_kind e1 raw key src policy = into_kind e2 raw key src policy.
Proof.
  unfold into_kind. destruct (String.eqb (raw_ty raw) "http"); [|done].
  destruct (ok_or (raw_method raw) _) as [m|]; [|done]. destruct (ok_or (raw_url raw) _) as [u|]; [|done].
  destruct (negb _); [done|]. destruct (validate_http_url _ _ _ _); [|done]. unfold build_http_headers.
  destruct (literal_headers _ _ _); [|done]. by rewrite env_headers_alike.
Qed.

Lemma load_file_alike root file policy f : load_file_with_policy e1 root file policy f = load_file_with_policy e2 root file policy f.
Proof.
  unfold load_file_with_policy. destruct (map_err _ (file_len f)) as [len|]; [|done]. destruct (_ <? _)%Z; [done|].
  destruct (map_err _ (contents f)) as [body|]; [|done]. destruct (map_err _ (yaml_jobs body)) as [raw|]; [|done].
  apply collect_ext. intros [n j] _. unfold into_spec. destruct (normalise_trigger _ _) as [t|]; [|done].
  destruct (match t with Cron _ => _ | Manual => _ end); [|done]. destruct (_ <? _)%Z; [done|]. by rewrite into_kind_alike.
Qed.

Lemma load_all_bounded_alike root n ev a b c d blk act :
  load_all_bounded e1 root n ev a b c d blk act = load_all_bounded e2 root n ev a b c d blk act.
Proof.
  destruct ev; [|done..]. destruct n as [[f|entries]|]; [done| |done]. cbn [load_all_bounded load_all_with_policy].
  rewrite !walk_visits. erewrite foldM_ext; [done|]. intros [path f|e] st _; [|done]. unfold visit_file. by rewrite load_file_alike.
Qed.
End load.

(** ** Boot *)

(** The names that boot looks up by itself. *)
Definition boot_reads (cfg : AppConfig) (n : string) : Prop :=
  (n ∈ ["APP_ENV"; "ENVIRONMENT"; "DEPLOY_ENV"; "CRONMANAGER_OFFLINE"; bearer_token_env (admin cfg)]) ∨
  (∃ db, database cfg = Some db ∧ n = password_env db) ∨ (∃ g, per_group_token_envs (security cfg) !! g = Some n).

Section start.
Context (cfg : AppConfig) (e1 e2 : Env) (He : env_alike e1 e2) (Hsecret : ∀ n, secret n → ¬ boot_reads cfg n).

Lemma boot_reads_alike n : boot_reads cfg n → e1 !! n = e2 !! n.
Proof. intros Hn. destruct (He n) as [?|[Hs _]]; [done|]. by destruct (Hsecret n Hs). Qed.

Lemma from_env_alike : from_env e1 = from_env e2.
Proof.
  unfold from_env, env_var. rewrite !(boot_reads_alike "APP_ENV"), !(boot_reads_alike "ENVIRONMENT"), (boot_reads_alike "DEPLOY_ENV");
    [done|left; set_solver..].
Qed.

Lemma resolve_alike :
  resolve_admin_token cfg e1 = resolve_admin_token cfg e2 ∧ resolve_per_group_tokens cfg e1 = resolve_per_group_tokens cfg e2.
Proof.
  unfold resolve_admin_token, resolve_per_group_tokens, env_var. split.
  - rewrite boot_reads_alike; [done|left; set_solver].
  - apply map_eq. intros g. rewrite !lookup_omap. destruct (per_group_token_envs (security cfg) !! g) as [n|] eqn:Hg; [|done]. cbn.
    rewrite boot_reads_alike; [done|]. right; right. by exists g.
Qed.

Lemma password_alike db : database cfg = Some db → e1 !! password_env db = e2 !! password_env db.
Proof. intros Hdb. apply boot_reads_alike. right; left. by exists db. Qed.

Lemma boot_alike w : boot cfg e1 w = boot cfg e2 w.
Proof.
  destruct resolve_alike as [Ht Hg]. unfold boot.
  assert (boot_gates cfg e1 = boot_gates cfg e2) as ->.
  { unfold boot_gates, cred_checks_for, env_var. rewrite from_env_alike, Ht. destruct (database cfg) as [db|] eqn:Hdb; [|done].
    by rewrite (password_alike db Hdb). }
  assert (choose_recorder cfg e1 w = choose_recorder cfg e2 w) as ->.
  { unfold choose_recorder, database_dsn, env_var. destruct (database cfg) as [db|] eqn:Hdb; [|done]. by rewrite (password_alike db Hdb). }
  assert (bundle_new e1 cfg = bundle_new e2 cfg) as ->.
  { unfold bundle_new, offline_from_env, env_var. rewrite (boot_reads_alike "CRONMANAGER_OFFLINE"); [done|left; set_solver]. }
  unfold load_jobs. by rewrite from_env_alike, Ht, Hg, (load_all_bounded_alike e1 e2 He).
Qed.

Lemma load_dsl_alike st root m : load_dsl st (req_env e1 root m) = load_dsl st (req_env e2 root m).
Proof. unfold load_dsl. cbn [process_env req_env dsl_root dsl_tree load_event]. by rewrite from_env_alike, (load_all_bounded_alike e1 e2 He). Qed.

(** ** The process *)
Lemma request_step_alike `{Axum} {R} `{HistoryRecorder R} st b root m req pc (s : Shared R) g :
  request_step st b e1 root m req pc s g = request_step st b e2 root m req pc s g.
Proof. destruct pc; [reflexivity|reflexivity| |reflexivity..]. cbn [request_step]. by rewrite load_dsl_alike. Qed.
End start.

Lemma tasks_alike_refl ts : Forall2 task_alike ts ts.
Proof. apply Forall_Forall2_diag, Forall_true. intros [t|req pc]; constructor. constructor. Qed.
Lemma answered_alike ts1 ts2 : Forall2 task_alike ts1 ts2 → forallb answered ts1 = forallb answered ts2.
Proof. by induction 1 as [|x1 x2 ts1 ts2 [] _ IH]; [done|cbn..]; rewrite IH. Qed.

(** A step of one is the same step of the other. *)
Lemma exec_alike `{Axum} {R} `{HistoryRecorder R} cfg e1 e2 st b root signals mv1 mv2 (sv1 sv2 sv1' : Server R) :
  env_alike e1 e2 → (∀ n, secret n → ¬ boot_reads cfg n) → move_alike mv1 mv2 → server_alike sv1 sv2 →
  exec st b e1 root signals mv1 sv1 = Some sv1' →
  ∃ sv2', exec st b e2 root signals mv2 sv2 = Some sv2' ∧ server_alike sv1' sv2'.
Proof.
  intros He Hsec Hmv [Hs Hg Hp Ht]. destruct sv1 as [s g ts1 ph], sv2 as [s2 g2 ts2 ph2]. cbn in Hs, Hg, Hp, Ht. subst s2 g2 ph2.
  assert (∀ (s' : Shared R) g' ph' i x1 x2 sp, task_alike x1 x2 →
    server_alike (mkServer s' g' (<[i := x1]> ts1 ++ (TThread <$> sp)) ph') (mkServer s' g' (<[i := x2]> ts2 ++ (TThread <$> sp)) ph')) as Hgo.
  { intros. split; [done..|]. cbn. apply Forall2_app; [by apply Forall2_insert|apply tasks_alike_refl]. }
  destruct Hmv as [mv Hmv|i inp1 inp2 Hinp].
  - destruct mv as [req|i inp|i m|i|first|]; [|by destruct (Hmv i inp)|..]; cbn [exec].
    + case_decide; [|done]. intros [= <-]. eexists. split; [done|]. split; [done..|]. apply Forall2_app; [done|]. constructor; constructor.
    + destruct (ts1 !! i) as [x1|] eqn:Hi; [|by destruct ph]. destruct (Forall2_lookup_l _ _ _ _ _ Ht Hi) as (x2 & -> & [t1 t2 _|req pc]); [by destruct ph|].
      rewrite (request_step_alike cfg e1 e2 He Hsec). destruct ph; [..|done]; destruct (request_step _ _ _ _ _ _ _ _ _) as [[[[s' g'] pc'] sp]|]; cbn; try done;
        intros [= <-]; (eexists; split; [done|]; apply Hgo; constructor).
    + destruct (ts1 !! i) as [x1|] eqn:Hi; [|by destruct ph]. destruct (Forall2_lookup_l _ _ _ _ _ Ht Hi) as (x2 & -> & [t1 t2 _|req pc]); [by destruct ph|].
      destruct ph; [..|done]; (destruct (droppable pc); [|done]); intros [= <-]; (eexists; split; [done|]; split; [done..|]; apply Forall2_insert; [done|constructor]).
    + case_decide; [|done]. destruct (shutdown_signal signals first); cbn; [|done]. intros [= <-]. eexists. split; [done|]. by split.
    + rewrite (answered_alike _ _ Ht). case_decide; [|done]. destruct (forallb answered ts2); [|done]. intros [= <-]. eexists. split; [done|]. by split.
  - cbn [exec]. destruct (ts1 !! i) as [x1|] eqn:Hi; [|by destruct ph].
    destruct (Forall2_lookup_l _ _ _ _ _ Ht Hi) as (x2 & -> & [t1 t2 Hal|req pc]); [|by destruct ph].
    destruct (thread_step b inp1 t1 s) as [[[s' t1'] sp]|] eqn:Hstep; [|by destruct ph].
    destruct (thread_step_alike _ _ _ _ _ _ _ _ _ Hinp Hal Hstep) as (t2' & -> & Hal').
    destruct ph; [..|done]; intros [= <-]; (eexists; split; [done|]; apply Hgo; by constructor).
Qed.

Lemma exec_all_alike `{Axum} {R} `{HistoryRecorder R} cfg e1 e2 st b root signals mvs1 mvs2 (sv1 sv2 sv1' : Server R) :
  env_alike e1 e2 → (∀ n, secret n → ¬ boot_reads cfg n) → Forall2 move_alike mvs1 mvs2 → server_alike sv1 sv2 →
  exec_all st b e1 root signals mvs1 sv1 = Some sv1' →
  ∃ sv2', exec_all st b e2 root signals mvs2 sv2 = Some sv2' ∧ server_alike sv1' sv2'.
Proof.
  intros He Hsec Hm. revert sv1 sv2. induction Hm as [|mv1 mv2 mvs1 mvs2 Hmv _ IH]; intros sv1 sv2 Hsv; cbn [exec_all].
  { intros [= <-]. by exists sv2. }
  destruct (exec st b e1 root signals mv1 sv1) as [sv|] eqn:Hx; [|done].
  destruct (exec_alike _ _ _ _ _ _ _ _ _ _ _ _ He Hsec Hmv Hsv Hx) as (sv' & -> & Hsv'). by apply IH.
Qed.
End alike.

(** C29: the values of the variables that [headerEnvs] names go to the wire and nowhere else.
    Take two environments that differ only in values of secret variables, each valid as a
    header value in both, where boot reads none of them; and let the same clients, clocks and
    tasks move, with a network that answers requests alike that differ in header values only.
    Then both processes boot to the same state, every move of one is possible in the other,
    and their registries, tables of running instances, histories, throttles, phases, and the
    responses to every request are the same: no error text, row or view tells one value from
    another. *)
Theorem header_secrets_stay_on_the_wire `{Libs} `{Axum} secret cfg e1 e2 w srv signals mvs1 mvs2 (sv1 : Server Recorder) :
  env_alike secret e1 e2 → (∀ n, secret n → ¬ boot_reads cfg n) → Forall2 (move_alike secret) mvs1 mvs2 →
  boot cfg e1 w = Some (Ok srv) →
  exec_all (state srv) (bundle srv) e1 (tree_root w) signals mvs1 (serving (app srv)) = Some sv1 →
  boot cfg e2 w = Some (Ok srv) ∧
  ∃ sv2 : Server Recorder, exec_all (state srv) (bundle srv) e2 (tree_root w) signals mvs2 (serving (app srv)) = Some sv2 ∧
    sv_shared sv2 = sv_shared sv1 ∧ sv_gate sv2 = sv_gate sv1 ∧ sv_phase sv2 = sv_phase sv1 ∧
    ∀ i req pc, sv_tasks sv1 !! i = Some (TRequest req pc) → sv_tasks sv2 !! i = Some (TRequest req pc).
Proof.
  intros He Hsec Hm Hb Hx. split; [by rewrite <- (boot_alike secret cfg e1 e2 He Hsec w)|].
  assert (server_alike secret (serving (app srv)) (serving (app srv))) as Hr by (split; [done..|apply tasks_alike_refl]).
  destruct (exec_all_alike _ _ _ _ _ _ _ _ _ _ _ _ _ He Hsec Hm Hr Hx) as (sv2 & Hx2 & [-> -> -> Ht]). exists sv2.
  split_and!; [done..|]. intros i req pc Hi.
  destruct (Forall2_lookup_l _ _ _ _ _ Ht Hi) as (x2 & Hx2' & Hal). by inversion Hal; subst.
Qed.

(** ** A job with a secret header, run on request with one value and with another *)
Definition secret_job : RawJob :=
  mkRawJob (RawBool false) "http" None None None None None (Some "get") (Some "https://example.org/ping") None
    (Some {["X-Token" := "TOKEN"]}) None None.
#[local] Instance secret_libs : Libs := Sample.libs_with (λ _, Ok {["ping" := secret_job]}).
#[local] Existing Instance SampleAxum.axum.
Definition secret_vars (v : string) : Env := <["TOKEN" := v]> sample_vars.
Definition secret_boot : BootWorld :=
  mkBootWorld (Ok tt) (mkDriver (λ _, Ok tt) (Ok tt) [])
    (Some (DirNode (Ok [("apps", DirNode (Ok [("demo.yml", FileNode (mkFile (Ok 4%Z) (Ok "ping")))]))]))) ["jobs"] Joined.
Definition secret_world (v : string) : AttemptWorld :=
  mkAttempt 60000 5 (secret_vars v)
    (HttpExec.mkHttpWorld (λ _, Ok [V4 (V4Addr 93 184 216 34)])
      (λ r, HttpExec.Sent (Ok (HttpExec.mkResponse 200 [HttpExec.Chunk (HttpExec.req_url r)]))))
    (ShellExec.world_of (ShellExec.child_of None None)) Slept.
Definition secret_moves (v : string) : list Move :=
  MAccept sample_request :: repeat (MRequest 0 any_moment) 4 ++
  repeat (MThread 1 (mkInput 60000 (λ _, secret_world v) false)) 6 ++ repeat (MRequest 0 any_moment) 2.

Lemma token_alike : env_alike (λ n, n = "TOKEN") (secret_vars "alpha") (secret_vars "beta").
Proof.
  intros n. destruct (decide (n = "TOKEN")) as [->|Hn].
  - right. split; [done|]. exists "alpha", "beta". by split_and!.
  - left. unfold secret_vars. by rewrite !lookup_insert_ne by done.
Qed.
Lemma secret_moves_alike : Forall2 (move_alike (λ n, n = "TOKEN")) (secret_moves "alpha") (secret_moves "beta").
Proof.
  assert (input_alike (λ n, n = "TOKEN") (mkInput 60000 (λ _, secret_world "alpha") false) (mkInput 60000 (λ _, secret_world "beta") false)) as Hi.
  { split_and!; [done| |done]. intros i. split; [done..|apply token_alike|done|]. intros r1 r2 (_ & Hu & _). cbn. by rewrite Hu. }
  unfold secret_moves. cbn. repeat (apply Forall2_cons_2; [first [apply ma_thread, Hi|by apply ma_same]|]). constructor.
Qed.

Lemma token_unread n : n = "TOKEN" → ¬ boot_reads AppConfig_default n.
Proof.
  intros ->. unfold boot_reads. intros [Hn|[(db & Hdb & _)|[g Hg]]]; [|discriminate Hdb|discriminate Hg].
  repeat (apply elem_of_cons in Hn as [Hn|Hn]; [discriminate Hn|]). by apply elem_of_nil in Hn.
Qed.

(** Both replied to the request and have the run as a success. *)
Lemma header_secrets_stay_on_the_wire_witness : ∃ srv (sv1 sv2 : Server Recorder) c req resp,
  boot AppConfig_default (secret_vars "alpha") secret_boot = Some (Ok srv) ∧
  boot AppConfig_default (secret_vars "beta") secret_boot = Some (Ok srv) ∧
  exec_all (state srv) (bundle srv) (secret_vars "beta") ["jobs"] sample_signals (secret_moves "beta") (serving (app srv)) = Some sv2 ∧
  cells (sv_shared sv1) = [c] ∧ last_result c = "SUCCESS" ∧ sv_shared sv2 = sv_shared sv1 ∧
  sv_tasks sv2 !! 0 = Some (TRequest req (QReplied resp)).
Proof.
  assert (match boot AppConfig_default (secret_vars "alpha") secret_boot with
          | Some (Ok srv) =>
              match exec_all (state srv) (bundle srv) (secret_vars "alpha") ["jobs"] sample_signals (secret_moves "alpha") (serving (app srv)) with
              | Some sv => match cells (sv_shared sv), sv_tasks sv !! 0 with
                           | [c], Some (TRequest req (QReplied _)) => String.eqb (last_result c) "SUCCESS"
                           | _, _ => false
                           end
              | None => false
              end
          | _ => false
          end = true) as Hc by (vm_compute; reflexivity).
  destruct (boot AppConfig_default (secret_vars "alpha") secret_boot) as [[srv|]|] eqn:Hb; [|discriminate Hc..].
  destruct (exec_all _ _ _ _ _ _ _) as [sv1|] eqn:Hx; [|discriminate Hc].
  destruct (cells (sv_shared sv1)) as [|c [|? ?]] eqn:Hcell; [discriminate Hc| |discriminate Hc].
  destruct (sv_tasks sv1 !! 0) as [[|req [| | | | | | | |resp| |]]|] eqn:Hi; try discriminate Hc.
  apply String.eqb_eq in Hc.
  destruct (header_secrets_stay_on_the_wire (λ n, n = "TOKEN") AppConfig_default (secret_vars "alpha") (secret_vars "beta") secret_boot srv
    sample_signals (secret_moves "alpha") (secret_moves "beta") sv1 token_alike token_unread secret_moves_alike Hb Hx)
    as (Hb2 & sv2 & Hx2 & Hs & _ & _ & Ht).
  exists srv, sv1, sv2, c, req, resp.
  exact (conj eq_refl (conj Hb2 (conj Hx2 (conj Hcell (conj Hc (conj Hs (Ht _ _ _ Hi))))))).
Defined.
