(* ===== verification/SingleFlight.v ===== *)
(** * Single flight: the contract of the scheduler (src/scheduler.rs)

    What the scheduler promises its clients, as a machine of its own: a map from the jobs
    that run to the tokens their runs listen to, in which a job is entered when it is free,
    with a token larger than all others, and left. The process implements it, and the holder
    of an entry is exactly one task. *)
From S2P Require Import Prelude RStr Errors Dsl History Config Libs Loader Dispatch DispatchSteps Scheduler SchedulerSteps SchedulerMethods JobTypes Middleware Router Signal Boot Server ServerSteps ServerCauses ServerServe ServerLive Process.

(** ** The abstract machine *)
Abbreviation Holders := (gmap JobKey nat).
Inductive sf_step : Holders → Holders → Prop :=
  | sf_enter m k c : m !! k = None → (∀ k' c', m !! k' = Some c' → c' < c) → sf_step m (<[k := c]> m)
  | sf_leave m k : is_Some (m !! k) → sf_step m (delete k m).
(** Some machine step, or none. *)
Definition sf_steps (m m' : Holders) : Prop := m' = m ∨ sf_step m m'.

(** No two jobs ever listen to the same token. *)
Lemma sf_tokens m : rtc sf_step ∅ m → ∀ k1 k2 c, m !! k1 = Some c → m !! k2 = Some c → k1 = k2.
Proof.
  intros Hm. pattern m. revert m Hm. apply rtc_ind_r; [by intros k1 k2 c; rewrite lookup_empty|].
  intros m1 m2 _ Hs IH k1 k2 c. destruct Hs as [m k c0 Hk Hlt|m k _].
  - rewrite !lookup_insert_Some. intros [[<- <-]|[Hn1 H1]] [[<- Hc]|[Hn2 H2]]; [done| | |by eapply IH].
    + apply Hlt in H2. lia.
    + subst c. apply Hlt in H1. lia.
  - rewrite !lookup_delete_Some. intros [_ H1] [_ H2]. by eapply IH.
Qed.

(** ** The abstraction *)
Definition holders {R} (s : Shared R) : Holders := cancel <$> running s.
Definition owns {R} (sv : Server R) (k : JobKey) (i : nat) : Prop :=
  ∃ x, sv_tasks sv !! i = Some x ∧ owned_key (task_thread x) = Some k.

Section simulation.
Context `{Libs} `{Axum} {R : Type} `{HistoryRecorder R}.
Context (st : AppState) (b : ExecutorBundle) (vars : Env) (root : PathBuf) (signals : Signals).
Implicit Types (s : Shared R).

Lemma effect_holders s t s' t' ts :
  effect s t s' t' → Inv (s, ts) → t ∈ ts → sf_steps (holders s) (holders s').
Proof.
  intros He Hinv Hin. unfold holders. destruct He as [Hr _ _ _|k inst Hk Hr Hc _ _ _ _|k Hr _ Ho _].
  - left. by rewrite Hr.
  - right. rewrite Hr, fmap_insert. apply sf_enter; [by rewrite lookup_fmap, Hk|].
    intros k' c'. rewrite lookup_fmap, Hc. intros (i' & Hi' & ->)%fmap_Some. by apply (inv_fresh _ Hinv k' i').
  - right. rewrite Hr, fmap_delete. apply sf_leave. rewrite lookup_fmap, fmap_is_Some.
    apply (inv_running _ Hinv), elem_of_owned. by exists t.
Qed.

Lemma thread_holders inp t s s' t' sp ts :
  thread_step b inp t s = Some (s', t', sp) → Inv (s, ts) → t ∈ ts → sf_steps (holders s) (holders s').
Proof.
  intros Ht Hinv Hin. destruct (thread_step_effect b _ _ _ _ _ _ Ht) as [He _].
  - intros k Ho. apply (inv_running _ Hinv), elem_of_owned. by exists t.
  - intros k c. by apply (inv_token _ Hinv).
  - by eapply effect_holders.
Qed.

Lemma server_holders (sv sv' : Server R) :
  server_step st b vars root signals sv sv' → tasks_wf (sv_tasks sv) → Inv (server_sys sv) →
  sf_steps (holders (sv_shared sv)) (holders (sv_shared sv')).
Proof.
  intros Hstep Hwf Hinv. unfold tasks_wf in Hwf. rewrite Forall_forall in Hwf.
  destruct Hstep as [s g ts req|s g ts ph i t inp s' t' sp _ Hi Ht|s g ts ph i req pc m s' g' pc' sp _ Hi Hr
    |s g ts ph i req pc _ Hi Hd|s g ts first _|s g ts _]; unfold server_sys in Hinv; cbn [sv_shared sv_tasks] in *; try by left.
  - apply list_elem_of_lookup_2, (list_elem_of_fmap_2 task_thread) in Hi. by eapply thread_holders.
  - apply list_elem_of_lookup_2 in Hi. destruct (request_section _ _ _ _ _ _ _ _ _ _ _ _ _ Hr (Hwf _ Hi)) as (Hk & _).
    apply (list_elem_of_fmap_2 task_thread) in Hi. destruct Hk as [-> _ _ _|inp t' sp0 _ Ht _]; [by left|].
    by eapply thread_holders.
Qed.

Lemma one_owner (sv : Server R) k :
  Inv (server_sys sv) → is_Some (holders (sv_shared sv) !! k) ↔ exists! i, owns sv k i.
Proof.
  intros Hinv. unfold holders, owns. rewrite lookup_fmap, fmap_is_Some. split.
  - intros (t & (x & -> & Hx)%list_elem_of_fmap & Ho)%(inv_running _ Hinv)%elem_of_owned. cbn [server_sys snd] in *.
    apply list_elem_of_lookup_1 in Hx as [i Hi]. exists i. split; [by exists x|]. intros j (x2 & Hj & Ho2).
    apply (omap_NoDup_index owned_key (task_thread <$> sv_tasks sv) i j (task_thread x) (task_thread x2) k (inv_owners _ Hinv));
      rewrite ?list_lookup_fmap, ?Hi, ?Hj; done.
  - intros (i & (x & Hi & Ho) & _). apply (inv_running _ Hinv), elem_of_owned. exists (task_thread x). split; [|done].
    apply list_elem_of_fmap_2. by eapply list_elem_of_lookup_2.
Qed.
End simulation.

(** C2: the process implements single flight: every step of a process that booted, of a
    request, a loop, a run, a client that leaves or a signal, is a step of the abstract
    machine or leaves it alone, so that its states are those the machine can reach from
    nothing running; tokens are never shared; and a job is held exactly when there is a
    task that runs it, and then there is exactly one. *)
Theorem process_refines_single_flight `{Libs} `{Axum} cfg vars w srv signals sv :
  boot cfg vars w = Some (Ok srv) → process_reachable vars w srv signals sv →
  rtc sf_step ∅ (holders (sv_shared sv)) ∧
  (∀ sv', server_step (state srv) (bundle srv) vars (tree_root w) signals sv sv' →
     sf_steps (holders (sv_shared sv)) (holders (sv_shared sv'))) ∧
  (∀ k1 k2 c, holders (sv_shared sv) !! k1 = Some c → holders (sv_shared sv) !! k2 = Some c → k1 = k2) ∧
  ∀ k, is_Some (holders (sv_shared sv) !! k) ↔ exists! i, owns sv k i.
Proof.
  intros Hb Hr.
  assert (∀ sv0 sv', process_reachable vars w srv signals sv0 →
    server_step (state srv) (bundle srv) vars (tree_root w) signals sv0 sv' → sf_steps (holders (sv_shared sv0)) (holders (sv_shared sv'))) as Hstep.
  { intros sv0 sv' Hr0 Hs. destruct (process_reaches _ _ _ _ _ _ Hb Hr0) as (_ & _ & _ & Hwf).
    eapply server_holders; [exact Hs|exact Hwf|by eapply process_scheduler_inv]. }
  assert (rtc sf_step ∅ (holders (sv_shared sv))) as Hm.
  { revert Hr. apply (rtc_ind_r (λ sv, rtc sf_step ∅ (holders (sv_shared sv)))).
    - apply boot_ok in Hb as (_ & recorder & jobs & _ & _ & ->). cbn [app serving sv_shared sys].
      destruct (register_all_spec (spec <$> jobs) (mkShared ∅ ∅ [] recorder 0 ∅) [] (λ _, None)) as (s' & fresh & -> & Hrun & _).
      { intros k. apply lookup_empty. }
      unfold holders. cbn [fst]. by rewrite Hrun.
    - intros sv1 sv2 Hr1 Hs IH. destruct (Hstep sv1 sv2 Hr1 Hs) as [->|Hsf]; [done|]. by eapply rtc_r. }
  split_and!; [done|intros sv'; by apply Hstep|by apply sf_tokens|].
  intros k. apply one_owner. by eapply process_scheduler_inv.
Qed.

Lemma process_refines_single_flight_witness : ∃ sv : Server Recorder,
  is_Some (holders (sv_shared sv) !! sample_key) ∧ rtc sf_step ∅ (holders (sv_shared sv)) ∧ exists! i, owns sv sample_key i.
Proof.
  destruct sample_process as (srv & sv & Hb & Hr & Hk & _).
  destruct (@process_refines_single_flight Sample.libs SampleAxum.axum _ _ _ _ _ _ Hb Hr) as (Hm & _ & _ & Ho).
  assert (is_Some (holders (sv_shared sv) !! sample_key)) as Hh by (unfold holders; rewrite lookup_fmap; by apply fmap_is_Some).
  exists sv. exact (conj Hh (conj Hm (proj1 (Ho sample_key) Hh))).
Defined.
